(* ===== verification/_CoqProject ===== *)
-Q . S2P
Prelude.v
Heap.v
IdPool.v
Vector.v
DoublyLinked.v
LinkedList.v
MapInterface.v
HashMap.v
LazyHeap.v
Utils.v
CString.v
Exception.v
Config.v
TextFile.v
Ini.v
NameCodec.v
Protocol.v
Wire.v
Cache.v
Threads.v
Daemon.v
PacketLog.v
Resolver.v
Socket.v
Memory.v
WireHeap.v
CacheMemory.v
CacheHeap.v
CacheItems.v
ResolverHeap.v
Settings.v
IpTable.v
Session.v
SessionHeap.v
Server.v
ServerLoop.v
ServerHeap.v
ServerMemory.v
Startup.v
Program.v
