(* ===== verification/Prelude.v ===== *)
(** * DnsRelay: a verification library

    DnsRelay is a DNS forwarder written in C.  A client's query is answered from
    a cache of resource records, or relayed to one of several upstream servers
    under an id of the server's own; the response is cached and sent back under
    the id of the client.  This library models the program function by
    function, as executable definitions, and proves what each part promises.

    ** The parts of the program and the files that model them

    - [IdPool.v]: [src/dns/id_factory.c], the pool of 16-bit relay ids (the three
      static variables are the fields of [id_pool]);
    - [Vector.v], [LinkedList.v], [HashMap.v], [LazyHeap.v]: the containers of
      [src/infra/stl.c] and [include/infra/stl.h].  [DoublyLinked.v] has the
      theory of doubly linked segments the list and the cache share;
      [MapInterface.v] states what clients ask of a hash table ([MapOps] and
      [MapLaws]); [HashMap.v] discharges it for the key functions in use;
    - [Utils.v]: [src/infra/utils.c], byte order;
    - [CString.v]: strings of the C library, blocks that hold one;
    - [Exception.v]: [src/infra/exception.c], the error message of a thread;
    - [Config.v]: the registries, sections and values of
      [src/infra/config_center.c], each in its own store, and the operations of
      [config_center]; [TextFile.v]: [fgets] and the scanning of a line that both
      readers of files share; [Ini.v]: [config_load_file], the configuration file;
    - [NameCodec.v]: [encode_name] and [decode_name]; [Protocol.v]:
      [include/dns/protocol.h], cloning, the building of responses; [Wire.v]:
      serialization and parsing of packets; [PacketLog.v]:
      [packet_to_log_string]; [Resolver.v]: the checks of names, the local
      response, the caching of upstream responses: together
      [src/dns/dns_resolver.c];
    - [Memory.v]: the same packets and cached values as structures that point to
      one another in one heap, with their creation, cloning and release;
      [CacheMemory.v]: the entries of the cache in that heap; [CacheHeap.v]: the
      operations of the cache run there, links and keys included, which do what
      those of [Cache.v] do; [CacheItems.v]: that memory seen as a list of items;
      [WireHeap.v], [ResolverHeap.v], [SessionHeap.v], [ServerHeap.v]: the
      operations of [Wire.v], [Resolver.v], [Session.v] and [Server.v] run there
      too, with every allocation, copy and release the code makes;
      [ServerMemory.v]: the loop of the server in that memory;
      [Heap.v] is the logic it uses, a linear separation logic given to Iris's
      proof mode, with weakest preconditions for commands on a [Store];
    - [Cache.v]: the cache of [src/dns/dns_cache.c], over any
      [MapOps (list Z) loc], with the intrusive list of entries in a store;
      [Threads.v]: its calls as sequences of accesses under the mutex, made by
      threads whose steps interleave, among them the one of
      [src/server/daemons.c]; [Daemon.v]: what the server's thread sees of it;
      [IpTable.v]: [load_ip_table] and [dns_cache_init] of the same file;
    - [Socket.v]: [src/infra/sock_posix.c], with the kernel's answers as arguments;
    - [Settings.v]: the command line of [src/main.c], [src/infra/logger.c], and
      the parsers and settings of the server and of the resolver;
    - [Session.v]: [src/server/session_factory.c], over any [MapOps Z loc];
    - [Server.v]: [src/server/server.c], the handling of packets and timeouts and
      the event loop; its record [server] gathers the static variables of the
      modules it drives; [ServerLoop.v]: that loop run over well-formed traffic;
    - [Startup.v]: [main], [server_start] up to its loop, and the thread that
      prunes the cache ([daemon_turn] is one turn of its loop); [main] is also
      given as its two halves, [read_setup], what it does to the configuration,
      and [serve], the rest from the settings read on;
    - [Program.v]: the start followed by the loop, from the settings and the ip
      table to the datagrams sent.

    [main] of [Startup.v] composes them as the program does: the file of [Ini.v]
    fills the configuration center, the command line is injected over it, the
    logger, the cache and the resolver are initialised from it, [server_start]
    reads the settings of the server, binds the socket and builds the [server]
    record; from there [Server.server_loop] takes over, in [Program.program].  The
    configuration is where C promises nothing (see Idealisations), so the theorems
    on the program start at [Startup.serve], in [Program.run].

    ** Reading the definitions

    A definition carries the name of the C function and follows its order of
    tests and effects.  A loop is a fixpoint named after its function.  State is
    passed explicitly; a result of type [Res] is [Ret], [UB] (the C language
    gives the code no meaning: out of bounds, use after free, NULL) or
    [OutOfFuel].  A pointer to an object the program allocates one by one is a
    [loc] into a [Store], which never reuses an address, so a dangling pointer
    is never mistaken for a live one.  A block of memory is a list of bytes; an
    integer is an element of [Z], wrapped where the code's type wraps.

    ** What is proved

    Containers: each refines its mathematical counterpart (lists, sequences,
    finite maps, keyed priority queues) with the return codes of the code, with
    no access out of bounds or through a dangling pointer, and every loop ends.
    Protocol: names and byte order round trip; [pack_serialize] writes exactly
    the bytes of [Wire.pack_out], compression pointers included, and
    [pack_deserialize] reads the packet back.  Cache: [dns_cache_put], [_get],
    [_prune] refine a least-recently-used list of at most 1024 expiring items.
    Threads: however the accesses of the threads interleave, every call of the
    cache takes effect at one moment between its begin and its end, no two
    accesses race, the mutex is used as C demands, and a call under way can
    always be completed ([Threads.threads_linearize],
    [Threads.threads_complete]); and the server's thread is answered as if the
    pruning thread did not run while the cache has room ([Daemon.daemon_unseen]),
    as [Server.v] runs its calls.  Resolver: [pack_try_response_local] refines
    [Resolver.local_answer].  Sessions: a table keyed by relay id whose [session_peek] is the first to time out.
    Server: every packet keeps the invariant [Server.srv_rep], that the taken ids
    are exactly the ids of the open sessions; each query and response has the
    one effect it should; timeouts are swept in a bounded number of steps.
    Over any number of turns of well-formed traffic the loop is defined, unless
    it comes to a turn that is hard ([ServerLoop.hard]): one at whose sweep a
    query has spent its retries, or with 2^30 entries in the queue of timers: it
    gets through all turns before (retries + 1) timeouts have passed, if their
    [ServerLoop.load] is less.

    Configuration: on any platform the operations of the center refine a finite
    map from section and key to values, with the codes of the code; what a lookup
    of a parser or cleaner computes is left to the platform, since the registries
    keep keys that dangle ([Config.config_refines_settings],
    [Config.registered_key_dangles]).  A file written in the plain form is read
    back as the settings it spells; the addresses of the command line become the
    list of end points ([Settings.upstreams_from_command_line]); the message of a
    thread is the chain of the errors thrown.  Ip table: after [dns_cache_init] the cache
    answers every name of the file with the group of addresses written for it.
    Logging: the channels named by the settings are ready to be written, and
    the text of a packet is bounded by its length.  Start-up: from settings that
    pass [Startup.good_setup], the program reaches its loop in a state with the
    invariant [Server.srv_rep]; on any platform [main] is this start once it has
    read such settings ([Startup.main_serves]); a turn of the pruning thread
    keeps the invariant and changes no answer.

    Program: started so, it runs over such traffic; its first query is answered
    from the ip table, read off the lines of the file, to where it came from; a
    query the table cannot answer goes to an upstream server of the settings, its
    response back to the client, and the next client with the same question is
    answered with the records of that response ([Program.program_runs],
    [program_answers], [program_relays]).

    Memory: a clone of a packet shares nothing with the original, [pack_free]
    releases every object of a packet once, and a copy of a value or an entry of
    the cache that fails for want of memory gives back what it had taken.  The
    cache owns every object of its entries and no other: what it answers with is a
    copy, what it evicts, replaces, prunes or finds expired is released
    ([CacheItems.cache_owns_its_memory]).  The parser, the serializer, the
    resolver, the sessions and the server do there what they do on values
    ([WireHeap.wire_owns_its_memory], [ResolverHeap.resolver_owns_its_memory]),
    and over well-formed traffic, up to the first hard turn, the objects counted
    that the server holds between two turns are those of its open sessions and its
    cached items
    ([ServerMemory.server_owns_its_memory]).  The logic being linear, what is not
    given back shows: every clone loses two vectors, every datagram four at most.

    Where the code does not do what it means to, the failure is a theorem:
    the parser that does not terminate or reads past its datagram, the name
    search that compares past the cursor, the heap entry left dangling by
    [lazy_heap_pop] and the order lost to a marked element, the session left
    dangling when the retries are spent, the opcode cut in half, the unspecified
    address test that skips a byte, packets that drive the resolver out of
    bounds, responses without records that never leave the cache, the registry
    of parsers whose keys are local arrays, the blank line of a configuration
    file that is read past its end, the setting [usecache] that no spelling
    sets, the six vectors lost with every relayed query, the elements
    [lazy_heap_free] does not release, the newline written at
    [msg[-1]], the packet text that leaves its buffer.

    ** Fuel

    [Vector.grow_fuel] covers the doublings to 2^31.  [LinkedList.chain_fuel] and
    [Cache.walk_fuel] are the number of nodes in the store, [LazyHeap.sift_fuel]
    and [do_delete] the number of elements, [NameCodec.decode_fuel] the length
    of the name, and the walk over the parents of a name the length of its wire
    form; lemmas show each is enough.  [pack_deserialize] takes its fuel as an
    argument because it need not terminate; [pack_roundtrip] says how much is
    enough for packets the program wrote.  [batch_timeout] needs as much fuel as
    sessions have timed out.  A scan inside a buffer (blanks, tokens, [strchr],
    the trimming of a value) has one step more than the buffer has bytes, and the loops over a file ([Ini.v], [IpTable.v]) one
    step more than the file has, for every turn consumes a byte.

    ** Idealisations

    The element counts of the containers are not wrapped at the limit of [int]:
    theorems on growth assume fewer than 2^30 elements.  In the containers every
    [malloc] can be refused ([Allocator]); above them its result is used
    untested, and requests are granted.  Names, records and packets are values
    outside [Memory.v] and the files that build on it ([CacheMemory.v],
    [CacheHeap.v], [CacheItems.v], [WireHeap.v], [ResolverHeap.v],
    [SessionHeap.v], [ServerHeap.v], [ServerMemory.v]): who owns their memory is
    tracked in these.  Elsewhere a store holds the nodes of lists, the elements
    of heaps, the entries of the cache, the sessions, and the keys and values of
    the configuration center.  The nodes of a hash table and the copies of keys
    it holds are in [HashMap.v] alone; neither they nor the elements of a queue are
    among the objects [ServerMemory.v] counts.  NULL containers are not passed.  Within the models of the other components
    logging ([do_log]) and the recording of error messages ([ex_throw]) change
    nothing.  The host is little-endian and [char] is signed.  A call that reads
    the clock several times sees one value ([Threads.v] has the clock go on
    between its readings).  [inet_pton], the contents of files
    and the outcomes of system calls are arguments (classes where many
    definitions use them).  Two things the configuration code does have no
    meaning in C: it follows keys that are arrays of functions that have
    returned, and it stores pointers into variables of type [int].  The class
    [Config.Platform] says what comes of them: undefined behaviour ([strict]),
    or what a machine may do ([lenient]: the array reads as it was, the variable
    takes the low half of the pointer, and what lies next to it is left alone).
    The hypotheses [Config.StaleOk] and [Settings.WideOk] describe the second; they
    serve the lemmas that follow the settings through [main] on such a machine
    ([Startup.main_reaches_loop], [Settings.logger_channels_ready],
    [Settings.usecache_unreadable]) and nothing else.

    Signed overflow and shifts in the hash of a string wrap, as compilers make
    them; whether [malloc] refuses a request depends on its size alone; the lock
    of the cache is always granted in [Cache.v] ([Threads.v] has it waited for); a
    pointer past the end of the packet text is no fault by itself in
    [PacketLog.v], a write through it is.

    ** Not modelled

    [print_help], which nothing calls; [socket_release], which closes the socket
    and which nothing calls; the release of an address by
    [sock_config_free_netend] and of a value by [entry_free], one [free] each; the
    [thrd_sleep] of the pruning thread; the formatting of log lines; the system
    calls. *)

From Stdlib Require Export ZArith Lia.
From stdpp Require Export prelude gmap.

#[export] Set Default Proof Using "Type".
Declare Scope relay_scope.
Delimit Scope relay_scope with relay.
Open Scope Z_scope.
Open Scope relay_scope.

#[global] Arguments Z.to_nat : simpl never.
#[global] Arguments Z.of_nat : simpl never.

Create HintDb relay discriminated.

(** ** Outcomes of a C computation

    [Ret a]: the code returns [a].  [UB]: the code does something the C
    language gives no meaning to (a read or write outside a block, a use of a
    freed block, a null dereference).  [OutOfFuel]: the loop or recursion of
    the model was cut by its fuel. *)

Inductive Res (A : Type) : Type :=
| Ret (a : A)
| UB
| OutOfFuel.
Arguments Ret {A} a.
Arguments UB {A}.
Arguments OutOfFuel {A}.

#[export] Instance Res_ret : MRet Res := @Ret.
#[export] Instance Res_bind : MBind Res := λ A B f m,
  match m with
  | Ret a => f a
  | UB => UB
  | OutOfFuel => OutOfFuel
  end.

(** [assert c] is the check the C abstract machine makes implicitly. *)
Definition assert (c : bool) : Res unit := if c then Ret tt else UB.

(** A pointer that the C code dereferences without a test: [None] is NULL. *)
Definition nonnull {A} (p : option A) : Res A :=
  match p with Some a => Ret a | None => UB end.

Lemma bind_Ret {A B} (a : A) (f : A → Res B) : (Ret a ≫= f) = f a.
Proof. reflexivity. Qed.

Lemma bind_assoc {A B C} (m : Res A) (f : A → Res B) (g : B → Res C) :
  ((m ≫= f) ≫= g) = (m ≫= λ a, f a ≫= g).
Proof. by destruct m. Qed.

Lemma bind_Ret_inv {A B} (m : Res A) (f : A → Res B) b :
  (m ≫= f) = Ret b ↔ ∃ a, m = Ret a ∧ f a = Ret b.
Proof.
  split; [|by intros (a & -> & ?)].
  destruct m as [a| |]; [by exists a|done|done].
Qed.

(** [r'] gives whatever [r] gives. *)
Definition gives {A} (r r' : Res A) : Prop := ∀ a, r = Ret a → r' = Ret a.
Lemma gives_refl {A} (r : Res A) : gives r r.
Proof. by intros a. Qed.
Lemma gives_bind {A B} (m m' : Res A) (f f' : A → Res B) :
  gives m m' → (∀ a, gives (f a) (f' a)) → gives (m ≫= f) (m' ≫= f').
Proof. intros Hm Hf b (a & Ha & Hb)%bind_Ret_inv. apply bind_Ret_inv. exists a. split; [by apply Hm|by apply Hf]. Qed.
Create HintDb gives discriminated.
#[export] Hint Constants Opaque : gives.

Lemma nonnull_Some {A} (a : A) : nonnull (Some a) = Ret a.
Proof. reflexivity. Qed.

(** ** Machine integers

    Values of the C integer types are integers of [Z] in the range of the
    type; the wrapping conversions are written out. *)

Definition INT_MAX : Z := 2147483647.
Definition INT32_MIN : Z := -2147483648.
Definition UINT32_MAX : Z := 4294967295.

Definition wrap_u8 (z : Z) : Z := z mod 2 ^ 8.
Definition wrap_u16 (z : Z) : Z := z mod 2 ^ 16.
Definition wrap_u32 (z : Z) : Z := z mod 2 ^ 32.
Definition wrap_u64 (z : Z) : Z := z mod 2 ^ 64.
(** two's complement conversion to a signed 32-bit [int] *)
Definition wrap_i32 (z : Z) : Z := (z + 2 ^ 31) mod 2 ^ 32 - 2 ^ 31.
(** a [char] read through a signed [char*] *)
Definition schar (b : Z) : Z := if b <? 128 then b else b - 256.

Definition is_u8 (z : Z) : Prop := 0 ≤ z < 2 ^ 8.
Definition is_u16 (z : Z) : Prop := 0 ≤ z < 2 ^ 16.
Definition is_u32 (z : Z) : Prop := 0 ≤ z < 2 ^ 32.
Definition is_i32 (z : Z) : Prop := - 2 ^ 31 ≤ z < 2 ^ 31.

#[export] Instance is_u8_dec z : Decision (is_u8 z).
Proof. unfold is_u8; apply _. Defined.
#[export] Instance is_u16_dec z : Decision (is_u16 z).
Proof. unfold is_u16; apply _. Defined.
#[export] Instance is_u32_dec z : Decision (is_u32 z).
Proof. unfold is_u32; apply _. Defined.

Lemma wrap_u16_small z : is_u16 z → wrap_u16 z = z.
Proof. unfold is_u16, wrap_u16. intros. by apply Z.mod_small. Qed.

Lemma wrap_u16_range z : is_u16 (wrap_u16 z).
Proof. unfold is_u16, wrap_u16. by apply Z.mod_pos_bound. Qed.

Lemma wrap_i32_range z : is_i32 (wrap_i32 z).
Proof.
  unfold is_i32, wrap_i32.
  pose proof (Z.mod_pos_bound (z + 2 ^ 31) (2 ^ 32)). lia.
Qed.

Lemma wrap_i32_small z : is_i32 z → wrap_i32 z = z.
Proof. unfold is_i32, wrap_i32. intros. rewrite Z.mod_small; lia. Qed.

#[export] Hint Resolve wrap_u16_range wrap_i32_range : relay.

(** ** Heap objects of one type

    [malloc] always yields an address that was never used before, so a
    dangling pointer is never confused with a live one. *)

Abbreviation loc := positive.

Record Store (A : Type) := MkStore { cells : gmap loc A; brk : loc }.
Arguments MkStore {A} cells brk.
Arguments cells {A} s.
Arguments brk {A} s.

Section store.
Context {A : Type}.
Implicit Types (s : Store A) (l : loc) (a : A).

Definition empty_store : Store A := MkStore ∅ 1%positive.

Definition alloc (a : A) s : loc * Store A :=
  (brk s, MkStore (<[brk s := a]> (cells s)) (Pos.succ (brk s))).

Definition load s l : Res A := nonnull (cells s !! l).

Definition store s l a : Res (Store A) :=
  match cells s !! l with
  | Some _ => Ret (MkStore (<[l := a]> (cells s)) (brk s))
  | None => UB
  end.

Definition free s l : Res (Store A) :=
  match cells s !! l with
  | Some _ => Ret (MkStore (delete l (cells s)) (brk s))
  | None => UB
  end.

(** Every allocated address lies below the next fresh one. *)
Definition store_wf s : Prop :=
  ∀ l, is_Some (cells s !! l) → (l < brk s)%positive.

Lemma store_wf_empty : store_wf empty_store.
Proof. intros l [x Hx]. simpl in Hx. by rewrite lookup_empty in Hx. Qed.

Lemma store_wf_fresh s : store_wf s → cells s !! brk s = None.
Proof.
  intros Hwf. destruct (cells s !! brk s) eqn:E; [|done].
  assert (brk s < brk s)%positive by (apply Hwf; eauto). lia.
Qed.

Lemma store_wf_alloc s a : store_wf s → store_wf (alloc a s).2.
Proof.
  intros Hwf l. simpl. intros Hl.
  destruct (decide (l = brk s)) as [->|]; [lia|].
  rewrite lookup_insert_ne in Hl by done. specialize (Hwf l Hl). lia.
Qed.

Lemma store_wf_insert s l a :
  store_wf s → is_Some (cells s !! l) →
  store_wf (MkStore (<[l := a]> (cells s)) (brk s)).
Proof.
  intros Hwf Hl l'. simpl. intros Hl'.
  destruct (decide (l = l')) as [->|]; [by apply Hwf|].
  rewrite lookup_insert_ne in Hl' by done. by apply Hwf.
Qed.

Lemma store_wf_delete s l :
  store_wf s → store_wf (MkStore (delete l (cells s)) (brk s)).
Proof.
  intros Hwf l'. simpl. intros Hl'. apply Hwf.
  destruct (decide (l = l')) as [->|]; [by rewrite lookup_delete_eq in Hl'; destruct Hl'|].
  by rewrite lookup_delete_ne in Hl'.
Qed.

Lemma store_wf_check s :
  map_Forall (λ l _, (l < brk s)%positive) (cells s) → store_wf s.
Proof. intros Hall l [a Ha]. exact (Hall l a Ha). Qed.

Lemma load_Some s l a : cells s !! l = Some a → load s l = Ret a.
Proof. unfold load. by intros ->. Qed.

Lemma load_Ret s l a : load s l = Ret a → cells s !! l = Some a.
Proof. unfold load, nonnull. destruct (cells s !! l); congruence. Qed.

Lemma store_Some s l a a0 :
  cells s !! l = Some a0 →
  store s l a = Ret (MkStore (<[l := a]> (cells s)) (brk s)).
Proof. unfold store. by intros ->. Qed.

Lemma free_Some s l a0 :
  cells s !! l = Some a0 →
  free s l = Ret (MkStore (delete l (cells s)) (brk s)).
Proof. unfold free. by intros ->. Qed.

Lemma free_twice s s' l : free s l = Ret s' → load s' l = UB ∧ free s' l = UB.
Proof.
  unfold free, load. destruct (cells s !! l); [|done].
  intros [= <-]. simpl. by rewrite lookup_delete_eq.
Qed.
End store.

#[export] Hint Resolve store_wf_empty store_wf_alloc store_wf_insert store_wf_delete : relay.

(** ** Byte blocks: the accesses memcpy and memmove make *)

Section blocks.
Context {A : Type}.
Implicit Types (m xs : list A) (off n : Z).

Definition slice m off n : Res (list A) :=
  if (0 <=? off) && (0 <=? n) && (off + n <=? Z.of_nat (length m))
  then Ret (take (Z.to_nat n) (drop (Z.to_nat off) m)) else UB.

Definition blit m off xs : Res (list A) :=
  if (0 <=? off) && (off + Z.of_nat (length xs) <=? Z.of_nat (length m))
  then Ret (take (Z.to_nat off) m ++ xs ++ drop (Z.to_nat off + length xs) m)
  else UB.

Definition rd m off : Res A :=
  if 0 <=? off then nonnull (m !! Z.to_nat off) else UB.

(** array element [i] of a C array whose index the code has tested *)
Definition znth m (i : Z) : option A :=
  if 0 <=? i then m !! Z.to_nat i else None.

Lemma blit_length m off xs m' : blit m off xs = Ret m' → length m' = length m.
Proof.
  unfold blit. case_match eqn:E; [|done]. intros [= <-].
  rewrite !length_app, length_take, length_drop. lia.
Qed.

Lemma blit_Ret m off xs :
  0 ≤ off → off + Z.of_nat (length xs) ≤ Z.of_nat (length m) →
  blit m off xs = Ret (take (Z.to_nat off) m ++ xs ++ drop (Z.to_nat off + length xs) m).
Proof. intros. unfold blit. rewrite (proj2 (Z.leb_le _ _)), (proj2 (Z.leb_le _ _)); done. Qed.

Lemma blit_single m off x :
  0 ≤ off < Z.of_nat (length m) → blit m off [x] = Ret (<[Z.to_nat off := x]> m).
Proof.
  intros. rewrite blit_Ret by (simpl; lia). simpl.
  rewrite Nat.add_1_r, <- insert_take_drop by lia. done.
Qed.

Lemma slice_Ret m off n :
  0 ≤ off → 0 ≤ n → off + n ≤ Z.of_nat (length m) →
  slice m off n = Ret (take (Z.to_nat n) (drop (Z.to_nat off) m)).
Proof. intros. unfold slice. rewrite !(proj2 (Z.leb_le _ _)); done. Qed.

Lemma rd_Some m (i : nat) a : m !! i = Some a → rd m (Z.of_nat i) = Ret a.
Proof.
  intros H. unfold rd. rewrite (proj2 (Z.leb_le _ _)) by lia.
  by rewrite Nat2Z.id, H.
Qed.
End blocks.

(** ** Tactics of the development *)

(** Run the monadic code as far as its values are known. *)
Ltac res_step :=
  match goal with
  | |- context [Ret ?a ≫= ?f] => rewrite (bind_Ret a f)
  | H : context [Ret ?a ≫= ?f] |- _ => rewrite (bind_Ret a f) in H
  | H : _ ≫= _ = Ret _ |- _ => apply bind_Ret_inv in H; destruct H as (? & ? & ?)
  | H : Ret _ = Ret _ |- _ => injection H as H; subst
  | H : UB = Ret _ |- _ => discriminate H
  | H : OutOfFuel = Ret _ |- _ => discriminate H
  | H : mret _ = Ret _ |- _ => unfold mret, Res_ret in H
  end.
Ltac res_simp := repeat (res_step; simpl in *).

(** Close a decidable goal about closed terms by computation. *)
Ltac by_compute := refine (bool_decide_eq_true_1 _ _); vm_compute; reflexivity.

(** Two programs that differ in a call for which [gives] is known. *)
Ltac giving :=
  repeat first
    [solve [trivial with gives nocore]
    |lazymatch goal with |- gives (_ ≫= _) (_ ≫= _) => apply gives_bind; [|intros ?] end
    |lazymatch goal with |- gives ?r ?r => exact (gives_refl r) end
    |case_match].

(** Turn the boolean tests of the code into propositions. *)
Ltac bools :=
  repeat match goal with
  | H : (_ && _)%bool = true |- _ => apply andb_prop in H; destruct H
  | H : (_ || _)%bool = false |- _ => apply orb_false_elim in H; destruct H
  | H : negb _ = true |- _ => apply negb_true_iff in H
  | H : negb _ = false |- _ => apply negb_false_iff in H
  | H : (_ <? _) = true |- _ => apply Z.ltb_lt in H
  | H : (_ <? _) = false |- _ => apply Z.ltb_ge in H
  | H : (_ <=? _) = true |- _ => apply Z.leb_le in H
  | H : (_ <=? _) = false |- _ => apply Z.leb_gt in H
  | H : (_ =? _) = true |- _ => apply Z.eqb_eq in H
  | H : (_ =? _) = false |- _ => apply Z.eqb_neq in H
  | H : (_ >? _) = _ |- _ => rewrite Z.gtb_ltb in H
  | H : (_ >=? _) = _ |- _ => rewrite Z.geb_leb in H
  end.

(** ** The platform

    What the code asks of the C library and may be refused: [malloc_ok n] says
    whether a request for [n] bytes is granted. *)
Class Allocator := malloc_ok : Z → bool.
Class AllocTotal `{Allocator} : Prop := malloc_total : ∀ n, malloc_ok n = true.
#[global] Typeclasses Opaque malloc_ok.

(** The platform on which every allocation succeeds, used by the witnesses. *)
Definition always : Allocator := λ _, true.
Lemma always_total : @AllocTotal always.
Proof. by intros n. Qed.
