(* ===== verification/Heap.v ===== *)
(** * A linear logic of memory

    [hprop A] are the assertions on heaps that hold objects of type [A], an
    instance of the logics of Iris's proof mode.  The logic is linear: an
    assertion describes every object of its heap, so that a leak cannot be
    hidden.  [wp m Φ]: the command [m], run where the assertion holds and
    whatever else there is in memory, returns a result that satisfies [Φ] and
    leaves the rest of the memory as it was. *)

From iris.bi Require Import bi.
From iris.proofmode Require Import proofmode.
From S2P Require Import Prelude.

(** ** Assertions *)

Record hprop (A : Type) := HProp { holds : gmap loc A → Prop }.
Arguments HProp {A} holds.
Arguments holds {A} P h : rename.
Add Printing Constructor hprop.

Section assertions.
Context {A : Type}.
Implicit Types (P Q R : hprop A) (h : gmap loc A).

#[local] Instance hprop_equiv : Equiv (hprop A) := λ P Q, ∀ h, holds P h ↔ holds Q h.
#[local] Instance hprop_equivalence : Equivalence (≡@{hprop A}).
Proof.
  split; [intros P h; done|intros P Q E h; by rw (E h)|].
  intros P Q R E1 E2 h. by rw (E1 h).
Qed.
Canonical Structure hpropO := discreteO (hprop A).

Record entails P Q : Prop := Entails { entails_at h : holds P h → holds Q h }.
Definition nothing : hprop A := HProp (λ h, h = ∅).
Definition pure (φ : Prop) : hprop A := HProp (λ _, φ).
Definition both P Q : hprop A := HProp (λ h, holds P h ∧ holds Q h).
Definition either P Q : hprop A := HProp (λ h, holds P h ∨ holds Q h).
Definition implies P Q : hprop A := HProp (λ h, holds P h → holds Q h).
Definition every {I : Type} (Ψ : I → hprop A) : hprop A := HProp (λ h, ∀ i, holds (Ψ i) h).
Definition some {I : Type} (Ψ : I → hprop A) : hprop A := HProp (λ h, ∃ i, holds (Ψ i) h).
Definition sep P Q : hprop A :=
  HProp (λ h, ∃ h1 h2, h = h1 ∪ h2 ∧ h1 ##ₘ h2 ∧ holds P h1 ∧ holds Q h2).
Definition wand P Q : hprop A :=
  HProp (λ h, ∀ h', h ##ₘ h' → holds P h' → holds Q (h ∪ h')).
Definition persistently P : hprop A := pure (entails nothing P).
Definition later P : hprop A := P.

Lemma sep_swap P Q : entails (sep P Q) (sep Q P).
Proof.
  split=> h. intros (h1 & h2 & -> & Hd & HP & HQ). exists h2, h1.
  split_and!; [by rw map_union_comm|done..].
Qed.

Lemma sep_shift P Q R : entails (sep (sep P Q) R) (sep P (sep Q R)).
Proof.
  split=> h. intros (h12 & h3 & -> & Hd & (h1 & h2 & -> & Hd' & HP & HQ) & HR).
  apply map_disjoint_union_l in Hd as [Hd1 Hd2].
  exists h1, (h2 ∪ h3). split_and!; [by rw (assoc_L (∪))|by apply map_disjoint_union_r|done|].
  by exists h2, h3.
Qed.

Lemma hprop_bi_mixin :
  BiMixin entails nothing pure both either implies (@every) (@some) sep wand.
Proof.
  split; try (by intros; repeat match goal with E : entails _ _ |- _ => destruct E end;
    split; simpl in *; naive_solver);
    try (by intros n ?? E ?? E' h; simpl; rw (E h) (E' h)).
  - split; [by split|]. intros P Q R E E'. split=> h HP. by apply E', E.
  - intros P Q. split; [intros E; split; split=> h; apply E|].
    intros [E E'] h. split; [apply E|apply E'].
  - intros I n Φ Ψ E h. simpl. split; intros HI i; by apply (E i h), HI.
  - intros I n Φ Ψ E h. simpl. split; intros [i HI]; exists i; by apply (E i h).
  - intros n P P' E Q Q' E' h. simpl.
    split; intros (h1 & h2 & ? & ? & ? & ?); exists h1, h2; split_and!; try done;
      by (apply (E h1) || apply (E' h2)).
  - intros n P P' E Q Q' E' h. simpl.
    split; intros Hw h' Hd HP; apply (E' (h ∪ h')), (Hw h' Hd), (E h'), HP.
  - intros φ P E. split=> h Hφ. by apply (E Hφ).
  - intros P. split=> h HP. exists ∅, h. split_and!; [by rw left_id_L|apply map_disjoint_empty_l|done..].
  - intros P. split=> h. intros (h1 & h2 & -> & _ & -> & HP). by rw left_id_L.
  - apply sep_swap.
  - apply sep_shift.
Qed.

Lemma hprop_persistently_mixin :
  BiPersistentlyMixin entails nothing both (@some) sep persistently.
Proof.
  eapply bi_persistently_mixin_discrete, hprop_bi_mixin; [done| |done].
  intros I Φ HΦ. destruct (entails_at _ _ HΦ ∅ eq_refl) as [i Hi].
  exists i. by split=> h ->.
Qed.

Lemma hprop_later_mixin :
  BiLaterMixin entails pure either implies (@every) (@some) sep persistently later.
Proof. by eapply bi_later_mixin_id, hprop_bi_mixin. Qed.

Canonical Structure hpropI : bi :=
  {| bi_ofe_mixin := ofe_mixin_of (hprop A);
     bi_bi_mixin := hprop_bi_mixin;
     bi_bi_persistently_mixin := hprop_persistently_mixin;
     bi_bi_later_mixin := hprop_later_mixin |}.

(** The heap with the one object [a] at [l]. *)
Definition pt (l : loc) (a : A) : hpropI := HProp (λ h, h = {[l := a]}).

End assertions.
Arguments hpropI A : clear implicits.
Notation "l ↦ a" := (pt l a) (at level 20) : bi_scope.

(** ** Commands on a heap *)

Definition Cmd (A T : Type) : Type := Store A → Res (T * Store A).

#[export] Instance Cmd_ret {A} : MRet (Cmd A) := λ T a s, Ret (a, s).
#[export] Instance Cmd_bind {A} : MBind (Cmd A) := λ T U f m s,
  match m s with
  | Ret (a, s') => f a s'
  | UB => UB
  | OutOfFuel => OutOfFuel
  end.
#[global] Typeclasses Opaque Cmd.

Section commands.
Context {A : Type}.

(** A computation that does not touch the heap. *)
Definition lift {T} (r : Res T) : Cmd A T := λ s,
  match r with Ret a => Ret (a, s) | UB => UB | OutOfFuel => OutOfFuel end.
Definition new (a : A) : Cmd A loc := λ s, Ret (alloc a s).
Definition get (l : loc) : Cmd A A := λ s,
  match load s l with Ret a => Ret (a, s) | _ => UB end.
Definition set (l : loc) (a : A) : Cmd A unit := λ s,
  match store s l a with Ret s' => Ret (tt, s') | _ => UB end.
Definition release (l : loc) : Cmd A unit := λ s,
  match free s l with Ret s' => Ret (tt, s') | _ => UB end.

(** A computation that reads the heap, wherever its pointers lead. *)
Definition inspect {T} (f : Store A → Res T) : Cmd A T := λ s,
  match f s with Ret a => Ret (a, s) | UB => UB | OutOfFuel => OutOfFuel end.

(** ** Weakest preconditions *)

Definition wp_def {T} (m : Cmd A T) (Φ : T → hpropI A) : hpropI A := HProp (λ h,
  ∀ s rest, store_wf s → cells s = h ∪ rest → h ##ₘ rest →
    ∃ a s' h', m s = Ret (a, s') ∧ store_wf s' ∧ (brk s ≤ brk s')%positive ∧
      cells s' = h' ∪ rest ∧ h' ##ₘ rest ∧ holds (Φ a) h').
Definition wp_aux : seal (@wp_def). Proof. by eexists. Qed.
Definition wp := wp_aux.(unseal).
Lemma wp_unseal : @wp = @wp_def.
Proof. apply wp_aux.(seal_eq). Qed.
Arguments wp {T} m Φ%_I.

Lemma wp_ret {T} (a : T) Φ : Φ a ⊢ wp (mret a) Φ.
Proof. rw wp_unseal. split=> h; intros HΦ s rest ???. by exists a, s, h. Qed.

Lemma wp_bind {T U} (m : Cmd A T) (f : T → Cmd A U) Φ :
  wp m (λ a, wp (f a) Φ) ⊢ wp (m ≫= f) Φ.
Proof.
  rw wp_unseal. split=> h; intros Hm s rest Hwf Hs Hd.
  destruct (Hm s rest Hwf Hs Hd) as (a & s1 & h1 & E & Hwf1 & Hb1 & Hs1 & Hd1 & Hf).
  destruct (Hf s1 rest Hwf1 Hs1 Hd1) as (b & s2 & h2 & E2 & ? & Hb2 & ? & ? & ?).
  exists b, s2, h2. split_and!; [|done| |done..]; [|lia]. unfold mbind, Cmd_bind. by rw E.
Qed.

(** The frame rule and the rule of consequence in one. *)
Lemma wp_wand {T} (m : Cmd A T) Φ Ψ : wp m Φ -∗ (∀ a, Φ a -∗ Ψ a) -∗ wp m Ψ.
Proof.
  apply bi.entails_wand, bi.wand_intro_r. rw wp_unseal. split=> h; intros (h1 & h2 & -> & Hd12 & Hm & Hw) s rest Hwf Hs Hd.
  apply map_disjoint_union_l in Hd as [Hd1 Hd2].
  destruct (Hm s (h2 ∪ rest)) as (a & s' & h' & E & Hwf' & Hb' & Hs' & Hd' & HΦ);
    [done|by rw (assoc_L (∪))|by apply map_disjoint_union_r|].
  apply map_disjoint_union_r in Hd' as [Hd'2 Hd'].
  exists a, s', (h' ∪ h2). split_and!; [done..|by rw -(assoc_L (∪))| |].
  - by apply map_disjoint_union_l.
  - rw map_union_comm; [|done]. by apply (Hw a).
Qed.

Lemma wp_lift {T} (r : Res T) a Φ : r = Ret a → Φ a ⊢ wp (lift r) Φ.
Proof. intros ->. apply wp_ret. Qed.

Lemma alloc_split s h rest (a : A) :
  store_wf s → cells s = h ∪ rest → h ##ₘ rest →
  h ##ₘ {[brk s := a]} ∧ cells (alloc a s).2 = (h ∪ {[brk s := a]}) ∪ rest ∧
  (h ∪ {[brk s := a]}) ##ₘ rest.
Proof.
  intros Hwf Hs Hd. assert (Hn : cells s !! brk s = None) by by apply store_wf_fresh.
  rw Hs in Hn. apply lookup_union_None in Hn as [Hn1 Hn2].
  assert (Hd' : h ##ₘ {[brk s := a]}) by by apply map_disjoint_singleton_r.
  split_and!; [done| |by apply map_disjoint_union_l; split; [|apply map_disjoint_singleton_l]].
  simpl. rw Hs (map_union_comm h {[brk s := a]}) //. by rw -(assoc_L (∪)) -insert_union_singleton_l.
Qed.

Lemma wp_new a Φ : (∀ l, l ↦ a -∗ Φ l) ⊢ wp (new a) Φ.
Proof.
  rw wp_unseal. split=> h; intros HΦ s rest Hwf Hs Hd. destruct (alloc_split s h rest a) as (Hd' & ? & ?); [done..|].
  exists (brk s), (alloc a s).2, (h ∪ {[brk s := a]}). split_and!; [done|by apply store_wf_alloc|cbn; lia|done..|].
  by apply (HΦ (brk s)).
Qed.

(** Every access to [l] finds the object the assertion gives it. *)
Lemma pt_lookup l a (h rest : gmap loc A) s :
  cells s = ({[l := a]} ∪ h) ∪ rest → cells s !! l = Some a.
Proof. intros ->. by rw -(assoc_L (∪)) -insert_union_singleton_l lookup_insert_eq. Qed.

Lemma wp_get l a Φ : l ↦ a -∗ (l ↦ a -∗ Φ a) -∗ wp (get l) Φ.
Proof.
  apply bi.entails_wand, bi.wand_intro_r. rw wp_unseal. split=> h; intros (h1 & h2 & -> & Hd12 & -> & Hw) s rest Hwf Hs Hd.
  exists a, s, (h2 ∪ {[l := a]}). split_and!; [|done|done| | |].
  - unfold get. by rw (load_Some _ _ a (pt_lookup _ _ _ _ _ Hs)).
  - by rw (map_union_comm h2).
  - by rw (map_union_comm h2).
  - by apply Hw.
Qed.

Lemma wp_set l a b Φ : l ↦ a -∗ (l ↦ b -∗ Φ tt) -∗ wp (set l b) Φ.
Proof.
  apply bi.entails_wand, bi.wand_intro_r. rw wp_unseal. split=> h; intros (h1 & h2 & -> & Hd12 & -> & Hw) s rest Hwf Hs Hd.
  pose proof (pt_lookup _ _ _ _ _ Hs) as Hl.
  apply map_disjoint_union_l in Hd as [Hd1 Hd2].
  rw map_disjoint_singleton_l in Hd12. rw map_disjoint_singleton_l in Hd1.
  assert (Hd12' : h2 ##ₘ {[l := b]}) by by apply map_disjoint_singleton_r.
  exists tt, (MkStore (<[l := b]> (cells s)) (brk s)), (h2 ∪ {[l := b]}). split_and!.
  - unfold set. by rw (store_Some _ _ b a Hl).
  - apply store_wf_insert; [done|by eexists].
  - done.
  - simpl. rw Hs (map_union_comm h2) // -!(assoc_L (∪)) -!insert_union_singleton_l.
    by rw insert_insert_eq.
  - apply map_disjoint_union_l. split; [done|by apply map_disjoint_singleton_l].
  - by apply Hw.
Qed.

Lemma wp_release l a Φ : l ↦ a -∗ Φ tt -∗ wp (release l) Φ.
Proof.
  apply bi.entails_wand, bi.wand_intro_r. rw wp_unseal. split=> h; intros (h1 & h2 & -> & Hd12 & -> & HΦ) s rest Hwf Hs Hd.
  pose proof (pt_lookup _ _ _ _ _ Hs) as Hl.
  apply map_disjoint_union_l in Hd as [Hd1 Hd2].
  rw map_disjoint_singleton_l in Hd12. rw map_disjoint_singleton_l in Hd1.
  exists tt, (MkStore (delete l (cells s)) (brk s)), h2. split_and!; [|by apply store_wf_delete|done| |done..].
  - unfold release. by rw (free_Some _ _ a Hl).
  - simpl. rw Hs -!(assoc_L (∪)) -!insert_union_singleton_l.
    rw delete_insert_id //. by apply lookup_union_None.
Qed.

Lemma wp_mono {T} (m : Cmd A T) Φ Ψ : (∀ a, Φ a ⊢ Ψ a) → wp m Φ ⊢ wp m Ψ.
Proof. intros HΦ. iIntros "Hm". iApply (wp_wand with "Hm"). iIntros (a). iApply HΦ. Qed.

(** ** New objects are above the old ones

    Addresses are never given twice.  [wp_over n m Φ]: run where no address
    below [n] is free any more, [m] satisfies [wp m Φ]. *)

Definition wp_over_def {T} (n : loc) (m : Cmd A T) (Φ : T → hpropI A) : hpropI A := HProp (λ h,
  ∀ s rest, store_wf s → (n ≤ brk s)%positive → cells s = h ∪ rest → h ##ₘ rest →
    ∃ a s' h', m s = Ret (a, s') ∧ store_wf s' ∧ (brk s ≤ brk s')%positive ∧
      cells s' = h' ∪ rest ∧ h' ##ₘ rest ∧ holds (Φ a) h').
Definition wp_over_aux : seal (@wp_over_def). Proof. by eexists. Qed.
Definition wp_over := wp_over_aux.(unseal).
Lemma wp_over_unseal : @wp_over = @wp_over_def.
Proof. apply wp_over_aux.(seal_eq). Qed.
Arguments wp_over {T} n m Φ%_I.

Lemma wp_over_wp {T} n (m : Cmd A T) Φ : wp m Φ ⊢ wp_over n m Φ.
Proof. rw wp_over_unseal wp_unseal. split=> h Hm s rest ????. by apply Hm. Qed.

(** [n] can be any address that is not above those of the objects of [P]. *)
Lemma wp_over_start {T} P n (m : Cmd A T) Φ :
  (∀ h l, holds P h → (∀ l', is_Some (h !! l') → (l' < l)%positive) → (n ≤ l)%positive) →
  P -∗ (P -∗ wp_over n m Φ) -∗ wp m Φ.
Proof.
  intros Hn. apply bi.entails_wand, bi.wand_intro_r. rw wp_over_unseal wp_unseal.
  split=> h; intros (h1 & h2 & -> & Hd12 & HP & Hw) s rest Hwf Hs Hd.
  rw (map_union_comm h1 h2) // in Hs Hd |- *. apply (Hw h1); [done..| |done|done].
  apply (Hn h1); [done|]. intros l' Hl'. apply Hwf. rw Hs. apply lookup_union_is_Some. left.
  apply lookup_union_is_Some. by right.
Qed.

Lemma wp_over_bind {T U} n (m : Cmd A T) (f : T → Cmd A U) Φ :
  wp m (λ a, wp_over n (f a) Φ) ⊢ wp_over n (m ≫= f) Φ.
Proof.
  rw wp_over_unseal wp_unseal. split=> h; intros Hm s rest Hwf Hb Hs Hd.
  destruct (Hm s rest Hwf Hs Hd) as (a & s1 & h1 & E & Hwf1 & Hb1 & Hs1 & Hd1 & Hf).
  destruct (Hf s1 rest Hwf1) as (b & s2 & h2 & E2 & ? & Hb2 & ? & ? & ?); [lia|done..|].
  exists b, s2, h2. split_and!; [|done| |done..]; [|lia]. unfold mbind, Cmd_bind. by rw E.
Qed.

Lemma wp_over_bind_first {T U} n (m : Cmd A T) (f : T → Cmd A U) Φ :
  wp_over n m (λ a, wp (f a) Φ) ⊢ wp_over n (m ≫= f) Φ.
Proof.
  rw wp_over_unseal wp_unseal. split=> h; intros Hm s rest Hwf Hb Hs Hd.
  destruct (Hm s rest Hwf Hb Hs Hd) as (a & s1 & h1 & E & Hwf1 & Hb1 & Hs1 & Hd1 & Hf).
  destruct (Hf s1 rest Hwf1 Hs1 Hd1) as (b & s2 & h2 & E2 & ? & Hb2 & ? & ? & ?).
  exists b, s2, h2. split_and!; [|done| |done..]; [|lia]. unfold mbind, Cmd_bind. by rw E.
Qed.

Lemma wp_over_new n a Φ : (∀ l, <affine> ⌜(n ≤ l)%positive⌝ -∗ l ↦ a -∗ Φ l) ⊢ wp_over n (new a) Φ.
Proof.
  rw wp_over_unseal. split=> h; intros HΦ s rest Hwf Hb Hs Hd.
  destruct (alloc_split s h rest a) as (Hd' & ? & ?); [done..|].
  exists (brk s), (alloc a s).2, (h ∪ {[brk s := a]}). split_and!; [done|by apply store_wf_alloc|cbn; lia|done..|].
  pose proof (HΦ (brk s) ∅ (map_disjoint_empty_r _) (conj eq_refl Hb)) as Hw.
  rw right_id_L in Hw. by apply Hw.
Qed.

Lemma top_address {B} (m : gmap loc B) :
  ∃ n, (∀ l, is_Some (m !! l) → (l < n)%positive) ∧
    ∀ l, (∀ l', is_Some (m !! l') → (l' < l)%positive) → (n ≤ l)%positive.
Proof.
  induction m as [|i x m Hi (n & Hn & Hmin)] using map_ind.
  - exists 1%positive. split; [intros l [y Hy]; by rw lookup_empty in Hy|intros; lia].
  - exists (Pos.max n (Pos.succ i)). split.
    + intros l. destruct (decide (i = l)) as [->|Hne]; [lia|]. rw lookup_insert_ne //. intros Hl%Hn. lia.
    + intros l Hl. assert (i < l)%positive by (apply Hl; rw lookup_insert_eq; by eexists).
      enough (n ≤ l)%positive by lia. apply Hmin. intros l' Hl'. apply Hl.
      destruct (decide (i = l')) as [->|]; [by rw lookup_insert_eq|by rw lookup_insert_ne].
Qed.

(** An address above all those of a map whose objects [P] has. *)
Lemma wp_over_map {B T} (m : gmap loc B) P (c : Cmd A T) :
  (∀ h l, holds P h → is_Some (m !! l) → is_Some (h !! l)) →
  ∃ n, (∀ l, is_Some (m !! l) → (l < n)%positive) ∧ ∀ Φ, P -∗ (P -∗ wp_over n c Φ) -∗ wp c Φ.
Proof.
  intros Hm. destruct (top_address m) as (n & Hn & Hmin). exists n. split; [done|]. intros Φ.
  apply wp_over_start. intros h l Hh Hl. apply Hmin. intros l' Hl'. apply Hl. by apply Hm.
Qed.

(** The heaps of [P] have the object at [l], when [P] gives access to it. *)
Lemma holds_has {T} P (Φ : T → hpropI A) (f : T → A) l h :
  (P ⊢ ∃ x, l ↦ f x ∗ Φ x) → holds P h → is_Some (h !! l).
Proof.
  intros HP Hh. destruct (entails_at _ _ HP h Hh) as (x & h1 & h2 & -> & Hd & -> & _).
  exists (f x). apply lookup_union_Some_l, lookup_singleton_eq.
Qed.

(** The objects of the memory are those of [rest] and what [P] describes. *)
Definition owns (s : Store A) (P : hpropI A) (rest : gmap loc A) : Prop :=
  store_wf s ∧ ∃ h, cells s = h ∪ rest ∧ h ##ₘ rest ∧ holds P h.

Lemma owns_lookup s l a P rest : owns s (l ↦ a ∗ P) rest → cells s !! l = Some a.
Proof.
  intros (_ & h & Hs & _ & h1 & h2 & -> & _ & -> & _). by eapply pt_lookup.
Qed.

Lemma wp_inspect {T} (f : Store A → Res T) P a Φ :
  (∀ s rest, owns s P rest → f s = Ret a) → P -∗ (P -∗ Φ a) -∗ wp (inspect f) Φ.
Proof.
  iIntros (Hf) "HP HΦ". iAssert (wp (inspect f) (λ b, <affine> ⌜b = a⌝ ∗ P)%I) with "[HP]" as "Hw".
  { iStopProof. rw wp_unseal. split=> h HP s rest Hwf Hs Hd. exists a, s, h. unfold inspect.
    rw (Hf s rest); [|by split; [|exists h]]. split_and!; [done..|lia|done|done|].
    exists ∅, h. rw left_id_L. split_and!; [done|by apply map_disjoint_empty_l|done|done]. }
  iApply (wp_wand with "Hw"). iIntros (b) "[-> HP]". by iApply "HΦ".
Qed.

(** What a specification says of a run. *)
Lemma wp_run {T} (m : Cmd A T) P Φ s rest :
  (P ⊢ wp m Φ) → owns s P rest → ∃ a s', m s = Ret (a, s') ∧ owns s' (Φ a) rest.
Proof.
  rw wp_unseal. intros HP (Hwf & h & Hs & Hd & Hh).
  destruct (entails_at _ _ HP h Hh s rest Hwf Hs Hd) as (a & s' & h' & ? & ? & _ & ? & ? & ?).
  exists a, s'. split; [done|]. split; [done|]. by exists h'.
Qed.

(** What a command does to the objects it is given, wherever they are and
    whatever else there is in memory. *)
Definition takes_to {T} (m : Cmd A T) (P : hpropI A) (Φ : T → hpropI A) : Prop :=
  ∀ s rest, owns s P rest → ∃ a s', m s = Ret (a, s') ∧ owns s' (Φ a) rest.

Lemma takes_to_wp {T} (m : Cmd A T) P Φ : (P ⊢ wp m Φ) → takes_to m P Φ.
Proof. intros Hm s rest Hs. by eapply wp_run. Qed.

Lemma owns_exist {T} s (Φ : T → hpropI A) rest :
  owns s (∃ x, Φ x) rest → ∃ x, owns s (Φ x) rest.
Proof. intros (Hwf & h & Hs & Hd & x & Hx). exists x. split; [done|]. by exists h. Qed.

Lemma owns_pure s φ P rest : owns s (<affine> ⌜φ⌝ ∗ P) rest → φ ∧ owns s P rest.
Proof.
  intros (Hwf & h & Hs & Hd & h1 & h2 & -> & _ & [-> Hφ] & HP). split; [done|].
  split; [done|]. exists h2. rw left_id_L in Hs. by rw left_id_L in Hd.
Qed.

Lemma owns_mono s P Q rest : (P ⊢ Q) → owns s P rest → owns s Q rest.
Proof.
  intros HPQ (Hwf & h & Hs & Hd & Hh). split; [done|]. exists h. split_and!; [done..|].
  by apply (entails_at _ _ HPQ).
Qed.

(** The pieces of a heap that satisfies a separating conjunction. *)
Lemma holds_sep (P Q : hpropI A) h :
  holds (P ∗ Q)%I h ↔ ∃ h1 h2, h = h1 ∪ h2 ∧ h1 ##ₘ h2 ∧ holds P h1 ∧ holds Q h2.
Proof. done. Qed.

Lemma holds_pt l a (P : hpropI A) h :
  h !! l = None → holds P h → holds (l ↦ a ∗ P)%I (<[l := a]> h).
Proof.
  intros Hl HP. exists {[l := a]}, h.
  split_and!; [apply insert_union_singleton_l|by apply map_disjoint_singleton_l|done|done].
Qed.
End commands.
#[global] Arguments wp {A T} m Φ%_I.
#[global] Arguments wp_over {A T} n m Φ%_I.
#[global] Arguments takes_to {A T} m P%_I Φ%_I.

(** Two objects have two addresses. *)
Lemma pt_ne {A} l l' (a b : A) : l ↦ a ∗ l' ↦ b ⊢ <affine> ⌜l ≠ l'⌝ ∗ l ↦ a ∗ l' ↦ b.
Proof.
  split=> h Hh. exists ∅, h. split_and!; [by rw left_id_L|apply map_disjoint_empty_l| |done].
  split; [done|]. destruct Hh as (h1 & h2 & -> & Hd & -> & ->). intros ->.
  by apply map_disjoint_singleton_l in Hd; rw lookup_singleton_eq in Hd.
Qed.

(** A map of objects, by a list of its addresses. *)
Lemma big_sepM_listed {A B} (Ψ : loc → B → hpropI A) (m : gmap loc B) ls :
  NoDup ls → dom m = list_to_set ls →
  ([∗ map] l ↦ x ∈ m, Ψ l x) ⊢ [∗ list] l ∈ ls, ∃ x, <affine> ⌜m !! l = Some x⌝ ∗ Ψ l x.
Proof.
  intros Hnd. revert m. induction Hnd as [|l ls Hl Hnd IH]; intros m Hm.
  - apply dom_empty_inv_L in Hm as ->. by rw big_sepM_empty.
  - assert (is_Some (m !! l)) as [x Hx] by (apply elem_of_dom; rw Hm; set_solver).
    iIntros "Hm". iDestruct (big_sepM_delete with "Hm") as "[Hx Hm]"; [exact Hx|].
    iSplitL "Hx"; [iExists x; by iFrame|]. iDestruct (IH with "Hm") as "Hm".
    { rw dom_delete_L Hm. apply set_eq. intros l'. rw elem_of_difference elem_of_singleton /=.
      rw !elem_of_union !elem_of_list_to_set elem_of_singleton. naive_solver. }
    iApply (big_sepL_mono with "Hm"). iIntros (k l' _) "(%y & %Hy & Hy)". iExists y. iFrame.
    iPureIntro. by apply lookup_delete_Some in Hy as [_ Hy].
Qed.

(** ** Counting objects

    [Weighs P n]: every heap that satisfies [P] has [n] objects. *)
Class Weighs {A} (P : hpropI A) (n : nat) : Prop := weighs h : holds P h → size h = n.

Section weights.
Context {A : Type}.
Implicit Types (P Q : hpropI A).

#[export] Instance weighs_pt l (a : A) : Weighs (l ↦ a) 1.
Proof. intros h ->. apply map_size_singleton. Qed.
#[export] Instance weighs_emp : Weighs (emp : hpropI A) 0.
Proof. intros h ->. apply map_size_empty. Qed.
#[export] Instance weighs_pure φ : Weighs (<affine> ⌜φ⌝ : hpropI A) 0.
Proof. intros h [-> _]. apply map_size_empty. Qed.
#[export] Instance weighs_sep P Q n m : Weighs P n → Weighs Q m → Weighs (P ∗ Q) (n + m).
Proof.
  intros HP HQ h (h1 & h2 & -> & Hd & H1 & H2).
  by rw map_size_disj_union // (HP _ H1) (HQ _ H2).
Qed.
#[export] Instance weighs_exist {T} (Φ : T → hpropI A) n :
  (∀ x, Weighs (Φ x) n) → Weighs (∃ x, Φ x) n.
Proof. intros HΦ h [x Hx]. exact (HΦ x h Hx). Qed.
#[export] Instance weighs_list {B C} (Φ : B → C → hpropI A) n ls xs :
  (∀ l x, Weighs (Φ l x) n) → Weighs ([∗ list] l;x ∈ ls;xs, Φ l x) (length xs * n).
Proof.
  intros HΦ. revert ls. induction xs as [|x xs IH]; intros [|l ls] h; [|done|done|].
  - intros ->. apply map_size_empty.
  - apply (weighs_sep _ _ n (length xs * n) (HΦ l x) (IH ls)).
Qed.

Lemma weighs_sum {B} (Φ : B → hpropI A) (f : B → nat) xs :
  (∀ x, Weighs (Φ x) (f x)) → Weighs ([∗ list] x ∈ xs, Φ x) (sum_list_with f xs).
Proof.
  intros HΦ. induction xs as [|x xs IH]; [apply weighs_emp|]. exact (weighs_sep _ _ _ _ (HΦ x) IH).
Qed.

Lemma owns_size s P rest n : Weighs P n → owns s P rest → size (cells s) = (n + size rest)%nat.
Proof. intros HP (_ & h & -> & Hd & Hh). by rw map_size_disj_union // (HP h Hh). Qed.

Lemma weighs_mono P Q n : (P ⊢ Q) → Weighs Q n → Weighs P n.
Proof. intros HPQ HQ h Hh. by apply HQ, (entails_at _ _ HPQ). Qed.

Lemma weighs_eq P n m : Weighs P n → n = m → Weighs P m.
Proof. by intros ? ->. Qed.
End weights.

(** Weigh a definition by what it unfolds to. *)
Tactic Notation "weigh" reference(d) :=
  unfold d; eapply weighs_eq; [apply _|cbn; lia].

(** Run the first command of the goal by a rule. *)
Tactic Notation "wp_apply" open_constr(rule) :=
  first [iApply wp_bind; iApply rule | iApply rule].
