(* ===== verification/IdPool.v ===== *)
(** * The relay id pool ([src/dns/id_factory.c])

    Module [IdPool] models the stack of free 16-bit transaction ids: the three
    static variables are the fields of [id_pool], and [id_pool_init],
    [id_alloc], [id_free] are the functions of the file.  The lemmas relate
    the concrete stack to the set of ids that are handed out. *)

From S2P Require Import Prelude.

Module IdPool.

(** [static uint16_t ids[65536]; static int top; static char st[65536];] *)
Record id_pool := MkIdPool {
  ids : list Z;
  top : Z;
  st : list Z;
}.

(** The length of the static arrays. *)
Definition POOL_SIZE : Z := 65536.
Lemma POOL_SIZE_eq : POOL_SIZE = 65536.
Proof. reflexivity. Qed.
#[global] Opaque POOL_SIZE.

(** The loop and the [memset] fill every cell of the static arrays, whatever
    they held before; the function returns 0. *)
Definition id_pool_init : Z * id_pool :=
  (0, {| ids := seqZ 0 POOL_SIZE; top := 65535; st := replicate (Z.to_nat POOL_SIZE) 0 |}).

(** [id_alloc id_is_null p] is the return code, the value stored through the
    pointer (if any) and the new pool. *)
Definition id_alloc (id_is_null : bool) (p : id_pool) : Res (Z * option Z * id_pool) :=
  if id_is_null || (top p <? 0) then
    Ret (1, None, p)
  else
    v ← rd (ids p) (top p);
    st' ← blit (st p) v [1];
    Ret (0, Some v, {| ids := ids p; top := top p - 1; st := st' |}).

Definition id_free (id : Z) (p : id_pool) : Res id_pool :=
  flag ← rd (st p) id;
  if negb (flag =? 0) && (top p <? 65535) then
    st' ← blit (st p) id [0];
    ids' ← blit (ids p) (top p + 1) [id];
    Ret {| ids := ids'; top := top p + 1; st := st' |}
  else Ret p.

(** ** Specification

    [pool_inv p out]: the pool is well formed and [out] is exactly the set of
    ids handed out and not returned. *)

Definition free_ids (p : id_pool) : list Z := take (Z.to_nat (top p + 1)) (ids p).

Record pool_inv (p : id_pool) (out : gset Z) : Prop := {
  inv_top : -1 ≤ top p ≤ 65535;
  inv_ids : Z.of_nat (length (ids p)) = 65536;
  inv_st : Z.of_nat (length (st p)) = 65536;
  inv_nodup : NoDup (free_ids p);
  inv_free : ∀ id, id ∈ free_ids p ↔ is_u16 id ∧ id ∉ out;
  inv_out : ∀ id, id ∈ out → is_u16 id;
  inv_flag : ∀ id, is_u16 id →
    st p !! Z.to_nat id = Some (if decide (id ∈ out) then 1 else 0);
}.

Lemma free_ids_length p out :
  pool_inv p out → Z.of_nat (length (free_ids p)) = top p + 1.
Proof.
  intros []. unfold free_ids. rewrite length_take. lia.
Qed.

(** All 65536 ids, as a set. *)
Definition all_ids : gset Z := list_to_set (seqZ 0 POOL_SIZE).

Lemma elem_of_all_ids id : id ∈ all_ids ↔ is_u16 id.
Proof. unfold all_ids, is_u16. rewrite elem_of_list_to_set, elem_of_seqZ, POOL_SIZE_eq. lia. Qed.

Lemma size_all_ids : Z.of_nat (size all_ids) = 65536.
Proof.
  unfold all_ids. rewrite size_list_to_set by apply NoDup_seqZ.
  rewrite length_seqZ, POOL_SIZE_eq. lia.
Qed.

#[global] Opaque all_ids.

(** The free stack and the handed-out ids partition the id space. *)
Lemma pool_inv_size p out :
  pool_inv p out → Z.of_nat (size out) + (top p + 1) = 65536.
Proof.
  intros Hp. rewrite <- (free_ids_length p out Hp), <- size_all_ids.
  rewrite <- (size_list_to_set (C := gset Z) (free_ids p)) by apply Hp.
  assert (out ∪ list_to_set (free_ids p) = all_ids) as <-.
  { apply set_eq. intros id.
    rewrite elem_of_union, elem_of_list_to_set, elem_of_all_ids, (inv_free _ _ Hp).
    pose proof (inv_out _ _ Hp id). destruct (decide (id ∈ out)); tauto. }
  rewrite size_union; [lia|].
  intros id. rewrite elem_of_list_to_set, (inv_free _ _ Hp). tauto.
Qed.

Lemma flag_update (l : list Z) (id b : Z) (out out' : gset Z) :
  Z.of_nat (length l) = 65536 → is_u16 id →
  (∀ i, is_u16 i → l !! Z.to_nat i = Some (if decide (i ∈ out) then 1 else 0)) →
  b = (if decide (id ∈ out') then 1 else 0) →
  (∀ i, i ≠ id → i ∈ out ↔ i ∈ out') →
  ∃ l', blit l id [b] = Ret l' ∧ Z.of_nat (length l') = 65536 ∧
        ∀ i, is_u16 i → l' !! Z.to_nat i = Some (if decide (i ∈ out') then 1 else 0).
Proof.
  unfold is_u16. intros Hlen Hid Hl -> Hout.
  rewrite blit_single by lia. eexists; split; [done|].
  rewrite length_insert. split; [done|].
  intros i Hi. destruct (decide (i = id)) as [->|Hne].
  - rewrite list_lookup_insert_eq by lia. done.
  - rewrite list_lookup_insert_ne by lia. rewrite Hl by done.
    f_equal. apply decide_ext. by apply Hout.
Qed.

Lemma id_pool_init_inv : pool_inv id_pool_init.2 ∅.
Proof.
  pose proof POOL_SIZE_eq as HP.
  assert (Hfree : free_ids id_pool_init.2 = seqZ 0 POOL_SIZE).
  { unfold free_ids. simpl. apply take_ge. rewrite length_seqZ. lia. }
  split; rewrite ?Hfree; simpl.
  - lia.
  - rewrite length_seqZ. lia.
  - rewrite length_replicate. lia.
  - apply NoDup_seqZ.
  - intros id. rewrite elem_of_seqZ. unfold is_u16.
    pose proof (not_elem_of_empty (C := gset Z) id). intuition lia.
  - intros id []%elem_of_empty.
  - unfold is_u16. intros id Hid. apply lookup_replicate_2. lia.
Qed.

#[global] Opaque id_pool_init.

Lemma free_ids_snoc p out v :
  pool_inv p out → 0 ≤ top p → ids p !! Z.to_nat (top p) = Some v →
  free_ids p = take (Z.to_nat (top p)) (ids p) ++ [v].
Proof.
  intros Hp Htop Hv. unfold free_ids.
  replace (Z.to_nat (top p + 1)) with (S (Z.to_nat (top p))) by lia.
  by apply take_S_r.
Qed.

Lemma id_alloc_exhausted p out :
  pool_inv p out → (∀ id, is_u16 id → id ∈ out) → id_alloc false p = Ret (1, None, p).
Proof.
  intros Hp Hall. unfold id_alloc.
  assert (top p = -1) as ->; [|done].
  pose proof (pool_inv_size _ _ Hp). pose proof (inv_top _ _ Hp).
  assert (all_ids ⊆ out) as Hsub%subseteq_size.
  { intros id Hid%elem_of_all_ids. auto. }
  pose proof size_all_ids. lia.
Qed.

Lemma id_alloc_fresh p out :
  pool_inv p out → (∃ id, is_u16 id ∧ id ∉ out) →
  ∃ id p', id_alloc false p = Ret (0, Some id, p') ∧
    is_u16 id ∧ (id ∉ out) ∧ pool_inv p' ({[id]} ∪ out).
Proof.
  intros Hp (id0 & Hid0 & Hout0).
  assert (0 ≤ top p).
  { assert (id0 ∈ free_ids p) as Hin%list_elem_of_lookup by (by apply Hp).
    destruct Hin as [k Hk%lookup_lt_Some].
    pose proof (free_ids_length _ _ Hp). lia. }
  pose proof (inv_top _ _ Hp). pose proof (inv_ids _ _ Hp).
  destruct (lookup_lt_is_Some_2 (ids p) (Z.to_nat (top p))) as [v Hv]; [lia|].
  pose proof (free_ids_snoc _ _ _ Hp ltac:(done) Hv) as Hsnoc.
  destruct (proj1 (inv_free _ _ Hp v)) as [Hv16 Hvout].
  { rewrite Hsnoc, elem_of_app, list_elem_of_singleton. by right. }
  pose proof (inv_nodup _ _ Hp) as Hnd. rewrite Hsnoc in Hnd.
  apply NoDup_app in Hnd as (Hnd & Hdisj & _).
  destruct (flag_update (st p) v 1 out ({[v]} ∪ out)) as (st' & Hst & Hlen & Hflag);
    [apply Hp|done|apply Hp|rewrite decide_True by set_solver; done|set_solver|].
  exists v. eexists. split.
  { unfold id_alloc. rewrite (proj2 (Z.ltb_ge _ _)) by lia. simpl.
    rewrite <- (Z2Nat.id (top p)) at 1 by lia. rewrite (rd_Some _ _ _ Hv).
    simpl. by rewrite Hst. }
  split; [done|]. split; [done|].
  assert (Hfree : free_ids {| ids := ids p; top := top p - 1; st := st' |}
                  = take (Z.to_nat (top p)) (ids p)).
  { unfold free_ids. simpl. do 2 f_equal. lia. }
  pose proof (inv_out _ _ Hp) as Hout.
  split; rewrite ?Hfree; simpl; [lia|done|done|done| | |done].
  - intros id. rewrite not_elem_of_union, not_elem_of_singleton.
    pose proof (inv_free _ _ Hp id) as Hin. rewrite Hsnoc in Hin.
    rewrite elem_of_app, list_elem_of_singleton in Hin. split.
    + intros Hi. destruct (proj1 Hin (or_introl Hi)). split_and!; [done| |done].
      intros ->. by apply (Hdisj _ Hi), list_elem_of_singleton.
    + intros (? & ? & ?). by destruct (proj2 Hin) as [?| ->].
  - by intros id [->%elem_of_singleton|?%Hout]%elem_of_union.
Qed.

(** Returning an id that is out makes it free again and the next to be handed
    out; returning one that is not out changes nothing. *)
Lemma id_free_out p out id :
  pool_inv p out → id ∈ out →
  ∃ p', id_free id p = Ret p' ∧ pool_inv p' (out ∖ {[id]}) ∧ top p' = top p + 1 ∧
    ids p' !! Z.to_nat (top p') = Some id.
Proof.
  intros Hp Hid. pose proof (inv_out _ _ Hp _ Hid) as H16. unfold is_u16 in H16.
  pose proof (inv_ids _ _ Hp). pose proof (inv_st _ _ Hp). pose proof (inv_top _ _ Hp).
  assert (top p < 65535).
  { pose proof (pool_inv_size _ _ Hp) as Hsize.
    destruct (decide (size out = 0%nat)) as [E|]; [|lia].
    apply size_empty_inv in E. by destruct (E id) as [[]%elem_of_empty _]. }
  destruct (flag_update (st p) id 0 out (out ∖ {[id]})) as (st' & Hst & Hlen & Hflag);
    [apply Hp|done|apply Hp|rewrite decide_False by set_solver; done|set_solver|].
  pose proof (inv_flag _ _ Hp _ H16) as Hf. rewrite decide_True in Hf by done.
  eexists. split.
  { unfold id_free. rewrite <- (Z2Nat.id id) at 1 by lia. rewrite (rd_Some _ _ _ Hf).
    simpl. rewrite (proj2 (Z.ltb_lt _ _)) by lia. rewrite Hst. simpl.
    rewrite blit_single by lia. done. }
  simpl. split; [|split; [done|apply list_lookup_insert_eq; lia]].
  assert (Hfree : free_ids {| ids := <[Z.to_nat (top p + 1) := id]> (ids p);
                              top := top p + 1; st := st' |} = free_ids p ++ [id]).
  { unfold free_ids. simpl. replace (Z.to_nat (top p + 1 + 1)) with
      (S (Z.to_nat (top p + 1))) by lia.
    rewrite (take_S_r _ _ id) by (apply list_lookup_insert_eq; lia).
    by rewrite take_insert_ge by lia. }
  assert (Hnew : id ∉ free_ids p) by (intros [_ ?]%(inv_free _ _ Hp); done).
  split; rewrite ?Hfree; simpl; [lia|rewrite length_insert; lia|done| | | |done].
  - apply NoDup_app. split_and!; [apply Hp| |apply NoDup_singleton].
    intros x Hx ->%list_elem_of_singleton. done.
  - intros x. rewrite elem_of_app, list_elem_of_singleton, not_elem_of_difference.
    rewrite elem_of_singleton, (inv_free _ _ Hp x).
    destruct (decide (x = id)) as [->|]; [|tauto].
    pose proof (inv_out _ _ Hp id Hid). tauto.
  - intros x [Hx _]%elem_of_difference. by apply (inv_out _ _ Hp).
Qed.

Lemma id_free_idle p out id :
  pool_inv p out → is_u16 id → id ∉ out → id_free id p = Ret p.
Proof.
  intros Hp Hid Hout. unfold id_free.
  pose proof (inv_flag _ _ Hp _ Hid) as Hf. rewrite decide_False in Hf by done.
  rewrite <- (Z2Nat.id id) by (unfold is_u16 in Hid; lia). by rewrite (rd_Some _ _ _ Hf).
Qed.

(** ** Sequences of calls

    [pool_step] is one call of the module, with the set of ids its users hold
    as a ghost component. *)

Inductive pool_op := OpAlloc | OpFree (id : Z).

Definition run_op (o : pool_op) (s : id_pool * gset Z) : Res (option Z * (id_pool * gset Z)) :=
  let '(p, out) := s in
  match o with
  | OpAlloc =>
      '(_, got, p') ← id_alloc false p;
      Ret (got, (p', match got with Some id => {[id]} ∪ out | None => out end))
  | OpFree id => p' ← id_free id p; Ret (None, (p', out ∖ {[id]}))
  end.

Inductive pool_reach : id_pool * gset Z → Prop :=
| reach_init : pool_reach (id_pool_init.2, ∅)
| reach_step o s got s' :
    pool_reach s → (match o with OpFree id => is_u16 id | OpAlloc => True end) →
    run_op o s = Ret (got, s') → pool_reach s'.

Lemma id_free_inv p out id :
  pool_inv p out → is_u16 id → ∃ p', id_free id p = Ret p' ∧ pool_inv p' (out ∖ {[id]}).
Proof.
  intros Hp Hid. destruct (decide (id ∈ out)) as [Hin|Hout].
  - destruct (id_free_out p out id Hp Hin) as (p' & ? & ? & _). by exists p'.
  - exists p. split; [by eapply id_free_idle|].
    by rewrite difference_disjoint_L by set_solver.
Qed.

Lemma id_alloc_cases p out :
  pool_inv p out →
  (id_alloc false p = Ret (1, None, p) ∧ ∀ id, is_u16 id → id ∈ out) ∨
  (∃ id p', id_alloc false p = Ret (0, Some id, p') ∧ is_u16 id ∧ (id ∉ out) ∧
    pool_inv p' ({[id]} ∪ out)).
Proof.
  intros Hp. destruct (decide (all_ids ∖ out = ∅)) as [E|[id Hid]%set_choose_L].
  - left. assert (∀ id, is_u16 id → id ∈ out) as Hall.
    { intros id Hid%elem_of_all_ids. destruct (decide (id ∈ out)); [assumption|].
      exfalso. apply (not_elem_of_empty (C := gset Z) id).
      rewrite <- E. apply elem_of_difference. split; assumption. }
    clear E. split; [by eapply id_alloc_exhausted|done].
  - right. apply id_alloc_fresh; [done|]. exists id.
    apply elem_of_difference in Hid as [?%elem_of_all_ids ?]. done.
Qed.

Lemma run_op_inv o p out :
  pool_inv p out → (match o with OpFree id => is_u16 id | OpAlloc => True end) →
  ∃ got p' out', run_op o (p, out) = Ret (got, (p', out')) ∧ pool_inv p' out'.
Proof.
  intros Hp Ho. destruct o as [|id]; simpl.
  - destruct (id_alloc_cases p out Hp) as [[-> _]|(id & p' & -> & _ & _ & Hp')].
    + by exists None, p, out.
    + by exists (Some id), p', ({[id]} ∪ out).
  - destruct (id_free_inv p out id Hp Ho) as (p' & -> & Hp').
    by exists None, p', (out ∖ {[id]}).
Qed.

Lemma pool_reach_inv s : pool_reach s → pool_inv s.1 s.2.
Proof.
  induction 1 as [|o [p out] got [p' out'] _ IH Ho Hrun].
  - apply id_pool_init_inv.
  - destruct (run_op_inv o p out IH Ho) as (? & ? & ? & E & Hinv).
    rewrite E in Hrun. injection Hrun as <- <- <-. exact Hinv.
Qed.

(** ** Properties *)

(** C30. In every state reached by calls of [id_alloc] and [id_free], an
    allocation returns an id that no caller holds, and it fails (return code
    1, pool unchanged) exactly when all 65536 ids are held. *)
Theorem id_alloc_unique (p : id_pool) (out : gset Z) :
  pool_reach (p, out) →
  (id_alloc false p = Ret (1, None, p) ∧ (∀ id, is_u16 id → id ∈ out)) ∨
  (∃ id p', id_alloc false p = Ret (0, Some id, p') ∧ is_u16 id ∧ (id ∉ out) ∧
            pool_reach (p', {[id]} ∪ out)).
Proof.
  intros Hr. destruct (id_alloc_cases p out (pool_reach_inv _ Hr))
    as [?|(id & p' & Ha & ? & ? & _)]; [by left|right].
  exists id, p'. split_and!; [done..|].
  apply (reach_step OpAlloc (p, out) (Some id)); [done|done|]. simpl. by rewrite Ha.
Qed.

Lemma id_alloc_unique_witness :
  pool_reach (id_pool_init.2, ∅) ∧
  ((id_alloc false id_pool_init.2 = Ret (1, None, id_pool_init.2) ∧
    (∀ id, is_u16 id → id ∈ (∅ : gset Z))) ∨
   (∃ id p', id_alloc false id_pool_init.2 = Ret (0, Some id, p') ∧ is_u16 id ∧
     (id ∉ (∅ : gset Z)) ∧ pool_reach (p', {[id]} ∪ ∅))).
Proof. split; [apply reach_init|]. apply (id_alloc_unique id_pool_init.2 ∅ reach_init). Defined.

(** In every reachable state, returning an id that is held makes it the
    next one handed out (the stack is last-in first-out), and returning an id
    that is not held (a double free, or an id never allocated) leaves the pool
    exactly as it was. *)
Theorem id_free_lifo (p : id_pool) (out : gset Z) (id : Z) :
  pool_reach (p, out) → is_u16 id →
  if decide (id ∈ out)
  then ∃ p', id_free id p = Ret p' ∧
             ∃ p'', id_alloc false p' = Ret (0, Some id, p'')
  else id_free id p = Ret p.
Proof.
  intros Hr Hid. apply pool_reach_inv in Hr. simpl in Hr. case_decide as Hin.
  - destruct (id_free_out p out id Hr Hin) as (p' & Hf & Hp' & Htop & Hlk).
    exists p'. split; [done|].
    destruct (id_alloc_cases p' _ Hp') as [[Ha _]|(id' & p'' & Ha & _)];
      [|exists p''];
      pose proof (inv_top _ _ Hr); unfold id_alloc in *;
      rewrite (proj2 (Z.ltb_ge _ _)) in * by lia;
      rewrite <- (Z2Nat.id (top p')) in Ha at 1 by lia;
      rewrite (rd_Some _ _ _ Hlk) in Ha; simpl in *.
    + by destruct (blit (st p') id [1]).
    + rewrite <- (Z2Nat.id (top p')) at 1 by lia. rewrite (rd_Some _ _ _ Hlk). simpl.
      destruct (blit (st p') id [1]); [|done..]. simpl in *. congruence.
  - by eapply id_free_idle.
Qed.

Lemma id_free_lifo_witness :
  is_u16 7 ∧ id_free 7 id_pool_init.2 = Ret id_pool_init.2.
Proof.
  split; [vm_compute; split; congruence|].
  exact (id_free_lifo id_pool_init.2 ∅ 7 reach_init ltac:(vm_compute; split; congruence)).
Defined.

End IdPool.
