(* ===== verification/Vector.v ===== *)
(** * The dynamic array of [src/infra/stl.c]

    A [Vector] is a block of [v_capacity] cells of which the first [v_size] are
    in use.  The cells are [option A]: [None] is a cell that was never
    written.  Every function of the file is a definition; [vec_rep] is the
    abstraction to a plain list. *)

From S2P Require Import Prelude.

Module Vector.

Record Vector (A : Type) := MkVector {
  elements : list (option A);
  size : Z;
  capacity : Z;
}.
Arguments MkVector {A} elements size capacity.
Arguments elements {A} v.
Arguments size {A} v.
Arguments capacity {A} v.

Definition sizeof_ptr : Z := 8.
Definition sizeof_Vector : Z := 16.

Section vector.
Context `{Allocator} {A : Type}.
Implicit Types (v : Vector A) (x : A).

(** [while (min_capacity > temp_capacity) temp_capacity <<= 1;] on [int]:
    the shift is undefined when the product is not an [int]. *)
Fixpoint grow_capacity (fuel : nat) (min_capacity temp_capacity : Z) : Res Z :=
  if min_capacity >? temp_capacity then
    match fuel with
    | O => OutOfFuel
    | S fuel =>
        if Z.shiftl temp_capacity 1 <=? INT_MAX
        then grow_capacity fuel min_capacity (Z.shiftl temp_capacity 1) else UB
    end
  else Ret temp_capacity.

(** 32 doublings of a positive [int] exceed every [int]. *)
Definition grow_fuel : nat := 32.

Definition vector_grow v (min_capacity : Z) : Res (bool * Vector A) :=
  if min_capacity <=? capacity v then Ret (true, v)
  else
    let temp_capacity := if capacity v <=? 0 then 1 else capacity v in
    temp_capacity ← grow_capacity grow_fuel min_capacity temp_capacity;
    if malloc_ok (sizeof_ptr * temp_capacity) then
      (* realloc keeps the old cells and appends unwritten ones *)
      Ret (true, MkVector
             (elements v ++ replicate (Z.to_nat temp_capacity - length (elements v)) None)
             (size v) temp_capacity)
    else Ret (false, v).

Definition vector_create (init_capacity : Z) : option (Vector A) :=
  let init_capacity := if init_capacity <=? 0 then 1 else init_capacity in
  if negb (malloc_ok sizeof_Vector) then None
  else if negb (malloc_ok (sizeof_ptr * init_capacity)) then None
  else Some (MkVector (replicate (Z.to_nat init_capacity) None) 0 init_capacity).

Definition vector_add v x : Res (Vector A) :=
  '(ok, v) ← vector_grow v (size v + 1);
  if (ok : bool) then
    cells' ← blit (elements v) (size v) [Some x];
    Ret (MkVector cells' (size v + 1) (capacity v))
  else Ret v.

(** [for (i = size - 1; i >= index; i--) elements[i + 1] = elements[i];]
    with [n] iterations left. *)
Fixpoint shift_up (n : nat) (i : Z) (m : list (option A)) : Res (list (option A)) :=
  match n with
  | O => Ret m
  | S n => c ← rd m i; m' ← blit m (i + 1) [c]; shift_up n (i - 1) m'
  end.

Definition vector_insert v x (index : Z) : Res (Vector A) :=
  if (index <? 0) || (index >? size v) then Ret v
  else
    '(ok, v) ← vector_grow v (size v + 1);
    if (ok : bool) then
      m ← shift_up (Z.to_nat (size v - index)) (size v - 1) (elements v);
      m' ← blit m index [Some x];
      Ret (MkVector m' (size v + 1) (capacity v))
    else Ret v.

Definition vector_remove v (index : Z) : Res (Vector A) :=
  if (index >=? size v) || (index <? 0) then Ret v
  else
    moved ← slice (elements v) (index + 1) (size v - index - 1);
    m ← blit (elements v) index moved;
    Ret (MkVector m (size v - 1) (capacity v)).

(** [None] is the NULL the code returns. *)
Definition vector_get v (index : Z) : Res (option A) :=
  if (index >=? size v) || (index <? 0) then Ret None
  else rd (elements v) index.

Definition vector_size v : Z := size v.

(** ** Abstraction to lists *)

Record vec_rep v (xs : list A) : Prop := {
  rep_size : size v = Z.of_nat (length xs);
  rep_cap : capacity v = Z.of_nat (length (elements v));
  rep_pos : 1 ≤ capacity v;
  rep_cells : take (length xs) (elements v) = Some <$> xs;
}.

Lemma vec_rep_le v xs : vec_rep v xs → (length xs ≤ length (elements v))%nat.
Proof.
  intros [_ _ _ E]. apply (f_equal length) in E.
  rewrite length_take, length_fmap in E. lia.
Qed.

Lemma vec_rep_split v xs :
  vec_rep v xs →
  elements v = (Some <$> xs) ++ drop (length xs) (elements v).
Proof. intros []. rewrite <- rep_cells0 at 1. by rewrite take_drop. Qed.

Lemma vec_rep_intro v (xs : list A) (rest : list (option A)) :
  elements v = (Some <$> xs) ++ rest →
  size v = Z.of_nat (length xs) → capacity v = Z.of_nat (length (elements v)) →
  1 ≤ capacity v → vec_rep v xs.
Proof.
  intros E ???. split; [done..|]. rewrite E.
  rewrite take_app_length'; [done|]. by rewrite length_fmap.
Qed.

Lemma vec_rep_lookup v xs (i : nat) x :
  vec_rep v xs → xs !! i = Some x → elements v !! i = Some (Some x).
Proof.
  intros Hv Hi. rewrite (vec_rep_split _ _ Hv), lookup_app_l;
    [by rewrite list_lookup_fmap, Hi|].
  rewrite length_fmap. by eapply lookup_lt_Some.
Qed.

Lemma grow_capacity_spec fuel min_capacity temp_capacity :
  1 ≤ temp_capacity → min_capacity ≤ 2 ^ 30 →
  min_capacity ≤ temp_capacity * 2 ^ Z.of_nat fuel →
  ∃ c, grow_capacity fuel min_capacity temp_capacity = Ret c ∧
    min_capacity ≤ c ∧ temp_capacity ≤ c ∧ (c ≤ temp_capacity ∨ c < 2 * min_capacity).
Proof.
  revert temp_capacity. induction fuel as [|fuel IH]; intros temp Ht Hm Hb; simpl;
    rewrite Z.gtb_ltb.
  - rewrite (proj2 (Z.ltb_ge _ _)) by lia. exists temp. split_and!; [done|lia..].
  - destruct (temp <? min_capacity) eqn:E; bools.
    + rewrite Z.shiftl_mul_pow2 by lia. change (2 ^ 1) with 2.
      unfold INT_MAX. rewrite (proj2 (Z.leb_le _ _)) by lia.
      destruct (IH (temp * 2)) as (c & -> & ? & ? & ?); [lia|lia| |].
      { rewrite Nat2Z.inj_succ, Z.pow_succ_r in Hb by lia. lia. }
      exists c. split_and!; [done|lia..].
    + exists temp. split_and!; [done|lia..].
Qed.

Lemma vector_grow_spec v xs min_capacity :
  vec_rep v xs → min_capacity ≤ 2 ^ 30 →
  ∃ ok v', vector_grow v min_capacity = Ret (ok, v') ∧ vec_rep v' xs ∧
    size v' = size v ∧ (if ok then min_capacity ≤ capacity v' else v' = v) ∧
    ((∀ n, malloc_ok n = true) → ok = true).
Proof.
  intros Hv Hm. unfold vector_grow. destruct (_ <=? _) eqn:E; bools.
  { exists true, v. by split_and!. }
  destruct Hv as [Hs Hc Hp Hcells] eqn:EHv.
  rewrite (proj2 (Z.leb_gt _ _)) by lia.
  destruct (grow_capacity_spec grow_fuel min_capacity (capacity v))
    as (c & -> & ? & ? & ?); [lia|lia|unfold grow_fuel; lia|].
  simpl. destruct (malloc_ok _) eqn:Ea.
  - eexists true, _. split; [done|]. split; [|by split_and!].
    eapply vec_rep_intro; simpl.
    + rewrite (vec_rep_split _ _ Hv) at 1. by rewrite <- app_assoc.
    + done.
    + rewrite length_app, length_replicate. lia.
    + lia.
  - exists false, v. split_and!; [done..|]. intros Hall. by rewrite Hall in Ea.
Qed.

Lemma vector_create_spec init_capacity v :
  vector_create init_capacity = Some v → vec_rep v [].
Proof.
  unfold vector_create. destruct (negb (malloc_ok sizeof_Vector)); [done|].
  destruct (negb _); [done|]. intros [= <-].
  eapply (vec_rep_intro _ []); simpl; [done|done| |];
    rewrite ?length_replicate; destruct (init_capacity <=? 0) eqn:E; bools; lia.
Qed.

Lemma vector_create_capacity init_capacity v :
  vector_create init_capacity = Some v → init_capacity ≤ capacity v.
Proof.
  unfold vector_create. destruct (negb (malloc_ok sizeof_Vector)); [done|].
  destruct (negb _); [done|]. intros [= <-]. simpl. destruct (_ <=? _) eqn:?; bools; lia.
Qed.

Lemma vector_create_total init_capacity :
  AllocTotal → ∃ v, vector_create init_capacity = Some v ∧ vec_rep v [].
Proof.
  intros Ht. destruct (vector_create init_capacity) as [v|] eqn:E.
  - exists v. split; [done|]. by eapply vector_create_spec.
  - exfalso. revert E. unfold vector_create. by rewrite !malloc_total.
Qed.

(** The next cell after the ones in use exists once the vector has grown. *)
Lemma vector_snoc v xs x :
  vec_rep v xs → size v + 1 ≤ capacity v →
  ∃ m, blit (elements v) (size v) [Some x] = Ret m ∧
    vec_rep (MkVector m (size v + 1) (capacity v)) (xs ++ [x]).
Proof.
  intros Hv Hcap. pose proof (rep_size _ _ Hv). pose proof (rep_cap _ _ Hv).
  rewrite blit_single by lia. eexists. split; [done|].
  apply (vec_rep_intro _ _ (drop (S (length xs)) (elements v))); simpl.
  - rewrite H0, Nat2Z.id, insert_take_drop by lia.
    rewrite (rep_cells _ _ Hv), fmap_app, <- app_assoc. done.
  - rewrite length_app. simpl. lia.
  - rewrite length_insert. lia.
  - apply Hv.
Qed.

(** With room left, nothing is allocated. *)
Lemma vector_add_room v xs x :
  vec_rep v xs → size v + 1 ≤ capacity v →
  ∃ v', vector_add v x = Ret v' ∧ vec_rep v' (xs ++ [x]) ∧ capacity v' = capacity v.
Proof.
  intros Hv Hcap. unfold vector_add, vector_grow. rewrite (proj2 (Z.leb_le _ _)) by done.
  simpl. destruct (vector_snoc v xs x Hv Hcap) as (m & -> & ?). simpl. eauto.
Qed.

Lemma vector_add_spec v xs x :
  vec_rep v xs → Z.of_nat (length xs) < 2 ^ 30 →
  ∃ v', vector_add v x = Ret v' ∧
    (vec_rep v' (xs ++ [x]) ∨ (v' = v ∧ ¬ AllocTotal)).
Proof.
  intros Hv Hlen. pose proof (rep_size _ _ Hv). unfold vector_add.
  destruct (vector_grow_spec v xs (size v + 1)) as (ok & v1 & -> & Hv1 & Hs1 & Hok & Ht);
    [done|lia|]. simpl. destruct ok.
  - rewrite <- Hs1 in Hok. destruct (vector_snoc v1 xs x) as (m & -> & ?); [done..|].
    simpl. eauto.
  - exists v1. split; [done|]. right. split; [done|].
    intros Htot. by specialize (Ht Htot).
Qed.

Lemma vector_get_spec v xs index :
  vec_rep v xs → vector_get v index = Ret (znth xs index).
Proof.
  intros Hv. pose proof (rep_size _ _ Hv) as Hs. unfold vector_get, znth.
  rewrite Z.geb_leb. destruct (size v <=? index) eqn:E1; bools; simpl.
  { rewrite (proj2 (Z.leb_le _ _)) by lia.
    rewrite (lookup_ge_None_2 xs) by lia. done. }
  destruct (index <? 0) eqn:E2; bools.
  { by rewrite (proj2 (Z.leb_gt _ _)) by lia. }
  rewrite (proj2 (Z.leb_le _ _)) by lia.
  destruct (lookup_lt_is_Some_2 xs (Z.to_nat index)) as [x Hx]; [lia|].
  rewrite Hx. rewrite <- (Z2Nat.id index) by lia. apply rd_Some.
  by eapply vec_rep_lookup.
Qed.

(** The copy loop of [vector_insert] opens a gap at [index]. *)
Lemma shift_up_spec (pre mid : list (option A)) (c : option A) (rest : list (option A)) :
  ∃ c', shift_up (length mid) (Z.of_nat (length (pre ++ mid)) - 1) (pre ++ mid ++ c :: rest)
    = Ret (pre ++ c' :: mid ++ rest).
Proof.
  revert c rest. induction mid as [|y mid IH] using rev_ind; intros c rest.
  { exists c. done. }
  rewrite length_app. replace (length mid + length [y])%nat with (S (length mid)) by (simpl; lia).
  replace (Z.of_nat (length (pre ++ mid ++ [y])) - 1)
    with (Z.of_nat (length (pre ++ mid))) by (rewrite !length_app; simpl; lia).
  rewrite <- !app_assoc. simpl shift_up.
  rewrite app_assoc, (rd_Some _ _ y) by apply list_lookup_middle, eq_refl. simpl.
  rewrite blit_single by (rewrite !length_app; simpl; lia). simpl.
  replace (Z.to_nat (Z.of_nat (length (pre ++ mid)) + 1))
    with (length (pre ++ mid) + 1)%nat by lia.
  rewrite insert_app_r. simpl. rewrite <- app_assoc. apply (IH y (y :: rest)).
Qed.

Lemma vector_insert_spec v xs x index :
  vec_rep v xs → Z.of_nat (length xs) < 2 ^ 30 → AllocTotal →
  ∃ v', vector_insert v x index = Ret v' ∧
    vec_rep v' (if (0 <=? index) && (index <=? Z.of_nat (length xs))
                then take (Z.to_nat index) xs ++ x :: drop (Z.to_nat index) xs else xs).
Proof.
  intros Hv Hlen Ht. pose proof (rep_size _ _ Hv) as Hs. unfold vector_insert.
  rewrite Z.gtb_ltb. destruct (index <? 0) eqn:E1; bools; simpl.
  { rewrite (proj2 (Z.leb_gt _ _)) by lia. eauto. }
  rewrite (proj2 (Z.leb_le 0 index)) by lia. simpl.
  destruct (size v <? index) eqn:E2; bools.
  { rewrite (proj2 (Z.leb_gt _ _)) by lia. eauto. }
  rewrite (proj2 (Z.leb_le _ _)) by lia.
  destruct (vector_grow_spec v xs (size v + 1)) as (ok & v1 & -> & Hv1 & Hs1 & Hok & Hok');
    [done|lia|]. rewrite Hok' in Hok by apply Ht. rewrite (Hok' Ht). simpl.
  pose proof (rep_cap _ _ Hv1). pose proof (vec_rep_split _ _ Hv1) as Hsp.
  destruct (drop (length xs) (elements v1)) as [|c rest] eqn:Ed.
  { apply (f_equal length) in Ed. rewrite length_drop in Ed. simpl in Ed. lia. }
  rewrite <- (take_drop (Z.to_nat index) xs), fmap_app, <- app_assoc in Hsp.
  destruct (shift_up_spec (Some <$> take (Z.to_nat index) xs)
    (Some <$> drop (Z.to_nat index) xs) c rest) as [c' Hshift].
  rewrite <- Hsp, <- fmap_app, take_drop, !length_fmap, length_drop in Hshift.
  rewrite Hs1.
  replace (Z.to_nat (size v - index)) with (length xs - Z.to_nat index)%nat by lia.
  replace (size v - 1) with (Z.of_nat (length xs) - 1) by lia.
  rewrite Hshift. simpl. rewrite blit_single by (rewrite length_app; simpl;
    rewrite length_fmap, length_take; lia). simpl.
  eexists. split; [done|]. eapply (vec_rep_intro _ _ rest); simpl.
  - replace (Z.to_nat index) with (length (Some <$> take (Z.to_nat index) xs) + 0)%nat at 1
      by (rewrite length_fmap, length_take; lia).
    rewrite insert_app_r. simpl. rewrite fmap_app, <- app_assoc. done.
  - rewrite length_app. simpl. rewrite length_take, length_drop. lia.
  - rewrite length_insert, (rep_cap _ _ Hv1), Hsp, !length_app. simpl.
    rewrite !length_app, !length_fmap. simpl. lia.
  - apply Hv1.
Qed.

Lemma vector_remove_spec v xs index :
  vec_rep v xs →
  ∃ v', vector_remove v index = Ret v' ∧
    vec_rep v' (if (0 <=? index) && (index <? Z.of_nat (length xs))
                then take (Z.to_nat index) xs ++ drop (S (Z.to_nat index)) xs else xs).
Proof.
  intros Hv. pose proof (rep_size _ _ Hv) as Hs. unfold vector_remove.
  rewrite Z.geb_leb. destruct (size v <=? index) eqn:E1; bools; simpl.
  { rewrite (proj2 (Z.ltb_ge _ _)), andb_false_r by lia. eauto. }
  destruct (index <? 0) eqn:E2; bools.
  { rewrite (proj2 (Z.leb_gt _ _)) by lia. eauto. }
  rewrite (proj2 (Z.leb_le _ _)), (proj2 (Z.ltb_lt _ _)) by lia. simpl.
  pose proof (rep_cap _ _ Hv). pose proof (vec_rep_le _ _ Hv).
  set (i := Z.to_nat index). assert (Hi : index = Z.of_nat i) by lia.
  rewrite slice_Ret by lia. simpl.
  replace (Z.to_nat (index + 1)) with (S i) by lia.
  replace (Z.to_nat (size v - index - 1)) with (length xs - S i)%nat by lia.
  assert (Hm : take (length xs - S i) (drop (S i) (elements v)) = Some <$> drop (S i) xs).
  { rewrite fmap_drop, <- (rep_cells _ _ Hv), skipn_firstn_comm. done. }
  rewrite Hm, blit_Ret by (rewrite ?length_fmap, ?length_drop; lia).
  eexists. split; [done|].
  rewrite length_fmap, length_drop. fold i.
  eapply (vec_rep_intro _ _ (drop (i + (length xs - S i)) (elements v))); simpl.
  - rewrite fmap_app, fmap_take, <- (rep_cells _ _ Hv), <- app_assoc.
    f_equal. rewrite take_take. f_equal. lia.
  - rewrite length_app, length_take, length_drop. lia.
  - rewrite !length_app, length_take, length_fmap, !length_drop. lia.
  - apply Hv.
Qed.
End vector.

(** ** Properties *)

(** C35. The dynamic array implements the list operations it is named after:
    from a vector representing [xs], [vector_add] represents [xs ++ [x]],
    [vector_insert] and [vector_remove] insert and delete at the index and do
    nothing for an index out of range, [vector_get] is list lookup (NULL out of
    range); no access leaves the block, for every size up to 2^30 elements. *)
Theorem vector_refines_list `{AllocTotal} {A} (v : Vector A) (xs : list A) (x : A) (i : Z) :
  vec_rep v xs → Z.of_nat (length xs) < 2 ^ 30 →
  (∃ v', vector_add v x = Ret v' ∧ vec_rep v' (xs ++ [x])) ∧
  (∃ v', vector_insert v x i = Ret v' ∧
     vec_rep v' (if (0 <=? i) && (i <=? Z.of_nat (length xs))
                 then take (Z.to_nat i) xs ++ x :: drop (Z.to_nat i) xs else xs)) ∧
  (∃ v', vector_remove v i = Ret v' ∧
     vec_rep v' (if (0 <=? i) && (i <? Z.of_nat (length xs))
                 then take (Z.to_nat i) xs ++ drop (S (Z.to_nat i)) xs else xs)) ∧
  vector_get v i = Ret (znth xs i) ∧ vector_size v = Z.of_nat (length xs).
Proof.
  intros Hv Hlen. split_and!.
  - destruct (vector_add_spec v xs x Hv Hlen) as (v' & ? & [?|[_ []]]); [eauto|done].
  - by apply vector_insert_spec.
  - by apply vector_remove_spec.
  - by apply vector_get_spec.
  - apply Hv.
Qed.

Lemma vector_refines_list_witness :
  let v := MkVector [Some 10; Some 20; None] 2 3 in
  vec_rep v [10; 20] ∧ ∃ v', @vector_insert always Z v 15 1 = Ret v' ∧ vec_rep v' [10; 15; 20].
Proof.
  intros v. assert (Hv : vec_rep v [10; 20]) by (split; vm_compute; done || congruence).
  split; [exact Hv|].
  exact (proj1 (proj2 (@vector_refines_list always always_total Z v [10; 20] 15 1 Hv
    ltac:(vm_compute; congruence)))).
Defined.

(** When the array is full and [realloc] is refused, [vector_add] returns
    with the vector exactly as it was. *)
Theorem vector_add_refused `{Allocator} {A} (v : Vector A) (xs : list A) (x : A) :
  vec_rep v xs → Z.of_nat (length xs) < 2 ^ 30 →
  size v = capacity v → (∀ n, malloc_ok n = false) → vector_add v x = Ret v.
Proof.
  intros Hv Hlen Hfull Hno. pose proof (rep_size _ _ Hv).
  destruct (grow_capacity_spec grow_fuel (size v + 1) (capacity v)) as (c & Hc & _);
    [apply Hv|lia|pose proof (rep_pos _ _ Hv); unfold grow_fuel; lia|].
  unfold vector_add, vector_grow. rewrite (proj2 (Z.leb_gt _ _)) by lia.
  rewrite (proj2 (Z.leb_gt (capacity v) 0)) by (pose proof (rep_pos _ _ Hv); lia).
  rewrite Hc. simpl. by rewrite Hno.
Qed.

Lemma vector_add_refused_witness :
  let v := MkVector [Some 10] 1 1 in
  vec_rep v [10] ∧ @vector_add (λ _, false) Z v 20 = Ret v.
Proof.
  intros v. assert (Hv : vec_rep v [10]) by (split; vm_compute; done || congruence).
  split; [exact Hv|].
  exact (@vector_add_refused (λ _, false) Z v [10] 20 Hv ltac:(vm_compute; congruence)
    eq_refl (λ _, eq_refl)).
Defined.

End Vector.
