(* ===== verification/DoublyLinked.v ===== *)
(** * Chains of doubly linked nodes

    Two data structures of the code are doubly linked lists: [LinkedList] of
    [src/infra/stl.c] and the intrusive list of [src/dns/dns_cache.c].  Both
    keep their nodes in a map from addresses; this file holds the lemmas they
    share.  [pv] and [nx] read the two link fields of a node, [sp] and [sn]
    write them, and [dt] is what the links do not touch. *)

From S2P Require Import Prelude.

Lemma nodup_mid {A} (a b : list A) x : NoDup (a ++ x :: b) → NoDup (a ++ b) ∧ x ∉ a ++ b.
Proof. rewrite <- Permutation_middle. rewrite NoDup_cons. tauto. Qed.

Section chain.
Context {B D : Type} (pv nx : B → option loc) (sp sn : option loc → B → B) (dt : B → D).

Record link_laws : Prop := {
  pv_sp : ∀ p b, pv (sp p b) = p;
  nx_sp : ∀ p b, nx (sp p b) = nx b;
  pv_sn : ∀ p b, pv (sn p b) = pv b;
  nx_sn : ∀ p b, nx (sn p b) = p;
  dt_sp : ∀ p b, dt (sp p b) = dt b;
  dt_sn : ∀ p b, dt (sn p b) = dt b;
}.

Implicit Types (h : gmap loc B) (ls a : list loc) (l : loc).

(** The node the segment [ls] starts with, [nxt] when it is empty. *)
Definition first_of ls (nxt : option loc) : option loc :=
  match ls with [] => nxt | l :: _ => Some l end.
Definition last_of (prev : option loc) ls : option loc :=
  match last ls with None => prev | Some l => Some l end.

(** [seg h prev ls nxt]: the nodes [ls] are in [h], each points to its
    neighbours, the first one back to [prev], the last one on to [nxt]. *)
Fixpoint seg h (prev : option loc) ls (nxt : option loc) : Prop :=
  match ls with
  | [] => True
  | l :: r =>
      (∃ n, h !! l = Some n ∧ pv n = prev ∧ nx n = first_of r nxt) ∧
      seg h (Some l) r nxt
  end.

Lemma first_of_app a (b : list loc) nxt : first_of (a ++ b) nxt = first_of a (first_of b nxt).
Proof. by destruct a. Qed.

Lemma last_of_cons prev l a : last_of prev (l :: a) = last_of (Some l) a.
Proof. unfold last_of. rewrite last_cons. by destruct (last a). Qed.

Lemma first_of_None ls : first_of ls None = head ls.
Proof. by destruct ls. Qed.

Lemma last_of_None ls : last_of None ls = last ls.
Proof. unfold last_of. by destruct (last ls). Qed.

Lemma seg_app h prev a (b : list loc) nxt :
  seg h prev (a ++ b) nxt ↔ seg h prev a (first_of b nxt) ∧ seg h (last_of prev a) b nxt.
Proof.
  revert prev. induction a as [|l a IH]; intros prev; [by split; [intros|intros [_ ?]]|].
  rewrite last_of_cons. simpl. rewrite IH, first_of_app. symmetry. apply Logic.and_assoc.
Qed.

Lemma seg_ext h h' prev ls nxt :
  (∀ l, l ∈ ls → h' !! l = h !! l) → seg h prev ls nxt → seg h' prev ls nxt.
Proof.
  revert prev. induction ls as [|l ls IH]; intros prev Hext; [done|]. simpl.
  intros [(b & Hb & ? & ?) Hs]. split.
  - exists b. rewrite Hext by left. done.
  - apply IH; [|done]. intros l' Hl'. apply Hext. by right.
Qed.

(** Only the links matter. *)
Lemma seg_links h h' prev ls nxt :
  (∀ l n, h !! l = Some n → ∃ n', h' !! l = Some n' ∧ pv n' = pv n ∧ nx n' = nx n) →
  seg h prev ls nxt → seg h' prev ls nxt.
Proof.
  intros Hext. revert prev. induction ls as [|l ls IH]; intros prev; [done|]. simpl.
  intros [(b & Hb & Hp & Hx) Hs]. split; [|by apply IH].
  destruct (Hext l b Hb) as (n' & ? & ? & ?). exists n'. split_and!; congruence.
Qed.

Lemma seg_lookup h prev ls nxt l : seg h prev ls nxt → l ∈ ls → is_Some (h !! l).
Proof.
  revert prev. induction ls as [|l' ls IH]; intros prev; [by intros _ ?%elem_of_nil|].
  simpl. intros [(b & Hb & _) Hs] [->|Hin]%elem_of_cons; [eauto|]. by eapply IH.
Qed.

(** The node in the middle of a chain and its two neighbours. *)
Lemma seg_mid h a l (b : list loc) :
  seg h None (a ++ l :: b) None →
  ∃ n, h !! l = Some n ∧ pv n = last a ∧ nx n = head b.
Proof.
  rewrite seg_app, last_of_None. simpl. intros [_ [(n & ? & ? & Hn) _]].
  rewrite first_of_None in Hn. by exists n.
Qed.

(** Update the node a pointer designates, if it is not NULL. *)
Definition upd h (p : option loc) (f : B → B) : gmap loc B :=
  match p with Some l => alter f l h | None => h end.

Lemma upd_ne h p f l : p ≠ Some l → upd h p f !! l = h !! l.
Proof. destruct p; simpl; [|done]. intros. apply lookup_alter_ne. congruence. Qed.

Lemma upd_data h p f l :
  (∀ n, dt (f n) = dt n) → dt <$> upd h p f !! l = dt <$> h !! l.
Proof.
  intros Hf. destruct p as [l'|]; [|done]. simpl. rewrite lookup_alter.
  case_decide as E; [subst|done]. destruct (h !! l); simpl; [by rewrite Hf|done].
Qed.

Lemma upd_dom h p f : dom (upd h p f) = dom h.
Proof. destruct p; simpl; [apply dom_alter_L|done]. Qed.

Lemma upd_comm h p q f g : p ≠ q → upd (upd h p f) q g = upd (upd h q g) p f.
Proof.
  destruct p as [p|], q as [q|]; simpl; try done. intros Hne.
  apply map_eq. intros l. rewrite !lookup_alter. repeat case_decide; congruence.
Qed.

Lemma upd_eq h l f n : h !! l = Some n → upd h (Some l) f !! l = Some (f n).
Proof. intros Hl. simpl. rewrite lookup_alter_eq. by rewrite Hl. Qed.

Lemma upd_store (s : Store B) l n f :
  cells s !! l = Some n → store s l (f n) = Ret (MkStore (upd (cells s) (Some l) f) (brk s)).
Proof.
  intros E. rewrite (store_Some _ _ _ _ E). do 2 f_equal. simpl.
  apply map_eq. intros l'. rewrite lookup_alter, lookup_insert.
  case_decide as E'; [subst; by rewrite E|done].
Qed.

Section laws.
Hypothesis laws : link_laws.

Lemma seg_set_next h prev a nxt nxt' :
  NoDup a → seg h prev a nxt → seg (upd h (last a) (sn nxt')) prev a nxt'.
Proof using laws.
  destruct a as [|x a _] using rev_ind; [done|].
  rewrite last_snoc. intros (Hnd & Hdis & _)%NoDup_app.
  rewrite !seg_app. simpl. intros [Ha [(n & Hn & Hp & _) _]]. split_and!; [| |done].
  - eapply seg_ext; [|done]. intros l Hl. apply lookup_alter_ne. intros ->.
    by apply (Hdis l Hl), list_elem_of_singleton.
  - exists (sn nxt' n). rewrite lookup_alter_eq, Hn. split; [done|].
    by rewrite (pv_sn laws), (nx_sn laws).
Qed.

Lemma seg_set_prev h prev prev' (b : list loc) nxt :
  NoDup b → seg h prev b nxt → seg (upd h (head b) (sp prev')) prev' b nxt.
Proof using laws.
  destruct b as [|x b]; [done|]. intros [Hx Hnd]%NoDup_cons. simpl.
  intros [(n & Hn & _ & Hp) Hb]. split.
  - exists (sp prev' n). rewrite lookup_alter_eq, Hn. split; [done|].
    by rewrite (pv_sp laws), (nx_sp laws).
  - eapply seg_ext; [|done]. intros l Hl. apply lookup_alter_ne. congruence.
Qed.

(** Joining two segments: the last node of [a] is made to point to the
    first node of [b] and back; the node at either end keeps NULL. *)
Lemma seg_join h prev nxt a (b : list loc) p q :
  NoDup (a ++ b) →
  seg h prev a p → seg h q b nxt →
  seg (upd (upd h (last a) (sn (first_of b nxt))) (head b) (sp (last_of prev a)))
      prev (a ++ b) nxt.
Proof using laws.
  intros (Ha & Hdis & Hb)%NoDup_app Hsa Hsb. apply seg_app. split.
  - eapply seg_ext; [|by eapply seg_set_next].
    intros l Hl. apply upd_ne. intros [= E].
    apply (Hdis l Hl). destruct b; simplify_eq/=. by left.
  - eapply (seg_set_prev _ q); [done|]. eapply seg_ext; [|exact Hsb].
    intros l Hl. apply upd_ne. intros E. apply last_Some in E as [a' ->].
    apply (Hdis l); [|done]. apply elem_of_app. right. by left.
Qed.

(** Taking [l] out of a chain. *)
Lemma chain_unlink h a l (b : list loc) :
  NoDup (a ++ l :: b) → seg h None (a ++ l :: b) None →
  seg (upd (upd h (last a) (sn (head b))) (head b) (sp (last a))) None (a ++ b) None.
Proof using laws.
  intros Hnd [Hsa [_ Hsb]]%seg_app. simpl in Hsb.
  rewrite <- (first_of_None b) at 1. rewrite <- (last_of_None a) at 2.
  eapply seg_join; [|done|done].
  apply NoDup_app in Hnd as (? & Hdis & [_ ?]%NoDup_cons).
  apply NoDup_app. split_and!; [done| |done].
  intros x Hx Hx'. apply (Hdis x Hx). by right.
Qed.

(** Putting a node [l] whose links are already set between two parts. *)
Lemma chain_link h a l (b : list loc) n :
  NoDup (a ++ l :: b) → seg h None (a ++ b) None →
  h !! l = Some n → pv n = last a → nx n = head b →
  seg (upd (upd h (last a) (sn (Some l))) (head b) (sp (Some l))) None (a ++ l :: b) None.
Proof using laws.
  intros Hnd [Hsa Hsb]%seg_app Hl Hp Hn.
  apply NoDup_app in Hnd as (Ha & Hdis & [Hlb Hb]%NoDup_cons).
  assert (Hla : l ∉ a) by (intros Hin; apply (Hdis l Hin); by left).
  apply seg_app. split; [|simpl; split].
  - eapply seg_ext; [|by eapply seg_set_next]. intros x Hx. apply upd_ne.
    intros E. apply (Hdis x Hx). destruct b; simplify_eq/=. right. by left.
  - exists n. rewrite last_of_None, first_of_None. split_and!; [|done..].
    rewrite upd_ne; [rewrite upd_ne; [done|]|].
    + intros [a' ->]%last_Some. apply Hla. apply elem_of_app. right. by left.
    + intros E. destruct b; simplify_eq/=. apply Hlb. by left.
  - eapply (seg_set_prev _ (last_of None a)); [done|].
    eapply seg_ext; [|exact Hsb]. intros x Hx. apply upd_ne.
    intros [a' ->]%last_Some. apply (Hdis x); [|by right].
    apply elem_of_app. right. by left.
Qed.
End laws.
End chain.

Arguments upd {B} h p f.
#[export] Hint Resolve seg_lookup : relay.
