(* ===== verification/LinkedList.v ===== *)
(** * The doubly linked list of [src/infra/stl.c]

    A [LinkedList] owns its nodes: they are kept in a store of the list, so
    that [malloc] and [free] of a node, and every access through a pointer,
    are visible.  [ll_rep] is the abstraction to the list of (address, data)
    pairs the chain runs through. *)

From S2P Require Import Prelude DoublyLinked.

Module LinkedList.

Record LinkedNode (A : Type) := MkNode {
  data : A;
  prev : option loc;
  next : option loc;
}.
Arguments MkNode {A} data prev next.
Arguments data {A} l.
Arguments prev {A} l.
Arguments next {A} l.

Record LinkedList (A : Type) := MkList {
  ll_head : option loc;
  ll_tail : option loc;
  ll_size : Z;
  nodes : Store (LinkedNode A);
}.
Arguments MkList {A} ll_head ll_tail ll_size nodes.
Arguments ll_head {A} l.
Arguments ll_tail {A} l.
Arguments ll_size {A} l.
Arguments nodes {A} l.

Definition set_prev {A} (p : option loc) (n : LinkedNode A) : LinkedNode A :=
  MkNode (data n) p (next n).
Definition set_next {A} (p : option loc) (n : LinkedNode A) : LinkedNode A :=
  MkNode (data n) (prev n) p.

(** [p->prev = q] and [p->next = q] *)
Definition write_prev {A} (s : Store (LinkedNode A)) (p : loc) (q : option loc) :
    Res (Store (LinkedNode A)) :=
  n ← load s p; store s p (set_prev q n).
Definition write_next {A} (s : Store (LinkedNode A)) (p : loc) (q : option loc) :
    Res (Store (LinkedNode A)) :=
  n ← load s p; store s p (set_next q n).

Definition sizeof_LinkedNode : Z := 24.
Definition sizeof_LinkedList : Z := 24.

Section linked_list.
Context `{Allocator} {A : Type}.
Implicit Types (lst : LinkedList A) (x : A).

Definition linked_node_create x (s : Store (LinkedNode A)) :
    option (loc * Store (LinkedNode A)) :=
  if malloc_ok sizeof_LinkedNode then Some (alloc (MkNode x None None) s) else None.

Definition linked_list_create : option (LinkedList A) :=
  if malloc_ok sizeof_LinkedList then Some (MkList None None 0 empty_store) else None.

Definition linked_list_addFirst lst x : Res (LinkedList A) :=
  match linked_node_create x (nodes lst) with
  | None => Ret lst
  | Some (node, s) =>
      s ← write_next s node (ll_head lst);
      '(s, tail) ← match ll_head lst with
        | Some h => s ← write_prev s h (Some node); Ret (s, ll_tail lst)
        | None => Ret (s, Some node)
        end;
      Ret (MkList (Some node) tail (ll_size lst + 1) s)
  end.

Definition linked_list_addLast lst x : Res (LinkedList A) :=
  match linked_node_create x (nodes lst) with
  | None => Ret lst
  | Some (node, s) =>
      s ← write_prev s node (ll_tail lst);
      '(s, hd) ← match ll_tail lst with
        | Some t => s ← write_next s t (Some node); Ret (s, ll_head lst)
        | None => Ret (s, Some node)
        end;
      Ret (MkList hd (Some node) (ll_size lst + 1) s)
  end.

(** Take the node [p], whose contents are [n], out of the chain and free it:
    the body of the [if] of [linked_list_remove], which [hash_map_remove]
    repeats. *)
Definition unlink_node lst (p : loc) (n : LinkedNode A) : Res (LinkedList A) :=
  '(s, hd) ← match prev n with
    | Some q => s ← write_next (nodes lst) q (next n); Ret (s, ll_head lst)
    | None => Ret (nodes lst, next n)
    end;
  '(s, tl) ← match next n with
    | Some q => s ← write_prev s q (prev n); Ret (s, ll_tail lst)
    | None => Ret (s, prev n)
    end;
  s ← free s p;
  Ret (MkList hd tl (ll_size lst - 1) s).

(** The traversals follow [next] pointers; a chain has fewer nodes than the
    fuel, which is one more than the number of nodes allocated. *)
Definition chain_fuel lst : nat := S (map_size (cells (nodes lst))).

Fixpoint remove_loop (fuel : nat) (comparator : A → A → Res Z) x
    (node : option loc) lst : Res (LinkedList A) :=
  match node with
  | None => Ret lst
  | Some p =>
      match fuel with
      | O => OutOfFuel
      | S fuel =>
          n ← load (nodes lst) p;
          c ← comparator (data n) x;
          lst ← (if c =? 0 then unlink_node lst p n else Ret lst);
          remove_loop fuel comparator x (next n) lst
      end
  end.

Definition linked_list_remove lst x (comparator : A → A → Res Z) : Res (LinkedList A) :=
  remove_loop (chain_fuel lst) comparator x (ll_head lst) lst.

Definition linked_list_is_empty (lst : option (LinkedList A)) : bool :=
  match lst with None => true | Some lst => ll_size lst =? 0 end.

Fixpoint foreach_loop {S} (fuel : nat) (consumer : A → S → Res S)
    (node : option loc) lst (st : S) : Res S :=
  match node with
  | None => Ret st
  | Some p =>
      match fuel with
      | O => OutOfFuel
      | Datatypes.S fuel =>
          n ← load (nodes lst) p;
          st ← consumer (data n) st;
          foreach_loop fuel consumer (next n) lst st
      end
  end.

(** The consumer acts on a state of its own. *)
Definition linked_list_foreach {S} lst (consumer : A → S → Res S) (st : S) : Res S :=
  foreach_loop (chain_fuel lst) consumer (ll_head lst) lst st.

Fixpoint clear_loop (fuel : nat) (node : option loc) (s : Store (LinkedNode A)) :
    Res (Store (LinkedNode A)) :=
  match node with
  | None => Ret s
  | Some p =>
      match fuel with
      | O => OutOfFuel
      | S fuel => n ← load s p; s ← free s p; clear_loop fuel (next n) s
      end
  end.

Definition linked_list_clear lst : Res (LinkedList A) :=
  s ← clear_loop (chain_fuel lst) (ll_head lst) (nodes lst);
  Ret (MkList None None 0 s).

(** What is left of the nodes once the list is gone. *)
Definition linked_list_free (lst : option (LinkedList A)) : Res (Store (LinkedNode A)) :=
  match lst with
  | None => Ret empty_store
  | Some lst => lst ← linked_list_clear lst; Ret (nodes lst)
  end.

(** ** Abstraction *)

Record ll_rep lst (cs : list (loc * A)) : Prop := {
  ll_rep_head : ll_head lst = head cs.*1;
  ll_rep_tail : ll_tail lst = last cs.*1;
  ll_rep_size : ll_size lst = Z.of_nat (length cs);
  ll_rep_seg : seg prev next (cells (nodes lst)) None cs.*1 None;
  ll_rep_nodup : NoDup cs.*1;
  ll_rep_data : Forall (λ c, data <$> cells (nodes lst) !! c.1 = Some c.2) cs;
  ll_rep_dom : dom (cells (nodes lst)) = list_to_set cs.*1;
  ll_rep_wf : store_wf (nodes lst);
}.

Lemma node_laws : link_laws (B := LinkedNode A) prev next set_prev set_next data.
Proof. by split. Qed.

Lemma write_prev_upd (s : Store (LinkedNode A)) p q n :
  cells s !! p = Some n →
  write_prev s p q = Ret (MkStore (upd (cells s) (Some p) (set_prev q)) (brk s)).
Proof.
  intros E. unfold write_prev. rewrite (load_Some _ _ _ E). simpl.
  by rewrite (upd_store s p n (set_prev q) E).
Qed.

Lemma write_next_upd (s : Store (LinkedNode A)) p q n :
  cells s !! p = Some n →
  write_next s p q = Ret (MkStore (upd (cells s) (Some p) (set_next q)) (brk s)).
Proof.
  intros E. unfold write_next. rewrite (load_Some _ _ _ E). simpl.
  by rewrite (upd_store s p n (set_next q) E).
Qed.

Definition data_at (h : gmap loc (LinkedNode A)) (c : loc * A) : Prop :=
  data <$> h !! c.1 = Some c.2.

Lemma data_at_upd_prev h p q c : data_at (upd h p (set_prev q)) c ↔ data_at h c.
Proof. unfold data_at. by rewrite upd_data. Qed.
Lemma data_at_upd_next h p q c : data_at (upd h p (set_next q)) c ↔ data_at h c.
Proof. unfold data_at. by rewrite upd_data. Qed.

Lemma store_eta (s : Store (LinkedNode A)) : MkStore (cells s) (brk s) = s.
Proof. by destruct s. Qed.

Lemma upd_is_Some (h : gmap loc (LinkedNode A)) p f l :
  is_Some (h !! l) → is_Some (upd h p f !! l).
Proof. rewrite <- !elem_of_dom, upd_dom. done. Qed.

Lemma store_wf_upd (s : Store (LinkedNode A)) p f :
  store_wf s → store_wf (MkStore (upd (cells s) p f) (brk s)).
Proof.
  intros Hwf l. simpl. rewrite <- elem_of_dom, upd_dom, elem_of_dom. apply Hwf.
Qed.

Lemma last_elem (ls : list loc) l : last ls = Some l → l ∈ ls.
Proof. intros [ls' ->]%last_Some. apply elem_of_app. right. by left. Qed.
Lemma head_elem (ls : list loc) l : head ls = Some l → l ∈ ls.
Proof. destruct ls; [done|]. intros [= ->]. by left. Qed.

(** What the traversal sees at a node. *)
Lemma ll_rep_mid lst pre p x post :
  ll_rep lst (pre ++ (p, x) :: post) →
  cells (nodes lst) !! p = Some (MkNode x (last pre.*1) (head post.*1)).
Proof.
  intros Hr. pose proof (ll_rep_seg _ _ Hr) as Hseg. rewrite fmap_app, fmap_cons in Hseg.
  apply seg_mid in Hseg as (n & Hn & Hp & Hx).
  pose proof (ll_rep_data _ _ Hr) as Hd.
  apply Forall_app in Hd as [_ [Hd _]%Forall_cons].
  cbn [fst snd] in *. rewrite Hn in Hd |- *. injection Hd as Hd.
  destruct n as [d q r]. cbn [data prev next] in *. by rewrite Hd, Hp, Hx.
Qed.

(** The data of a node changed in place. *)
Lemma ll_rep_set_data lst pre p x y post :
  ll_rep lst (pre ++ (p, x) :: post) →
  ∃ s, store (nodes lst) p (MkNode y (last pre.*1) (head post.*1)) = Ret s ∧
    ll_rep (MkList (ll_head lst) (ll_tail lst) (ll_size lst) s) (pre ++ (p, y) :: post).
Proof.
  intros Hr. pose proof (ll_rep_mid _ _ _ _ _ Hr) as Hp. rewrite (store_Some _ _ _ _ Hp).
  assert (Hfst : (pre ++ (p, y) :: post).*1 = (pre ++ (p, x) :: post).*1)
    by (by rewrite !fmap_app).
  pose proof (ll_rep_nodup _ _ Hr) as Hnd.
  eexists. split; [done|]. split; simpl; rewrite ?Hfst; try apply Hr.
  - rewrite (ll_rep_size _ _ Hr), !length_app. done.
  - eapply seg_links; [|apply Hr]. intros l n Hl.
    destruct (decide (l = p)) as [->|]; [|rewrite lookup_insert_ne by done; eauto].
    rewrite lookup_insert_eq. eexists. split; [done|]. rewrite Hp in Hl. by injection Hl as <-.
  - pose proof (ll_rep_data _ _ Hr) as Hd.
    rewrite fmap_app, fmap_cons, NoDup_app, NoDup_cons in Hnd.
    destruct Hnd as (_ & Hdis & Hpost & _). cbn [fst] in *.
    assert (Hold : ∀ c, c.1 ≠ p → data_at (cells (nodes lst)) c →
      data_at (<[p := MkNode y (last pre.*1) (head post.*1)]> (cells (nodes lst))) c).
    { intros c Hc. unfold data_at. by rewrite lookup_insert_ne. }
    rewrite !Forall_forall in *. intros c [Hc|[->|Hc]%elem_of_cons]%elem_of_app.
    + apply Hold; [|apply Hd, elem_of_app; by left]. intros <-.
      apply (Hdis c.1); [by apply list_elem_of_fmap_2|by left].
    + simpl. by rewrite lookup_insert_eq.
    + apply Hold; [|apply Hd, elem_of_app; by right; right]. intros <-.
      by apply Hpost, list_elem_of_fmap_2.
  - rewrite dom_insert_lookup_L by eauto. apply Hr.
  - by apply store_wf_insert; [apply Hr|eauto].
Qed.

(** The nodes once [p], between [pre] and [post], is out of the chain. *)
Definition unlinked (h : gmap loc (LinkedNode A)) (p : loc) (pre post : list loc) :
    gmap loc (LinkedNode A) :=
  delete p (upd (upd h (last pre) (set_next (head post))) (head post) (set_prev (last pre))).

Lemma ll_rep_neighbour lst pre p x post l :
  ll_rep lst (pre ++ (p, x) :: post) → last pre.*1 = Some l ∨ head post.*1 = Some l →
  is_Some (cells (nodes lst) !! l).
Proof.
  intros Hr Hl. eapply seg_lookup; [apply Hr|].
  rewrite fmap_app, fmap_cons, elem_of_app, elem_of_cons.
  destruct Hl as [?|?]; [left; by apply last_elem|right; right; by apply head_elem].
Qed.

(** A link of a neighbour is written only if there is a neighbour; otherwise
    an end of the list moves. *)
Lemma write_next_opt {B} (s : Store (LinkedNode A)) p q (e e' : B) :
  (∀ l, p = Some l → is_Some (cells s !! l)) →
  match p with Some l => s ← write_next s l q; Ret (s, e) | None => Ret (s, e') end =
    Ret (MkStore (upd (cells s) p (set_next q)) (brk s), match p with Some _ => e | None => e' end).
Proof.
  intros Hp. destruct p as [l|]; [|simpl; by rewrite store_eta].
  destruct (Hp l eq_refl) as [n Hn]. by rewrite (write_next_upd _ _ _ _ Hn).
Qed.
Lemma write_prev_opt {B} (s : Store (LinkedNode A)) p q (e e' : B) :
  (∀ l, p = Some l → is_Some (cells s !! l)) →
  match p with Some l => s ← write_prev s l q; Ret (s, e) | None => Ret (s, e') end =
    Ret (MkStore (upd (cells s) p (set_prev q)) (brk s), match p with Some _ => e | None => e' end).
Proof.
  intros Hp. destruct p as [l|]; [|simpl; by rewrite store_eta].
  destruct (Hp l eq_refl) as [n Hn]. by rewrite (write_prev_upd _ _ _ _ Hn).
Qed.

Lemma unlink_node_eval lst pre p x post :
  ll_rep lst (pre ++ (p, x) :: post) →
  unlink_node lst p (MkNode x (last pre.*1) (head post.*1)) =
    Ret (MkList (head (pre ++ post).*1) (last (pre ++ post).*1) (ll_size lst - 1)
          (MkStore (unlinked (cells (nodes lst)) p pre.*1 post.*1) (brk (nodes lst)))).
Proof.
  intros Hr. pose proof (λ l, ll_rep_neighbour _ _ _ _ _ l Hr) as Hin. pose proof (ll_rep_mid _ _ _ _ _ Hr) as Hn.
  unfold unlink_node. cbn [prev next]. rewrite write_next_opt by eauto. cbn [mbind Res_bind].
  rewrite write_prev_opt by (intros l Hl; apply upd_is_Some; eauto). cbn [mbind Res_bind cells brk].
  edestruct (upd_is_Some (cells (nodes lst)) (last pre.*1) (set_next (head post.*1)) p)
    as [n Hn1]; [by eexists|].
  destruct (upd_is_Some _ (head post.*1) (set_prev (last pre.*1)) p (ex_intro _ n Hn1)) as [n2 Hn2].
  erewrite free_Some by exact Hn2. cbn [mbind Res_bind cells brk]. fold (unlinked (cells (nodes lst)) p pre.*1 post.*1).
  f_equal. f_equal.
  - rewrite (ll_rep_head _ _ Hr), !fmap_app. destruct pre as [|c pre]; [done|].
    rewrite fmap_cons, last_cons. by destruct (last pre.*1).
  - rewrite (ll_rep_tail _ _ Hr), !fmap_app, !last_app, fmap_cons, last_cons.
    destruct post as [|c post]; [done|]. rewrite fmap_cons, last_cons. by destruct (last post.*1).
Qed.

Lemma ll_rep_unlinked lst pre p x post :
  ll_rep lst (pre ++ (p, x) :: post) →
  ll_rep (MkList (head (pre ++ post).*1) (last (pre ++ post).*1) (ll_size lst - 1)
    (MkStore (unlinked (cells (nodes lst)) p pre.*1 post.*1) (brk (nodes lst)))) (pre ++ post).
Proof.
  intros Hr. pose proof (ll_rep_nodup _ _ Hr) as Hnd.
  rewrite fmap_app, fmap_cons in Hnd. apply nodup_mid in Hnd as [Hnd Hp]. cbn [fst] in Hp.
  rewrite <- fmap_app in Hnd, Hp.
  split; simpl; try done.
  - rewrite (ll_rep_size _ _ Hr), !length_app. simpl. lia.
  - eapply seg_ext; [|rewrite fmap_app; eapply chain_unlink; [apply node_laws| |]].
    + intros l Hl. unfold unlinked. rewrite lookup_delete_ne; [done|]. intros <-. done.
    + pose proof (ll_rep_nodup _ _ Hr) as Hn. by rewrite fmap_app in Hn.
    + pose proof (ll_rep_seg _ _ Hr) as Hs. by rewrite fmap_app in Hs.
  - apply Forall_forall. intros c Hc. unfold unlinked. rewrite lookup_delete_ne.
    2: { intros ->. apply Hp. apply list_elem_of_fmap. eauto. }
    apply data_at_upd_prev, data_at_upd_next, (proj1 (Forall_forall _ _) (ll_rep_data _ _ Hr)).
    apply elem_of_app in Hc as [?|?]; apply elem_of_app; [by left|right; by right].
  - unfold unlinked. rewrite dom_delete_L, !upd_dom, (ll_rep_dom _ _ Hr). apply set_eq. intros l.
    rewrite fmap_app, not_elem_of_app in Hp.
    rewrite elem_of_difference, !elem_of_list_to_set, !fmap_app, fmap_cons, !elem_of_app,
      elem_of_cons, elem_of_singleton. cbn [fst].
    destruct (decide (l = p)) as [->|]; tauto.
  - apply (store_wf_delete (MkStore _ (brk (nodes lst))) p), (store_wf_upd (MkStore (upd _ _ _) _)).
    by apply store_wf_upd, Hr.
Qed.

Lemma unlink_node_spec lst pre p x post :
  ll_rep lst (pre ++ (p, x) :: post) →
  ∃ lst', unlink_node lst p (MkNode x (last pre.*1) (head post.*1)) = Ret lst' ∧
    ll_rep lst' (pre ++ post).
Proof. eauto using unlink_node_eval, ll_rep_unlinked. Qed.

Lemma ll_rep_create lst : linked_list_create = Some lst → ll_rep lst [].
Proof.
  unfold linked_list_create. case_match; [|done]. intros [= <-].
  split; simpl; try done; [by apply NoDup_nil|apply store_wf_empty].
Qed.

Lemma ll_rep_fresh lst cs : ll_rep lst cs → brk (nodes lst) ∉ cs.*1.
Proof.
  intros Hr Hin.
  assert (Hd : brk (nodes lst) ∈ dom (cells (nodes lst)))
    by (rewrite (ll_rep_dom _ _ Hr); by apply elem_of_list_to_set).
  apply elem_of_dom in Hd as [n Hn].
  by rewrite (store_wf_fresh _ (ll_rep_wf _ _ Hr)) in Hn.
Qed.

(** A new node linked between the two parts of the chain represents the
    list with its data in the middle; both insertions are instances. *)
Lemma link_node_spec lst pre post x hd' tl' :
  ll_rep lst (pre ++ post) →
  let p := brk (nodes lst) in
  let h := <[p := MkNode x (last pre.*1) (head post.*1)]> (cells (nodes lst)) in
  hd' = head (pre ++ (p, x) :: post).*1 → tl' = last (pre ++ (p, x) :: post).*1 →
  ll_rep (MkList hd' tl' (ll_size lst + 1)
    (MkStore (upd (upd h (last pre.*1) (set_next (Some p))) (head post.*1)
                  (set_prev (Some p))) (Pos.succ p)))
    (pre ++ (p, x) :: post).
Proof.
  intros Hr p h -> ->. pose proof (ll_rep_fresh _ _ Hr) as Hp. fold p in Hp.
  pose proof (ll_rep_nodup _ _ Hr) as Hnd.
  assert (Hnd' : NoDup (pre.*1 ++ p :: post.*1)).
  { rewrite <- Permutation_middle. apply NoDup_cons. by rewrite <- fmap_app. }
  split; simpl; try done.
  - rewrite (ll_rep_size _ _ Hr), !length_app. simpl. lia.
  - rewrite fmap_app, fmap_cons.
    eapply chain_link; [apply node_laws|done| |apply lookup_insert_eq|done|done].
    rewrite <- fmap_app. eapply seg_ext; [|apply (ll_rep_seg _ _ Hr)].
    intros l Hl. apply lookup_insert_ne. congruence.
  - by rewrite fmap_app, fmap_cons.
  - assert (Hold : Forall (data_at h) (pre ++ post)).
    { apply Forall_forall. intros c Hc. unfold data_at, h. rewrite lookup_insert_ne.
      - by apply (proj1 (Forall_forall _ _) (ll_rep_data _ _ Hr)).
      - intros E. apply Hp. rewrite E. apply list_elem_of_fmap. eauto. }
    assert (Hnew : data_at h (p, x)) by (unfold data_at, h; simpl; by rewrite lookup_insert_eq).
    apply (Forall_impl (data_at h)); [|intros c ?; by apply data_at_upd_prev, data_at_upd_next].
    apply Forall_app in Hold as [? ?]. apply Forall_app. split; [done|]. by apply Forall_cons.
  - rewrite !upd_dom. unfold h. rewrite dom_insert_L, (ll_rep_dom _ _ Hr).
    apply set_eq. intros l. rewrite elem_of_union, elem_of_singleton, !elem_of_list_to_set.
    rewrite !fmap_app, !elem_of_app. simpl. rewrite elem_of_cons. tauto.
  - change (Pos.succ p) with (brk (MkStore h (Pos.succ p))).
    apply (store_wf_upd (MkStore (upd h _ _) _)), (store_wf_upd (MkStore h _)).
    apply (store_wf_alloc (nodes lst) (MkNode x (last pre.*1) (head post.*1))), Hr.
Qed.

Lemma linked_list_addFirst_spec lst cs x :
  ll_rep lst cs → malloc_ok sizeof_LinkedNode = true →
  ∃ lst' p, linked_list_addFirst lst x = Ret lst' ∧ ll_rep lst' ((p, x) :: cs).
Proof.
  intros Hr Hok. pose proof (ll_rep_head _ _ Hr) as Hhd.
  pose proof (ll_rep_seg _ _ Hr) as Hseg. pose proof (ll_rep_fresh _ _ Hr) as Hp.
  pose proof (link_node_spec lst [] cs x _ _ Hr eq_refl eq_refl) as Hlink.
  cbn [fmap list_fmap last upd] in Hlink. rewrite <- Hhd in Hlink.
  eexists _, (brk (nodes lst)). split; [|exact Hlink].
  unfold linked_list_addFirst, linked_node_create, alloc. rewrite Hok.
  rewrite (write_next_upd _ _ _ (MkNode x None None)) by apply lookup_insert_eq.
  cbn [mbind Res_bind upd cells brk]. rewrite alter_insert_eq. unfold set_next at 1.
  destruct (ll_head lst) as [h|] eqn:Eh.
  - assert (Hh : h ∈ cs.*1) by (apply head_elem; done).
    destruct (seg_lookup _ _ _ _ _ _ h Hseg Hh) as [n Hn].
    rewrite (write_prev_upd _ h _ n).
    2: { simpl. rewrite lookup_insert_ne; [done|congruence]. }
    simpl. rewrite (ll_rep_tail _ _ Hr). by destruct cs.
  - simpl. by destruct cs.
Qed.

Lemma linked_list_addLast_spec lst cs x :
  ll_rep lst cs → malloc_ok sizeof_LinkedNode = true →
  ∃ lst' p, linked_list_addLast lst x = Ret lst' ∧ ll_rep lst' (cs ++ [(p, x)]).
Proof.
  intros Hr Hok. pose proof (ll_rep_tail _ _ Hr) as Htl.
  pose proof (ll_rep_seg _ _ Hr) as Hseg. pose proof (ll_rep_fresh _ _ Hr) as Hp.
  pose proof Hr as Hr'. rewrite <- (app_nil_r cs) in Hr'.
  pose proof (link_node_spec lst cs [] x _ _ Hr' eq_refl eq_refl) as Hlink.
  change (head ([] : list (loc * A)).*1) with (@None loc) in Hlink.
  cbn [upd] in Hlink. rewrite <- Htl in Hlink.
  eexists _, (brk (nodes lst)). split; [|exact Hlink].
  unfold linked_list_addLast, linked_node_create, alloc. rewrite Hok.
  rewrite (write_prev_upd _ _ _ (MkNode x None None)) by apply lookup_insert_eq.
  cbn [mbind Res_bind upd cells brk]. rewrite alter_insert_eq. unfold set_prev at 1.
  assert (Hlast : last (cs ++ [(brk (nodes lst), x)]).*1 = Some (brk (nodes lst)))
    by (rewrite fmap_app; apply last_snoc).
  rewrite Hlast. destruct (ll_tail lst) as [t|] eqn:Et.
  - assert (Ht : t ∈ cs.*1) by (apply last_elem; done).
    destruct (seg_lookup _ _ _ _ _ _ t Hseg Ht) as [n Hn].
    rewrite (write_next_upd _ t _ n).
    2: { simpl. rewrite lookup_insert_ne; [done|congruence]. }
    simpl. rewrite (ll_rep_head _ _ Hr). by destruct cs.
  - simpl. assert (cs = []) as ->; [|done].
    symmetry in Htl. apply last_None in Htl. by apply fmap_nil_inv in Htl.
Qed.

Lemma addFirst_refused lst x :
  malloc_ok sizeof_LinkedNode = false → linked_list_addFirst lst x = Ret lst.
Proof. intros E. unfold linked_list_addFirst, linked_node_create. by rewrite E. Qed.

Lemma addLast_refused lst x :
  malloc_ok sizeof_LinkedNode = false → linked_list_addLast lst x = Ret lst.
Proof. intros E. unfold linked_list_addLast, linked_node_create. by rewrite E. Qed.

Lemma chain_fuel_length lst cs : ll_rep lst cs → chain_fuel lst = S (length cs).
Proof.
  intros Hr. unfold chain_fuel. f_equal.
  change (map_size (cells (nodes lst))) with (size (cells (nodes lst))).
  rewrite <- (size_dom (D := gset loc)), (ll_rep_dom _ _ Hr).
  rewrite size_list_to_set by apply Hr. by rewrite length_fmap.
Qed.

(** Traversal lemmas: with the chain cut at the current node, [fuel] larger
    than the rest reaches the end. *)
Lemma remove_loop_spec fuel (comparator : A → A → Res Z) (cmp : A → Z) x done todo lst :
  (∀ y, comparator y x = Ret (cmp y)) →
  ll_rep lst (done ++ todo) → (length todo < fuel)%nat →
  ∃ lst', remove_loop fuel comparator x (head todo.*1) lst = Ret lst' ∧
    ll_rep lst' (done ++ filter (λ c, cmp c.2 ≠ 0) todo).
Proof.
  intros Hcmp. revert done todo lst.
  induction fuel as [|fuel IH]; intros pre todo lst Hr Hf; [lia|].
  destruct todo as [|[p y] todo]; [by exists lst|]. simpl in Hf.
  cbn [remove_loop fmap list_fmap head fst].
  rewrite (load_Some _ _ _ (ll_rep_mid _ _ _ _ _ Hr)). cbn [mbind Res_bind data next].
  rewrite Hcmp. cbn [mbind Res_bind]. rewrite filter_cons. cbn [snd].
  destruct (cmp y =? 0) eqn:E; bools.
  - destruct (unlink_node_spec _ _ _ _ _ Hr) as (lst1 & -> & Hr1).
    cbn [mbind Res_bind]. rewrite decide_False by lia. apply IH; [done|lia].
  - cbn [mbind Res_bind]. rewrite decide_True by done.
    rewrite (cons_middle (p, y)), app_assoc in Hr |- *. apply IH; [done|lia].
Qed.

Lemma foreach_loop_spec {S} fuel (consumer : A → S → Res S) pre todo lst st :
  ll_rep lst (pre ++ todo) → (length todo < fuel)%nat →
  foreach_loop fuel consumer (head todo.*1) lst st =
    foldl (λ r x, r ≫= consumer x) (Ret st) todo.*2.
Proof.
  revert pre todo st. induction fuel as [|fuel IH]; intros pre todo st Hr Hf; [lia|].
  destruct todo as [|[p y] todo]; [done|]. simpl in Hf.
  cbn [foreach_loop fmap list_fmap head fst snd foldl].
  rewrite (load_Some _ _ _ (ll_rep_mid _ _ _ _ _ Hr)). cbn [mbind Res_bind data next].
  rewrite (cons_middle (p, y)), app_assoc in Hr.
  destruct (consumer y st) as [st'| |] eqn:E; cbn [mbind Res_bind].
  - rewrite (IH _ _ _ Hr) by lia. done.
  - clear. by induction todo.*2.
  - clear. by induction todo.*2.
Qed.

Lemma clear_loop_spec fuel s ls :
  NoDup ls → (∃ p0, seg prev next (cells s) p0 ls None) → (length ls < fuel)%nat →
  ∃ s', clear_loop fuel (head ls) s = Ret s' ∧
    dom (cells s') = dom (cells s) ∖ list_to_set ls.
Proof.
  revert s ls. induction fuel as [|fuel IH]; intros s ls Hnd [p0 Hs] Hf; [lia|].
  destruct ls as [|l ls].
  { exists s. split; [done|]. simpl. by rewrite difference_empty_L. }
  simpl in *. destruct Hs as [(n & Hn & _ & Hnx) Hs]. apply NoDup_cons in Hnd as [Hl Hnd].
  rewrite (load_Some _ _ _ Hn). simpl. rewrite (free_Some _ _ _ Hn). simpl.
  rewrite Hnx, first_of_None.
  destruct (IH (MkStore (delete l (cells s)) (brk s)) ls) as (s' & -> & Hdom); [done| |lia|].
  { exists (Some l). eapply seg_ext; [|exact Hs]. intros l' Hl'.
    apply lookup_delete_ne. congruence. }
  exists s'. split; [done|]. rewrite Hdom. simpl. rewrite dom_delete_L. set_solver.
Qed.

Lemma linked_list_clear_spec lst cs :
  ll_rep lst cs →
  ∃ lst', linked_list_clear lst = Ret lst' ∧ cells (nodes lst') = ∅ ∧
    ll_head lst' = None ∧ ll_tail lst' = None ∧ ll_size lst' = 0.
Proof.
  intros Hr. unfold linked_list_clear. rewrite (chain_fuel_length _ _ Hr), (ll_rep_head _ _ Hr).
  destruct (clear_loop_spec (S (length cs)) (nodes lst) cs.*1) as (s' & -> & Hdom);
    [apply Hr|exists None; apply Hr|rewrite length_fmap; lia|].
  eexists. split; [done|]. split_and!; try done. simpl.
  apply dom_empty_inv_L. rewrite Hdom, (ll_rep_dom _ _ Hr). set_solver.
Qed.

Lemma linked_list_free_spec lst cs :
  ll_rep lst cs → ∃ s, linked_list_free (Some lst) = Ret s ∧ cells s = ∅.
Proof.
  intros Hr. cbn [linked_list_free].
  destruct (linked_list_clear_spec _ _ Hr) as (l' & -> & Hc & _). by exists (nodes l').
Qed.
End linked_list.

(** ** Properties *)

(** C34. The pointer-level list implements sequences: from a chain holding
    [xs], [addFirst] and [addLast] hold [x :: xs] and [xs ++ [x]], [remove]
    deletes every element the comparator equates with its argument and keeps
    the order of the others, [foreach] hands the elements to the consumer in
    order, [clear] frees every node exactly once and leaves an empty list, and
    [free] leaves no node.  No call follows a dangling or NULL pointer. *)
Theorem linked_list_refines_seq `{AllocTotal} {A S} (lst : LinkedList A) (cs : list (loc * A))
    (x : A) (comparator : A → A → Res Z) (cmp : A → Z) (consumer : A → S → Res S) (st : S) :
  ll_rep lst cs → (∀ y, comparator y x = Ret (cmp y)) →
  (∃ l' p, linked_list_addFirst lst x = Ret l' ∧ ll_rep l' ((p, x) :: cs)) ∧
  (∃ l' p, linked_list_addLast lst x = Ret l' ∧ ll_rep l' (cs ++ [(p, x)])) ∧
  (∃ l', linked_list_remove lst x comparator = Ret l' ∧
         ll_rep l' (filter (λ c, cmp c.2 ≠ 0) cs)) ∧
  linked_list_foreach lst consumer st = foldl (λ r y, r ≫= consumer y) (Ret st) cs.*2 ∧
  linked_list_is_empty (Some lst) = bool_decide (cs = []) ∧
  (∃ l', linked_list_clear lst = Ret l' ∧ cells (nodes l') = ∅ ∧ ll_head l' = None ∧
         ll_tail l' = None ∧ ll_size l' = 0) ∧
  (∃ s, linked_list_free (Some lst) = Ret s ∧ cells s = ∅).
Proof.
  intros Hr Hcmp. pose proof (malloc_total sizeof_LinkedNode) as Hok. split_and!.
  - by apply linked_list_addFirst_spec.
  - by apply linked_list_addLast_spec.
  - unfold linked_list_remove. rewrite (chain_fuel_length _ _ Hr), (ll_rep_head _ _ Hr).
    apply (remove_loop_spec _ _ cmp x []); [done|done|lia].
  - unfold linked_list_foreach. rewrite (chain_fuel_length _ _ Hr), (ll_rep_head _ _ Hr).
    apply (foreach_loop_spec _ _ []); [done|lia].
  - simpl. rewrite (ll_rep_size _ _ Hr). by destruct cs.
  - by eapply linked_list_clear_spec.
  - by eapply linked_list_free_spec.
Qed.

Definition demo_chain : Res (LinkedList Z) :=
  match @linked_list_create always Z with
  | Some l => l ← @linked_list_addLast always _ l 4; @linked_list_addLast always _ l 5
  | None => UB
  end.

Lemma linked_list_refines_seq_witness :
  ∃ l, demo_chain = Ret l ∧ ll_rep l [(1%positive, 4); (2%positive, 5)] ∧
  ∃ l', @linked_list_remove _ l 4 (λ a b, Ret (a - b)) = Ret l' ∧ ll_rep l' [(2%positive, 5)].
Proof.
  eexists. split; [vm_compute; reflexivity|].
  match goal with |- ll_rep ?l ?cs ∧ _ => assert (Hr : ll_rep l cs) end.
  { split; [reflexivity|reflexivity|reflexivity| |by_compute|by_compute|by_compute|].
    - simpl. split; [eexists; split; [reflexivity|done]|].
      split; [eexists; split; [reflexivity|done]|done].
    - apply store_wf_check. by_compute. }
  split; [exact Hr|].
  exact (proj1 (proj2 (proj2 (@linked_list_refines_seq always always_total Z unit _ _ 4
    (λ a b, Ret (a - b)) (λ a, a - 4) (λ _ s, Ret s) tt Hr (λ _, eq_refl))))).
Defined.

End LinkedList.
