(* ===== verification/MapInterface.v ===== *)
(** * What the rest of the program asks of a hash table

    [MapOps] are the operations of [HashMap] its clients call and [MapLaws] the
    contract they rely on: a new table is empty, a table represents a finite
    map, a lookup reads it, a put or a remove updates it, the return codes say
    whether the key was there.  The lazy heap, the session tables and the cache
    are verified against this interface; [HashMap.v] discharges it for the two
    pairs of key functions the program uses. *)

From S2P Require Import Prelude.

Class MapOps (K V M : Type) := {
  (** [hash_map_create] with the key functions of the client *)
  map_create : Res (option M);
  (** [None] when the code returns 1 and leaves the result untouched *)
  map_get : M → K → Res (option V);
  (** the return code, and the table after the call *)
  map_put : M → K → V → Res (Z * M);
  map_remove : M → K → Res M;
  map_free : M → Res unit;
}.

Class MapLaws (K V M : Type) `{MapOps K V M, Countable K} := {
  map_rep : M → gmap K V → Prop;
  map_create_spec : ∃ m, map_create = Ret (Some m) ∧ map_rep m ∅;
  map_get_spec m mm k : map_rep m mm → map_get m k = Ret (mm !! k);
  map_put_spec m mm k v :
    map_rep m mm →
    ∃ m', map_put m k v = Ret (if decide (is_Some (mm !! k)) then 1 else 0, m') ∧
          map_rep m' (<[k := v]> mm);
  map_remove_spec m mm k :
    map_rep m mm → ∃ m', map_remove m k = Ret m' ∧ map_rep m' (delete k mm);
  map_free_spec m mm : map_rep m mm → map_free m = Ret tt;
}.
