(* ===== verification/HashMap.v ===== *)
(** * The chained hash table of [src/infra/stl.c]

    A table is a [Vector] of buckets; a bucket is a [LinkedList] of entries.
    Entries are found by the bucket index of their key and the comparator.
    [hm_rep] relates a table to a finite map; the laws of [MapInterface] are
    proved for it. *)

From Stdlib Require Import SpecFloat.
From S2P Require Import Prelude Vector DoublyLinked LinkedList MapInterface.
Import Vector LinkedList.

Module HashMap.

(** ** The predefined hash and comparison functions of [stl.h]

    A C string is the list of its bytes before the terminating NUL. *)

(** [(int) key], for a 16-bit key *)
Definition hash_func_uint16 (key : Z) : Res Z := Ret (wrap_i32 key).

Definition hash_func_uint64 (key : Z) : Res Z :=
  let x := wrap_u64 key in
  let x := wrap_u64 (Z.lxor x (Z.shiftr x 30) * 0xbf58476d1ce4e5b9) in
  let x := wrap_u64 (Z.lxor x (Z.shiftr x 27) * 0x94d049bb133111eb) in
  let x := Z.lxor x (Z.shiftr x 31) in
  Ret (wrap_i32 x).

Definition compare_uint (a b : Z) : Res Z :=
  Ret (if a >? b then 1 else if a =? b then 0 else -1).

(** The accumulator is an [int]; it wraps as two's complement. *)
Definition hash_func_str (key : list Z) : Res Z :=
  Ret (fold_left (λ hash c, wrap_i32 (wrap_i32 (wrap_i32 (Z.shiftl hash 5) + hash) + c))
         key 5381).

(** [strcmp] compares unsigned bytes, the end of a string being byte 0. *)
Fixpoint strcmp (a b : list Z) : Z :=
  match a, b with
  | [], [] => 0
  | [], _ :: _ => -1
  | _ :: _, [] => 1
  | x :: a, y :: b => if x =? y then strcmp a b else if x <? y then -1 else 1
  end.

(** [None] is the null pointer. *)
Definition compare_cstr (a b : option (list Z)) : Z :=
  match a, b with
  | None, None => 0
  | None, Some _ => -1
  | Some _, None => 1
  | Some a, Some b => strcmp a b
  end.

(** The comparator of the tables whose keys are strings. *)
Definition compare_str (a b : list Z) : Res Z := Ret (compare_cstr (Some a) (Some b)).

(** ** Data *)

Record HashMapEntry (K V : Type) := MkEntry { key : K; value : V }.
Arguments MkEntry {K V} key value.
Arguments key {K V} h.
Arguments value {K V} h.

Record HashMap (K V : Type) := MkHashMap {
  buckets : Vector (LinkedList (HashMapEntry K V));
  load_factor : spec_float;
  hash_function : K → Res Z;
  comparator : K → K → Res Z;
  hm_size : Z;
}.
Arguments MkHashMap {K V} buckets load_factor hash_function comparator hm_size.
Arguments buckets {K V} h.
Arguments load_factor {K V} h.
Arguments hash_function {K V} h.
Arguments comparator {K V} h.
Arguments hm_size {K V} h.

Definition HASH_MAP_INIT_BUCKETS : Z := 16.

(** binary32 arithmetic of the threshold: [(float) n] and [0.75f] *)
Definition float_of_int (n : Z) : spec_float := binary_normalize 24 128 n 0 false.
Definition HASH_MAP_DEFAULT_LOAD_FACTOR : spec_float := S754_finite false 12582912 (-24).
Definition float_mul : spec_float → spec_float → spec_float := SFmul 24 128.
Definition float_gt (a b : spec_float) : bool := SFltb b a.

Definition sizeof_HashMap : Z := 40.
Definition sizeof_HashMapEntry : Z := 16.

Section hash_map.
Context `{Allocator} {K V : Type}.
Abbreviation entry := (HashMapEntry K V).
Abbreviation bucket := (LinkedList (HashMapEntry K V)).
Implicit Types (m : HashMap K V) (k : K) (v : V).

Definition hash_map_entry_create k v : option entry :=
  if malloc_ok sizeof_HashMapEntry then Some (MkEntry k v) else None.

Definition hash_map_bucket_at m (index : Z) : Res (option bucket) :=
  vector_get (buckets m) index.

Definition hash_map_bucket_index m k (bucket_count : Z) : Res Z :=
  hash ← hash_function m k;
  let hash := if hash =? INT32_MIN then 0 else if hash <? 0 then - hash else hash in
  if bucket_count =? 0 then UB else Ret (Z.rem hash bucket_count).

Fixpoint find_loop (fuel : nat) (cmp : K → K → Res Z) (b : bucket)
    (node : option loc) k : Res (option loc) :=
  match node with
  | None => Ret None
  | Some p =>
      match fuel with
      | O => OutOfFuel
      | S fuel =>
          n ← load (nodes b) p;
          c ← cmp (key (data n)) k;
          if c =? 0 then Ret (Some p) else find_loop fuel cmp b (next n) k
      end
  end.

Definition hash_map_find_node m (b : option bucket) k : Res (option loc) :=
  match b with
  | None => Ret None
  | Some b => find_loop (chain_fuel b) (comparator m) b (ll_head b) k
  end.

(** A change made through a bucket pointer taken from cell [i]. *)
Definition set_bucket (bs : Vector bucket) (i : Z) (b : bucket) : Res (Vector bucket) :=
  cells' ← blit (elements bs) i [Some b];
  Ret (MkVector cells' (size bs) (capacity bs)).

(** The creation loops: [n] empty buckets appended to [bs]; [None] when a
    bucket is refused (the buckets made so far are freed). *)
Fixpoint add_buckets (n : nat) (bs : Vector bucket) : Res (option (Vector bucket)) :=
  match n with
  | O => Ret (Some bs)
  | S n =>
      match linked_list_create with
      | None => Ret None
      | Some b => bs ← vector_add bs b; add_buckets n bs
      end
  end.

(** The inner loop of the rehash: the entries from [node] on move to the
    buckets of [new_buckets]. *)
Fixpoint move_entries (fuel : nat) m (b : bucket) (node : option loc)
    (new_bucket_count : Z) (new_buckets : Vector bucket) : Res (Vector bucket) :=
  match node with
  | None => Ret new_buckets
  | Some p =>
      match fuel with
      | O => OutOfFuel
      | S fuel =>
          n ← load (nodes b) p;
          new_index ← hash_map_bucket_index m (key (data n)) new_bucket_count;
          dst ← vector_get new_buckets new_index;
          new_buckets ← match dst with
            | None => Ret new_buckets
            | Some d => d ← linked_list_addLast d (data n); set_bucket new_buckets new_index d
            end;
          move_entries fuel m b (next n) new_bucket_count new_buckets
      end
  end.

Fixpoint rehash (n : nat) (i : Z) m (new_bucket_count : Z) (new_buckets : Vector bucket) :
    Res (Vector bucket) :=
  match n with
  | O => Ret new_buckets
  | S n =>
      b ← vector_get (buckets m) i;
      b ← nonnull b;
      new_buckets ← move_entries (chain_fuel b) m b (ll_head b) new_bucket_count new_buckets;
      _ ← linked_list_free (Some b);
      rehash n (i + 1) m new_bucket_count new_buckets
  end.

Definition hash_map_resize m (new_bucket_count : Z) : Res (Z * HashMap K V) :=
  if new_bucket_count <=? 0 then Ret (0, m)
  else
    match vector_create new_bucket_count with
    | None => Ret (0, m)
    | Some new_buckets =>
        made ← add_buckets (Z.to_nat new_bucket_count) new_buckets;
        match made with
        | None => Ret (0, m)
        | Some new_buckets =>
            let old_bucket_count := vector_size (buckets m) in
            new_buckets ← rehash (Z.to_nat old_bucket_count) 0 m new_bucket_count new_buckets;
            Ret (1, MkHashMap new_buckets (load_factor m) (hash_function m)
                      (comparator m) (hm_size m))
        end
    end.

(** [None] as a function pointer is NULL; the result [None] is NULL. *)
Definition hash_map_create (hash_function : option (K → Res Z))
    (comparator : option (K → K → Res Z)) : Res (option (HashMap K V)) :=
  match hash_function, comparator with
  | Some h, Some c =>
      if negb (malloc_ok sizeof_HashMap) then Ret None
      else
        match vector_create HASH_MAP_INIT_BUCKETS with
        | None => Ret None
        | Some bs =>
            made ← add_buckets (Z.to_nat HASH_MAP_INIT_BUCKETS) bs;
            match made with
            | None => Ret None
            | Some bs => Ret (Some (MkHashMap bs HASH_MAP_DEFAULT_LOAD_FACTOR h c 0))
            end
        end
  | _, _ => Ret None
  end.

Fixpoint free_buckets (n : nat) (i : Z) m : Res unit :=
  match n with
  | O => Ret tt
  | S n =>
      b ← vector_get (buckets m) i;
      b ← nonnull b;
      (* the entries are freed in order, then the nodes *)
      _ ← linked_list_foreach b (λ _ u, Ret u) tt;
      _ ← linked_list_free (Some b);
      free_buckets n (i + 1) m
  end.

Definition hash_map_free m : Res unit :=
  free_buckets (Z.to_nat (vector_size (buckets m))) 0 m.

Definition hash_map_put m k v : Res (Z * HashMap K V) :=
  let bucket_count := vector_size (buckets m) in
  bucket_index ← hash_map_bucket_index m k bucket_count;
  b ← hash_map_bucket_at m bucket_index;
  node ← hash_map_find_node m b k;
  match node with
  | Some p =>
      b ← nonnull b;
      n ← load (nodes b) p;
      (* entry->data = data *)
      s ← store (nodes b) p (MkNode (MkEntry (key (data n)) v) (prev n) (next n));
      bs ← set_bucket (buckets m) bucket_index
             (MkList (ll_head b) (ll_tail b) (ll_size b) s);
      Ret (1, MkHashMap bs (load_factor m) (hash_function m) (comparator m) (hm_size m))
  | None =>
      match hash_map_entry_create k v with
      | None => Ret (1, m)
      | Some e =>
          bs ← match b with
            | None => Ret (buckets m)
            | Some b => b ← linked_list_addLast b e; set_bucket (buckets m) bucket_index b
            end;
          let m := MkHashMap bs (load_factor m) (hash_function m) (comparator m)
                     (hm_size m + 1) in
          let threshold := float_mul (float_of_int bucket_count) (load_factor m) in
          if float_gt (float_of_int (hm_size m)) threshold then
            '(_, m) ← hash_map_resize m (wrap_i32 (bucket_count * 2)); Ret (0, m)
          else Ret (0, m)
      end
  end.

Definition hash_map_get m k : Res (option V) :=
  let bucket_count := vector_size (buckets m) in
  bucket_index ← hash_map_bucket_index m k bucket_count;
  b ← hash_map_bucket_at m bucket_index;
  node ← hash_map_find_node m b k;
  match node with
  | None => Ret None
  | Some p => b ← nonnull b; n ← load (nodes b) p; Ret (Some (value (data n)))
  end.

(** The destructor, when there is one, is applied to the stored key. *)
Definition hash_map_remove m k (destructor : option (K → Res unit)) : Res (HashMap K V) :=
  let bucket_count := vector_size (buckets m) in
  bucket_index ← hash_map_bucket_index m k bucket_count;
  b ← hash_map_bucket_at m bucket_index;
  node ← hash_map_find_node m b k;
  match node with
  | None => Ret m
  | Some p =>
      b ← nonnull b;
      n ← load (nodes b) p;
      _ ← match destructor with Some d => d (key (data n)) | None => Ret tt end;
      b ← unlink_node b p n;
      bs ← set_bucket (buckets m) bucket_index b;
      Ret (MkHashMap bs (load_factor m) (hash_function m) (comparator m) (hm_size m - 1))
  end.

(** No operation changes the functions. *)
Lemma hash_map_resize_functions m n r m' :
  hash_map_resize m n = Ret (r, m') → hash_function m' = hash_function m.
Proof.
  unfold hash_map_resize. destruct (n <=? 0); [by intros [= _ <-]|].
  destruct (vector_create n) as [nb|]; [|by intros [= _ <-]].
  intros ([nb'|] & _ & E)%bind_Ret_inv; [|by injection E as _ <-].
  apply bind_Ret_inv in E as (nb2 & _ & [= _ <-]). done.
Qed.

Lemma hash_map_put_functions m k v r m' :
  hash_map_put m k v = Ret (r, m') → hash_function m' = hash_function m.
Proof.
  unfold hash_map_put. cbv zeta. intros (i & _ & (b & _ & (node & _ & E)%bind_Ret_inv)%bind_Ret_inv)%bind_Ret_inv.
  destruct node as [p|].
  - apply bind_Ret_inv in E as (b' & _ & (n & _ & (s & _ & (bs & _ & [= _ <-])%bind_Ret_inv)%bind_Ret_inv)%bind_Ret_inv).
    done.
  - destruct (hash_map_entry_create k v); [|by injection E as _ <-].
    apply bind_Ret_inv in E as (bs & _ & E). destruct (float_gt _ _); [|by injection E as _ <-].
    apply bind_Ret_inv in E as ([r' m1] & E & [= _ <-]).
    by apply hash_map_resize_functions in E.
Qed.
End hash_map.

(** The table with other key functions: what a table is when the memory its
    keys point to has changed. *)
Definition with_functions {K V} (hash : K → Res Z) (cmp : K → K → Res Z) (m : HashMap K V) :
    HashMap K V :=
  MkHashMap (buckets m) (load_factor m) hash cmp (hm_size m).

(** ** Bucket tables as finite maps *)

Section table.
Context {K V : Type} `{Countable K}.
Implicit Types (idx : K → nat) (b : list (K * V)) (bs : list (list (K * V))) (mm : gmap K V).

Record table_ok idx bs mm : Prop := {
  tab_perm : map_to_list mm ≡ₚ concat bs;
  tab_idx : ∀ i b kv, bs !! i = Some b → kv ∈ b → idx kv.1 = i;
}.

Lemma elem_of_concat (kv : K * V) bs : kv ∈ concat bs ↔ ∃ i b, bs !! i = Some b ∧ kv ∈ b.
Proof.
  rewrite list_elem_of_In, in_concat. split.
  - intros (b & Hb & Hkv). apply list_elem_of_In, list_elem_of_lookup in Hb as [i Hi].
    exists i, b. by rewrite list_elem_of_In.
  - intros (i & b & Hi & Hkv). exists b. rewrite <- !list_elem_of_In. split; [|done].
    by eapply list_elem_of_lookup_2.
Qed.

Lemma concat_insert_perm bs i b b' (kv : K * V) :
  bs !! i = Some b → b' ≡ₚ kv :: b → concat (<[i := b']> bs) ≡ₚ kv :: concat bs.
Proof.
  intros Hi Hb. rewrite <- (take_drop_middle bs i b Hi) at 2.
  rewrite insert_take_drop by (by eapply lookup_lt_Some).
  rewrite !concat_app. simpl. rewrite Hb. simpl. symmetry. apply Permutation_middle.
Qed.

Lemma table_lookup idx bs mm k v b :
  table_ok idx bs mm → bs !! idx k = Some b → mm !! k = Some v ↔ (k, v) ∈ b.
Proof.
  intros [Hp Hi] Hb. rewrite <- elem_of_map_to_list, Hp, elem_of_concat. split.
  - intros (i & b' & Hb' & Hin). specialize (Hi _ _ _ Hb' Hin). simpl in Hi. congruence.
  - intros Hin. eauto.
Qed.

Lemma table_lookup_None idx bs mm k b :
  table_ok idx bs mm → bs !! idx k = Some b → (k ∉ b.*1) → mm !! k = None.
Proof.
  intros Ht Hb Hk. destruct (mm !! k) as [v|] eqn:E; [|done].
  exfalso. apply Hk. apply (table_lookup _ _ _ _ _ _ Ht Hb) in E.
  apply list_elem_of_fmap. by exists (k, v).
Qed.

Lemma table_idx_insert idx bs i b' :
  (∀ j b kv, bs !! j = Some b → kv ∈ b → idx kv.1 = j) →
  (∀ kv, kv ∈ b' → idx kv.1 = i) →
  ∀ j b kv, <[i := b']> bs !! j = Some b → kv ∈ b → idx kv.1 = j.
Proof.
  intros Hbs Hb' j b kv [(-> & <- & _)|[_ Hj]]%list_lookup_insert_Some; [by apply Hb'|].
  by apply Hbs.
Qed.

Lemma table_insert_new idx bs mm k v b :
  table_ok idx bs mm → bs !! idx k = Some b → mm !! k = None →
  table_ok idx (<[idx k := b ++ [(k, v)]]> bs) (<[k := v]> mm).
Proof.
  intros [Hp Hi] Hb Hk. split.
  - rewrite (map_to_list_insert _ _ _ Hk), Hp, (concat_insert_perm _ _ b _ (k, v) Hb); [done|].
    by rewrite Permutation_app_comm.
  - apply table_idx_insert; [done|].
    intros kv [Hkv| ->%list_elem_of_singleton]%elem_of_app; [by eapply Hi|done].
Qed.

Lemma table_delete idx bs mm k v pre post :
  table_ok idx bs mm → bs !! idx k = Some (pre ++ (k, v) :: post) →
  mm !! k = Some v ∧ table_ok idx (<[idx k := pre ++ post]> bs) (delete k mm).
Proof.
  intros Ht Hb. assert (Hk : mm !! k = Some v).
  { apply (table_lookup _ _ _ _ _ _ Ht Hb), elem_of_app. right. by left. }
  destruct Ht as [Hp Hi]. split; [done|]. split.
  - apply (Permutation_cons_inv (a := (k, v))).
    rewrite (map_to_list_delete _ _ _ Hk), Hp.
    rewrite <- (list_insert_id bs (idx k) _ Hb) at 1.
    rewrite <- (list_insert_insert_eq bs (idx k) (pre ++ (k, v) :: post) (pre ++ post)).
    rewrite (concat_insert_perm _ _ (pre ++ post)); [done| |by rewrite Permutation_middle].
    apply list_lookup_insert_eq. by eapply lookup_lt_Some.
  - apply table_idx_insert; [done|]. intros kv Hkv. eapply (Hi _ _ kv Hb).
    apply elem_of_app in Hkv as [?|?]; apply elem_of_app; [by left|right; by right].
Qed.

Lemma table_insert_old idx bs mm k v v' pre post :
  table_ok idx bs mm → bs !! idx k = Some (pre ++ (k, v) :: post) →
  table_ok idx (<[idx k := pre ++ (k, v') :: post]> bs) (<[k := v']> mm).
Proof.
  intros Ht Hb. destruct (table_delete _ _ _ _ _ _ _ Ht Hb) as [_ [Hp Hi]].
  pose proof (lookup_lt_Some _ _ _ Hb) as Hlt. split.
  - rewrite <- insert_delete_eq, map_to_list_insert by apply lookup_delete_eq. rewrite Hp.
    rewrite <- (list_insert_insert_eq bs (idx k) (pre ++ (k, v') :: post) (pre ++ post)).
    symmetry. apply (concat_insert_perm _ _ (pre ++ post));
      [by apply list_lookup_insert_eq|symmetry; apply Permutation_middle].
  - rewrite <- (list_insert_insert_eq bs (idx k) _ (pre ++ post)).
    assert (Hrest : ∀ kv, kv ∈ pre ++ post → idx kv.1 = idx k)
      by (intros kv; by apply (Hi (idx k)), list_lookup_insert_eq).
    apply table_idx_insert; [exact Hi|].
    intros kv [Hkv|[->|Hkv]%elem_of_cons]%elem_of_app; [|done|];
      apply Hrest, elem_of_app; [by left|by right].
Qed.

Lemma table_size idx bs mm : table_ok idx bs mm → base.size mm = length (concat bs).
Proof. intros [Hp _]. by rewrite <- Hp, length_map_to_list. Qed.

(** Two tables of the same entries represent the same map. *)
Lemma table_rehash idx idx' bs bs' mm :
  table_ok idx bs mm → concat bs' ≡ₚ concat bs →
  (∀ i b kv, bs' !! i = Some b → kv ∈ b → idx' kv.1 = i) → table_ok idx' bs' mm.
Proof. intros [Hp _] Hp' Hi. split; [by rewrite Hp, Hp'|done]. Qed.
End table.

(** ** Representation

    A key is often a pointer: the functions of the table look at what it
    designates, its [contents], and [holder] is some key with given contents.  A
    key that is its own contents is the common case. *)

Class Keyed (K A : Type) := {
  contents : K → A;
  holder : A → K;
  contents_holder a : contents (holder a) = a;
}.
#[export] Instance keyed_self {K} : Keyed K K.
Proof. by refine {| contents := λ k, k; holder := λ k, k |}. Defined.

Section rep.
Context `{Allocator} {K A V : Type} `{Keyed K A} `{Countable A}.
Abbreviation entry := (HashMapEntry K V).
Abbreviation bucket := (LinkedList (HashMapEntry K V)).
Implicit Types (m : HashMap K V) (k : K) (v : V) (a : A) (mm : gmap A V).

(** The functions given to the table: the hash is defined on every key and
    is an [int] that depends on the contents only, the comparator returns 0 on
    keys with equal contents only. *)
Record functions_ok (hash : K → Res Z) (cmp : K → K → Res Z) : Prop := {
  hash_total : ∀ k, ∃ h, hash k = Ret h ∧ is_i32 h;
  hash_contents : ∀ k k', contents k = contents k' → hash k = hash k';
  cmp_total : ∀ k k', ∃ c, cmp k k' = Ret c ∧ (c = 0 ↔ contents k = contents k');
}.

Definition pair_of (e : entry) : A * V := (contents (key e), value e).
Definition pairs (cs : list (loc * entry)) : list (A * V) := (λ c, pair_of c.2) <$> cs.

(** The bucket index as a function. *)
Definition index_of m (count : nat) a : nat :=
  match hash_map_bucket_index m (holder a) (Z.of_nat count) with Ret i => Z.to_nat i | _ => O end.

Definition bucket_rep (b : bucket) (kvs : list (A * V)) : Prop :=
  ∃ cs, ll_rep b cs ∧ pairs cs = kvs.

Record hm_rep_at m mm (ls : list bucket) (kvss : list (list (A * V))) : Prop := {
  hm_vec : vec_rep (buckets m) ls;
  hm_lists : Forall2 bucket_rep ls kvss;
  hm_count : 0 < Z.of_nat (length ls) < 2 ^ 31;
  hm_table : table_ok (index_of m (length ls)) kvss mm;
  hm_size_ok : hm_size m = Z.of_nat (base.size mm);
  hm_functions : functions_ok (hash_function m) (comparator m);
}.

Definition hm_rep m mm : Prop := ∃ ls kvss, hm_rep_at m mm ls kvss.

Lemma bucket_index_spec m k (count : nat) :
  functions_ok (hash_function m) (comparator m) → (0 < count)%nat →
  hash_map_bucket_index m k (Z.of_nat count) = Ret (Z.of_nat (index_of m count (contents k))) ∧
  (index_of m count (contents k) < count)%nat.
Proof.
  intros [Hh Hhc _] Hc. destruct (Hh k) as (h & E & Hr). unfold is_i32 in Hr.
  unfold index_of, hash_map_bucket_index.
  rewrite (Hhc (holder (contents k)) k) by apply contents_holder. rewrite E. simpl.
  rewrite (proj2 (Z.eqb_neq _ _)) by lia.
  set (h' := if h =? INT32_MIN then 0 else if h <? 0 then - h else h).
  assert (0 ≤ h').
  { unfold h'. destruct (h =? INT32_MIN); [lia|]. destruct (h <? 0) eqn:?; bools; lia. }
  pose proof (Z.rem_bound_pos h' (Z.of_nat count)). rewrite Z2Nat.id by lia.
  split; [done|lia].
Qed.

Lemma index_of_functions m m' count a :
  hash_function m' (holder a) = hash_function m (holder a) →
  index_of m' count a = index_of m count a.
Proof. unfold index_of, hash_map_bucket_index. by intros ->. Qed.

(** The linear search of a bucket. *)
Lemma find_loop_spec fuel cmp (b : bucket) pre todo k :
  (∀ k k', ∃ c, cmp k k' = Ret c ∧ (c = 0 ↔ contents k = contents k')) →
  ll_rep b (pre ++ todo) → (length todo < fuel)%nat →
  (find_loop fuel cmp b (head todo.*1) k = Ret None ∧ contents k ∉ (pairs todo).*1) ∨
  (∃ t1 p e t2, todo = t1 ++ (p, e) :: t2 ∧ contents (key e) = contents k ∧
     find_loop fuel cmp b (head todo.*1) k = Ret (Some p)).
Proof.
  intros Hcmp. revert pre todo. induction fuel as [|fuel IH]; intros pre todo Hr Hf; [lia|].
  destruct todo as [|[p e] todo]; [left; split; [done|apply not_elem_of_nil]|]. simpl in Hf.
  cbn [find_loop fmap list_fmap head fst].
  rewrite (load_Some _ _ _ (ll_rep_mid _ _ _ _ _ Hr)). cbn [mbind Res_bind data next].
  destruct (Hcmp (key e) k) as (c & -> & Hc). cbn [mbind Res_bind].
  destruct (c =? 0) eqn:E; bools.
  - right. exists [], p, e, todo. split_and!; [done|by apply Hc|done].
  - rewrite (cons_middle (p, e)), app_assoc in Hr.
    destruct (IH _ _ Hr ltac:(lia)) as [[-> Hk]|(t1 & p' & e' & t2 & -> & Hk & ->)].
    + left. split; [done|]. simpl. rewrite not_elem_of_cons. split; [|done].
      intros E'. by apply E, Hc.
    + right. exists ((p, e) :: t1), p', e', t2. done.
Qed.

Lemma find_node_spec m (b : bucket) kvs k :
  functions_ok (hash_function m) (comparator m) → bucket_rep b kvs →
  (hash_map_find_node m (Some b) k = Ret None ∧ (contents k ∉ kvs.*1)) ∨
  (∃ c1 p e c2, ll_rep b (c1 ++ (p, e) :: c2) ∧ kvs = pairs c1 ++ pair_of e :: pairs c2 ∧
     contents (key e) = contents k ∧ hash_map_find_node m (Some b) k = Ret (Some p)).
Proof.
  intros [_ _ Hcmp] (cs & Hr & <-). unfold hash_map_find_node.
  rewrite (ll_rep_head _ _ Hr), (chain_fuel_length _ _ Hr).
  destruct (find_loop_spec (S (length cs)) (comparator m) b [] cs k Hcmp Hr ltac:(lia))
    as [?|(t1 & p & e & t2 & -> & ? & ->)]; [by left|right].
  exists t1, p, e, t2. split_and!; [done| |done|done]. unfold pairs. by rewrite fmap_app.
Qed.

Lemma set_bucket_spec (bs : Vector bucket) ls (i : nat) b :
  vec_rep bs ls → (i < length ls)%nat →
  ∃ bs', set_bucket bs (Z.of_nat i) b = Ret bs' ∧ vec_rep bs' (<[i := b]> ls).
Proof.
  intros Hv Hi. pose proof (vec_rep_le _ _ Hv). unfold set_bucket.
  rewrite blit_single by lia. rewrite Nat2Z.id. simpl. eexists. split; [done|].
  eapply (vec_rep_intro _ _ (drop (length ls) (elements bs))); simpl.
  - rewrite (vec_rep_split _ _ Hv) at 1. rewrite insert_app_l by (by rewrite length_fmap).
    by rewrite list_fmap_insert.
  - rewrite length_insert. apply Hv.
  - rewrite length_insert. apply Hv.
  - apply Hv.
Qed.

(** What every operation does first: reach the bucket of [k]. *)
Lemma hm_bucket m mm ls kvss k :
  hm_rep_at m mm ls kvss →
  let i := index_of m (length ls) (contents k) in
  ∃ b kvs, hash_map_bucket_index m k (vector_size (buckets m)) = Ret (Z.of_nat i) ∧
    (i < length ls)%nat ∧ ls !! i = Some b ∧ kvss !! i = Some kvs ∧ bucket_rep b kvs ∧
    hash_map_bucket_at m (Z.of_nat i) = Ret (Some b).
Proof.
  intros Hm i. pose proof (hm_vec _ _ _ _ Hm) as Hv. pose proof (hm_count _ _ _ _ Hm).
  destruct (bucket_index_spec m k (length ls)) as [E Hi]; [apply Hm|lia|]. fold i in E, Hi.
  destruct (lookup_lt_is_Some_2 ls i Hi) as [b Hb].
  destruct (Forall2_lookup_l _ _ _ _ _ (hm_lists _ _ _ _ Hm) Hb) as (kvs & Hk & Hr).
  exists b, kvs. unfold vector_size. rewrite (rep_size _ _ Hv).
  split_and!; [done..|]. unfold hash_map_bucket_at. rewrite (vector_get_spec _ _ _ Hv).
  unfold znth. rewrite (proj2 (Z.leb_le _ _)) by lia. by rewrite Nat2Z.id, Hb.
Qed.

Lemma bucket_rep_split (b : bucket) c1 p e c2 :
  ll_rep b (c1 ++ (p, e) :: c2) → bucket_rep b (pairs c1 ++ pair_of e :: pairs c2).
Proof. intros Hr. eexists. split; [exact Hr|]. unfold pairs. by rewrite fmap_app. Qed.

(** What every operation leaves behind: the bucket of [k] replaced. *)
Lemma hm_set_bucket m mm mm' ls kvss i b kvs :
  hm_rep_at m mm ls kvss → (i < length ls)%nat → bucket_rep b kvs →
  table_ok (index_of m (length ls)) (<[i := kvs]> kvss) mm' →
  ∃ bs, set_bucket (buckets m) (Z.of_nat i) b = Ret bs ∧
    hm_rep_at (MkHashMap bs (load_factor m) (hash_function m) (comparator m)
                 (Z.of_nat (base.size mm'))) mm' (<[i := b]> ls) (<[i := kvs]> kvss).
Proof.
  intros Hm Hi Hb Ht. destruct (set_bucket_spec _ _ i b (hm_vec _ _ _ _ Hm) Hi) as (bs & E & Hv).
  exists bs. split; [done|]. split; simpl; try done.
  - by apply Forall2_insert, Hb; apply Hm.
  - rewrite length_insert. apply Hm.
  - rewrite length_insert. exact Ht.
  - apply Hm.
Qed.

Theorem hash_map_get_spec m mm k : hm_rep m mm → hash_map_get m k = Ret (mm !! contents k).
Proof.
  intros (ls & kvss & Hm).
  destruct (hm_bucket _ _ _ _ k Hm) as (b & kvs & E & Hi & Hb & Hk & Hr & Eb).
  unfold hash_map_get. rewrite E. cbn [mbind Res_bind]. rewrite Eb. cbn [mbind Res_bind].
  pose proof (hm_table _ _ _ _ Hm) as Ht.
  destruct (find_node_spec m b kvs k (hm_functions _ _ _ _ Hm) Hr)
    as [[-> Hno]|(c1 & p & e & c2 & Hc & -> & He & ->)]; cbn [mbind Res_bind].
  - by rewrite (table_lookup_None _ _ _ _ _ Ht Hk Hno).
  - simpl. rewrite (load_Some _ _ _ (ll_rep_mid _ _ _ _ _ Hc)). simpl.
    f_equal. symmetry. apply (table_lookup _ _ _ _ _ _ Ht Hk), elem_of_app.
    right. unfold pair_of. rewrite He. by left.
Qed.

(** A vector of [count] buckets holding [kvs], each pair in its bucket. *)
Definition buckets_hold (idx : A → nat) (bs : Vector bucket) (count : nat)
    (kvs : list (A * V)) : Prop :=
  ∃ ls kvss, vec_rep bs ls ∧ length ls = count ∧ Forall2 bucket_rep ls kvss ∧
    concat kvss ≡ₚ kvs ∧ ∀ i b kv, kvss !! i = Some b → kv ∈ b → idx kv.1 = i.

Lemma bucket_addLast (b : bucket) kvs e :
  AllocTotal → bucket_rep b kvs →
  ∃ b', linked_list_addLast b e = Ret b' ∧ bucket_rep b' (kvs ++ [pair_of e]).
Proof.
  intros Htot (cs & Hr & <-).
  destruct (linked_list_addLast_spec _ _ e Hr (malloc_total _)) as (b' & p & -> & Hr').
  exists b'. split; [done|]. eexists. split; [exact Hr'|]. unfold pairs. by rewrite fmap_app.
Qed.

Lemma buckets_hold_add idx bs count kvs e :
  AllocTotal → buckets_hold idx bs count kvs → (idx (contents (key e)) < count)%nat →
  ∃ d d' bs', vector_get bs (Z.of_nat (idx (contents (key e)))) = Ret (Some d) ∧
    linked_list_addLast d e = Ret d' ∧
    set_bucket bs (Z.of_nat (idx (contents (key e)))) d' = Ret bs' ∧
    buckets_hold idx bs' count (kvs ++ [pair_of e]).
Proof.
  intros Htot (ls & kvss & Hv & Hlen & Hls & Hp & Hi) Hlt. set (i := idx (contents (key e))) in *.
  destruct (lookup_lt_is_Some_2 ls i) as [d Hd]; [lia|].
  destruct (Forall2_lookup_l _ _ _ _ _ Hls Hd) as (kv & Hkv & Hr).
  destruct (bucket_addLast _ _ e Htot Hr) as (d' & Ed & Hr').
  destruct (set_bucket_spec _ _ i d' Hv) as (bs' & Eb & Hv'); [lia|].
  exists d, d', bs'. split_and!; [|done..|].
  - rewrite (vector_get_spec _ _ _ Hv). unfold znth.
    rewrite (proj2 (Z.leb_le _ _)) by lia. by rewrite Nat2Z.id, Hd.
  - exists (<[i := d']> ls), (<[i := kv ++ [pair_of e]]> kvss). split_and!; [done| | | |].
    + by rewrite length_insert.
    + by apply Forall2_insert.
    + rewrite (concat_insert_perm _ _ kv _ (pair_of e) Hkv), Hp;
        by rewrite Permutation_app_comm.
    + apply table_idx_insert; [done|].
      intros kv' [Hin|Hin]%elem_of_app; [by eapply Hi|].
      apply list_elem_of_singleton in Hin as ->. done.
Qed.

Lemma add_buckets_spec n (bs : Vector bucket) count :
  AllocTotal → (∃ ls, vec_rep bs ls ∧ length ls = count ∧ Forall (λ b, bucket_rep b []) ls) →
  Z.of_nat count + Z.of_nat n ≤ capacity bs →
  ∃ bs' ls, add_buckets n bs = Ret (Some bs') ∧ vec_rep bs' ls ∧ length ls = (count + n)%nat ∧
    Forall (λ b, bucket_rep b []) ls.
Proof.
  intros Htot. revert bs count. induction n as [|n IH]; intros bs count (ls & Hv & Hlen & Hls) Hcap.
  { exists bs, ls. split_and!; [done|done|lia|done]. }
  simpl. destruct linked_list_create as [b|] eqn:Eb.
  2: { exfalso. revert Eb. unfold linked_list_create. by rewrite malloc_total. }
  destruct (vector_add_room bs ls b Hv) as (bs' & -> & Hv' & Hc').
  { rewrite (rep_size _ _ Hv). lia. }
  simpl. destruct (IH bs' (S count)) as (bs2 & ls2 & E & ? & ? & ?).
  - exists (ls ++ [b]). split_and!; [done|rewrite length_app; simpl; lia|].
    apply Forall_app. split; [done|]. apply Forall_singleton.
    exists []. split; [|done]. by apply ll_rep_create.
  - lia.
  - exists bs2, ls2. split_and!; [done..|lia|done].
Qed.

Lemma buckets_hold_empty idx (bs : Vector bucket) ls :
  vec_rep bs ls → Forall (λ b, bucket_rep b []) ls →
  buckets_hold idx bs (length ls) [].
Proof.
  intros Hv Hls. exists ls, (replicate (length ls) []). split_and!; [done..| | |].
  - apply Forall2_same_length_lookup_2; [by rewrite length_replicate|].
    intros i b kv Hb [-> _]%lookup_replicate. by apply (Forall_lookup_1 _ _ _ _ Hls Hb).
  - clear. by induction (length ls).
  - intros i b kv [-> _]%lookup_replicate []%not_elem_of_nil.
Qed.

Lemma move_entries_spec fuel m (b : bucket) pre todo count nb kvs :
  AllocTotal → functions_ok (hash_function m) (comparator m) → (0 < count)%nat →
  ll_rep b (pre ++ todo) → (length todo < fuel)%nat →
  buckets_hold (index_of m count) nb count kvs →
  ∃ nb', move_entries fuel m b (head todo.*1) (Z.of_nat count) nb = Ret nb' ∧
    buckets_hold (index_of m count) nb' count (kvs ++ pairs todo).
Proof.
  intros Htot Hf Hc. revert pre todo nb kvs.
  induction fuel as [|fuel IH]; intros pre todo nb kvs Hr Hfu Hnb; [lia|].
  destruct todo as [|[p e] todo]; [exists nb; by rewrite app_nil_r|]. simpl in Hfu.
  cbn [move_entries fmap list_fmap head fst].
  rewrite (load_Some _ _ _ (ll_rep_mid _ _ _ _ _ Hr)). cbn [mbind Res_bind data next].
  destruct (bucket_index_spec m (key e) count Hf Hc) as [-> Hlt]. cbn [mbind Res_bind].
  destruct (buckets_hold_add _ _ _ _ e Htot Hnb Hlt) as (d & d' & nb1 & -> & E1 & E2 & Hnb1).
  cbn [mbind Res_bind]. rewrite E1. cbn [mbind Res_bind]. rewrite E2. cbn [mbind Res_bind].
  rewrite (cons_middle (p, e)), app_assoc in Hr.
  destruct (IH _ _ _ _ Hr ltac:(lia) Hnb1) as (nb2 & -> & Hnb2).
  exists nb2. split; [done|]. by rewrite <- app_assoc in Hnb2.
Qed.

Lemma rehash_spec n i m ls kvss count nb kvs :
  AllocTotal → functions_ok (hash_function m) (comparator m) → (0 < count)%nat →
  vec_rep (buckets m) ls → Forall2 bucket_rep ls kvss → (i + n = length ls)%nat →
  buckets_hold (index_of m count) nb count kvs →
  ∃ nb', rehash n (Z.of_nat i) m (Z.of_nat count) nb = Ret nb' ∧
    buckets_hold (index_of m count) nb' count (kvs ++ concat (drop i kvss)).
Proof.
  intros Htot Hf Hc Hv Hls. revert i nb kvs. induction n as [|n IH]; intros i nb kvs Hn Hnb.
  { exists nb. rewrite drop_ge, app_nil_r; [done|]. apply Forall2_length in Hls. lia. }
  destruct (lookup_lt_is_Some_2 ls i) as [b Hb]; [lia|].
  destruct (Forall2_lookup_l _ _ _ _ _ Hls Hb) as (kv & Hkv & cs & Hr & Hcs).
  cbn [rehash]. rewrite (vector_get_spec _ _ _ Hv). unfold znth.
  rewrite (proj2 (Z.leb_le _ _)) by lia. rewrite Nat2Z.id, Hb. cbn [mbind Res_bind nonnull].
  rewrite (ll_rep_head _ _ Hr), (chain_fuel_length _ _ Hr).
  destruct (move_entries_spec (S (length cs)) m b [] cs count nb kvs) as (nb1 & -> & Hnb1);
    [done..|lia|done|]. cbn [mbind Res_bind].
  destruct (linked_list_free_spec _ _ Hr) as (b' & -> & _). cbn [mbind Res_bind].
  replace (Z.of_nat i + 1) with (Z.of_nat (S i)) by lia.
  destruct (IH (S i) nb1 _ ltac:(lia) Hnb1) as (nb2 & -> & Hnb2).
  exists nb2. split; [done|]. rewrite (drop_S _ _ _ Hkv). simpl.
  by rewrite app_assoc, <- Hcs.
Qed.

(** Whatever the new number of buckets, a resize keeps the contents. *)
Lemma hash_map_resize_spec m mm new_bucket_count :
  AllocTotal → hm_rep m mm → is_i32 new_bucket_count →
  ∃ r m', hash_map_resize m new_bucket_count = Ret (r, m') ∧ hm_rep m' mm ∧
    (0 < new_bucket_count → size (buckets m') = new_bucket_count).
Proof.
  intros Htot Hm Hb. unfold hash_map_resize. destruct (_ <=? 0) eqn:E; bools.
  { exists 0, m. split_and!; [done|done|lia]. }
  destruct Hm as (ls & kvss & Hm). unfold is_i32 in Hb.
  destruct (vector_create_total (A := bucket) new_bucket_count Htot) as (nb & Ec & Hnb).
  rewrite Ec. pose proof (vector_create_capacity _ _ Ec) as Hcap.
  set (count := Z.to_nat new_bucket_count).
  assert (Hcount : Z.of_nat count = new_bucket_count) by (unfold count; lia).
  destruct (add_buckets_spec count nb 0 Htot) as (nb1 & ls1 & -> & Hv1 & Hl1 & He1);
    [by exists []|lia|]. cbn [mbind Res_bind]. simpl in Hl1.
  pose proof (buckets_hold_empty (index_of m count) _ _ Hv1 He1) as Hh. rewrite Hl1 in Hh.
  pose proof (hm_vec _ _ _ _ Hm) as Hv.
  destruct (rehash_spec (length ls) 0 m ls kvss count nb1 [])
    as (nb2 & E2 & ls2 & kvss2 & Hv2 & Hl2 & Hls2 & Hp & Hi);
    [done|apply Hm|lia|done|apply Hm|lia|done|].
  unfold vector_size. rewrite (rep_size _ _ Hv), Nat2Z.id.
  clearbody count. subst new_bucket_count. change 0 with (Z.of_nat 0) at 1. rewrite E2. cbn [mbind Res_bind].
  eexists 1, _. split; [done|]. split.
  - exists ls2, kvss2. split; simpl; [done|done|lia| |apply Hm|apply Hm].
    eapply table_rehash; [apply Hm|exact Hp|]. rewrite Hl2.
    intros i b kv Hbi Hkv. by rewrite <- (Hi i b kv Hbi Hkv).
  - simpl. intros _. rewrite (rep_size _ _ Hv2). lia.
Qed.

Lemma hash_map_put_spec m mm k v :
  AllocTotal → hm_rep m mm →
  ∃ m', hash_map_put m k v = Ret (if decide (is_Some (mm !! contents k)) then 1 else 0, m') ∧
    hm_rep m' (<[contents k := v]> mm).
Proof.
  intros Htot (ls & kvss & Hm).
  destruct (hm_bucket _ _ _ _ k Hm) as (b & kvs & E & Hi & Hb & Hk & Hr & Eb).
  pose proof (hm_table _ _ _ _ Hm) as Ht.
  unfold hash_map_put. rewrite E. cbn [mbind Res_bind]. rewrite Eb. cbn [mbind Res_bind].
  destruct (find_node_spec m b kvs k (hm_functions _ _ _ _ Hm) Hr)
    as [[-> Hno]|(c1 & p & e & c2 & Hc & Hkvs & He & ->)]; cbn [mbind Res_bind].
  - pose proof (table_lookup_None _ _ _ _ _ Ht Hk Hno) as HNone.
    rewrite decide_False by (rewrite HNone; by intros []).
    unfold hash_map_entry_create. rewrite malloc_total.
    destruct (bucket_addLast _ _ (MkEntry k v) Htot Hr) as (b' & -> & Hr').
    destruct (hm_set_bucket _ _ (<[contents k := v]> mm) _ _ _ _ _ Hm Hi Hr'
      (table_insert_new _ _ _ _ v _ Ht Hk HNone)) as (bs & Ebs & Hm').
    cbn [mbind Res_bind]. rewrite Ebs. cbn [mbind Res_bind].
    rewrite map_size_insert_None in Hm' by done.
    replace (Z.of_nat (S (base.size mm))) with (hm_size m + 1) in Hm'
      by (rewrite (hm_size_ok _ _ _ _ Hm); lia).
    assert (Hrep : hm_rep (MkHashMap bs (load_factor m) (hash_function m) (comparator m)
      (hm_size m + 1)) (<[contents k := v]> mm)) by (eexists _, _; exact Hm').
    destruct (float_gt _ _); [|eauto].
    destruct (hash_map_resize_spec _ _ (wrap_i32 (vector_size (buckets m) * 2)) Htot Hrep)
      as (r & m' & -> & Hr2 & _); [apply wrap_i32_range|]. simpl. eauto.
  - destruct (ll_rep_set_data _ _ _ _ (MkEntry (key e) v) _ Hc) as (s & Es & Hs).
    apply bucket_rep_split in Hs. rewrite Hkvs in Hk. unfold pair_of in Hk. rewrite He in Hk.
    assert (Hin : mm !! contents k = Some (value e))
      by (apply (table_delete _ _ _ _ _ _ _ Ht Hk)).
    rewrite decide_True by eauto. cbn [nonnull mbind Res_bind].
    rewrite (load_Some _ _ _ (ll_rep_mid _ _ _ _ _ Hc)). cbn [mbind Res_bind data prev next].
    rewrite Es. cbn [mbind Res_bind].
    unfold pair_of in Hs at 1. cbn [key value] in Hs. rewrite He in Hs.
    destruct (hm_set_bucket _ _ (<[contents k := v]> mm) _ _ _ _ _ Hm Hi Hs
      (table_insert_old _ _ _ _ _ v _ _ Ht Hk)) as (bs & -> & Hm').
    eexists. split; [done|]. eexists _, _.
    rewrite map_size_insert_Some in Hm' by eauto. rewrite (hm_size_ok _ _ _ _ Hm). exact Hm'.
Qed.

Lemma hash_map_remove_spec m mm k :
  hm_rep m mm → ∃ m', hash_map_remove m k None = Ret m' ∧ hm_rep m' (delete (contents k) mm).
Proof.
  intros (ls & kvss & Hm).
  destruct (hm_bucket _ _ _ _ k Hm) as (b & kvs & E & Hi & Hb & Hk & Hr & Eb).
  pose proof (hm_table _ _ _ _ Hm) as Ht.
  unfold hash_map_remove. rewrite E. cbn [mbind Res_bind]. rewrite Eb. cbn [mbind Res_bind].
  destruct (find_node_spec m b kvs k (hm_functions _ _ _ _ Hm) Hr)
    as [[-> Hno]|(c1 & p & e & c2 & Hc & Hkvs & He & ->)]; cbn [mbind Res_bind].
  - pose proof (table_lookup_None _ _ _ _ _ Ht Hk Hno) as HNone.
    exists m. split; [done|]. rewrite delete_id by done. by exists ls, kvss.
  - cbn [nonnull mbind Res_bind].
    rewrite (load_Some _ _ _ (ll_rep_mid _ _ _ _ _ Hc)). cbn [mbind Res_bind].
    destruct (unlink_node_spec _ _ _ _ _ Hc) as (b' & -> & Hc'). cbn [mbind Res_bind].
    rewrite Hkvs in Hk. unfold pair_of in Hk. rewrite He in Hk.
    destruct (table_delete _ _ _ _ _ _ _ Ht Hk) as [Hin Ht'].
    assert (Hb' : bucket_rep b' (pairs c1 ++ pairs c2))
      by (eexists; split; [exact Hc'|]; unfold pairs; by rewrite fmap_app).
    destruct (hm_set_bucket _ _ _ _ _ _ _ _ Hm Hi Hb' Ht') as (bs & -> & Hm').
    eexists. split; [done|]. eexists _, _.
    rewrite map_size_delete_Some in Hm' by eauto. rewrite (hm_size_ok _ _ _ _ Hm).
    pose proof (map_size_ne_0_lookup_2 mm (contents k) ltac:(eauto)).
    replace (Z.of_nat (pred (base.size mm))) with (Z.of_nat (base.size mm) - 1) in Hm' by lia.
    exact Hm'.
Qed.

Lemma hm_rep_with_functions m mm hash cmp :
  hm_rep m mm → functions_ok hash cmp → (∀ a, hash (holder a) = hash_function m (holder a)) →
  hm_rep (with_functions hash cmp m) mm.
Proof.
  intros (ls & kvss & [Hv Hl Hc Ht Hs _]) Hf Hh. exists ls, kvss.
  split; simpl; try done. destruct Ht as [Hp Hi]. split; [done|].
  intros i b kv Hb Hkv. rewrite <- (Hi i b kv Hb Hkv). by apply index_of_functions.
Qed.

Lemma hash_map_create_spec hash cmp :
  AllocTotal → functions_ok hash cmp →
  ∃ m, hash_map_create (Some hash) (Some cmp) = Ret (Some m) ∧ hm_rep m (∅ : gmap A V) ∧
    hash_function m = hash ∧ comparator m = cmp.
Proof.
  intros Htot Hf. unfold hash_map_create. rewrite malloc_total. simpl negb. cbv iota.
  destruct (vector_create_total (A := bucket) HASH_MAP_INIT_BUCKETS Htot) as (nb & Ec & Hnb).
  rewrite Ec. pose proof (vector_create_capacity _ _ Ec) as Hcap.
  destruct (add_buckets_spec (Z.to_nat HASH_MAP_INIT_BUCKETS) nb 0 Htot)
    as (nb1 & ls1 & -> & Hv1 & Hl1 & He1);
    [by exists []|unfold HASH_MAP_INIT_BUCKETS in *; lia|]. cbn [mbind Res_bind].
  eexists. split; [done|]. split; [|done].
  destruct (buckets_hold_empty (λ a, index_of (MkHashMap nb1 HASH_MAP_DEFAULT_LOAD_FACTOR hash
    cmp 0) (length ls1) a) _ _ Hv1 He1) as (ls2 & kvss2 & Hv2 & Hl2 & Hls2 & Hp & Hi).
  exists ls2, kvss2. split; simpl; [done|done| | |done|done]. { unfold HASH_MAP_INIT_BUCKETS in Hl1. lia. }
  split; [by rewrite map_to_list_empty, Hp|]. by rewrite Hl2.
Qed.

(** A new table, whatever its functions: a lookup reaches an empty bucket and
    compares no key. *)
Lemma hash_map_create_get hash cmp :
  AllocTotal →
  ∃ m, hash_map_create (Some hash) (Some cmp) = Ret (Some m) ∧
    ∀ hash' cmp' k h, hash' k = Ret h → is_i32 h →
      hash_map_get (with_functions hash' cmp' m) k = Ret (None : option V).
Proof using A H H0 K V.
  intros Htot. unfold hash_map_create. rewrite malloc_total. simpl negb. cbv iota.
  destruct (vector_create_total (A := bucket) HASH_MAP_INIT_BUCKETS Htot) as (nb & Ec & Hnb).
  rewrite Ec. pose proof (vector_create_capacity _ _ Ec) as Hcap.
  destruct (add_buckets_spec (Z.to_nat HASH_MAP_INIT_BUCKETS) nb 0 Htot)
    as (nb1 & ls1 & -> & Hv1 & Hl1 & He1);
    [by exists []|unfold HASH_MAP_INIT_BUCKETS in *; lia|]. cbn [mbind Res_bind].
  eexists. split; [done|]. intros hash' cmp' k h Eh Hh.
  assert (Hlen : length ls1 = 16%nat) by (rewrite Hl1; reflexivity).
  unfold hash_map_get, hash_map_bucket_index. cbn [with_functions hash_function buckets comparator].
  unfold vector_size. rewrite Eh, (rep_size _ _ Hv1), Hlen. cbn [mbind Res_bind].
  change (Z.of_nat 16 =? 0) with false. cbv iota. cbn [mbind Res_bind].
  set (h' := if h =? INT32_MIN then 0 else if h <? 0 then - h else h).
  assert (0 ≤ h').
  { unfold h', is_i32 in *. destruct (h =? INT32_MIN); [lia|]. destruct (h <? 0) eqn:?; bools; lia. }
  pose proof (Z.rem_bound_pos h' (Z.of_nat 16) ltac:(lia) ltac:(lia)) as Hi.
  destruct (lookup_lt_is_Some_2 ls1 (Z.to_nat (Z.rem h' (Z.of_nat 16)))) as [b Hb]; [lia|].
  unfold hash_map_bucket_at. cbn [buckets with_functions]. rewrite (vector_get_spec _ _ _ Hv1).
  unfold znth. rewrite (proj2 (Z.leb_le _ _)), Hb by lia. cbn [mbind Res_bind].
  rewrite Forall_lookup in He1. destruct (He1 _ _ Hb) as (cs & Hr & Hcs).
  unfold hash_map_find_node. rewrite (ll_rep_head _ _ Hr). by destruct cs.
Qed.

Lemma foreach_unit (b : bucket) cs :
  ll_rep b cs → linked_list_foreach b (λ _ u, Ret u) tt = Ret tt.
Proof.
  intros Hr. unfold linked_list_foreach.
  rewrite (chain_fuel_length _ _ Hr), (ll_rep_head _ _ Hr).
  rewrite (foreach_loop_spec _ _ [] _ _ _ Hr) by lia. by induction cs.*2.
Qed.

Lemma free_buckets_spec n i m ls kvss :
  vec_rep (buckets m) ls → Forall2 bucket_rep ls kvss → (i + n = length ls)%nat →
  free_buckets n (Z.of_nat i) m = Ret tt.
Proof.
  intros Hv Hls. revert i. induction n as [|n IH]; intros i Hn; [done|].
  destruct (lookup_lt_is_Some_2 ls i) as [b Hb]; [lia|].
  destruct (Forall2_lookup_l _ _ _ _ _ Hls Hb) as (kv & Hkv & cs & Hr & Hcs).
  cbn [free_buckets]. rewrite (vector_get_spec _ _ _ Hv). unfold znth.
  rewrite (proj2 (Z.leb_le _ _)) by lia. rewrite Nat2Z.id, Hb. cbn [mbind Res_bind nonnull].
  rewrite (foreach_unit _ _ Hr). cbn [mbind Res_bind].
  destruct (linked_list_free_spec _ _ Hr) as (b' & -> & _). cbn [mbind Res_bind].
  replace (Z.of_nat i + 1) with (Z.of_nat (S i)) by lia. apply IH. lia.
Qed.

Lemma hash_map_free_spec m mm : hm_rep m mm → hash_map_free m = Ret tt.
Proof.
  intros (ls & kvss & Hm). pose proof (hm_vec _ _ _ _ Hm) as Hv.
  unfold hash_map_free, vector_size. rewrite (rep_size _ _ Hv), Nat2Z.id.
  eapply (free_buckets_spec _ 0); [done|apply Hm|lia].
Qed.
End rep.

(** ** The predefined functions satisfy the contract of the table *)

Lemma strcmp_eq a b : strcmp a b = 0 ↔ a = b.
Proof.
  revert b. induction a as [|x a IH]; intros [|y b]; simpl; try done.
  destruct (x =? y) eqn:E; bools; [subst; rewrite IH; split; congruence|].
  destruct (x <? y); split; [done|congruence|done|congruence].
Qed.

Lemma strcmp_swap a b : strcmp b a = - strcmp a b.
Proof.
  revert b. induction a as [|x a IH]; intros [|y b]; simpl; try done.
  rewrite (Z.eqb_sym y x). destruct (x =? y) eqn:E; [by apply IH|]. bools.
  destruct (x <? y) eqn:?, (y <? x) eqn:?; bools; lia.
Qed.

Lemma wrap_fold_range (f : Z → Z → Z) key h :
  is_i32 h → is_i32 (fold_left (λ hash c, wrap_i32 (f hash c)) key h).
Proof.
  revert h. induction key as [|c key IH]; intros h Hh; [done|]. apply IH, wrap_i32_range.
Qed.

Lemma compare_uint_ok (a b : Z) : ∃ c, compare_uint a b = Ret c ∧ (c = 0 ↔ a = b).
Proof.
  eexists. split; [reflexivity|]. rewrite Z.gtb_ltb.
  destruct (b <? a) eqn:?, (a =? b) eqn:?; bools; lia.
Qed.

Lemma uint16_functions_ok : functions_ok hash_func_uint16 compare_uint.
Proof. split; [intros k; eauto with relay|by intros k k' [= ->]|exact compare_uint_ok]. Qed.

Lemma uint64_functions_ok : functions_ok hash_func_uint64 compare_uint.
Proof.
  split; [|by intros k k' [= ->]|exact compare_uint_ok].
  intros k. eexists. split; [reflexivity|]. auto with relay.
Qed.

Lemma str_functions_ok : functions_ok hash_func_str compare_str.
Proof.
  split.
  - intros k. eexists. split; [reflexivity|].
    apply (wrap_fold_range (λ hash c, wrap_i32 (wrap_i32 (Z.shiftl hash 5) + hash) + c)). done.
  - by intros k k' [= ->].
  - intros a b. eexists. split; [reflexivity|]. apply strcmp_eq.
Qed.

(** ** The interface *)

Definition hash_map_ops `{Allocator} {K V} (hash : K → Res Z) (cmp : K → K → Res Z) :
    MapOps K V (HashMap K V) := {|
  map_create := hash_map_create (Some hash) (Some cmp);
  map_get := hash_map_get;
  map_put := hash_map_put;
  map_remove m k := hash_map_remove m k None;
  map_free := hash_map_free;
|}.

Lemma hash_map_laws `{AllocTotal} {K V} `{Countable K} hash cmp :
  functions_ok hash cmp → @MapLaws K V (HashMap K V) (hash_map_ops hash cmp) _ _.
Proof.
  intros Hf. refine (@Build_MapLaws K V (HashMap K V) (hash_map_ops hash cmp) _ _ hm_rep _ _ _ _ _).
  - destruct (hash_map_create_spec (V := V) _ _ _ Hf) as (m & ? & ? & _); eauto.
  - intros m mm k Hm. exact (hash_map_get_spec m mm k Hm).
  - intros m mm k v Hm. exact (hash_map_put_spec m mm k v _ Hm).
  - intros m mm k Hm. exact (hash_map_remove_spec m mm k Hm).
  - intros. by eapply hash_map_free_spec.
Defined.

(** The tables of the program: identifiers and pointers keyed by
    [hash_func_uint64], strings by [hash_func_str]. *)
#[export] Instance uint_table_ops `{Allocator} {V} : MapOps Z V (HashMap Z V) :=
  hash_map_ops hash_func_uint64 compare_uint.
#[export] Instance uint_table_laws `{AllocTotal} {V} : MapLaws Z V (HashMap Z V) :=
  hash_map_laws _ _ uint64_functions_ok.
#[export] Instance str_table_ops `{Allocator} {V} : MapOps (list Z) V (HashMap (list Z) V) :=
  hash_map_ops hash_func_str compare_str.
#[export] Instance str_table_laws `{AllocTotal} {V} :
    MapLaws (list Z) V (HashMap (list Z) V) :=
  hash_map_laws _ _ str_functions_ok.

(** ** Properties *)

(** C12. The hash table implements finite maps.  On a table that represents
    [mm], a lookup returns [mm !! k] (code 1 for an absent key), a put leaves a
    table that represents [<[k := v]> mm] and returns 1 exactly when the key was
    already there, a remove one that represents [delete k mm], and freeing
    follows no dangling pointer; this holds whether or not the put crossed the
    load factor and rehashed every entry. *)
Theorem hash_map_refines_gmap `{AllocTotal} {K V} `{Countable K} (m : HashMap K V)
    (mm : gmap K V) (k : K) (v : V) :
  hm_rep m mm →
  hash_map_get m k = Ret (mm !! k) ∧
  (∃ m', hash_map_put m k v = Ret (if decide (is_Some (mm !! k)) then 1 else 0, m') ∧
         hm_rep m' (<[k := v]> mm)) ∧
  (∃ m', hash_map_remove m k None = Ret m' ∧ hm_rep m' (delete k mm)) ∧
  hash_map_free m = Ret tt.
Proof.
  intros Hm. split_and!.
  - exact (hash_map_get_spec m mm k Hm).
  - exact (hash_map_put_spec m mm k v _ Hm).
  - exact (hash_map_remove_spec m mm k Hm).
  - exact (hash_map_free_spec m mm Hm).
Qed.

Lemma hash_map_refines_gmap_witness :
  ∃ m m' : HashMap Z Z,
    @hash_map_create always _ _ (Some hash_func_uint16) (Some compare_uint) = Ret (Some m) ∧
    @hash_map_put always _ _ m 5 7 = Ret (0, m') ∧ hm_rep m' {[5 := 7]}.
Proof.
  destruct (@hash_map_create_spec always Z Z Z _ _ _ _ _ always_total uint16_functions_ok)
    as (m & E & Hm & _).
  destruct (proj1 (proj2 (@hash_map_refines_gmap always always_total Z Z _ _ m ∅ 5 7 Hm)))
    as (m' & E' & Hm').
  exists m, m'. split; [exact E|]. split; [exact E'|exact Hm'].
Defined.

(** A resize rehashes every entry: whatever the requested number of
    buckets, the table represents the same map, and a positive request is the
    number of buckets it ends with. *)
Theorem hash_map_resize_keeps `{AllocTotal} {K V} `{Countable K} (m : HashMap K V)
    (mm : gmap K V) (new_bucket_count : Z) :
  hm_rep m mm → is_i32 new_bucket_count →
  ∃ r m', hash_map_resize m new_bucket_count = Ret (r, m') ∧ hm_rep m' mm ∧
    (0 < new_bucket_count → size (buckets m') = new_bucket_count) ∧
    ∀ k, hash_map_get m' k = Ret (mm !! k).
Proof.
  intros Hm Hb. destruct (hash_map_resize_spec _ _ _ _ Hm Hb) as (r & m' & ? & ? & ?).
  exists r, m'. split_and!; [done..|]. intros k. by refine (hash_map_get_spec m' mm k _).
Qed.

Lemma hash_map_resize_keeps_witness :
  ∃ m : HashMap Z Z,
    @hash_map_create always _ _ (Some hash_func_uint16) (Some compare_uint) = Ret (Some m) ∧
    ∃ r m', @hash_map_resize always _ _ m 32 = Ret (r, m') ∧ size (buckets m') = 32.
Proof.
  destruct (@hash_map_create_spec always Z Z Z _ _ _ _ _ always_total uint16_functions_ok)
    as (m & E & Hm & _).
  exists m. split; [exact E|].
  destruct (@hash_map_resize_keeps always always_total Z Z _ _ m ∅ 32 Hm
    ltac:(unfold is_i32; lia)) as (r & m' & E' & _ & Hs & _).
  exists r, m'. split; [exact E'|]. apply Hs. lia.
Defined.

(** A new table over any of the key functions of the library is the empty
    map; the string functions decide equality of strings and order them
    antisymmetrically. *)
Theorem hash_map_create_empty `{AllocTotal} {V} (a b : list Z) :
  (∃ m, hash_map_create (Some hash_func_uint16) (Some compare_uint) = Ret (Some m) ∧
        hm_rep m (∅ : gmap Z V)) ∧
  (∃ m, hash_map_create (Some hash_func_uint64) (Some compare_uint) = Ret (Some m) ∧
        hm_rep m (∅ : gmap Z V)) ∧
  (∃ m, hash_map_create (Some hash_func_str) (Some compare_str) = Ret (Some m) ∧
        hm_rep m (∅ : gmap (list Z) V)) ∧
  (compare_cstr (Some a) (Some b) = 0 ↔ a = b) ∧
  compare_cstr (Some b) (Some a) = - compare_cstr (Some a) (Some b).
Proof.
  split_and!.
  - destruct (hash_map_create_spec (V := V) _ _ _ uint16_functions_ok) as (m & ? & ? & _); eauto.
  - destruct (hash_map_create_spec (V := V) _ _ _ uint64_functions_ok) as (m & ? & ? & _); eauto.
  - destruct (hash_map_create_spec (V := V) _ _ _ str_functions_ok) as (m & ? & ? & _); eauto.
  - apply strcmp_eq.
  - apply strcmp_swap.
Qed.

Lemma hash_map_create_empty_witness :
  (∃ m, @hash_map_create always _ Z (Some hash_func_str) (Some compare_str) = Ret (Some m) ∧
        hm_rep m (∅ : gmap (list Z) Z)) ∧
  (compare_cstr (Some [99; 110]) (Some [99]) = 0 ↔ [99; 110] = [99]).
Proof.
  pose proof (@hash_map_create_empty always always_total Z [99; 110] [99])
    as (_ & _ & Hs & Hc & _).
  split; [exact Hs|exact Hc].
Defined.

End HashMap.
