(* ===== verification/LazyHeap.v ===== *)
(** * The lazy-deletion heap of [src/infra/stl.c]

    A binary heap of pointers to elements, cell 0 unused, together with a table
    from the key of an element to its pointer: a removal only marks the element,
    which is freed when it reaches the root.  The comparator is an argument of
    the operations: the one the sessions use reads the session store.  The
    result of [malloc] for an element is used without a test. *)

From S2P Require Import Prelude Vector MapInterface HashMap.

Module LazyHeap.

Record HeapElement (A : Type) := MkElement { data : A; is_deleted : bool }.
Arguments MkElement {A} data is_deleted.
Arguments data {A} h.
Arguments is_deleted {A} h.

Record LazyHeap (A M : Type) := MkHeap {
  elements : list (option loc);   (* [capacity + 1] cells, [None]: never written *)
  survivor_table : option M;      (* [None] is NULL *)
  lh_size : Z;
  lh_capacity : Z;
  heap : Store (HeapElement A);   (* the elements the cells point to *)
}.
Arguments MkHeap {A M} elements survivor_table lh_size lh_capacity heap.
Arguments elements {A M} l.
Arguments survivor_table {A M} l.
Arguments lh_size {A M} l.
Arguments lh_capacity {A M} l.
Arguments heap {A M} l.

Definition sizeof_HeapElement : Z := 16.
Definition sizeof_LazyHeap : Z := 32.
Definition sizeof_elem_ptr : Z := 8.
Definition init_capacity : Z := 16.

Section lazy_heap.
Context `{Allocator} {A M : Type} `{MapOps Z loc M}.
Context (comparator : A → A → Res Z).
Implicit Types (queue : LazyHeap A M) (els : list (option loc)) (h : Store (HeapElement A)).

(** [queue->elements[i]]: the pointer in a cell that was written. *)
Definition elem_ptr els (i : Z) : Res loc := c ← rd els i; nonnull c.

Definition heap_element_compare h (a b : loc) : Res Z :=
  a ← load h a; b ← load h b;
  if is_deleted a && is_deleted b then Ret 0
  else if is_deleted a then Ret (-1)
  else if is_deleted b then Ret 1
  else comparator (data a) (data b).

(** [compare(queue, elements[i], elements[j])] *)
Definition compare_at els h (i j : Z) : Res Z :=
  a ← elem_ptr els i; b ← elem_ptr els j; heap_element_compare h a b.

Definition swap els (t u : Z) : Res (list (option loc)) :=
  temp ← rd els t; c ← rd els u; els ← blit els t [c]; blit els u [temp].

(** The first half of an iteration of [down]: the cell to exchange with. *)
Definition smallest h (size : Z) els (u : Z) : Res Z :=
  let t := u in
  let left := u * 2 in
  let right := u * 2 + 1 in
  t ← if left <=? size then
        c ← compare_at els h t left; Ret (if c >? 0 then left else t)
      else Ret t;
  if right <=? size then
    c ← compare_at els h t right; Ret (if c >? 0 then right else t)
  else Ret t.

Fixpoint down_loop (fuel : nat) h (size : Z) els (u : Z) : Res (list (option loc)) :=
  match fuel with
  | O => OutOfFuel
  | S fuel =>
      t ← smallest h size els u;
      if t =? u then Ret els else els ← swap els t u; down_loop fuel h size els t
  end.

Definition set_elements queue els : LazyHeap A M :=
  MkHeap els (survivor_table queue) (lh_size queue) (lh_capacity queue) (heap queue).

(** The index at least doubles at each iteration of [down], halves at each
    one of [up]: the number of elements bounds both. *)
Definition sift_fuel queue : nat := S (Z.to_nat (lh_size queue)).

Definition down queue (u : Z) : Res (LazyHeap A M) :=
  if (u <=? 0) || (u >? lh_size queue) then Ret queue
  else
    els ← down_loop (sift_fuel queue) (heap queue) (lh_size queue) (elements queue) u;
    Ret (set_elements queue els).

Fixpoint up_loop (fuel : nat) h els (u : Z) : Res (list (option loc)) :=
  match fuel with
  | O => OutOfFuel
  | S fuel =>
      let t := Z.quot u 2 in
      if t =? 0 then Ret els
      else
        c ← compare_at els h u t;
        if c <? 0 then els ← swap els t u; up_loop fuel h els t else Ret els
  end.

Definition up queue (u : Z) : Res (LazyHeap A M) :=
  if (u <=? 0) || (u >? lh_size queue) then Ret queue
  else
    els ← up_loop (sift_fuel queue) (heap queue) (elements queue) u;
    Ret (set_elements queue els).

(** The doubling loop is the one of [vector_grow]. *)
Definition priority_queue_grow queue (min_capacity : Z) : Res (bool * LazyHeap A M) :=
  if min_capacity <=? lh_capacity queue then Ret (true, queue)
  else
    let temp_capacity := if lh_capacity queue <=? 0 then 1 else lh_capacity queue in
    temp_capacity ← Vector.grow_capacity Vector.grow_fuel min_capacity temp_capacity;
    if malloc_ok (sizeof_elem_ptr * (temp_capacity + 1)) then
      Ret (true, MkHeap
        (elements queue ++
           replicate (Z.to_nat (temp_capacity + 1) - length (elements queue)) None)
        (survivor_table queue) (lh_size queue) temp_capacity (heap queue))
    else Ret (false, queue).

(** The hash table may be NULL: its operations then do nothing. *)
Definition table_get (table : option M) (key : Z) : Res (option loc) :=
  match table with Some t => map_get t key | None => Ret None end.
Definition table_put (table : option M) (key : Z) (p : loc) : Res (option M) :=
  match table with Some t => '(_, t) ← map_put t key p; Ret (Some t) | None => Ret None end.
Definition table_remove (table : option M) (key : Z) : Res (option M) :=
  match table with Some t => t ← map_remove t key; Ret (Some t) | None => Ret None end.

Definition lazy_heap_create : Res (option (LazyHeap A M)) :=
  if negb (malloc_ok sizeof_LazyHeap) then Ret None
  else if negb (malloc_ok (sizeof_elem_ptr * (init_capacity + 1))) then Ret None
  else
    table ← map_create;
    Ret (Some (MkHeap (replicate (Z.to_nat (init_capacity + 1)) None) table 0 init_capacity
                 empty_store)).

Definition lazy_heap_add queue (key : Z) (d : A) : Res (LazyHeap A M) :=
  '(ok, queue) ← priority_queue_grow queue (lh_size queue + 1);
  if negb ok then Ret queue
  else
    let size := lh_size queue + 1 in
    if negb (malloc_ok sizeof_HeapElement) then UB
    else
      let '(element, h) := alloc (MkElement d false) (heap queue) in
      els ← blit (elements queue) size [Some element];
      table ← table_put (survivor_table queue) key element;
      up (MkHeap els table size (lh_capacity queue) h) size.

(** [free(elements[1]); elements[1] = elements[size--]; down(1);] *)
Definition drop_root queue : Res (LazyHeap A M) :=
  p ← elem_ptr (elements queue) 1;
  h ← free (heap queue) p;
  c ← rd (elements queue) (lh_size queue);
  els ← blit (elements queue) 1 [c];
  down (MkHeap els (survivor_table queue) (lh_size queue - 1) (lh_capacity queue) h) 1.

Fixpoint do_delete_loop (fuel : nat) queue : Res (LazyHeap A M) :=
  if lh_size queue >? 0 then
    p ← elem_ptr (elements queue) 1;
    e ← load (heap queue) p;
    if is_deleted e then
      match fuel with
      | O => OutOfFuel
      | S fuel => queue ← drop_root queue; do_delete_loop fuel queue
      end
    else Ret queue
  else Ret queue.

(** Each iteration drops an element. *)
Definition do_delete queue : Res (LazyHeap A M) :=
  do_delete_loop (Z.to_nat (lh_size queue)) queue.

Definition lazy_heap_pop queue : Res (option A * LazyHeap A M) :=
  if lh_size queue =? 0 then Ret (None, queue)
  else
    queue ← do_delete queue;
    if lh_size queue =? 0 then Ret (None, queue)
    else
      p ← elem_ptr (elements queue) 1;
      temp_element ← load (heap queue) p;
      queue ← drop_root queue;
      Ret (Some (data temp_element), queue).

Definition lazy_heap_peek queue : Res (option A * LazyHeap A M) :=
  if lh_size queue =? 0 then Ret (None, queue)
  else
    queue ← do_delete queue;
    if lh_size queue =? 0 then Ret (None, queue)
    else
      p ← elem_ptr (elements queue) 1;
      e ← load (heap queue) p;
      Ret (Some (data e), queue).

Definition lazy_heap_remove queue (key : Z) : Res (LazyHeap A M) :=
  found ← table_get (survivor_table queue) key;
  match found with
  | None => Ret queue
  | Some p =>
      e ← load (heap queue) p;
      h ← store (heap queue) p (MkElement (data e) true);
      table ← table_remove (survivor_table queue) key;
      Ret (MkHeap (elements queue) table (lh_size queue) (lh_capacity queue) h)
  end.

(** What is left of the elements: the array goes, what its cells point to stays. *)
Definition lazy_heap_free (queue : option (LazyHeap A M)) : Res (Store (HeapElement A)) :=
  match queue with
  | None => Ret empty_store
  | Some queue =>
      _ ← match survivor_table queue with Some t => map_free t | None => Ret tt end;
      Ret (heap queue)
  end.
End lazy_heap.

(** ** The order of the heap

    [anc i j]: cell [i] is a proper ancestor of cell [j]. *)

Inductive anc : nat → nat → Prop :=
| anc_parent j : (1 < j)%nat → anc (j / 2) j
| anc_up i j : (1 < j)%nat → anc i (j / 2) → anc i j.

Lemma half_lt (j : nat) : (1 < j)%nat → (1 ≤ j / 2 < j)%nat.
Proof.
  intros. split; [|apply Nat.div_lt; lia].
  apply (Nat.div_le_lower_bound j 2 1); lia.
Qed.

Lemma anc_lt i j : anc i j → (1 ≤ i < j)%nat.
Proof. induction 1 as [j Hj|i j Hj _ IH]; pose proof (half_lt _ Hj); lia. Qed.

Lemma half_child (t u : nat) : (t = 2 * u ∨ t = 2 * u + 1)%nat → (t / 2 = u)%nat.
Proof.
  intros [->| ->].
  - rewrite (Nat.mul_comm 2), Nat.div_mul by lia. done.
  - rewrite Nat.add_comm, (Nat.mul_comm 2), Nat.div_add by lia. done.
Qed.

Lemma half_inv (j u : nat) : (j / 2 = u)%nat → (j = 2 * u ∨ j = 2 * u + 1)%nat.
Proof. intros <-. pose proof (Nat.div_mod_eq j 2). pose proof (Nat.mod_upper_bound j 2). lia. Qed.

Lemma anc_child (t u : nat) : (1 ≤ u)%nat → (t = 2 * u ∨ t = 2 * u + 1)%nat → anc u t.
Proof. intros Hu Ht. rewrite <- (half_child _ _ Ht). apply anc_parent. lia. Qed.

(** Every proper descendant is a child or below one. *)
Lemma anc_down u j :
  anc u j → ∃ t, (t = 2 * u ∨ t = 2 * u + 1)%nat ∧ (t = j ∨ anc t j).
Proof.
  induction 1 as [j Hj|i j Hj _ (t & Ht & IH)].
  - exists j. split; [by apply half_inv|by left].
  - exists t. split; [done|]. right. destruct IH as [->|IH]; [by apply anc_parent|by apply anc_up].
Qed.

(** The ancestors of a child of [u] are [u] and its ancestors. *)
Lemma anc_of_child i t u :
  (t = 2 * u ∨ t = 2 * u + 1)%nat → anc i t → i = u ∨ anc i u.
Proof.
  intros Ht Hi. inversion Hi as [j Hj|i' j Hj Hi']; subst.
  - left. by apply half_child.
  - right. by rewrite (half_child _ _ Ht) in Hi'.
Qed.

Lemma anc_trans i j k : anc i j → anc j k → anc i k.
Proof. intros Hij. induction 1; apply anc_up; auto. Qed.

Section order.
Context {A : Type} (rank : A → Z).
Implicit Types (els : list (option loc)) (h : gmap loc (HeapElement A)).

(** The element cell [i] points to. *)
Definition elem h els (i : nat) : option (HeapElement A) :=
  match els !! i with Some (Some p) => h !! p | _ => None end.

Definition le_elem (x y : HeapElement A) : Prop :=
  is_deleted x = false → is_deleted y = false → rank (data x) ≤ rank (data y).

(** Every live ancestor is at most every live descendant; nothing is said of
    the elements marked as deleted. [u] is a cell exempted as an ancestor. *)
Definition ordered_but (u : nat) h els (n : nat) : Prop :=
  ∀ i j x y, i ≠ u → anc i j → (j ≤ n)%nat →
    elem h els i = Some x → elem h els j = Some y → le_elem x y.
Definition ordered h els n : Prop := ordered_but 0 h els n.

(** Cells 1 to [n] hold distinct pointers to all the elements. *)
Record cells_ok h els (n : nat) : Prop := {
  c_len : (n < length els)%nat;
  c_in : ∀ i, (1 ≤ i ≤ n)%nat → ∃ p, els !! i = Some (Some p) ∧ is_Some (h !! p);
  c_inj : ∀ i j p, (1 ≤ i ≤ n)%nat → (1 ≤ j ≤ n)%nat →
    els !! i = Some (Some p) → els !! j = Some (Some p) → i = j;
  c_cov : ∀ p, is_Some (h !! p) → ∃ i, (1 ≤ i ≤ n)%nat ∧ els !! i = Some (Some p);
}.

Definition swapped els (t u : nat) : list (option loc) :=
  match els !! t, els !! u with
  | Some a, Some b => <[u := a]> (<[t := b]> els)
  | _, _ => els
  end.

(** transposition of cell indices *)
Definition transp (t u i : nat) : nat :=
  if decide (i = t) then u else if decide (i = u) then t else i.

Lemma swapped_lookup els t u i :
  is_Some (els !! t) → is_Some (els !! u) → swapped els t u !! i = els !! transp t u i.
Proof.
  intros [a Ha] [b Hb]. unfold swapped. rewrite Ha, Hb.
  pose proof (lookup_lt_Some _ _ _ Ha). pose proof (lookup_lt_Some _ _ _ Hb).
  unfold transp. destruct (decide (i = t)) as [->|].
  - destruct (decide (t = u)) as [->|].
    + rewrite list_lookup_insert_eq by (rewrite length_insert; lia). congruence.
    + rewrite list_lookup_insert_ne by done. rewrite list_lookup_insert_eq by lia. congruence.
  - destruct (decide (i = u)) as [->|].
    + rewrite list_lookup_insert_eq by (rewrite length_insert; lia). congruence.
    + by rewrite !list_lookup_insert_ne.
Qed.

Lemma swapped_length els t u : length (swapped els t u) = length els.
Proof. unfold swapped. repeat case_match; rewrite ?length_insert; done. Qed.

Lemma transp_range t u i n :
  (1 ≤ t ≤ n)%nat → (1 ≤ u ≤ n)%nat → (1 ≤ i ≤ n)%nat → (1 ≤ transp t u i ≤ n)%nat.
Proof. unfold transp. repeat case_decide; lia. Qed.

Lemma transp_inv t u i : transp t u (transp t u i) = i.
Proof. unfold transp. repeat case_decide; lia. Qed.

Lemma cells_ok_some h els n i : cells_ok h els n → (1 ≤ i ≤ n)%nat → is_Some (els !! i).
Proof. intros Hc Hi. destruct (c_in _ _ _ Hc i Hi) as (p & -> & _). eauto. Qed.

Lemma cells_ok_swapped h els n t u :
  cells_ok h els n → (1 ≤ t ≤ n)%nat → (1 ≤ u ≤ n)%nat → cells_ok h (swapped els t u) n.
Proof.
  intros Hc Ht Hu. pose proof (cells_ok_some _ _ _ t Hc Ht) as St.
  pose proof (cells_ok_some _ _ _ u Hc Hu) as Su. split.
  - rewrite swapped_length. apply Hc.
  - intros i Hi. rewrite swapped_lookup by done.
    by apply (c_in _ _ _ Hc), transp_range.
  - intros i j p Hi Hj. rewrite !swapped_lookup by done. intros Ei Ej.
    rewrite <- (transp_inv t u i), <- (transp_inv t u j). f_equal.
    by apply (c_inj _ _ _ Hc _ _ p); [apply transp_range..| |].
  - intros p Hp. destruct (c_cov _ _ _ Hc p Hp) as (i & Hi & Ei).
    exists (transp t u i). split; [by apply transp_range|].
    by rewrite swapped_lookup, transp_inv.
Qed.

Lemma elem_swapped h els t u i :
  is_Some (els !! t) → is_Some (els !! u) →
  elem h (swapped els t u) i = elem h els (transp t u i).
Proof. intros. unfold elem. by rewrite swapped_lookup. Qed.

Lemma swap_spec els t u :
  is_Some (els !! t) → is_Some (els !! u) →
  swap els (Z.of_nat t) (Z.of_nat u) = Ret (swapped els t u).
Proof.
  intros [a Ha] [b Hb]. unfold swap. rewrite (rd_Some _ _ _ Ha), (rd_Some _ _ _ Hb).
  cbn [mbind Res_bind]. pose proof (lookup_lt_Some _ _ _ Ha).
  pose proof (lookup_lt_Some _ _ _ Hb).
  rewrite blit_single by lia. cbn [mbind Res_bind].
  rewrite blit_single by (rewrite length_insert; lia).
  unfold swapped. by rewrite Ha, Hb, !Nat2Z.id.
Qed.

(** [gt_elem x y]: the comparison of the code is positive. *)
Definition gt_elem (x y : HeapElement A) : Prop :=
  is_deleted x = false ∧ (is_deleted y = true ∨ rank (data y) < rank (data x)).

Lemma not_gt_le x y : ¬ gt_elem x y → le_elem x y.
Proof.
  unfold gt_elem, le_elem. intros Hn Hx Hy.
  destruct (decide (rank (data y) < rank (data x))); [|lia]. tauto.
Qed.

Lemma cells_ok_elem h els n i : cells_ok h els n → (1 ≤ i ≤ n)%nat → ∃ x, elem h els i = Some x.
Proof.
  intros Hc Hi. destruct (c_in _ _ _ Hc i Hi) as (p & E & x & Hx).
  exists x. unfold elem. by rewrite E.
Qed.

Lemma ordered_stop h els n u x :
  cells_ok h els n → (1 ≤ u)%nat → ordered_but u h els n → elem h els u = Some x →
  (∀ t y, (t = 2 * u ∨ t = 2 * u + 1)%nat → (t ≤ n)%nat → elem h els t = Some y → ¬ gt_elem x y) →
  ordered h els n.
Proof.
  intros Hc Hu1 Ho Hx Hch i j xi xj _ Hij Hj Hi Hxj.
  destruct (decide (i = u)) as [->|Hne]; [|by apply (Ho i j)].
  rewrite Hx in Hi. injection Hi as <-.
  destruct (anc_down _ _ Hij) as (t & Ht & [->|Htj]); [eapply not_gt_le, Hch; eauto|].
  pose proof (anc_lt _ _ Htj) as Hlt. pose proof (anc_lt _ _ Hij) as Hlt'.
  destruct (cells_ok_elem _ _ _ t Hc) as [y Hy]; [lia|].
  assert (Hxy := not_gt_le _ _ (Hch t y Ht ltac:(lia) Hy)).
  assert (Hyj := Ho t j y xj ltac:(lia) Htj Hj Hy Hxj).
  specialize (Hch t y Ht ltac:(lia) Hy).
  intros Hlx Hlj. unfold gt_elem in Hch. unfold le_elem in *.
  destruct (is_deleted y) eqn:Hdy; [tauto|].
  specialize (Hxy Hlx eq_refl). specialize (Hyj eq_refl Hlj). lia.
Qed.

Lemma ordered_swap h els n u t x c :
  cells_ok h els n → (1 ≤ u)%nat → (t = 2 * u ∨ t = 2 * u + 1)%nat → (t ≤ n)%nat →
  ordered_but u h els n → elem h els u = Some x → elem h els t = Some c → gt_elem x c →
  (∀ s y, (s = 2 * u ∨ s = 2 * u + 1)%nat → s ≠ t → (s ≤ n)%nat →
     elem h els s = Some y → ¬ gt_elem c y) →
  ordered_but t h (swapped els t u) n.
Proof.
  intros Hc Hu Ht Htn Ho Hx Hxc Hgt Hs i j xi xj Hit Hij Hj.
  pose proof (cells_ok_some _ _ _ t Hc ltac:(lia)) as St.
  pose proof (cells_ok_some _ _ _ u Hc ltac:(lia)) as Su.
  pose proof (anc_lt _ _ Hij) as Hlt.
  rewrite !elem_swapped by done. unfold transp. rewrite (decide_False (P := i = t)) by done.
  destruct (decide (i = u)) as [->|Hiu].
  - (* the element moved up *)
    rewrite Hxc. intros [= <-].
    destruct (anc_down _ _ Hij) as (s & Hsu & Hsj).
    destruct (decide (j = t)) as [->|Hjt].
    { rewrite Hx. intros [= <-] Hlc Hlx. destruct Hgt as [_ [?|?]]; [congruence|lia]. }
    rewrite decide_False by lia. intros Hxj.
    destruct (decide (s = t)) as [->|Hst].
    { destruct Hsj as [->|Hsj]; [done|]. eapply (Ho t j); [lia|done..]. }
    destruct Hsj as [->|Hsj]; [eapply not_gt_le, Hs; eauto|].
    pose proof (anc_lt _ _ Hsj).
    destruct (cells_ok_elem _ _ _ s Hc) as [y Hy]; [lia|].
    specialize (Hs s y Hsu Hst ltac:(lia) Hy).
    assert (Hyj := Ho s j y xj ltac:(lia) Hsj Hj Hy Hxj).
    intros Hlc Hlj. unfold gt_elem in Hs. unfold le_elem in Hyj.
    destruct (is_deleted y) eqn:Hdy; [tauto|]. specialize (Hyj eq_refl Hlj).
    destruct (decide (rank (data y) < rank (data c))); [tauto|lia].
  - intros Hxi. destruct (decide (j = t)) as [->|Hjt].
    { intros Hxj. destruct (anc_of_child _ _ _ Ht Hij) as [->|Hiu']; [done|].
      apply (Ho i u); try done. lia. }
    destruct (decide (j = u)) as [->|Hju].
    { intros Hxj. apply (Ho i t); try done. eapply anc_trans; [done|]. by apply anc_child. }
    intros Hxj. by apply (Ho i j).
Qed.

(** ** The comparator orders the live elements by [rank] *)

Definition live h (d : A) : Prop := ∃ p, h !! p = Some (MkElement d false).

Definition ranked (cmp : A → A → Res Z) (P : A → Prop) : Prop :=
  ∀ x y, P x → P y → ∃ c, cmp x y = Ret c ∧
    (0 < c ↔ rank y < rank x) ∧ (c < 0 ↔ rank x < rank y).

Lemma compare_at_spec cmp (s : Store (HeapElement A)) els n i j x y :
  ranked cmp (live (cells s)) → cells_ok (cells s) els n →
  (1 ≤ i ≤ n)%nat → (1 ≤ j ≤ n)%nat →
  elem (cells s) els i = Some x → elem (cells s) els j = Some y →
  ∃ c, compare_at cmp els s (Z.of_nat i) (Z.of_nat j) = Ret c ∧
    (0 < c ↔ gt_elem x y) ∧ (c < 0 ↔ gt_elem y x).
Proof.
  intros Hr Hc Hi Hj Hx Hy.
  destruct (c_in _ _ _ Hc i Hi) as (p & Ep & _), (c_in _ _ _ Hc j Hj) as (q & Eq & _).
  unfold elem in Hx, Hy. rewrite Ep in Hx. rewrite Eq in Hy.
  unfold compare_at, elem_ptr. rewrite (rd_Some _ _ _ Ep), (rd_Some _ _ _ Eq).
  cbn [mbind Res_bind nonnull]. unfold heap_element_compare.
  rewrite (load_Some _ _ _ Hx), (load_Some _ _ _ Hy). cbn [mbind Res_bind].
  unfold gt_elem. destruct x as [dx []], y as [dy []]; cbn [is_deleted data andb].
  - exists 0. split; [done|]. split; (split; [lia|intros [? _]; done]).
  - exists (-1). split; [done|]. by split; split; try lia; eauto.
  - exists 1. split; [done|]. by split; split; try lia; eauto.
  - destruct (Hr dx dy) as (c & -> & H1 & H2); [by exists p|by exists q|].
    exists c. split; [done|]. rewrite H1, H2. split; split; try tauto.
    + intros [_ [?|?]]; [done|done].
    + intros [_ [?|?]]; [done|done].
Qed.

Section sift.
Context (cmp : A → A → Res Z) (s : Store (HeapElement A)).
Context (Hcmp : ranked cmp (live (cells s))).
Abbreviation h := (cells s).

Lemma compare_gtb els n i j x y :
  cells_ok h els n → (1 ≤ i ≤ n)%nat → (1 ≤ j ≤ n)%nat →
  elem h els i = Some x → elem h els j = Some y →
  ∃ c, compare_at cmp els s (Z.of_nat i) (Z.of_nat j) = Ret c ∧
    (((c >? 0) = true ∧ gt_elem x y) ∨ ((c >? 0) = false ∧ ¬ gt_elem x y)).
Proof using Hcmp.
  intros Hc Hi Hj Hx Hy.
  destruct (compare_at_spec _ _ _ _ _ _ _ _ Hcmp Hc Hi Hj Hx Hy) as (c & E & Hgt & _).
  exists c. split; [done|]. rewrite Z.gtb_ltb. destruct (0 <? c) eqn:E0; bools.
  - left. split; [done|]. by apply Hgt.
  - right. split; [done|]. rewrite <- Hgt. lia.
Qed.

Lemma gt_elem_trans x y z : gt_elem x y → gt_elem y z → gt_elem x z.
Proof using Type. unfold gt_elem. intros [? [?|?]] [? [?|?]]; split; auto; try congruence. right. lia. Qed.

Lemma gt_elem_asym x y : gt_elem x y → ¬ gt_elem y x.
Proof using Type. unfold gt_elem. intros [? [?|?]] [? [?|?]]; try congruence. lia. Qed.

Lemma gt_elem_cotrans x y z : gt_elem x y → gt_elem x z ∨ ¬ gt_elem y z.
Proof using Type.
  unfold gt_elem. intros [? [?|?]]; [right; intros [? _]; congruence|].
  destruct (is_deleted z); [left; auto|].
  destruct (decide (rank (data z) < rank (data x))); [left; auto|right; intros [_ [?|?]]; [done|lia]].
Qed.

Lemma smallest_spec els n u x :
  cells_ok h els n → (1 ≤ u ≤ n)%nat → elem h els u = Some x →
  ∃ t, smallest cmp s (Z.of_nat n) els (Z.of_nat u) = Ret (Z.of_nat t) ∧
    ((t = u ∧ ∀ t y, (t = 2 * u ∨ t = 2 * u + 1)%nat → (t ≤ n)%nat →
                 elem h els t = Some y → ¬ gt_elem x y) ∨
     ((t = 2 * u ∨ t = 2 * u + 1)%nat ∧ (t ≤ n)%nat ∧ ∃ c, elem h els t = Some c ∧
        gt_elem x c ∧
        ∀ s' y, (s' = 2 * u ∨ s' = 2 * u + 1)%nat → s' ≠ t → (s' ≤ n)%nat →
           elem h els s' = Some y → ¬ gt_elem c y)).
Proof using Hcmp.
  intros Hc Hu Hx. unfold smallest.
  replace (Z.of_nat u * 2 + 1) with (Z.of_nat (2 * u + 1)) by lia.
  replace (Z.of_nat u * 2) with (Z.of_nat (2 * u)) by lia.
  destruct (Z.of_nat (2 * u) <=? Z.of_nat n) eqn:El; bools.
  2: { rewrite (proj2 (Z.leb_gt _ _)) by lia. cbn [mbind Res_bind].
       exists u. split; [done|]. left. split; [done|]. intros. lia. }
  destruct (cells_ok_elem _ _ _ (2 * u) Hc) as [l Hl]; [lia|].
  destruct (compare_gtb _ _ _ (2 * u) _ _ Hc Hu ltac:(lia) Hx Hl) as (c & -> & Hcl).
  cbn [mbind Res_bind].
  destruct (Z.of_nat (2 * u + 1) <=? Z.of_nat n) eqn:Er; bools.
  2: { destruct Hcl as [[-> Hg]|[-> Hg]].
       - exists (2 * u)%nat. split; [done|]. right. split; [by left|]. split; [lia|].
         exists l. split_and!; [done..|]. intros. lia.
       - exists u. split; [done|]. left. split; [done|].
         intros t y [->| ->] ? Hy; [congruence|lia]. }
  destruct (cells_ok_elem _ _ _ (2 * u + 1) Hc) as [r Hr]; [lia|].
  destruct Hcl as [[-> Hg]|[-> Hg]].
  - destruct (compare_gtb _ _ (2 * u) (2 * u + 1) _ _ Hc ltac:(lia) ltac:(lia) Hl Hr)
      as (c' & -> & Hcr). cbn [mbind Res_bind]. destruct Hcr as [[-> Hg']|[-> Hg']].
    + exists (2 * u + 1)%nat. split; [done|]. right. split; [by right|]. split; [lia|].
      exists r. split_and!; [done|by eapply gt_elem_trans|].
      intros s' y [->| ->] ? ? Hy; [|done]. rewrite Hl in Hy. injection Hy as <-.
      by apply gt_elem_asym.
    + exists (2 * u)%nat. split; [done|]. right. split; [by left|]. split; [lia|].
      exists l. split_and!; [done..|]. intros s' y [->| ->] ? ? Hy; [done|].
      congruence.
  - destruct (compare_gtb _ _ u (2 * u + 1) _ _ Hc ltac:(lia) ltac:(lia) Hx Hr)
      as (c' & -> & Hcr). cbn [mbind Res_bind]. destruct Hcr as [[-> Hg']|[-> Hg']].
    + exists (2 * u + 1)%nat. split; [done|]. right. split; [by right|]. split; [lia|].
      exists r. split_and!; [done..|].
      intros s' y [->| ->] ? ? Hy; [|done]. rewrite Hl in Hy. injection Hy as <-.
      by destruct (gt_elem_cotrans x r l Hg').
    + exists u. split; [done|]. left. split; [done|].
      intros t y [->| ->] ? Hy; congruence.
Qed.

Lemma down_loop_spec fuel els n u :
  cells_ok h els n → (1 ≤ u ≤ n)%nat → (n < fuel + u)%nat → ordered_but u h els n →
  ∃ els', down_loop cmp fuel s (Z.of_nat n) els (Z.of_nat u) = Ret els' ∧
    cells_ok h els' n ∧ ordered h els' n ∧ length els' = length els.
Proof using Hcmp.
  revert els u. induction fuel as [|fuel IH]; intros els u Hc Hu Hf Ho; [lia|].
  destruct (cells_ok_elem _ _ _ u Hc Hu) as [x Hx].
  cbn [down_loop]. destruct (smallest_spec _ _ _ _ Hc Hu Hx) as (t & -> & Ht).
  cbn [mbind Res_bind]. destruct Ht as [[-> Hstop]|(Ht & Htn & c & Hcx & Hg & Hother)].
  - rewrite Z.eqb_refl. exists els. split_and!; [done..| |done].
    by apply (ordered_stop _ _ _ u x); [|lia|..].
  - rewrite (proj2 (Z.eqb_neq _ _)) by lia.
    rewrite swap_spec by (apply (cells_ok_some _ _ _ _ Hc); lia). cbn [mbind Res_bind].
    destruct (IH (swapped els t u) t) as (els' & -> & ? & ? & ?).
    + apply cells_ok_swapped; [done|lia|lia].
    + lia.
    + lia.
    + eapply ordered_swap; eauto. lia.
    + exists els'. rewrite swapped_length in *. done.
Qed.

(** Going up: the new element at [u] may be smaller than its ancestors. *)
Definition ordered_above (u : nat) els (n : nat) : Prop :=
  ∀ i j x y, j ≠ u → anc i j → (j ≤ n)%nat →
    elem h els i = Some x → elem h els j = Some y → le_elem x y.

(** [x] may be put at [u]: none of its ancestors is marked as deleted, or
    no live element is larger. *)
Definition may_add (u : nat) els (n : nat) (x : HeapElement A) : Prop :=
  (∀ i y, anc i u → elem h els i = Some y → is_deleted y = false) ∨
  (∀ i y, (1 ≤ i ≤ n)%nat → elem h els i = Some y → le_elem y x).

Lemma ordered_above_stop els n u t x c :
  cells_ok h els n → (1 ≤ t)%nat → (u = 2 * t ∨ u = 2 * t + 1)%nat → (u ≤ n)%nat →
  elem h els u = Some x → elem h els t = Some c →
  ordered_above u els n → may_add u els n x → ¬ gt_elem c x → ordered h els n.
Proof using Type.
  intros Hc Ht Hut Hun Hx Hct Ho Hadd Hg i j xi xj _ Hij Hj Hi Hxj.
  destruct (decide (j = u)) as [->|]; [|by apply (Ho i j)].
  rewrite Hx in Hxj. injection Hxj as <-. pose proof (anc_lt _ _ Hij).
  destruct Hadd as [Hlive|Hmax]; [|apply (Hmax i); [lia|done]].
  destruct (anc_of_child _ _ _ Hut Hij) as [->|Hit].
  - apply not_gt_le. congruence.
  - assert (Hlc := Hlive t c (anc_child _ _ Ht Hut) Hct).
    assert (Hic := Ho i t xi c ltac:(lia) Hit ltac:(lia) Hi Hct).
    assert (Hcx := not_gt_le _ _ Hg). intros Hli Hlx.
    specialize (Hic Hli Hlc). specialize (Hcx Hlc Hlx). lia.
Qed.

Lemma ordered_above_swap els n u t x c :
  cells_ok h els n → (1 ≤ t)%nat → (u = 2 * t ∨ u = 2 * t + 1)%nat → (u ≤ n)%nat →
  elem h els u = Some x → elem h els t = Some c →
  ordered_above u els n → is_deleted x = false → gt_elem c x →
  ordered_above t (swapped els t u) n.
Proof using Type.
  intros Hc Ht Hut Hun Hx Hct Ho Hlx Hg i j xi xj Hjt Hij Hj.
  pose proof (cells_ok_some _ _ _ t Hc ltac:(lia)) as St.
  pose proof (cells_ok_some _ _ _ u Hc ltac:(lia)) as Su.
  pose proof (anc_lt _ _ Hij) as Hlt.
  assert (Hxc : rank (data x) < rank (data c) ∧ is_deleted c = false)
    by (destruct Hg as [? [?|?]]; [congruence|done]).
  rewrite !elem_swapped by done. unfold transp. rewrite (decide_False (P := j = t)) by done.
  destruct (decide (j = u)) as [->|Hju].
  - rewrite Hct. destruct (anc_of_child _ _ _ Hut Hij) as [->|Hit].
    + rewrite decide_True, Hx by done. intros [= <-] [= <-] _ _. lia.
    + pose proof (anc_lt _ _ Hit).
      rewrite !decide_False by lia. intros Hi [= <-]. apply (Ho i t); done || lia.
  - destruct (decide (i = t)) as [->|Hit].
    + rewrite Hx. intros [= <-] Hxj _ Hlj.
      assert (Hcj := Ho t j c xj Hju Hij Hj Hct Hxj). destruct Hxc as [? Hlc].
      specialize (Hcj Hlc Hlj). lia.
    + destruct (decide (i = u)) as [->|Hiu]; [|intros; by apply (Ho i j)].
      rewrite Hct. intros [= <-] Hxj. eapply (Ho t j); try done.
      eapply anc_trans; [|done]. by apply anc_child.
Qed.

Lemma up_loop_spec fuel els n u x :
  cells_ok h els n → (1 ≤ u ≤ n)%nat → (u ≤ fuel)%nat → elem h els u = Some x →
  is_deleted x = false → ordered_above u els n → may_add u els n x →
  ∃ els', up_loop cmp fuel s els (Z.of_nat u) = Ret els' ∧
    cells_ok h els' n ∧ ordered h els' n ∧ length els' = length els.
Proof using Hcmp.
  revert els u. induction fuel as [|fuel IH]; intros els u Hc Hu Hf Hx Hlx Ho Hadd; [lia|].
  cbn [up_loop]. rewrite Z.quot_div_nonneg by lia.
  change 2 with (Z.of_nat 2). rewrite <- Nat2Z.inj_div.
  destruct (decide (u = 1%nat)) as [->|Hu1].
  { exists els. split_and!; [done..| |done]. intros i j xi xj _ Hij.
    apply (Ho i j); [|done]. intros ->. pose proof (anc_lt _ _ Hij). lia. }
  set (t := (u / 2)%nat). pose proof (half_lt u ltac:(lia)) as Ht. fold t in Ht.
  pose proof (half_inv u t eq_refl) as Hut.
  rewrite (proj2 (Z.eqb_neq _ _)) by lia.
  destruct (cells_ok_elem _ _ _ t Hc) as [c Hct]; [lia|].
  destruct (compare_at_spec _ _ _ _ u t _ _ Hcmp Hc Hu ltac:(lia) Hx Hct)
    as (r & -> & _ & Hr). cbn [mbind Res_bind]. destruct (r <? 0) eqn:E; bools.
  - apply Hr in E.
    rewrite swap_spec by (apply (cells_ok_some _ _ _ _ Hc); lia). cbn [mbind Res_bind].
    pose proof (cells_ok_some _ _ _ t Hc ltac:(lia)) as St.
    pose proof (cells_ok_some _ _ _ u Hc ltac:(lia)) as Su.
    destruct (IH (swapped els t u) t) as (els' & -> & ? & ? & ?).
    + apply cells_ok_swapped; [done|lia|lia].
    + lia.
    + lia.
    + rewrite elem_swapped by done. unfold transp. by rewrite decide_True.
    + done.
    + eapply ordered_above_swap; eauto; lia.
    + destruct Hadd as [Hlive|Hmax]; [left|right]; intros i y Hi;
        rewrite elem_swapped by done.
      * pose proof (anc_lt _ _ Hi). unfold transp. rewrite !decide_False by lia.
        apply Hlive. eapply anc_trans; [done|]. apply anc_child; [lia|done].
      * apply Hmax, transp_range; [lia|lia|done].
    + exists els'. rewrite swapped_length in *. done.
  - exists els. split_and!; [done..| |done].
    eapply (ordered_above_stop _ _ u t); eauto; [lia|lia|]. rewrite <- Hr. lia.
Qed.
End sift.
End order.

Lemma anc_root i : (1 < i)%nat → anc 1 i.
Proof.
  induction i as [i IH] using lt_wf_ind. intros Hi. pose proof (half_lt i Hi).
  destruct (decide (i / 2 = 1)%nat) as [E|]; [rewrite <- E; by apply anc_parent|].
  apply anc_up; [done|]. apply IH; lia.
Qed.

(** ** Representation: a map from the keys of the live elements to their data *)

Section rep.
Context `{Allocator} {A M : Type} `{!MapOps Z loc M, !MapLaws Z loc M} (rank : A → Z).
Implicit Types (q : LazyHeap A M) (am : gmap Z A) (tm : gmap Z loc) (h : gmap loc (HeapElement A)).

Definition among am (d : A) : Prop := ∃ k, am !! k = Some d.

(** The table [tm] points to the live elements, each under one key. *)
Record tracks tm am h : Prop := {
  t_data : ∀ k x, am !! k = Some x ↔ ∃ p, tm !! k = Some p ∧ h !! p = Some (MkElement x false);
  t_live : ∀ p x, h !! p = Some (MkElement x false) → ∃ k, tm !! k = Some p;
  t_inj : ∀ k k' p, tm !! k = Some p → tm !! k' = Some p → k = k';
  t_ptr : ∀ k p, tm !! k = Some p → ∃ x, h !! p = Some (MkElement x false);
}.

Definition count q : nat := Z.to_nat (lh_size q).

Record lh_core q : Prop := {
  r_size : 0 ≤ lh_size q ≤ lh_capacity q;
  r_cap : Z.of_nat (length (elements q)) = lh_capacity q + 1;
  r_min : 1 ≤ lh_capacity q;
  r_cells : cells_ok (cells (heap q)) (elements q) (count q);
  r_order : ordered rank (cells (heap q)) (elements q) (count q);
  r_wf : store_wf (heap q);
}.

Record lh_rep q am : Prop := {
  r_core : lh_core q;
  r_table : ∃ t tm, survivor_table q = Some t ∧ map_rep t tm ∧ tracks tm am (cells (heap q));
}.

Lemma ranked_mono cmp (P Q : A → Prop) :
  (∀ x, P x → Q x) → ranked rank cmp Q → ranked rank cmp P.
Proof. intros HPQ Hr x y Hx Hy. apply Hr; auto. Qed.

Lemma tracks_live tm am h x : tracks tm am h → live h x → among am x.
Proof.
  intros Ht [p Hp]. destruct (t_live _ _ _ Ht _ _ Hp) as [k Hk].
  exists k. apply (t_data _ _ _ Ht). eauto.
Qed.

Lemma lh_rep_ranked q am cmp :
  lh_rep q am → ranked rank cmp (among am) → ranked rank cmp (live (cells (heap q))).
Proof.
  intros Hq. apply ranked_mono. intros x. destruct (r_table _ _ Hq) as (t & tm & _ & _ & Ht).
  by eapply tracks_live.
Qed.

(** Dropping the root: the last cell takes its place. *)
Lemma cells_ok_drop h els n p c :
  cells_ok h els n → (1 ≤ n)%nat → els !! 1%nat = Some (Some p) → els !! n = Some c →
  cells_ok (delete p h) (<[1%nat := c]> els) (n - 1).
Proof.
  intros Hc Hn Hp Hcn. pose proof (c_len _ _ _ Hc) as Hlen.
  destruct (c_in _ _ _ Hc n ltac:(lia)) as (pn & En & _).
  assert (Hold : ∀ i, (1 ≤ i ≤ n - 1)%nat → ∃ i', (1 ≤ i' ≤ n)%nat ∧ i' ≠ 1%nat ∧
    (<[1%nat := c]> els) !! i = els !! i' ∧ (i = 1%nat ∧ i' = n ∨ i ≠ 1%nat ∧ i' = i)).
  { intros i Hi. destruct (decide (i = 1%nat)) as [->|Hi1].
    - exists n. rewrite list_lookup_insert_eq by lia. split_and!; [lia|lia|lia|done|by left].
    - exists i. rewrite list_lookup_insert_ne by done. split_and!; [lia|lia|done|done|by right]. }
  split.
  - rewrite length_insert. lia.
  - intros i Hi. destruct (Hold i Hi) as (i' & Hi' & Hne & -> & _).
    destruct (c_in _ _ _ Hc i' Hi') as (p' & E & Hp'). exists p'. split; [done|].
    rewrite lookup_delete_ne; [done|]. intros <-. apply Hne.
    apply (c_inj _ _ _ Hc i' 1%nat p); [done|lia|done|done].
  - intros i j p' Hi Hj. destruct (Hold i Hi) as (i' & Hi' & _ & -> & Hi2).
    destruct (Hold j Hj) as (j' & Hj' & _ & -> & Hj2). intros Ei Ej.
    pose proof (c_inj _ _ _ Hc i' j' p' Hi' Hj' Ei Ej). lia.
  - intros p' Hp'. destruct (decide (p = p')) as [<-|Hne].
    { rewrite lookup_delete_eq in Hp'. by destruct Hp'. }
    rewrite lookup_delete_ne in Hp' by done.
    destruct (c_cov _ _ _ Hc p' Hp') as (i & Hi & Ei).
    assert (Hi1 : i ≠ 1%nat) by congruence.
    destruct (decide (i = n)) as [->|Hin].
    + exists 1%nat. rewrite list_lookup_insert_eq by lia. split; [lia|congruence].
    + exists i. rewrite list_lookup_insert_ne by done. split; [lia|done].
Qed.

Lemma ordered_drop h els n p c :
  cells_ok h els n → (1 ≤ n)%nat → els !! 1%nat = Some (Some p) → els !! n = Some c →
  ordered rank h els n → ordered_but rank 1 (delete p h) (<[1%nat := c]> els) (n - 1).
Proof.
  intros Hc Hn Hp Hcn Ho i j xi xj Hi Hij Hj. pose proof (anc_lt _ _ Hij).
  assert (Hother : ∀ k x, k ≠ 1%nat → elem (delete p h) (<[1%nat := c]> els) k = Some x →
    elem h els k = Some x).
  { intros k x Hk. unfold elem. rewrite list_lookup_insert_ne by done.
    destruct (els !! k) as [[pk|]|]; [|done..].
    destruct (decide (p = pk)) as [<-|]; [by rewrite lookup_delete_eq|].
    by rewrite lookup_delete_ne. }
  intros Hxi Hxj. apply (Ho i j); [lia|done|lia|by apply Hother|apply Hother; [lia|done]].
Qed.

Lemma tracks_drop tm am h p x :
  tracks tm am h → h !! p = Some x → is_deleted x = true → tracks tm am (delete p h).
Proof.
  intros Ht Hp Hx.
  assert (Hl : ∀ p' y, delete p h !! p' = Some (MkElement y false) ↔
    h !! p' = Some (MkElement y false)).
  { intros p' y. destruct (decide (p = p')) as [<-|].
    - rewrite lookup_delete_eq, Hp. split; [done|]. intros [= ->]. done.
    - by rewrite lookup_delete_ne. }
  split.
  - intros k y. rewrite (t_data _ _ _ Ht). by setoid_rewrite Hl.
  - intros p' y. rewrite Hl. apply Ht.
  - apply Ht.
  - intros k p' Hk. destruct (t_ptr _ _ _ Ht _ _ Hk) as [y Hy]. exists y. by apply Hl.
Qed.

(** [down] at the root of a heap whose root alone may be misplaced. *)
Lemma down_root_spec cmp q :
  ranked rank cmp (live (cells (heap q))) → 0 ≤ lh_size q →
  cells_ok (cells (heap q)) (elements q) (count q) →
  ordered_but rank 1 (cells (heap q)) (elements q) (count q) →
  ∃ els, down cmp q 1 = Ret (set_elements q els) ∧
    cells_ok (cells (heap q)) els (count q) ∧
    ordered rank (cells (heap q)) els (count q) ∧ length els = length (elements q).
Proof.
  intros Hr Hs Hc Ho. unfold down. rewrite Z.gtb_ltb. change (1 <=? 0) with false. simpl orb.
  destruct (lh_size q <? 1) eqn:E; bools.
  - exists (elements q). split; [by destruct q|]. split_and!; [done| |done].
    intros i j x y _ Hij Hj. unfold count in Hj. pose proof (anc_lt _ _ Hij). lia.
  - destruct (down_loop_spec rank cmp (heap q) Hr (sift_fuel q) (elements q) (count q) 1)
      as (els & E' & ? & ? & ?); [done|unfold count; lia|unfold sift_fuel, count; lia|done|].
    unfold count at 1 in E'. rewrite Z2Nat.id in E' by lia.
    change (Z.of_nat 1) with 1 in E'. rewrite E'. simpl. eauto.
Qed.

Lemma count_1 q : lh_core q → lh_size q ≠ 0 → (1 ≤ count q)%nat.
Proof. intros Hq ?. pose proof (r_size _ Hq). unfold count. lia. Qed.

Lemma core_root q :
  lh_core q → lh_size q ≠ 0 →
  ∃ p x, elements q !! 1%nat = Some (Some p) ∧ cells (heap q) !! p = Some x ∧
    elem_ptr (elements q) 1 = Ret p ∧ load (heap q) p = Ret x.
Proof.
  intros Hq Hs. pose proof (count_1 _ Hq Hs).
  destruct (c_in _ _ _ (r_cells _ Hq) 1) as (p & Ep & x & Hx); [lia|].
  exists p, x. split_and!; [done..| |by apply load_Some].
  unfold elem_ptr. change 1 with (Z.of_nat 1). by rewrite (rd_Some _ _ _ Ep).
Qed.

Lemma drop_root_spec cmp q p :
  lh_core q → lh_size q ≠ 0 → elements q !! 1%nat = Some (Some p) →
  ranked rank cmp (live (cells (heap q))) →
  ∃ q', drop_root cmp q = Ret q' ∧ lh_core q' ∧ lh_size q' = lh_size q - 1 ∧
    survivor_table q' = survivor_table q ∧ cells (heap q') = delete p (cells (heap q)).
Proof.
  intros Hq Hs Ep Hr. pose proof (count_1 _ Hq Hs) as Hn.
  pose proof (r_cells _ Hq) as Hc. pose proof (r_size _ Hq).
  pose proof (r_cap _ Hq). pose proof (c_len _ _ _ Hc).
  destruct (core_root _ Hq Hs) as (p' & x & Ep' & Hp & Eptr & _).
  rewrite Ep in Ep'. injection Ep' as <-.
  destruct (c_in _ _ _ Hc (count q)) as (pn & En & _); [lia|].
  unfold drop_root. rewrite Eptr. cbn [mbind Res_bind].
  rewrite (free_Some _ _ _ Hp). cbn [mbind Res_bind].
  apply rd_Some in En as Erd. unfold count in Erd. rewrite Z2Nat.id in Erd by lia.
  rewrite Erd. cbn [mbind Res_bind]. rewrite blit_single by lia. cbn [mbind Res_bind]. change (Z.to_nat 1) with 1%nat.
  set (q1 := MkHeap _ _ _ _ _).
  assert (Hcount : count q1 = (count q - 1)%nat) by (unfold count, q1; simpl; lia).
  destruct (down_root_spec cmp q1) as (els & -> & Hc' & Ho' & Hl').
  - eapply ranked_mono; [|exact Hr]. intros y [p' Hp']. exists p'. simpl in Hp'.
    by apply lookup_delete_Some in Hp' as [_ ?].
  - simpl. lia.
  - rewrite Hcount. by apply cells_ok_drop.
  - rewrite Hcount. apply ordered_drop; [done..|apply Hq].
  - eexists. split; [done|]. split; [|done]. split; simpl in *.
    + lia.
    + rewrite Hl', length_insert. done.
    + apply Hq.
    + exact Hc'.
    + exact Ho'.
    + by apply store_wf_delete, Hq.
Qed.

(** [do_delete] frees every marked element that has reached the root; what
    the heap represents does not change. *)
Lemma do_delete_loop_spec cmp fuel q am :
  lh_rep q am → ranked rank cmp (among am) → (count q ≤ fuel)%nat →
  ∃ q', do_delete_loop cmp fuel q = Ret q' ∧ lh_rep q' am ∧ lh_size q' ≤ lh_size q ∧
    ∀ p x, lh_size q' ≠ 0 → elements q' !! 1%nat = Some (Some p) →
      cells (heap q') !! p = Some x → is_deleted x = false.
Proof.
  revert q. induction fuel as [|fuel IH]; intros q Hq Hr Hf;
    pose proof (r_size _ (r_core _ _ Hq)) as Hs; cbn [do_delete_loop]; rewrite Z.gtb_ltb.
  { assert (lh_size q = 0) as E by (unfold count in Hf; lia).
    rewrite E. exists q. split_and!; [done..|lia|]. intros ? ? ?. lia. }
  destruct (0 <? lh_size q) eqn:E; bools.
  2: { exists q. split_and!; [done..|]. intros p x ?. lia. }
  destruct (core_root q (r_core _ _ Hq)) as (p & x & Ep & Hp & -> & Hl); [lia|].
  cbn [mbind Res_bind]. rewrite Hl. cbn [mbind Res_bind].
  destruct (is_deleted x) eqn:Hx.
  2: { exists q. split_and!; [done..|]. intros p' x' _ Ep' Hp'. congruence. }
  destruct (drop_root_spec cmp q p (r_core _ _ Hq)) as (q1 & -> & Hc1 & Hs1 & Ht1 & Hh1);
    [lia|done|by eapply lh_rep_ranked|].
  cbn [mbind Res_bind]. destruct (IH q1) as (q' & -> & Hq' & Hs' & Hroot).
  - split; [done|]. destruct (r_table _ _ Hq) as (t & tm & Et & Hm & Htr).
    exists t, tm. rewrite Ht1, Hh1. split_and!; [done..|]. by eapply tracks_drop.
  - done.
  - unfold count in *. lia.
  - exists q'. split_and!; [done..|lia|done].
Qed.

(** What the root is after [do_delete]: the smallest live element. *)
Lemma do_delete_spec cmp q am :
  lh_rep q am → ranked rank cmp (among am) →
  ∃ q', do_delete cmp q = Ret q' ∧ lh_rep q' am ∧ lh_size q' ≤ lh_size q ∧
    (lh_size q' = 0 ∧ am = ∅ ∨
     lh_size q' ≠ 0 ∧ ∃ p k x, elem_ptr (elements q') 1 = Ret p ∧
       elements q' !! 1%nat = Some (Some p) ∧
       cells (heap q') !! p = Some (MkElement x false) ∧ am !! k = Some x ∧
       ∀ k' y, am !! k' = Some y → rank x ≤ rank y).
Proof.
  intros Hq Hr. destruct (do_delete_loop_spec cmp (count q) q am Hq Hr) as
    (q' & E & Hq' & Hs & Hroot); [done|].
  exists q'. split_and!; [done..|].
  destruct (r_table _ _ Hq') as (t & tm & _ & _ & Ht).
  pose proof (r_core _ _ Hq') as Hc. pose proof (r_cells _ Hc) as Hcells.
  destruct (decide (lh_size q' = 0)) as [E0|Hne]; [left|right]; (split; [done|]).
  - apply map_empty. intros k. destruct (am !! k) as [x|] eqn:Hk; [|done].
    apply (t_data _ _ _ Ht) in Hk as (p & _ & Hp).
    destruct (c_cov _ _ _ Hcells p) as (i & Hi & _); [eauto|]. unfold count in Hi. lia.
  - destruct (core_root _ Hc Hne) as (p & e & Ep & Hp & Eptr & _).
    pose proof (Hroot p e Hne Ep Hp) as Hlive. destruct e as [x b]. simpl in Hlive. subst b.
    destruct (tracks_live _ _ _ x Ht) as [k Hk]; [by exists p|].
    exists p, k, x. split_and!; [done..|].
    intros k' y Hk'. apply (t_data _ _ _ Ht) in Hk' as (p' & _ & Hp').
    destruct (c_cov _ _ _ Hcells p') as (i & Hi & Ei); [eauto|].
    destruct (decide (i = 1%nat)) as [->|Hi1].
    { assert (p' = p) by congruence. subst p'. assert (x = y) by congruence. subst. lia. }
    refine (r_order _ Hc 1%nat i (MkElement x false) (MkElement y false) _ _ _ _ _ eq_refl eq_refl).
    + done.
    + apply anc_root. lia.
    + lia.
    + unfold elem. by rewrite Ep.
    + unfold elem. by rewrite Ei.
Qed.

(** None of the elements is released with the heap. *)
Lemma lazy_heap_free_spec q am :
  lh_rep q am → ∃ s, lazy_heap_free (Some q) = Ret s ∧
    ∀ k y, am !! k = Some y → ∃ p, cells s !! p = Some (MkElement y false).
Proof.
  intros Hq. destruct (r_table _ _ Hq) as (t & tm & E & Ht & Htr). exists (heap q). split.
  - unfold lazy_heap_free. rewrite E. by rewrite (map_free_spec _ _ Ht).
  - intros k y (p & _ & Hp)%(t_data _ _ _ Htr). by exists p.
Qed.

Lemma lazy_heap_peek_spec cmp q am :
  lh_rep q am → ranked rank cmp (among am) →
  ∃ r q', lazy_heap_peek cmp q = Ret (r, q') ∧ lh_rep q' am ∧
    match r with
    | None => am = ∅
    | Some x => ∃ k, am !! k = Some x ∧ ∀ k' y, am !! k' = Some y → rank x ≤ rank y
    end.
Proof.
  intros Hq Hr. unfold lazy_heap_peek.
  destruct (do_delete_spec cmp q am Hq Hr) as (q' & E & Hq' & Hle & Hroot).
  pose proof (r_size _ (r_core _ _ Hq')).
  destruct (lh_size q =? 0) eqn:E0; bools.
  { exists None, q. split_and!; [done..|]. destruct Hroot as [[_ ?]|[? _]]; [done|lia]. }
  rewrite E. cbn [mbind Res_bind]. destruct (lh_size q' =? 0) eqn:E1; bools.
  - exists None, q'. split_and!; [done..|]. by destruct Hroot as [[_ ?]|[? _]].
  - destruct Hroot as [[? _]|(_ & p & k & x & -> & _ & Hp & Hk & Hmin)]; [done|].
    cbn [mbind Res_bind]. rewrite (load_Some _ _ _ Hp). cbn [mbind Res_bind].
    exists (Some x), q'. split_and!; [done..|]. eauto.
Qed.

Lemma tracks_mark tm am h p x k :
  tracks tm am h → tm !! k = Some p → h !! p = Some (MkElement x false) →
  tracks (delete k tm) (delete k am) (<[p := MkElement x true]> h).
Proof using A rank.
  intros Ht Hk Hp.
  assert (Hl : ∀ p' y, <[p := MkElement x true]> h !! p' = Some (MkElement y false) ↔
    p' ≠ p ∧ h !! p' = Some (MkElement y false)).
  { intros p' y. destruct (decide (p' = p)) as [->|].
    - rewrite lookup_insert_eq. split; [congruence|by intros [? _]].
    - rewrite lookup_insert_ne by done. tauto. }
  assert (Hne : ∀ k' p', tm !! k' = Some p' → k' ≠ k ↔ p' ≠ p).
  { intros k' p' Hk'. split; [|congruence]. intros Hkk ->. apply Hkk.
    by apply (t_inj _ _ _ Ht _ _ p). }
  split.
  - intros k' y. rewrite lookup_delete_Some, (t_data _ _ _ Ht). split.
    + intros (Hkk & p' & Hk' & Hp'). exists p'. rewrite lookup_delete_ne by done.
      split; [done|]. apply Hl. split; [|done]. by apply (Hne k').
    + intros (p' & (Hkk & Hk')%lookup_delete_Some & (_ & Hp')%Hl). eauto.
  - intros p' y [Hpp Hp']%Hl. destruct (t_live _ _ _ Ht _ _ Hp') as [k' Hk'].
    exists k'. apply lookup_delete_Some. split; [|done]. apply not_eq_sym. by apply (Hne k' p').
  - intros k1 k2 p' [_ Hk1]%lookup_delete_Some [_ Hk2]%lookup_delete_Some.
    by apply (t_inj _ _ _ Ht _ _ p').
  - intros k' p' [Hkk Hk']%lookup_delete_Some. destruct (t_ptr _ _ _ Ht _ _ Hk') as [y Hy].
    exists y. apply Hl. split; [|done]. apply (Hne k' p'); [done|]. by apply not_eq_sym.
Qed.

(** Changing elements without moving or reviving any. *)
Lemma cells_ok_dom h h' els n :
  (∀ p, is_Some (h' !! p) ↔ is_Some (h !! p)) → cells_ok h els n → cells_ok h' els n.
Proof.
  intros Hd Hc. split; [apply Hc| |apply Hc|].
  - intros i Hi. destruct (c_in _ _ _ Hc i Hi) as (p & ? & ?). exists p. by rewrite Hd.
  - intros p Hp. by apply (c_cov _ _ _ Hc), Hd.
Qed.

Lemma ordered_weaken h h' els n u :
  (∀ p x, h' !! p = Some x → is_deleted x = false → h !! p = Some x) →
  ordered_but rank u h els n → ordered_but rank u h' els n.
Proof.
  intros Hd Ho i j x y Hi Hij Hj Hx Hy Hlx Hly. unfold elem in Hx, Hy.
  destruct (els !! i) as [[p|]|] eqn:Ei; [|done..].
  destruct (els !! j) as [[p'|]|] eqn:Ej; [|done..].
  apply (Ho i j); try done; unfold elem; rewrite ?Ei, ?Ej; auto.
Qed.

Lemma lazy_heap_remove_spec q am k :
  lh_rep q am → ∃ q', lazy_heap_remove q k = Ret q' ∧ lh_rep q' (delete k am).
Proof.
  intros Hq. destruct (r_table _ _ Hq) as (t & tm & Et & Hm & Ht).
  pose proof (r_core _ _ Hq) as Hc.
  unfold lazy_heap_remove, table_get, table_remove. rewrite Et, (map_get_spec _ _ _ Hm).
  cbn [mbind Res_bind]. destruct (tm !! k) as [p|] eqn:Hk.
  - destruct (t_ptr _ _ _ Ht _ _ Hk) as [x Hp].
    rewrite (load_Some _ _ _ Hp). cbn [mbind Res_bind].
    rewrite (store_Some _ _ _ _ Hp). cbn [mbind Res_bind data].
    destruct (map_remove_spec _ _ k Hm) as (t' & -> & Hm'). cbn [mbind Res_bind].
    eexists. split; [done|]. split.
    + split; simpl; try apply Hc.
      * eapply cells_ok_dom; [|apply Hc]. intros p'. rewrite lookup_insert_is_Some.
        split; [|destruct (decide (p = p')); tauto]. intros [<-|[_ ?]]; eauto.
      * eapply ordered_weaken; [|apply Hc]. intros p' y [[<- <-]|[_ ?]]%lookup_insert_Some; done.
      * by apply store_wf_insert; [apply Hc|eauto].
    + exists t', (delete k tm). simpl. split_and!; [done..|]. by eapply tracks_mark.
  - exists q. split; [done|]. rewrite delete_id; [done|].
    destruct (am !! k) as [x|] eqn:Ha; [|done].
    apply (t_data _ _ _ Ht) in Ha as (p & ? & _). congruence.
Qed.

(** When an element may be added: no marked element is left in the heap, or
    nothing alive ranks above the new one. *)
Definition add_ok q am (x : A) : Prop :=
  (∀ p e, cells (heap q) !! p = Some e → is_deleted e = false) ∨
  (∀ k y, am !! k = Some y → rank y ≤ rank x).

Lemma lazy_heap_remove_size q k q' : lazy_heap_remove q k = Ret q' → lh_size q' = lh_size q.
Proof.
  unfold lazy_heap_remove. intros (found & _ & E)%bind_Ret_inv. destruct found as [p|]; [|by injection E as <-].
  apply bind_Ret_inv in E as (e & _ & E). apply bind_Ret_inv in E as (h & _ & E).
  apply bind_Ret_inv in E as (t & _ & E). by injection E as <-.
Qed.

Lemma down_size cmp q u q' : down cmp q u = Ret q' → lh_size q' = lh_size q.
Proof.
  unfold down. destruct (_ || _); [by intros [= <-]|].
  intros (els & _ & E)%bind_Ret_inv. by injection E as <-.
Qed.

Lemma lazy_heap_add_size `{Allocator} cmp q k x q' :
  lazy_heap_add cmp q k x = Ret q' → lh_size q' ≤ lh_size q + 1.
Proof.
  unfold lazy_heap_add. intros ([ok q1] & E1 & E)%bind_Ret_inv.
  assert (lh_size q1 = lh_size q).
  { revert E1. unfold priority_queue_grow. destruct (_ <=? lh_capacity q); [intros E1; by simplify_eq|].
    intros (c & _ & E1)%bind_Ret_inv. by case_match; simplify_eq. }
  destruct ok; cbn [negb] in E; [|injection E as <-; lia].
  case_match; [done|]. case_match. apply bind_Ret_inv in E as (els & _ & E).
  apply bind_Ret_inv in E as (t & _ & E). revert E. unfold up. cbn [lh_size].
  case_match; [intros [= <-]; cbn [lh_size]; lia|].
  intros (els' & _ & E)%bind_Ret_inv. injection E as <-. cbn [lh_size set_elements]. lia.
Qed.

Lemma do_delete_loop_size cmp fuel q q' :
  do_delete_loop cmp fuel q = Ret q' → lh_size q' ≤ lh_size q.
Proof.
  revert q. induction fuel as [|fuel IH]; intros q; cbn [do_delete_loop].
  - destruct (lh_size q >? 0); [|intros [= <-]; lia]. intros (p & _ & E)%bind_Ret_inv.
    apply bind_Ret_inv in E as (e & _ & E). destruct (is_deleted e); [discriminate|]. injection E as <-. lia.
  - destruct (lh_size q >? 0); [|intros [= <-]; lia]. intros (p & _ & E)%bind_Ret_inv.
    apply bind_Ret_inv in E as (e & _ & E). destruct (is_deleted e); [|injection E as <-; lia].
    apply bind_Ret_inv in E as (q1 & E1 & E). apply IH in E. unfold drop_root in E1.
    apply bind_Ret_inv in E1 as (p' & _ & E1). apply bind_Ret_inv in E1 as (h & _ & E1).
    apply bind_Ret_inv in E1 as (c & _ & E1). apply bind_Ret_inv in E1 as (els & _ & E1).
    apply down_size in E1. cbn [lh_size] in E1. lia.
Qed.

Lemma lazy_heap_peek_size cmp q r q' : lazy_heap_peek cmp q = Ret (r, q') → lh_size q' ≤ lh_size q.
Proof.
  unfold lazy_heap_peek. destruct (lh_size q =? 0); [intros [= <- <-]; lia|].
  intros (q1 & E1 & E)%bind_Ret_inv. unfold do_delete in E1.
  apply do_delete_loop_size in E1.
  destruct (lh_size q1 =? 0); [by injection E as <- <-|]. apply bind_Ret_inv in E as (p & _ & E).
  apply bind_Ret_inv in E as (e & _ & E). by injection E as <- <-.
Qed.

Lemma tracks_add tm am h p k x :
  tracks tm am h → h !! p = None → am !! k = None →
  tracks (<[k := p]> tm) (<[k := x]> am) (<[p := MkElement x false]> h).
Proof.
  intros Ht Hp Hk.
  assert (Hfresh : ∀ k', tm !! k' ≠ Some p).
  { intros k' Hk'. destruct (t_ptr _ _ _ Ht _ _ Hk') as [y Hy]. congruence. }
  assert (Hko : ∀ k' p', tm !! k' = Some p' → k' ≠ k).
  { intros k' p' Hk' ->. destruct (t_ptr _ _ _ Ht _ _ Hk') as [y Hy].
    assert (am !! k = Some y) by (apply (t_data _ _ _ Ht); eauto). congruence. }
  split.
  - intros k' y. destruct (decide (k = k')) as [<-|Hne].
    + rewrite !lookup_insert_eq. split.
      * intros [= ->]. exists p. by rewrite lookup_insert_eq.
      * intros (p' & [= <-] & Hp'). rewrite lookup_insert_eq in Hp'. congruence.
    + rewrite !lookup_insert_ne by done. rewrite (t_data _ _ _ Ht).
      split; intros (p' & Hk' & Hp'); exists p'; (split; [done|]).
      * rewrite lookup_insert_ne; [done|]. intros <-. by apply (Hfresh k').
      * rewrite lookup_insert_ne in Hp'; [done|]. intros <-. by apply (Hfresh k').
  - intros p' y [[<- _]|[Hpp Hp']]%lookup_insert_Some.
    + exists k. by rewrite lookup_insert_eq.
    + destruct (t_live _ _ _ Ht _ _ Hp') as [k' Hk']. exists k'.
      rewrite lookup_insert_ne; [done|]. apply not_eq_sym. eauto.
  - intros k1 k2 p' [[<- <-]|[? Hk1]]%lookup_insert_Some [[<- E]|[? Hk2]]%lookup_insert_Some; [done| | |].
    + by destruct (Hfresh k2).
    + subst p'. by destruct (Hfresh k1).
    + by apply (t_inj _ _ _ Ht _ _ p').
  - intros k' p' [[<- <-]|[? Hk1]]%lookup_insert_Some; [exists x; by rewrite lookup_insert_eq|].
    destruct (t_ptr _ _ _ Ht _ _ Hk1) as [y Hy]. exists y. rewrite lookup_insert_ne; [done|].
    intros <-. by apply (Hfresh k').
Qed.

Lemma lookup_room els (rest : list (option loc)) n i :
  (n < length els)%nat → (i ≤ n)%nat → (els ++ rest) !! i = els !! i.
Proof. intros. apply lookup_app_l. lia. Qed.

Lemma elem_app h els (rest : list (option loc)) n i :
  (n < length els)%nat → (i ≤ n)%nat → elem h (els ++ rest) i = elem h els i.
Proof. intros. unfold elem. by rewrite (lookup_room _ _ n). Qed.

Lemma grow_spec q min_capacity :
  lh_core q → AllocTotal → min_capacity ≤ 2 ^ 30 →
  ∃ q', priority_queue_grow q min_capacity = Ret (true, q') ∧ lh_core q' ∧
    min_capacity ≤ lh_capacity q' ∧ lh_size q' = lh_size q ∧
    survivor_table q' = survivor_table q ∧ heap q' = heap q.
Proof.
  intros Hc Htot Hm. unfold priority_queue_grow. destruct (_ <=? _) eqn:E; bools.
  { exists q. by split_and!. }
  pose proof (r_min _ Hc). pose proof (r_size _ Hc). pose proof (r_cap _ Hc).
  rewrite (proj2 (Z.leb_gt _ _)) by lia.
  destruct (Vector.grow_capacity_spec Vector.grow_fuel min_capacity (lh_capacity q))
    as (c & -> & ? & ? & _); [lia|lia|unfold Vector.grow_fuel; lia|].
  cbn [mbind Res_bind]. rewrite malloc_total. eexists. split; [done|].
  pose proof (r_cells _ Hc) as Hcells. pose proof (c_len _ _ _ Hcells) as Hlen.
  split; [|by split_and!]. split; simpl; try apply Hc; [lia| |lia| |].
  - rewrite length_app, length_replicate. lia.
  - unfold count in *. cbn [lh_size]. split.
    + rewrite length_app. lia.
    + intros i Hi. rewrite (lookup_room _ _ _ _ Hlen) by lia. by apply Hcells.
    + intros i j p Hi Hj. rewrite !(lookup_room _ _ _ _ Hlen) by lia. by apply Hcells.
    + intros p Hp. destruct (c_cov _ _ _ Hcells p Hp) as (i & Hi & Ei). exists i.
      by rewrite (lookup_room _ _ _ _ Hlen) by lia.
  - intros i j x y Hi Hij Hj. pose proof (anc_lt _ _ Hij).
    unfold count in *. cbn [lh_size] in *.
    rewrite !(elem_app _ _ _ _ _ Hlen) by lia. by apply (r_order _ Hc).
Qed.

(** The new element stored in the first free cell. *)
Lemma cells_ok_add h els n p e :
  cells_ok h els n → (S n < length els)%nat → h !! p = None →
  cells_ok (<[p := e]> h) (<[S n := Some p]> els) (S n).
Proof.
  intros Hc Hlen Hp.
  assert (Hold : ∀ i p', (1 ≤ i ≤ n)%nat → els !! i = Some (Some p') → p' ≠ p).
  { intros i p' Hi Ei ->. destruct (c_in _ _ _ Hc i Hi) as (p' & E & Hp').
    rewrite Ei in E. injection E as <-. rewrite Hp in Hp'. by destruct Hp'. }
  assert (Hi : ∀ i, (1 ≤ i ≤ S n)%nat → i = S n ∨ (1 ≤ i ≤ n)%nat) by lia.
  split.
  - by rewrite length_insert.
  - intros i [->|Hin]%Hi.
    + exists p. rewrite list_lookup_insert_eq by done. by rewrite lookup_insert_eq.
    + destruct (c_in _ _ _ Hc i Hin) as (p' & E & Hp'). exists p'.
      rewrite list_lookup_insert_ne by lia. rewrite lookup_insert_ne; [done|].
      apply not_eq_sym. eauto.
  - intros i j p' [->|Hin]%Hi [->|Hjn]%Hi; [done| | |].
    + rewrite list_lookup_insert_eq, list_lookup_insert_ne by lia. intros [= <-] Ej.
      by destruct (Hold _ _ Hjn Ej).
    + rewrite list_lookup_insert_ne, list_lookup_insert_eq by lia. intros Ei [= <-].
      by destruct (Hold _ _ Hin Ei).
    + rewrite !list_lookup_insert_ne by lia. by apply (c_inj _ _ _ Hc).
  - intros p' [<-|[Hpp Hp']]%lookup_insert_is_Some.
    + exists (S n). rewrite list_lookup_insert_eq by done. split; [lia|done].
    + destruct (c_cov _ _ _ Hc p' Hp') as (i & Hin & Ei). exists i.
      rewrite list_lookup_insert_ne by lia. split; [lia|done].
Qed.

(** A new element in the first free cell leaves the others in place. *)
Lemma elem_add_old h els n p e i :
  cells_ok h els n → h !! p = None → (1 ≤ i ≤ n)%nat →
  elem (<[p := e]> h) (<[S n := Some p]> els) i = elem h els i.
Proof.
  intros Hc Hp Hi. unfold elem. rewrite list_lookup_insert_ne by lia.
  destruct (c_in _ _ _ Hc i Hi) as (p' & -> & Hp'). simpl.
  rewrite lookup_insert_ne; [done|]. intros <-. rewrite Hp in Hp'. by destruct Hp'.
Qed.

Lemma elem_add_new (h : gmap loc (HeapElement A)) els n p e :
  (S n < length els)%nat → elem (<[p := e]> h) (<[S n := Some p]> els) (S n) = Some e.
Proof. intros Hn. unfold elem. rewrite list_lookup_insert_eq by lia. simpl. by rewrite lookup_insert_eq. Qed.

Lemma add_may_add q am tm k p x b :
  lh_core q → cells (heap q) !! p = None → (S (count q) < length (elements q))%nat →
  tracks (<[k := p]> tm) (<[k := x]> am) (<[p := MkElement x false]> (cells (heap q))) →
  add_ok q am x →
  may_add rank (MkStore (<[p := MkElement x false]> (cells (heap q))) b) (S (count q))
    (<[S (count q) := Some p]> (elements q)) (S (count q)) (MkElement x false).
Proof.
  intros Hc Hp Hlen Ht [Hlive|Hmax]; [left|right].
  - intros i y Hi Hy. pose proof (anc_lt _ _ Hi). cbn [cells] in Hy.
    rewrite (elem_add_old _ _ _ _ _ _ (r_cells _ Hc) Hp) in Hy by lia.
    unfold elem in Hy. destruct (elements q !! i) as [[p'|]|]; [|done..]. by eapply Hlive.
  - intros i y Hi Hy Hly _. destruct y as [d b']. simpl in Hly. subst b'. simpl.
    unfold elem in Hy. destruct (_ !! i) as [[p'|]|] in Hy; [|done..].
    destruct (tracks_live _ _ _ d Ht) as [k' Hk']; [by exists p'|].
    apply lookup_insert_Some in Hk' as [[_ ->]|[_ ?]]; [lia|by eapply Hmax].
Qed.

(** The sifting of the new element [p]. *)
Lemma sift_new cmp q am tm k x (t : M) :
  let p := brk (heap q) in let n := count q in
  let h := MkStore (<[p := MkElement x false]> (cells (heap q))) (Pos.succ p) in
  let els := <[S n := Some p]> (elements q) in
  lh_core q → ranked rank cmp (λ y, y = x ∨ among am y) → lh_size q + 1 ≤ lh_capacity q →
  tracks (<[k := p]> tm) (<[k := x]> am) (cells h) → add_ok q am x →
  ∃ els', up cmp (MkHeap els (Some t) (lh_size q + 1) (lh_capacity q) h) (lh_size q + 1) =
      Ret (MkHeap els' (Some t) (lh_size q + 1) (lh_capacity q) h) ∧
    cells_ok (cells h) els' (S n) ∧ ordered rank (cells h) els' (S n) ∧ length els' = length els.
Proof.
  intros p n h els Hc Hr Hcap Ht Hadd. pose proof (r_size _ Hc). pose proof (r_cap _ Hc).
  pose proof (r_cells _ Hc) as Hcells. pose proof (store_wf_fresh _ (r_wf _ Hc)) as Hfresh.
  assert (Hn : Z.of_nat n = lh_size q) by (unfold n, count; lia).
  unfold up. cbn [lh_size lh_capacity heap elements survivor_table]. rewrite Z.gtb_ltb, Z.ltb_irrefl, (proj2 (Z.leb_gt _ _)) by lia.
  cbn [orb]. replace (lh_size q + 1) with (Z.of_nat (S n)) by lia.
  destruct (up_loop_spec rank cmp h) with (fuel := sift_fuel (MkHeap els (Some t)
    (Z.of_nat (S n)) (lh_capacity q) h)) (els := els) (n := S n) (u := S n)
    (x := MkElement x false) as (els' & E' & Hc' & Ho' & Hl').
  - eapply ranked_mono; [|exact Hr]. intros y Hy. destruct (tracks_live _ _ _ _ Ht Hy) as [k' Hk'].
    apply lookup_insert_Some in Hk' as [[_ ->]|[_ ?]]; [by left|right; by exists k'].
  - apply cells_ok_add; [done|lia|done].
  - lia.
  - unfold sift_fuel. simpl. lia.
  - apply elem_add_new. lia.
  - done.
  - intros i j y z Hj Hij Hjn. pose proof (anc_lt _ _ Hij).
    unfold h, els. cbn [cells]. rewrite !(elem_add_old _ _ _ _ _ _ Hcells Hfresh) by lia.
    apply (r_order _ Hc); [lia|done|fold n; lia].
  - eapply add_may_add; [done|done|fold n; lia|exact Ht|done].
  - rewrite E'. by exists els'.
Qed.

Lemma lazy_heap_add_spec cmp q am k x :
  AllocTotal → lh_rep q am → ranked rank cmp (λ y, y = x ∨ among am y) →
  lh_size q < 2 ^ 30 → am !! k = None → add_ok q am x →
  ∃ q', lazy_heap_add cmp q k x = Ret q' ∧ lh_rep q' (<[k := x]> am).
Proof.
  intros Htot Hq Hr Hsz Hk Hadd. pose proof (r_core _ _ Hq) as Hc0.
  destruct (grow_spec q (lh_size q + 1) Hc0 Htot) as (q1 & E1 & Hc & Hcap & Hs & Htab & Hheap); [lia|].
  destruct (r_table _ _ Hq) as (t & tm & Et & Hm & Ht). rewrite <- Hheap in Ht.
  assert (Hadd1 : add_ok q1 am x) by (unfold add_ok; by rewrite Hheap).
  pose proof (r_size _ Hc). pose proof (r_cap _ Hc). rewrite <- Hs in Hcap.
  pose proof (tracks_add _ _ _ _ k x Ht (store_wf_fresh _ (r_wf _ Hc)) Hk) as Ht'.
  unfold lazy_heap_add. rewrite E1. cbn [mbind Res_bind negb]. rewrite malloc_total.
  cbn [negb]. unfold alloc. cbv beta iota zeta. rewrite blit_single by lia. cbn [mbind Res_bind].
  unfold table_put. rewrite Htab, Et.
  destruct (map_put_spec _ _ k (brk (heap q1)) Hm) as (t' & -> & Hm'). cbn [mbind Res_bind].
  replace (Z.to_nat (lh_size q1 + 1)) with (S (count q1)) by (unfold count; lia).
  destruct (sift_new cmp q1 am tm k x t' Hc Hr Hcap Ht' Hadd1) as (els' & E' & Hc' & Ho' & Hl').
  eexists. split; [exact E'|]. assert (En : Z.to_nat (lh_size q1 + 1) = S (count q1)) by (unfold count; lia).
  split; [split|]; simpl; try (unfold count at 1; cbn [lh_size]; rewrite En).
  - lia.
  - rewrite Hl', length_insert. done.
  - apply Hc.
  - exact Hc'.
  - exact Ho'.
  - apply (store_wf_alloc (heap q1) (MkElement x false)), Hc.
  - exists t', (<[k := brk (heap q1)]> tm). by split_and!.
Qed.

Lemma lazy_heap_create_spec :
  AllocTotal → ∃ q, lazy_heap_create = Ret (Some q) ∧ lh_rep q ∅ ∧ lh_size q = 0.
Proof.
  intros Htot. unfold lazy_heap_create. rewrite !malloc_total. simpl negb. cbv iota.
  destruct map_create_spec as (t & -> & Hm). cbn [mbind Res_bind].
  eexists. split; [done|]. split; [|done]. split; [split|]; simpl.
  - unfold init_capacity. lia.
  - done.
  - unfold init_capacity. lia.
  - split.
    + vm_compute. lia.
    + unfold count. simpl. intros. lia.
    + unfold count. simpl. intros. lia.
    + intros p [y Hp]. by rewrite lookup_empty in Hp.
  - intros i j x y _ Hij. unfold count. simpl. pose proof (anc_lt _ _ Hij). intros. lia.
  - apply store_wf_empty.
  - exists t, ∅. split_and!; [done..|]. split.
    + intros k x. rewrite lookup_empty. split; [done|]. intros (p & Hp & _).
      by rewrite lookup_empty in Hp.
    + intros p x Hp. by rewrite lookup_empty in Hp.
    + intros k k' p Hp. by rewrite lookup_empty in Hp.
    + intros k p Hp. by rewrite lookup_empty in Hp.
Qed.

(** [pop] hands out a smallest element and frees it, but its key stays in the
    table, pointing to freed memory. *)
Lemma lazy_heap_pop_spec cmp q am :
  lh_rep q am → ranked rank cmp (among am) → am ≠ ∅ →
  ∃ k x q', lazy_heap_pop cmp q = Ret (Some x, q') ∧ am !! k = Some x ∧
    (∀ k' y, am !! k' = Some y → rank x ≤ rank y) ∧ lazy_heap_remove q' k = UB.
Proof.
  intros Hq Hr Hne. unfold lazy_heap_pop.
  destruct (do_delete_spec cmp q am Hq Hr) as (q1 & E & Hq1 & Hle & Hroot).
  destruct Hroot as [[_ ?]|(Hs1 & p & _ & x & Eptr & Ep & Hp & _ & Hmin)]; [done|].
  pose proof (r_core _ _ Hq1) as Hc1. pose proof (r_size _ Hc1).
  rewrite (proj2 (Z.eqb_neq _ _)) by lia. rewrite E. cbn [mbind Res_bind].
  rewrite (proj2 (Z.eqb_neq _ _)) by lia. rewrite Eptr. cbn [mbind Res_bind].
  rewrite (load_Some _ _ _ Hp). cbn [mbind Res_bind].
  destruct (drop_root_spec cmp q1 p Hc1 Hs1 Ep) as (q2 & -> & _ & _ & Htab & Hh);
    [by eapply lh_rep_ranked|].
  destruct (r_table _ _ Hq1) as (t & tm & Et & Hm & Ht).
  destruct (t_live _ _ _ Ht _ _ Hp) as [k Hk]. exists k, x, q2. split_and!; [done| |done|].
  - apply (t_data _ _ _ Ht). eauto.
  - unfold lazy_heap_remove, table_get. rewrite Htab, Et, (map_get_spec _ _ _ Hm), Hk.
    cbn [mbind Res_bind]. unfold load. rewrite Hh, lookup_delete_eq. done.
Qed.
End rep.

(** The rank may change where nothing alive is looked at: the key of a datum
    that is not in the queue can be updated. *)
Lemma lh_rep_rank {A M : Type} `{!MapOps Z loc M, !MapLaws Z loc M} (rank rank' : A → Z)
    (q : LazyHeap A M) (am : gmap Z A) :
  (∀ k x, am !! k = Some x → rank x = rank' x) → lh_rep rank q am → lh_rep rank' q am.
Proof.
  intros Heq [[Hs Hc Hm Hcells Ho Hwf] (t & tm & Et & Hrep & Ht)]. split; [|by exists t, tm].
  split; try done. intros i j x y Hi Hij Hj Hx Hy Hdx Hdy.
  assert (Hl : ∀ i z, elem (cells (heap q)) (elements q) i = Some z → is_deleted z = false →
    rank (data z) = rank' (data z)).
  { intros k [d b] Hz Hdel. simpl in Hdel. subst b. unfold elem in Hz.
    destruct (elements q !! k) as [[p|]|]; [|done..].
    destruct (tracks_live _ _ _ _ Ht (ex_intro _ p Hz)) as [key Hkey]. by apply (Heq key). }
  rewrite <- (Hl _ _ Hx Hdx), <- (Hl _ _ Hy Hdy). by apply (Ho i j).
Qed.

(** ** Two comparators

    What the heap does with one comparator it does with another that gives the
    same results, and may give more. *)

Section comparators.
Context `{Allocator} {A M : Type} `{MapOps Z loc M} (c c' : A → A → Res Z).
Hypothesis Hc : ∀ a b, gives (c a b) (c' a b).
#[local] Hint Resolve Hc : gives.
Implicit Types (queue : LazyHeap A M).

Lemma compare_gives h a b : gives (heap_element_compare c h a b) (heap_element_compare c' h a b).
Proof using Hc. unfold heap_element_compare. giving. Qed.
#[local] Hint Resolve compare_gives : gives.
Lemma smallest_gives h n els u : gives (smallest c h n els u) (smallest c' h n els u).
Proof using Hc. unfold smallest, compare_at. giving. Qed.
#[local] Hint Resolve smallest_gives : gives.
Lemma down_loop_gives fuel h n els u : gives (down_loop c fuel h n els u) (down_loop c' fuel h n els u).
Proof using Hc. revert els u. induction fuel as [|fuel IH]; intros els u; cbn [down_loop]; giving. Qed.
#[local] Hint Resolve down_loop_gives : gives.
Lemma up_loop_gives fuel h els u : gives (up_loop c fuel h els u) (up_loop c' fuel h els u).
Proof using Hc. revert els u. induction fuel as [|fuel IH]; intros els u; cbn [up_loop]; unfold compare_at; giving. Qed.
#[local] Hint Resolve up_loop_gives : gives.
Lemma up_gives queue u : gives (up c queue u) (up c' queue u).
Proof using Hc. unfold up. giving. Qed.
#[local] Hint Resolve up_gives : gives.
Lemma drop_root_gives queue : gives (drop_root c queue) (drop_root c' queue).
Proof using Hc. unfold drop_root, down. giving. Qed.
#[local] Hint Resolve drop_root_gives : gives.
Lemma do_delete_loop_gives fuel queue : gives (do_delete_loop c fuel queue) (do_delete_loop c' fuel queue).
Proof using Hc. revert queue. induction fuel as [|fuel IH]; intros queue; cbn [do_delete_loop]; giving. Qed.
#[local] Hint Resolve do_delete_loop_gives : gives.

Lemma lazy_heap_add_gives queue key d : gives (lazy_heap_add c queue key d) (lazy_heap_add c' queue key d).
Proof using Hc. unfold lazy_heap_add. giving. Qed.
Lemma lazy_heap_peek_gives queue : gives (lazy_heap_peek c queue) (lazy_heap_peek c' queue).
Proof using Hc. unfold lazy_heap_peek, do_delete. giving. Qed.
End comparators.

(** ** Properties *)

Section properties.
Context `{AllocTotal} {A M : Type} `{!MapOps Z loc M, !MapLaws Z loc M} (rank : A → Z).
Implicit Types (q : LazyHeap A M) (am : gmap Z A).

(** C17. The lazy heap implements a keyed priority queue, over any hash table
    that satisfies the map interface.  A new heap represents the empty map
    from keys to data; adding a fresh key inserts it, removing a key deletes
    it, peeking returns a datum of smallest rank, NULL exactly when no live
    element is left, and changes nothing it represents (though it frees the
    marked elements that have reached the root).  The sift loops terminate
    within the number of elements and no access leaves the array or follows
    a freed element.  Releasing the heap leaves every element it still holds
    behind.  An element may be added when no marked element is left
    or when nothing alive ranks above it, as for deadlines that only grow. *)
Theorem lazy_heap_refines_queue (cmp : A → A → Res Z) q am (k : Z) (x : A) :
  lh_rep rank q am → ranked rank cmp (λ y, y = x ∨ among am y) → lh_size q < 2 ^ 30 →
  (∃ q0 : LazyHeap A M, lazy_heap_create = Ret (Some q0) ∧ lh_rep rank q0 ∅) ∧
  (am !! k = None → add_ok rank q am x →
     ∃ q', lazy_heap_add cmp q k x = Ret q' ∧ lh_rep rank q' (<[k := x]> am)) ∧
  (∃ q', lazy_heap_remove q k = Ret q' ∧ lh_rep rank q' (delete k am)) ∧
  (∃ r q', lazy_heap_peek cmp q = Ret (r, q') ∧ lh_rep rank q' am ∧
     match r with
     | None => am = ∅
     | Some y => ∃ k', am !! k' = Some y ∧ ∀ k'' z, am !! k'' = Some z → rank y ≤ rank z
     end) ∧
  (∃ h, lazy_heap_free (Some q) = Ret h ∧
     ∀ k' y, am !! k' = Some y → ∃ p, cells h !! p = Some (MkElement y false)).
Proof using A H H0 M MapLaws0 MapOps0 rank.
  intros Hq Hr Hs. split_and!.
  - destruct (lazy_heap_create_spec (M := M) rank _) as (q0 & ? & ? & _); eauto.
  - intros. by apply lazy_heap_add_spec.
  - by apply lazy_heap_remove_spec.
  - apply lazy_heap_peek_spec; [done|]. eapply ranked_mono; [|exact Hr]. by right.
  - by apply (lazy_heap_free_spec rank).
Qed.

(** [lazy_heap_pop] returns a datum of smallest rank of a nonempty heap,
    but forgets to remove its key from the survivor table: a later
    [lazy_heap_remove] of that key uses the freed element. *)
Theorem lazy_heap_pop_dangling (cmp : A → A → Res Z) q am :
  lh_rep rank q am → ranked rank cmp (among am) → am ≠ ∅ →
  ∃ k x q', lazy_heap_pop cmp q = Ret (Some x, q') ∧ am !! k = Some x ∧
    (∀ k' y, am !! k' = Some y → rank x ≤ rank y) ∧ lazy_heap_remove q' k = UB.
Proof. apply lazy_heap_pop_spec. Qed.
End properties.

(** The heap over the hash table of the library, with integers as data. *)
Definition zcompare (a b : Z) : Res Z := Ret (a - b).
Abbreviation ztable := (HashMap.HashMap Z loc).
Abbreviation zrep := (@lh_rep Z ztable _ (@HashMap.uint_table_laws always always_total loc) id).

Lemma zranked P : ranked id zcompare P.
Proof. intros x y _ _. exists (x - y). split; [reflexivity|]. unfold id. lia. Qed.

Lemma demo_heap_rep :
  ∃ q q' : LazyHeap Z ztable, @lazy_heap_create always Z ztable (@HashMap.uint_table_ops always loc) = Ret (Some q) ∧
    @lazy_heap_add always Z ztable (@HashMap.uint_table_ops always loc) zcompare q 7 10 = Ret q' ∧
    zrep q ∅ ∧ lh_size q = 0 ∧ zrep q' {[7 := 10]}.
Proof.
  destruct (@lazy_heap_create_spec always Z ztable _ (@HashMap.uint_table_laws always always_total loc)
    id always_total) as (q & E & Hq & Hs).
  destruct (@lazy_heap_add_spec always Z ztable _ _ id zcompare q ∅ 7 10 always_total Hq)
    as (q' & E' & Hq'); [apply zranked|rewrite Hs; lia|apply lookup_empty| |].
  { right. intros k y Hk. by rewrite lookup_empty in Hk. }
  exists q, q'. split; [exact E|]. split; [exact E'|]. split; [exact Hq|]. split; [exact Hs|exact Hq'].
Qed.

Lemma lazy_heap_refines_queue_witness :
  ∃ q q' : LazyHeap Z ztable,
    @lazy_heap_create always Z ztable (@HashMap.uint_table_ops always loc) = Ret (Some q) ∧
    @lazy_heap_add always Z ztable (@HashMap.uint_table_ops always loc) zcompare q 7 10 = Ret q' ∧
    zrep q' (<[7 := 10]> ∅).
Proof.
  destruct demo_heap_rep as (q & _ & E & _ & Hq & Hs & _).
  destruct (@lazy_heap_refines_queue always always_total Z ztable _
    (@HashMap.uint_table_laws always always_total loc) id zcompare q ∅ 7 10 Hq (zranked _)
    ltac:(rewrite Hs; lia)) as (_ & Hadd & _).
  destruct Hadd as (q' & E' & Hq'); [apply lookup_empty| |].
  { right. intros k y Hk. by rewrite lookup_empty in Hk. }
  exists q, q'. split; [exact E|]. split; [exact E'|exact Hq'].
Defined.

Lemma lazy_heap_pop_dangling_witness :
  ∃ q q' : LazyHeap Z ztable, zrep q {[7 := 10]} ∧
    ∃ x, @lazy_heap_pop Z ztable zcompare q = Ret (Some x, q') ∧
         ∃ k, @lazy_heap_remove Z ztable (@HashMap.uint_table_ops always loc) q' k = UB.
Proof.
  destruct demo_heap_rep as (_ & q & _ & _ & _ & _ & Hq).
  destruct (@lazy_heap_pop_dangling Z ztable _
    (@HashMap.uint_table_laws always always_total loc) id zcompare q {[7 := 10]} Hq (zranked _)
    ltac:(discriminate)) as (k & x & q' & E & _ & _ & Hub).
  exists q, q'. split; [exact Hq|]. exists x. split; [exact E|]. exists k. exact Hub.
Defined.

(** The marked element of key 2 hides 5 from 10. *)
Definition misplaced_script : Res (option Z) :=
  let ops := @HashMap.uint_table_ops always loc in
  q ← @lazy_heap_create always Z ztable ops;
  q ← nonnull q;
  q ← @lazy_heap_add always Z ztable ops zcompare q 1 10;
  q ← @lazy_heap_add always Z ztable ops zcompare q 2 20;
  q ← @lazy_heap_add always Z ztable ops zcompare q 3 30;
  q ← lazy_heap_remove q 2;
  q ← @lazy_heap_add always Z ztable ops zcompare q 4 5;
  '(r, _) ← lazy_heap_peek zcompare q;
  Ret r.

(** Outside the condition of the previous claims the order is lost: with
    10, 20 and 30 in the heap and 20 removed, adding 5 puts it below the marked
    20, where [up] stops, and [lazy_heap_peek] answers 10. *)
Theorem lazy_heap_misplaces : misplaced_script = Ret (Some 10).
Proof. vm_compute. reflexivity. Qed.
End LazyHeap.
