(* ===== verification/Utils.v ===== *)
(** * Byte order conversions of [src/infra/utils.c]

    The host is little-endian, as [is_little_endian] finds at run time: the
    memory image of an integer is its bytes, least significant first.  [htons]
    and its three relatives of the C library exchange the bytes. *)

From S2P Require Import Prelude.

Module Utils.

(** Byte [i] of an integer, and the integer with the bytes [bs] in memory. *)
Definition byte_of (v : Z) (i : Z) : Z := Z.land (Z.shiftr v (8 * i)) 0xFF.
Definition bytes_of (n : nat) (v : Z) : list Z := byte_of v <$> (Z.of_nat <$> seq 0 n).
Fixpoint of_bytes (bs : list Z) : Z :=
  match bs with [] => 0 | b :: bs => b + 256 * of_bytes bs end.

Definition htons (v : Z) : Z := of_bytes (rev (bytes_of 2 v)).
Definition htonl (v : Z) : Z := of_bytes (rev (bytes_of 4 v)).

Definition is_little_endian : bool :=
  match bytes_of 2 1 with b :: _ => b =? 1 | [] => false end.

Definition swap_8 (value : Z) : Z :=
  let b k := Z.land (Z.shiftr value k) 0xFF in
  Z.lor (Z.lor (Z.lor (Z.lor (Z.lor (Z.lor (Z.lor
    (Z.shiftl (b 0) 56) (Z.shiftl (b 8) 48)) (Z.shiftl (b 16) 40)) (Z.shiftl (b 24) 32))
    (Z.shiftl (b 32) 24)) (Z.shiftl (b 40) 16)) (Z.shiftl (b 48) 8)) (Z.shiftl (b 56) 0).

(** [dst[i] = src[15 - i]] for 16 bytes *)
Definition swap_16 (src : list Z) : Res (list Z) :=
  if bool_decide (length src = 16%nat) then Ret (rev src) else UB.

Definition h2n_2 : Z → Z := htons.
Definition h2n_4 : Z → Z := htonl.
Definition h2n_8 (v : Z) : Z := if is_little_endian then swap_8 v else v.
Definition h2n_16 (host : list Z) : Res (list Z) :=
  if is_little_endian then swap_16 host else Ret host.
Definition n2h_2 : Z → Z := htons.
Definition n2h_4 : Z → Z := htonl.
Definition n2h_8 (v : Z) : Z := if is_little_endian then swap_8 v else v.
Definition n2h_16 (net : list Z) : Res (list Z) :=
  if is_little_endian then swap_16 net else Ret net.

(** ** Facts about bytes *)

Lemma byte_of_range v i : 0 ≤ byte_of v i < 256.
Proof.
  unfold byte_of. change 0xFF with (Z.ones 8). rewrite Z.land_ones by lia.
  by apply Z.mod_pos_bound.
Qed.

Lemma byte_of_div v i : 0 ≤ i → byte_of v i = v / 2 ^ (8 * i) mod 256.
Proof.
  intros. unfold byte_of. change 0xFF with (Z.ones 8).
  rewrite Z.land_ones, Z.shiftr_div_pow2 by lia. done.
Qed.

Lemma bytes_of_length n v : length (bytes_of n v) = n.
Proof. unfold bytes_of. by rewrite !length_fmap, length_seq. Qed.

Lemma bytes_of_u8 n v : Forall is_u8 (bytes_of n v).
Proof.
  apply Forall_forall. intros b (i & -> & _)%list_elem_of_fmap. apply byte_of_range.
Qed.

Lemma bytes_of_S n v : bytes_of (S n) v = v mod 256 :: bytes_of n (v / 256).
Proof.
  unfold bytes_of. simpl. f_equal.
  - rewrite byte_of_div by lia. simpl. by rewrite Z.div_1_r.
  - rewrite <- seq_shift. rewrite <- !list_fmap_compose. apply list_fmap_ext.
    intros _ i _. simpl. rewrite !byte_of_div by lia.
    rewrite Zdiv_Zdiv by lia. do 2 f_equal.
    change 256 with (2 ^ 8). rewrite <- Z.pow_add_r by lia. f_equal. lia.
Qed.

Lemma of_bytes_of n v : 0 ≤ v < 256 ^ Z.of_nat n → of_bytes (bytes_of n v) = v.
Proof.
  revert v. induction n as [|n IH]; intros v Hv; [simpl in *; lia|].
  rewrite bytes_of_S. simpl. rewrite Nat2Z.inj_succ, Z.pow_succ_r in Hv by lia.
  rewrite IH; [pose proof (Z.div_mod v 256); lia|].
  split; [apply Z.div_pos; lia|apply Z.div_lt_upper_bound; lia].
Qed.

Lemma of_bytes_range bs : Forall is_u8 bs → 0 ≤ of_bytes bs < 256 ^ Z.of_nat (length bs).
Proof.
  induction 1 as [|b bs Hb _ IH]; [done|]. cbn [of_bytes length].
  rewrite Nat2Z.inj_succ, Z.pow_succ_r by lia. unfold is_u8 in Hb. lia.
Qed.

Lemma bytes_of_of bs : Forall is_u8 bs → bytes_of (length bs) (of_bytes bs) = bs.
Proof.
  induction 1 as [|b bs Hb Hbs IH]; [done|]. cbn [length of_bytes]. rewrite bytes_of_S.
  unfold is_u8 in Hb. rewrite (Z.mul_comm 256).
  rewrite Z.mod_add, Z.div_add, Z.mod_small, Z.div_small, Z.add_0_l, IH by lia. done.
Qed.

(** The bytes in memory after the conversion are the most significant first. *)
Lemma swap_bytes n v : bytes_of n (of_bytes (rev (bytes_of n v))) = rev (bytes_of n v).
Proof.
  rewrite <- (bytes_of_length n v) at 1. rewrite <- length_rev. apply bytes_of_of.
  apply Forall_rev, bytes_of_u8.
Qed.

Lemma swap_twice n v :
  0 ≤ v < 256 ^ Z.of_nat n → of_bytes (rev (bytes_of n (of_bytes (rev (bytes_of n v))))) = v.
Proof. intros Hv. rewrite swap_bytes, rev_involutive. by apply of_bytes_of. Qed.

Lemma swap_range n v : 0 ≤ of_bytes (rev (bytes_of n v)) < 256 ^ Z.of_nat n.
Proof.
  pose proof (of_bytes_range (rev (bytes_of n v))) as Hr.
  rewrite length_rev, bytes_of_length in Hr. apply Hr, Forall_rev, bytes_of_u8.
Qed.

(** Disjoint bits: [x] is a multiple of [2^k] and [a] is below it. *)
Lemma land_disjoint x a k : 0 ≤ k → x mod 2 ^ k = 0 → 0 ≤ a < 2 ^ k → Z.land x a = 0.
Proof.
  intros Hk Hx Ha.
  assert (E : Z.land a (Z.ones k) = a) by (rewrite Z.land_ones, Z.mod_small by lia; done).
  rewrite <- E, (Z.land_comm a), Z.land_assoc, Z.land_ones, Hx by lia. apply Z.land_0_l.
Qed.

Lemma lor_add x a k : 0 ≤ k → x mod 2 ^ k = 0 → 0 ≤ a < 2 ^ k → Z.lor x a = x + a.
Proof. intros. symmetry. apply Z.add_nocarry_lor. by apply (land_disjoint _ _ k). Qed.

Lemma lxor_add x a k : 0 ≤ k → x mod 2 ^ k = 0 → 0 ≤ a < 2 ^ k → Z.lxor (x + a) x = a.
Proof.
  intros. rewrite Z.add_nocarry_lxor by (by apply (land_disjoint _ _ k)).
  by rewrite Z.lxor_comm, <- Z.lxor_assoc, Z.lxor_nilpotent, Z.lxor_0_l.
Qed.

Lemma mod_mul_pow x k q : 0 ≤ k → x = q * 2 ^ k → x mod 2 ^ k = 0.
Proof. intros ? ->. by apply Z.mod_mul, Z.pow_nonzero. Qed.

Lemma swap_8_bytes v : swap_8 v = of_bytes (rev (bytes_of 8 v)).
Proof.
  unfold swap_8.
  change (of_bytes (rev (bytes_of 8 v))) with
    (byte_of v 7 + 256 * (byte_of v 6 + 256 * (byte_of v 5 + 256 * (byte_of v 4 +
     256 * (byte_of v 3 + 256 * (byte_of v 2 + 256 * (byte_of v 1 + 256 * (byte_of v 0 +
     256 * 0)))))))).
change (Z.land (Z.shiftr v 0) 0xFF) with (byte_of v 0).
  change (Z.land (Z.shiftr v 8) 0xFF) with (byte_of v 1).
  change (Z.land (Z.shiftr v 16) 0xFF) with (byte_of v 2).
  change (Z.land (Z.shiftr v 24) 0xFF) with (byte_of v 3).
  change (Z.land (Z.shiftr v 32) 0xFF) with (byte_of v 4).
  change (Z.land (Z.shiftr v 40) 0xFF) with (byte_of v 5).
  change (Z.land (Z.shiftr v 48) 0xFF) with (byte_of v 6).
  change (Z.land (Z.shiftr v 56) 0xFF) with (byte_of v 7).
  pose proof (byte_of_range v 0). pose proof (byte_of_range v 1).
  pose proof (byte_of_range v 2). pose proof (byte_of_range v 3).
  pose proof (byte_of_range v 4). pose proof (byte_of_range v 5).
  pose proof (byte_of_range v 6). pose proof (byte_of_range v 7).
  generalize dependent (byte_of v 0). generalize dependent (byte_of v 1).
  generalize dependent (byte_of v 2). generalize dependent (byte_of v 3).
  generalize dependent (byte_of v 4). generalize dependent (byte_of v 5).
  generalize dependent (byte_of v 6). generalize dependent (byte_of v 7). clear v.
  intros b7 ? b6 ? b5 ? b4 ? b3 ? b2 ? b1 ? b0 ?.
  rewrite !Z.shiftl_mul_pow2 by lia.
  rewrite (lor_add (b0 * 2 ^ 56) _ 56); [|lia|by apply (mod_mul_pow _ _ b0)|lia].
  rewrite (lor_add _ (b2 * 2 ^ 40) 48); [|lia|apply (mod_mul_pow _ _ (b0 * 256 + b1)); lia|lia].
  rewrite (lor_add _ (b3 * 2 ^ 32) 40); [|lia|apply (mod_mul_pow _ _ ((b0 * 256 + b1) * 256 + b2)); lia|lia].
  rewrite (lor_add _ (b4 * 2 ^ 24) 32); [|lia|apply (mod_mul_pow _ _ (((b0 * 256 + b1) * 256 + b2) * 256 + b3)); lia|lia].
  rewrite (lor_add _ (b5 * 2 ^ 16) 24); [|lia|apply (mod_mul_pow _ _ ((((b0 * 256 + b1) * 256 + b2) * 256 + b3) * 256 + b4)); lia|lia].
  rewrite (lor_add _ (b6 * 2 ^ 8) 16); [|lia|apply (mod_mul_pow _ _ (((((b0 * 256 + b1) * 256 + b2) * 256 + b3) * 256 + b4) * 256 + b5)); lia|lia].
  rewrite (lor_add _ (b7 * 2 ^ 0) 8); [|lia|apply (mod_mul_pow _ _ ((((((b0 * 256 + b1) * 256 + b2) * 256 + b3) * 256 + b4) * 256 + b5) * 256 + b6)); lia|lia].
  lia.
Qed.

Lemma little_endian : is_little_endian = true.
Proof. reflexivity. Qed.

Lemma h2n_8_bytes v : h2n_8 v = of_bytes (rev (bytes_of 8 v)).
Proof. unfold h2n_8. rewrite little_endian. apply swap_8_bytes. Qed.

Lemma n2h_8_bytes v : n2h_8 v = of_bytes (rev (bytes_of 8 v)).
Proof. unfold n2h_8. rewrite little_endian. apply swap_8_bytes. Qed.

Lemma h2n_16_rev l : length l = 16%nat → h2n_16 l = Ret (rev l).
Proof.
  intros Hl. unfold h2n_16, swap_16. by rewrite little_endian, bool_decide_eq_true_2.
Qed.

Lemma n2h_16_rev l : length l = 16%nat → n2h_16 l = Ret (rev l).
Proof.
  intros Hl. unfold n2h_16, swap_16. by rewrite little_endian, bool_decide_eq_true_2.
Qed.

(** ** Properties *)

(** The conversions between host and network order, for 16, 32, 64 and
    128 bits: converting there and back is the identity on values of the width,
    and the converted value has in memory the big-endian bytes of the host
    value. *)
Theorem byte_order_roundtrip (v2 v4 v8 : Z) (v16 : list Z) :
  is_u16 v2 → is_u32 v4 → 0 ≤ v8 < 2 ^ 64 → length v16 = 16%nat →
  (n2h_2 (h2n_2 v2) = v2 ∧ bytes_of 2 (h2n_2 v2) = rev (bytes_of 2 v2)) ∧
  (n2h_4 (h2n_4 v4) = v4 ∧ bytes_of 4 (h2n_4 v4) = rev (bytes_of 4 v4)) ∧
  (n2h_8 (h2n_8 v8) = v8 ∧ bytes_of 8 (h2n_8 v8) = rev (bytes_of 8 v8)) ∧
  (h2n_16 v16 = Ret (rev v16) ∧ (h2n_16 v16 ≫= n2h_16) = Ret v16).
Proof.
  intros H2 H4 H8 H16. split_and!.
  - apply (swap_twice 2). unfold is_u16 in H2. lia.
  - apply (swap_bytes 2).
  - apply (swap_twice 4). unfold is_u32 in H4. lia.
  - apply (swap_bytes 4).
  - rewrite n2h_8_bytes, h2n_8_bytes. apply (swap_twice 8). lia.
  - rewrite h2n_8_bytes. apply (swap_bytes 8).
  - by apply h2n_16_rev.
  - rewrite h2n_16_rev by done. cbn [mbind Res_bind].
    rewrite n2h_16_rev by (by rewrite length_rev). by rewrite rev_involutive.
Qed.

Lemma byte_order_roundtrip_witness :
  h2n_2 0x1234 = 0x3412 ∧ n2h_2 (h2n_2 0x1234) = 0x1234 ∧
  n2h_8 (h2n_8 0x0102030405060708) = 0x0102030405060708.
Proof.
  split; [reflexivity|].
  destruct (byte_order_roundtrip 0x1234 0x01020304 0x0102030405060708 (replicate 16 7)
    ltac:(unfold is_u16; lia) ltac:(unfold is_u32; lia) ltac:(lia) ltac:(reflexivity))
    as ((H2 & _) & _ & (H8 & _) & _).
  split; [exact H2|exact H8].
Defined.
End Utils.
