(* ===== verification/CString.v ===== *)
(** * Strings in memory

    A pointer to [char] is a block of bytes and an offset; [ptr] is the memory
    from there to the end of the block.  The string functions of the C library
    read it up to the terminating NUL, which need not be there. *)

From Stdlib Require Ascii String.
From S2P Require Import Prelude.

(** The bytes of a string constant, without its NUL. *)
Fixpoint lit (s : String.string) : list Z :=
  match s with
  | String.EmptyString => []
  | String.String c s => Z.of_N (Ascii.N_of_ascii c) :: lit s
  end.
#[global] Arguments lit s%_string_scope.

Section cstring.
Implicit Types (m s r : list Z).

Definition ptr m (off : Z) : Res (list Z) :=
  if (0 <=? off) && (off <=? Z.of_nat (length m)) then Ret (drop (Z.to_nat off) m) else UB.

Fixpoint strlen m : Res Z :=
  match m with
  | [] => UB
  | c :: m => if c =? 0 then Ret 0 else n ← strlen m; Ret (1 + n)
  end.

Definition strdup m : Res (list Z) :=
  n ← strlen m; Ret (take (Z.to_nat n) m ++ [0]).

(** [strcmp(a, b) == 0] *)
Fixpoint streq (a b : list Z) : Res bool :=
  match a, b with
  | x :: a, y :: b =>
      if x =? y then if x =? 0 then Ret true else streq a b else Ret false
  | _, _ => UB
  end.

(** Bytes written one after the other into a fresh block of [cap] bytes. *)
Definition put (cap : Z) (out bs : list Z) : Res (list Z) :=
  if Z.of_nat (length (out ++ bs)) <=? cap then Ret (out ++ bs) else UB.

Definition no_nul s : Prop := Forall (λ b, b ≠ 0) s.

Lemma no_nul_app s r : no_nul (s ++ r) ↔ no_nul s ∧ no_nul r.
Proof. apply Forall_app. Qed.

Lemma strlen_app s r : no_nul s → strlen (s ++ 0 :: r) = Ret (Z.of_nat (length s)).
Proof.
  induction 1 as [|c s Hc _ IH]; [done|]. simpl.
  rewrite (proj2 (Z.eqb_neq _ _)) by done. rewrite IH. cbn [mbind Res_bind]. f_equal. lia.
Qed.

Lemma strdup_app s r : no_nul s → strdup (s ++ 0 :: r) = Ret (s ++ [0]).
Proof.
  intros Hs. unfold strdup. rewrite (strlen_app _ _ Hs). cbn [mbind Res_bind].
  by rewrite Nat2Z.id, take_app_length.
Qed.

Lemma strlen_inv m n :
  strlen m = Ret n → ∃ s r, m = s ++ 0 :: r ∧ no_nul s ∧ n = Z.of_nat (length s).
Proof.
  revert n. induction m as [|c m IH]; intros n; [done|]. simpl.
  destruct (c =? 0) eqn:E; bools.
  - intros [= <-]. subst. exists [], m. split_and!; [done|constructor|done].
  - intros (n' & Hn & [= <-])%bind_Ret_inv. destruct (IH _ Hn) as (s & r & -> & Hs & ->).
    exists (c :: s), r. split_and!; [done|by constructor|simpl; lia].
Qed.

Lemma streq_refl s r r' : no_nul s → streq (s ++ 0 :: r) (s ++ 0 :: r') = Ret true.
Proof.
  induction 1 as [|c s Hc _ IH]; [done|]. simpl. by rewrite Z.eqb_refl, (proj2 (Z.eqb_neq _ _)).
Qed.

Lemma streq_true m s r : no_nul s → streq m (s ++ 0 :: r) = Ret true → ∃ r', m = s ++ 0 :: r'.
Proof.
  intros Hs. revert m. induction Hs as [|c s Hc _ IH]; intros [|x m]; simpl; try done.
  - destruct (x =? 0) eqn:E; bools; [subst; eauto|done].
  - destruct (x =? c) eqn:E; bools; [subst|done].
    rewrite (proj2 (Z.eqb_neq _ _)) by done. intros [r' ->]%IH. eauto.
Qed.

(** With enough memory behind the pointer the comparison is defined. *)
Lemma streq_total m s r :
  no_nul s → (length s < length m)%nat → ∃ b, streq m (s ++ 0 :: r) = Ret b.
Proof.
  intros Hs. revert m. induction Hs as [|c s Hc _ IH]; intros [|x m] Hm; simpl in *; try lia.
  - destruct (x =? 0); eauto.
  - destruct (x =? c); [|eauto]. destruct (x =? 0); [eauto|]. apply IH. lia.
Qed.

Lemma ptr_app m r : ptr (m ++ r) (Z.of_nat (length m)) = Ret r.
Proof.
  unfold ptr. rewrite !(proj2 (Z.leb_le _ _)) by (rewrite ?length_app; lia).
  simpl. by rewrite Nat2Z.id, drop_app_length.
Qed.

Lemma put_Ret cap out bs :
  Z.of_nat (length out) + Z.of_nat (length bs) ≤ cap → put cap out bs = Ret (out ++ bs).
Proof. intros. unfold put. rewrite (proj2 (Z.leb_le _ _)); [done|]. rewrite length_app. lia. Qed.
End cstring.

#[export] Hint Resolve -> no_nul_app : relay.
