(* ===== verification/Exception.v ===== *)
(** * The error messages of [src/infra/exception.c]

    A thread records the errors of a request in a buffer of 4096 bytes that is
    filled downwards: [ex_try] opens a record, [ex_throw] puts a message in
    front of the earlier ones, [ex_catch] says whether there is any, [ex_end]
    closes the record and returns the text.  [chain] is the abstract record: no
    record, or the messages since the last [ex_try], the newest first. *)

From S2P Require Import Prelude CString.

Module Exception.

Definition MSG_SIZE : Z := 4096.
(** [sizeof at] in [ex_throw] *)
Definition AT_SIZE : Z := 512.
Definition newline : Z := 10.

(** The thread-local variables. *)
Record ex_state := MkEx {
  msg : list Z;
  err_flag : bool;
  stack_top : Z;
}.

(** At the start of the thread. *)
Definition ex_start : ex_state := MkEx (replicate (Z.to_nat MSG_SIZE) 0) false (MSG_SIZE - 1).

Definition ex_try (st : ex_state) : Res ex_state :=
  m ← blit (msg st) (MSG_SIZE - 1) [0];
  Ret (MkEx m true (MSG_SIZE - 1)).

Definition ex_catch (st : ex_state) : bool :=
  err_flag st && (stack_top st <? MSG_SIZE - 1).

(** [text] is what the format and the arguments spell; [vsnprintf] keeps what
    fits in [at] with a NUL. *)
Definition ex_throw (text : list Z) (st : ex_state) : Res ex_state :=
  st ← (if negb (err_flag st) then ex_try st else Ret st);
  let at_ := take (Z.to_nat (AT_SIZE - 1)) text in
  let len := Z.of_nat (length at_) in
  if len =? 0 then Ret st
  else
    let net_r := stack_top st - len in
    if net_r <? 0 then Ret st
    else
      m ← blit (msg st) net_r at_;
      m ← blit m (net_r - 1) [newline];
      Ret (MkEx m (err_flag st) (net_r - 1)).

(** The pointer returned is read as a string. *)
Definition ex_end (st : ex_state) : Res (list Z * ex_state) :=
  if negb (err_flag st) then Ret ([], st)
  else
    p ← ptr (msg st) (stack_top st);
    n ← strlen p;
    Ret (take (Z.to_nat n) p, MkEx (msg st) false (stack_top st)).

(** ** The abstract record *)

(** [None]: closed; [Some ms]: open, with the messages [ms]. *)
Definition chain := option (list (list Z)).

Definition render (ms : list (list Z)) : list Z := concat ((λ m, newline :: m) <$> ms).

(** The bytes left in front of the messages. *)
Definition room (ms : list (list Z)) : Z := MSG_SIZE - 1 - Z.of_nat (length (render ms)).

Definition chain_messages (a : chain) : list (list Z) := default [] a.

(** A message is recorded when it is not empty and fits with its newline. *)
Definition chain_throw (text : list Z) (a : chain) : chain :=
  let ms := chain_messages a in
  let m := take (Z.to_nat (AT_SIZE - 1)) text in
  Some (if decide (m = [] ∨ room ms < Z.of_nat (length m)) then ms else m :: ms).

Record ex_rep (st : ex_state) (a : chain) : Prop := {
  ex_rep_size : Z.of_nat (length (msg st)) = MSG_SIZE;
  ex_rep_flag : err_flag st = bool_decide (is_Some a);
  ex_rep_top : ∀ ms, a = Some ms → stack_top st = room ms ∧ 0 ≤ room ms;
  ex_rep_text : ∀ ms, a = Some ms →
    drop (Z.to_nat (stack_top st)) (msg st) = render ms ++ [0];
  ex_rep_no_nul : ∀ ms, a = Some ms → Forall no_nul ms;
}.

Lemma render_cons m ms : render (m :: ms) = newline :: m ++ render ms.
Proof. reflexivity. Qed.

Lemma render_no_nul ms : Forall no_nul ms → no_nul (render ms).
Proof.
  induction 1 as [|m ms Hm _ IH]; [constructor|]. rewrite render_cons.
  constructor; [done|]. by apply no_nul_app.
Qed.

Lemma ex_start_rep : ex_rep ex_start None.
Proof. by split. Qed.

Lemma ex_try_spec st a : ex_rep st a → ∃ st', ex_try st = Ret st' ∧ ex_rep st' (Some []).
Proof.
  intros Hr. pose proof (ex_rep_size _ _ Hr) as Hs. unfold ex_try, MSG_SIZE in *.
  rewrite blit_single by lia. eexists. split; [done|]. split; simpl.
  - by rewrite length_insert.
  - done.
  - by intros ms [= <-].
  - intros ms [= <-]. change (4096 - 1) with (Z.of_nat 4095). rewrite Nat2Z.id.
    rewrite drop_insert_ge by lia. rewrite Nat.sub_diag.
    assert (Hl : length (drop 4095 (msg st)) = 1%nat) by (rewrite length_drop; lia).
    destruct (drop 4095 (msg st)) as [|x [|y r]]; try done.
  - by intros ms [= <-].
Qed.

Lemma ex_catch_spec st a : ex_rep st a → ex_catch st = bool_decide (chain_messages a ≠ []).
Proof.
  intros Hr. unfold ex_catch. rewrite (ex_rep_flag _ _ Hr). destruct a as [ms|]; [|done].
  rewrite bool_decide_true by eauto. destruct (ex_rep_top _ _ Hr ms eq_refl) as [-> _].
  unfold room. destruct ms as [|m ms]; [done|]. rewrite render_cons, bool_decide_true by done.
  simpl. apply Z.ltb_lt. lia.
Qed.

Lemma ex_end_spec st a :
  ex_rep st a → ∃ st', ex_end st = Ret (render (chain_messages a), st') ∧ ex_rep st' None.
Proof.
  intros Hr. unfold ex_end. rewrite (ex_rep_flag _ _ Hr). destruct a as [ms|].
  - rewrite bool_decide_true by eauto. destruct (ex_rep_top _ _ Hr ms eq_refl) as [Ht Hm].
    pose proof (ex_rep_text _ _ Hr ms eq_refl) as Hx. pose proof (ex_rep_size _ _ Hr) as Hs.
    unfold room in *. unfold ptr. rewrite !(proj2 (Z.leb_le _ _)) by lia. cbn [negb andb mbind Res_bind].
    rewrite Hx, strlen_app by apply render_no_nul, (ex_rep_no_nul _ _ Hr ms eq_refl).
    cbn [mbind Res_bind]. rewrite Nat2Z.id, take_app_length. eexists. split; [done|]. by split.
  - rewrite bool_decide_false by (by intros [? ?]). cbn [negb]. eexists. split; [done|].
    split; try done; apply Hr.
Qed.

Lemma ex_push_spec st ms m :
  ex_rep st (Some ms) → m ≠ [] → no_nul m → Z.of_nat (length m) < room ms →
  ∃ b, (b0 ← blit (msg st) (room ms - Z.of_nat (length m)) m;
        blit b0 (room ms - Z.of_nat (length m) - 1) [newline]) = Ret b ∧
    ex_rep (MkEx b true (room ms - Z.of_nat (length m) - 1)) (Some (m :: ms)).
Proof.
  intros Hr Hne Hm Hlen. destruct (ex_rep_top _ _ Hr ms eq_refl) as [Ht _].
  pose proof (ex_rep_size _ _ Hr) as Hs. pose proof (ex_rep_text _ _ Hr ms eq_refl) as Hx.
  rewrite Ht in Hx. assert (Hroom : room ms ≤ MSG_SIZE - 1) by (unfold room; lia).
  rewrite blit_Ret by lia. cbn [mbind Res_bind].
  set (k := Z.to_nat (room ms - Z.of_nat (length m))).
  assert (Hk : (k + length m)%nat = Z.to_nat (room ms)) by lia. rewrite Hk, Hx.
  assert (Htk : length (take k (msg st)) = k) by (rewrite length_take; lia).
  rewrite blit_single by (rewrite !length_app, Htk; lia).
  eexists. split; [done|].
  assert (Hroom' : room (m :: ms) = room ms - Z.of_nat (length m) - 1)
    by (unfold room; rewrite render_cons; cbn [length]; rewrite length_app; lia).
  split; cbn [msg err_flag stack_top].
  - rewrite length_insert, !length_app, Htk. unfold room in *. simpl. lia.
  - done.
  - intros ? [= <-]. lia.
  - intros ? [= <-]. replace (Z.to_nat (room ms - Z.of_nat (length m) - 1)) with (pred k) by lia.
    rewrite insert_app_l by lia. rewrite drop_app_le by (rewrite length_insert; lia).
    rewrite drop_insert_ge, Nat.sub_diag by lia.
    assert (Hl : length (drop (pred k) (take k (msg st))) = 1%nat) by (rewrite length_drop; lia).
    destruct (drop (pred k) (take k (msg st))) as [|x [|y r]]; try done.
    rewrite render_cons. cbn [app]. rewrite <- !app_assoc. done.
  - intros ? [= <-]. constructor; [done|]. by apply (ex_rep_no_nul _ _ Hr).
Qed.

Lemma ex_throw_open st ms text :
  ex_rep st (Some ms) → no_nul text →
  let m := take (Z.to_nat (AT_SIZE - 1)) text in
  (m ≠ [] → Z.of_nat (length m) ≠ room ms) →
  ∃ st', ex_throw text st = Ret st' ∧ ex_rep st' (chain_throw text (Some ms)).
Proof.
  intros Hr Htext m Hne. destruct (ex_rep_top _ _ Hr ms eq_refl) as [Ht Hm0].
  unfold ex_throw. rewrite (ex_rep_flag _ _ Hr), bool_decide_true by eauto.
  cbn [negb mbind Res_bind]. fold m. unfold chain_throw. cbn [chain_messages default]. fold m.
  destruct (decide (m = [])) as [E|E].
  - rewrite E, decide_True by (by left). simpl. eauto.
  - assert (length m ≠ 0%nat) by (by destruct m). rewrite (proj2 (Z.eqb_neq _ _)) by lia.
    rewrite Ht. specialize (Hne E). destruct (decide (room ms < Z.of_nat (length m))).
    + rewrite (proj2 (Z.ltb_lt _ _)) by lia. rewrite decide_True by (by right). eauto.
    + rewrite (proj2 (Z.ltb_ge _ _)) by lia. rewrite decide_False by (intros [?|?]; done).
      destruct (ex_push_spec st ms m Hr E) as (b & Eb & Hb); [by apply Forall_take|lia|].
      destruct (blit (msg st) _ m) as [b0| |]; [|done|done]. cbn [mbind Res_bind] in *.
      rewrite Eb. cbn [mbind Res_bind].
      rewrite (ex_rep_flag _ _ Hr), bool_decide_true by eauto. eauto.
Qed.

(** A record that is closed is opened first. *)
Lemma ex_throw_closed st text st1 :
  err_flag st = false → ex_try st = Ret st1 → ex_throw text st = ex_throw text st1.
Proof.
  intros Hf E. unfold ex_throw. rewrite Hf. cbn [negb]. rewrite E. cbn [mbind Res_bind].
  unfold ex_try in E. destruct (blit _ _ _); [|done|done]. by injection E as <-.
Qed.

(** ** Properties *)

(** C28. The error record implements a chain of messages.  [ex_try] opens an
    empty one, [ex_throw] opens one if there is none and puts the message,
    cut to 511 bytes, in front, unless it is empty or longer than the room
    left, [ex_catch] says whether the chain has a message, [ex_end] returns the
    messages, newest first, and closes the record, so that a second [ex_end]
    returns the empty string.  A message exactly as long as the room left is
    the exception: its newline goes to [msg[-1]], outside the buffer. *)
Theorem exception_refines_chain (st : ex_state) (a : chain) (text : list Z) :
  ex_rep st a → no_nul text →
  let m := take (Z.to_nat (AT_SIZE - 1)) text in
  ex_rep ex_start None ∧
  (∃ st', ex_try st = Ret st' ∧ ex_rep st' (Some [])) ∧
  ex_catch st = bool_decide (chain_messages a ≠ []) ∧
  (∃ st', ex_end st = Ret (render (chain_messages a), st') ∧ ex_rep st' None) ∧
  (if decide (m ≠ [] ∧ Z.of_nat (length m) = room (chain_messages a))
   then ex_throw text st = UB
   else ∃ st', ex_throw text st = Ret st' ∧ ex_rep st' (chain_throw text a)).
Proof.
  intros Hr Ht m. split_and!;
    [apply ex_start_rep|by eapply ex_try_spec|by apply ex_catch_spec|by apply ex_end_spec|].
  assert (∃ st1, ex_throw text st = ex_throw text st1 ∧ ex_rep st1 (Some (chain_messages a)) ∧
    chain_throw text a = chain_throw text (Some (chain_messages a))) as (st1 & -> & Hr1 & ->).
  { destruct a as [ms|]; [by exists st|]. destruct (ex_try_spec _ _ Hr) as (st1 & E & Hr1).
    exists st1. split_and!; [|done|done]. eapply ex_throw_closed; [|done]. by rewrite (ex_rep_flag _ _ Hr). }
  case_decide as Hd.
  - destruct Hd as [Hne Hlen]. destruct (ex_rep_top _ _ Hr1 _ eq_refl) as [Htop Hroom].
    unfold ex_throw. rewrite (ex_rep_flag _ _ Hr1), bool_decide_true by eauto.
    cbn [negb mbind Res_bind]. fold m. assert (length m ≠ 0%nat) by (by destruct m).
    rewrite (proj2 (Z.eqb_neq _ _)) by lia. rewrite Htop, Hlen, Z.sub_diag. simpl.
    pose proof (ex_rep_size _ _ Hr1). rewrite blit_Ret by (unfold room in *; lia). done.
  - apply ex_throw_open; [done|done|]. intros Hne Hlen. by apply Hd.
Qed.

Definition long_text : list Z := replicate 511 97.

Lemma exception_refines_chain_witness :
  (∃ st, ex_throw long_text ex_start = Ret st ∧ ex_rep st (Some [long_text])) ∧
  ex_end ex_start = Ret ([], ex_start).
Proof.
  split; [|reflexivity].
  pose proof (exception_refines_chain ex_start None long_text ex_start_rep
    ltac:(apply Forall_replicate; done)) as (_ & _ & _ & _ & H).
  rewrite decide_False in H by (intros [_ [=]]). exact H.
Defined.

(** Eight messages of the greatest length write in front of the buffer. *)
Fixpoint throws (n : nat) (text : list Z) (st : ex_state) : Res ex_state :=
  match n with
  | O => Ret st
  | S n => st ← ex_throw text st; throws n text st
  end.

Example eight_long_messages : throws 8 long_text ex_start = UB ∧
  ∃ st, throws 7 long_text ex_start = Ret st.
Proof. split; [vm_compute; reflexivity|]. vm_compute. eexists. reflexivity. Qed.

End Exception.
