(* ===== verification/Config.v ===== *)
(** * The configuration center of [src/infra/config_center.c]

    Sections of named values.  A value is the text read from the file or the
    command line until it is asked for; the parser its section registered then
    replaces it.  The abstract center is a finite map from section and key to
    values, and whatever finds the parser or cleaner of a section
    ([settings_get], [settings_set]); the code's center implements it on any
    platform, with the lookups of its registries.  The last sections follow the
    registries on a lenient machine, and show that on a strict one their keys
    dangle. *)

From S2P Require Import Prelude LinkedList CString MapInterface HashMap.

Module Config.

(** ** What the platform makes of undefined accesses

    The code reads arrays of functions that have returned, and stores pointers
    into variables of type [int].  C gives both no meaning ([strict]); a machine
    may have left the array as it was, and put the low half of the pointer in
    the variable ([lenient]). *)
Class Platform := {
  stale_read : list Z → Res (list Z);
  wide_store : Z → Res Z;
}.
Definition strict : Platform := {| stale_read _ := UB; wide_store _ := UB |}.
Definition lenient : Platform := {| stale_read := Ret; wide_store z := Ret (wrap_i32 z) |}.

Definition KEY_SIZE : Z := 64.
Definition sizeof_ConfigValue : Z := 16.
Definition sizeof_ConfigSection : Z := 8.

(** [strcpy] into an array of [KEY_SIZE] bytes. *)
Definition copy_key (s : list Z) : Res (list Z) :=
  if Z.of_nat (length s) <? KEY_SIZE then Ret s else UB.

(** A [char*] used as key by the tables of parsers and cleaners: the characters
    it designates, and the call they are a local array of. *)
Record key_ptr := KeyPtr { chars : list Z; call : Z }.

(** A pointer followed while the call [now] is running. *)
Definition deref `{Platform} (now : Z) (k : key_ptr) : Res (list Z) :=
  if call k =? now then Ret (chars k) else stale_read (chars k).
Definition hash_at `{Platform} (now : Z) (k : key_ptr) : Res Z :=
  s ← deref now k; HashMap.hash_func_str s.
Definition compare_at `{Platform} (now : Z) (a b : key_ptr) : Res Z :=
  s ← deref now a; t ← deref now b; HashMap.compare_str s t.

Definition Registry (P : Type) := HashMap.HashMap key_ptr P.

(** The functions of a table read the memory as it is during the call [now]. *)
Definition at_call `{Platform} {P} (now : Z) (m : Registry P) : Registry P :=
  HashMap.with_functions (hash_at now) (compare_at now) m.

(** [T]: a string of the center's own, or what a parser or a client made. *)
Inductive T (C : Type) :=
| Text (s : list Z)
| Parsed (c : C).
Arguments Text {C} s.
Arguments Parsed {C} c.

Record ConfigValue (C : Type) := MkValue { is_cook : bool; value : T C }.
Arguments MkValue {C} is_cook value.
Arguments is_cook {C} c.
Arguments value {C} c.

(** The return code, and what was stored in [*result], if anything. *)
Definition ConfigParser (C : Type) := list Z → list Z → Res (Z * option C).
Definition ConfigCleaner (C : Type) := list Z → T C → Res unit.

(** The static variables; [None] is NULL.  [calls] numbers the calls that keep
    a key, so that two arrays are never confused. *)
Record config (C MS ME : Type) := MkConfig {
  configs_sections : option MS;
  config_parsers : option (Registry (ConfigParser C));
  config_cleaners : option (Registry (ConfigCleaner C));
  sections : Store (option ME);
  values : Store (ConfigValue C);
  calls : Z;
}.
Arguments MkConfig {C MS ME} configs_sections config_parsers config_cleaners sections values calls.
Arguments configs_sections {C MS ME} c.
Arguments config_parsers {C MS ME} c.
Arguments config_cleaners {C MS ME} c.
Arguments sections {C MS ME} c.
Arguments values {C MS ME} c.
Arguments calls {C MS ME} c.

(** [hash_map_get] and [hash_map_put] test their table for NULL. *)
Definition get_from {K V M} `{MapOps K V M} (m : option M) (k : K) : Res (option V) :=
  match m with Some m => map_get m k | None => Ret None end.
Definition put_into {K V M} `{MapOps K V M} (m : option M) (k : K) (v : V) : Res (Z * option M) :=
  match m with Some m => '(r, m) ← map_put m k v; Ret (r, Some m) | None => Ret (1, None) end.

Section config.
Context `{Allocator, Platform} {C MS ME : Type}.
Context `{!MapOps (list Z) loc MS, !MapOps (list Z) loc ME}.
Implicit Types (st : config C MS ME) (section key : list Z).

Definition registry_create {P} : Res (option (Registry P)) :=
  HashMap.hash_map_create (Some (hash_at 0)) (Some (compare_at 0)).
Definition registry_get {P} (m : option (Registry P)) (now : Z) section : Res (option P) :=
  match m with
  | Some m => HashMap.hash_map_get (at_call now m) (KeyPtr section now)
  | None => Ret None
  end.
Definition registry_put {P} (m : option (Registry P)) (now : Z) section (p : P) :
    Res (option (Registry P)) :=
  match m with
  | Some m => '(_, m) ← HashMap.hash_map_put (at_call now m) (KeyPtr section now) p; Ret (Some m)
  | None => Ret None
  end.

Definition entry_create (vs : Store (ConfigValue C)) (v : ConfigValue C) :
    Res (loc * Store (ConfigValue C)) :=
  if malloc_ok sizeof_ConfigValue then Ret (alloc v vs) else UB.

Definition create_section (ss : Store (option ME)) : Res (loc * Store (option ME)) :=
  if malloc_ok sizeof_ConfigSection then
    entries ← map_create;
    Ret (alloc entries ss)
  else UB.

(** The key is an array of the call, which is over when the table is read. *)
Definition config_register_parser section (parser : ConfigParser C) st : Res (config C MS ME) :=
  sec ← copy_key section;
  ps ← registry_put (config_parsers st) (calls st) sec parser;
  Ret (MkConfig (configs_sections st) ps (config_cleaners st) (sections st) (values st)
         (calls st + 1)).

Definition config_register_cleaner section (cleaner : ConfigCleaner C) st :
    Res (config C MS ME) :=
  sec ← copy_key section;
  cs ← registry_put (config_cleaners st) (calls st) sec cleaner;
  Ret (MkConfig (configs_sections st) (config_parsers st) cs (sections st) (values st)
         (calls st + 1)).

Definition config_init : Res (Z * config C MS ME) :=
  ps ← registry_create;
  cs ← registry_create;
  ss ← map_create;
  let ok := match ss, ps, cs with Some _, Some _, Some _ => 0 | _, _, _ => 1 end in
  Ret (ok, MkConfig ss ps cs empty_store empty_store 0).

Definition set_values st (vs : Store (ConfigValue C)) : config C MS ME :=
  MkConfig (configs_sections st) (config_parsers st) (config_cleaners st) (sections st) vs
    (calls st).

(** [out] tells whether the caller gave a place for the result; [None] as a
    result says that it was left alone. *)
Definition config_get section key (out : bool) st : Res (Z * option (T C) * config C MS ME) :=
  if negb out then Ret (-1, None, st)
  else
    k ← copy_key key;
    sk ← copy_key section;
    sec ← get_from (configs_sections st) sk;
    match sec with
    | None => Ret (1, None, st)
    | Some sec =>
        entries ← load (sections st) sec;
        entry ← get_from entries k;
        match entry with
        | None => Ret (1, None, st)
        | Some entry =>
            e ← load (values st) entry;
            parser ← (if is_cook e then Ret None
                      else registry_get (config_parsers st) (calls st) sk);
            match parser with
            | None => Ret (0, Some (value e), st)
            | Some parser =>
                text ← match value e with Text s => Ret s | Parsed _ => UB end;
                '(rc, tmp) ← parser k text;
                if rc =? 0 then
                  (* [tmp] was not initialised *)
                  tmp ← nonnull tmp;
                  vs ← store (values st) entry (MkValue true (Parsed tmp));
                  Ret (0, Some (Parsed tmp), set_values st vs)
                else Ret (-1, None, st)
            end
        end
    end.

(** The first lines of [config_set] and [config_inject]. *)
Definition section_of section st : Res (loc * config C MS ME) :=
  sec ← get_from (configs_sections st) section;
  match sec with
  | Some sec => Ret (sec, st)
  | None =>
      '(sec, ss) ← create_section (sections st);
      '(_, cs) ← put_into (configs_sections st) section sec;
      Ret (sec, MkConfig cs (config_parsers st) (config_cleaners st) ss (values st) (calls st))
  end.

(** What becomes of the value that is replaced. *)
Definition clean_old section key (e : ConfigValue C) st : Res unit :=
  if is_cook e then
    cleaner ← registry_get (config_cleaners st) (calls st) section;
    match cleaner with Some cleaner => cleaner key (value e) | None => Ret tt end
  else match value e with Text _ => Ret tt | Parsed _ => UB end.

(** The lines [config_set] and [config_inject] share, [v] being the new value. *)
Definition replace_value section key (v : ConfigValue C) st : Res (Z * config C MS ME) :=
  '(sec, st) ← section_of section st;
  entries ← load (sections st) sec;
  entry ← get_from entries key;
  '(entry, vs) ← match entry with
    | Some entry =>
        e ← load (values st) entry;
        _ ← clean_old section key e st;
        vs ← store (values st) entry v;
        Ret (entry, vs)
    | None => entry_create (values st) v
    end;
  '(_, entries) ← put_into entries key entry;
  ss ← store (sections st) sec entries;
  Ret (0, MkConfig (configs_sections st) (config_parsers st) (config_cleaners st) ss vs (calls st)).

Definition config_set section key (v : T C) st : Res (Z * config C MS ME) :=
  replace_value section key (MkValue true v) st.

Definition config_inject section key (v : list Z) st : Res (Z * config C MS ME) :=
  replace_value section key (MkValue false (Text v)) st.
End config.

(** ** The abstract center *)

Section settings.
Context {C : Type}.
Abbreviation settings := (gmap (list Z * list Z) (ConfigValue C)).
Implicit Types (am : settings) (find : list Z → Res (option (ConfigParser C)))
  (finder : list Z → Res (option (ConfigCleaner C))).

(** Asked for a value that is still text, the center parses it once and for all
    with what [find] gives for its section; other values are not looked up. *)
Definition settings_get find (section key : list Z) am : Res ((Z * option (T C)) * settings) :=
  match am !! (section, key) with
  | None => Ret (1, None, am)
  | Some e =>
      parser ← (if is_cook e then Ret None else find section);
      match parser, value e with
      | None, v => Ret (0, Some v, am)
      | Some parser, Text s =>
          '(rc, tmp) ← parser key s;
          if rc =? 0 then
            tmp ← nonnull tmp;
            Ret (0, Some (Parsed tmp), <[(section, key) := MkValue true (Parsed tmp)]> am)
          else Ret (-1, None, am)
      | Some _, Parsed _ => UB
      end
  end.

(** Only a parsed value has a cleaner looked up. *)
Definition settings_clean finder (section key : list Z) am : Res unit :=
  match am !! (section, key) with
  | Some e =>
      if is_cook e then
        cleaner ← finder section;
        match cleaner with Some cleaner => cleaner key (value e) | None => Ret tt end
      else Ret tt
  | None => Ret tt
  end.

Definition settings_set finder (section key : list Z) (v : ConfigValue C) am : Res (Z * settings) :=
  _ ← settings_clean finder section key am; Ret (0, <[(section, key) := v]> am).

(** A finite map as a lookup. *)
Definition known {P} (pm : gmap (list Z) P) (section : list Z) : Res (option P) := Ret (pm !! section).
End settings.

(** [r] computes what [s] does, on a state that represents the one [s] has. *)
Definition implements {X A B} (R : A → B → Prop) (r : Res (X * A)) (s : Res (X * B)) : Prop :=
  match s with
  | Ret (x, b) => ∃ a, r = Ret (x, a) ∧ R a b
  | UB => r = UB
  | OutOfFuel => r = OutOfFuel
  end.

#[export] Instance key_ptr_keyed : HashMap.Keyed key_ptr (list Z).
Proof. by refine {| HashMap.contents := chars; HashMap.holder s := KeyPtr s 0 |}. Defined.

(** ** The center and its settings *)

Section center.
Context `{AllocTotal, Platform} {C MS ME : Type}.
Context `{!MapOps (list Z) loc MS, !MapOps (list Z) loc ME}.
Context `{!MapLaws (list Z) loc MS, !MapLaws (list Z) loc ME}.
Abbreviation settings := (gmap (list Z * list Z) (ConfigValue C)).
Implicit Types (st : config C MS ME) (am : settings) (section key : list Z)
  (ss : gmap (list Z) loc) (es : gmap loc (gmap (list Z) loc)).

Definition value_at st ss es section key : option (ConfigValue C) :=
  l ← ss !! section; em ← es !! l; p ← em !! key; cells (values st) !! p.

(** [ss] is the table of sections, [es] the tables of entries: no two sections
    share a table, no two entries a value. *)
Record center_rep st ss es am : Prop := {
  c_sections : ∃ m, configs_sections st = Some m ∧ map_rep m ss;
  c_entries : ∀ l em, es !! l = Some em →
    ∃ m, cells (sections st) !! l = Some (Some m) ∧ map_rep m em;
  c_known : ∀ s l, ss !! s = Some l → is_Some (es !! l);
  c_own : ∀ s s' l, ss !! s = Some l → ss !! s' = Some l → s = s';
  c_values : ∀ l em k p, es !! l = Some em → em !! k = Some p → is_Some (cells (values st) !! p);
  c_own_values : ∀ l l' em em' k k' p, es !! l = Some em → es !! l' = Some em' →
    em !! k = Some p → em' !! k' = Some p → l = l' ∧ k = k';
  c_settings : ∀ s k, am !! (s, k) = value_at st ss es s k;
  c_text : ∀ sk v, am !! sk = Some v → is_cook v = false → ∃ t, value v = Text t;
  c_wf : store_wf (sections st);
  c_values_wf : store_wf (values st);
}.

(** The center holds the settings [am]; nothing is said of the registries. *)
Definition center_holds st am : Prop := ∃ ss es, center_rep st ss es am.

(** What the registries find while the next call runs. *)
Definition parser_of st section : Res (option (ConfigParser C)) :=
  registry_get (config_parsers st) (calls st) section.
Definition cleaner_of st section : Res (option (ConfigCleaner C)) :=
  registry_get (config_cleaners st) (calls st) section.

Record keeps st st' : Prop := {
  k_parsers : config_parsers st' = config_parsers st;
  k_cleaners : config_cleaners st' = config_cleaners st;
  k_calls : calls st' = calls st;
}.
(** The settings are now [am]; the registries are as they were. *)
Definition now_holds st st' am : Prop := center_holds st' am ∧ keeps st st'.

Lemma value_at_Some st ss es am section key e :
  center_rep st ss es am → am !! (section, key) = Some e →
  ∃ l em p, ss !! section = Some l ∧ es !! l = Some em ∧ em !! key = Some p ∧
    cells (values st) !! p = Some e.
Proof.
  intros Hr. rewrite (c_settings _ _ _ _ Hr). unfold value_at.
  intros (l & Hl & (em & Hem & (p & Hp & He)%bind_Some)%bind_Some)%bind_Some. eauto 10.
Qed.

Lemma value_at_eq st ss es am section key l em :
  center_rep st ss es am → ss !! section = Some l → es !! l = Some em →
  am !! (section, key) = em !! key ≫= λ p, cells (values st) !! p.
Proof. intros Hr Hl He. rewrite (c_settings _ _ _ _ Hr). unfold value_at. by rewrite Hl; simpl; rewrite He. Qed.

(** What is left to say once the tables are known: [cs] and [vs] are the new
    tables of the sections and of the values. *)
Lemma center_create (st0 : config C MS ME) cs :
  map_rep cs ∅ → configs_sections st0 = Some cs → sections st0 = empty_store →
  values st0 = empty_store → center_rep st0 ∅ ∅ ∅.
Proof.
  intros Hm Hc Hs Hv. split; rewrite ?Hs, ?Hv; eauto with relay.
  all: try (intros *; rewrite !lookup_empty; done).
Qed.

Lemma center_new_section st ss es am section cs m l :
  center_rep st ss es am → ss !! section = None → l = brk (sections st) →
  map_rep cs (<[section := l]> ss) → map_rep m ∅ →
  center_rep (MkConfig (Some cs) (config_parsers st) (config_cleaners st)
    (alloc (Some m) (sections st)).2 (values st) (calls st))
    (<[section := l]> ss) (<[l := ∅]> es) am.
Proof.
  intros Hr Hnone -> Hcs Hm. pose proof (store_wf_fresh _ (c_wf _ _ _ _ Hr)) as Hfresh.
  set (l := brk (sections st)) in *.
  assert (Hl : ∀ em, es !! l = Some em → False).
  { intros em (m' & Hm' & _)%(c_entries _ _ _ _ Hr). congruence. }
  assert (Hss : ∀ s, ss !! s = Some l → False).
  { intros s [em Hem]%(c_known _ _ _ _ Hr). eauto. }
  split; simpl; eauto with relay.
  - intros l' em [[<- <-]|[Hne He]]%lookup_insert_Some; [rewrite lookup_insert_eq; eauto|].
    rewrite lookup_insert_ne by done. by apply (c_entries _ _ _ _ Hr).
  - intros s l' [[<- <-]|[Hne He]]%lookup_insert_Some; [rewrite lookup_insert_eq; eauto|].
    destruct (decide (l = l')) as [->|]; [rewrite lookup_insert_eq; eauto|].
    rewrite lookup_insert_ne by done. by apply (c_known _ _ _ _ Hr s).
  - intros s s' l' [[<- <-]|[? Hs]]%lookup_insert_Some [[<- E]|[? Hs']]%lookup_insert_Some; try done.
    + by destruct (Hss s').
    + subst. by destruct (Hss s).
    + by apply (c_own _ _ _ _ Hr s s' l').
  - intros l' em k p [[_ <-]|[_ He]]%lookup_insert_Some; [by rewrite lookup_empty|].
    by apply (c_values _ _ _ _ Hr l').
  - intros l1 l2 em1 em2 k1 k2 p [[_ <-]|[_ He1]]%lookup_insert_Some; [by rewrite lookup_empty|].
    intros [[_ <-]|[_ He2]]%lookup_insert_Some; [by rewrite lookup_empty|].
    by apply (c_own_values _ _ _ _ Hr _ _ _ _ _ _ p He1 He2).
  - intros s k. rewrite (c_settings _ _ _ _ Hr). unfold value_at. simpl.
    destruct (decide (section = s)) as [<-|].
    + rewrite lookup_insert_eq, Hnone. simpl. by rewrite lookup_insert_eq.
    + rewrite lookup_insert_ne by done. destruct (ss !! s) as [l'|] eqn:E; [|done]. simpl.
      rewrite lookup_insert_ne; [done|]. intros ->. by destruct (Hss s).
  - apply (c_text _ _ _ _ Hr).
  - apply (store_wf_alloc (sections st) (Some m)), Hr.
  - apply Hr.
Qed.

(** The place of the value [p] that a put writes. *)
Lemma center_place st ss es am key l em p l' em' k' :
  center_rep st ss es am → es !! l = Some em →
  (em !! key = Some p ∨ em !! key = None ∧ cells (values st) !! p = None) →
  es !! l' = Some em' → em' !! k' = Some p → l' = l ∧ k' = key.
Proof.
  intros Hr He Hp He' Hk'. destruct Hp as [Hp|[_ Hp]].
  - by apply (c_own_values _ _ _ _ Hr _ _ _ _ _ _ p He' He).
  - destruct (c_values _ _ _ _ Hr _ _ _ _ He' Hk'). congruence.
Qed.

Lemma value_at_update st ss es am section key l em p v vs s k secs ps' cs' n :
  center_rep st ss es am → ss !! section = Some l → es !! l = Some em →
  (em !! key = Some p ∨ em !! key = None ∧ cells (values st) !! p = None) →
  cells vs = <[p := v]> (cells (values st)) →
  value_at (MkConfig (configs_sections st) ps' cs' secs vs n) ss (<[l := <[key := p]> em]> es) s k =
    if decide ((section, key) = (s, k)) then Some v else value_at st ss es s k.
Proof.
  intros Hr Hl He Hp Hvs. unfold value_at. cbn [values]. case_decide as Hne.
  - injection Hne as <- <-. rewrite Hl. simpl. rewrite lookup_insert_eq. simpl.
    rewrite lookup_insert_eq. simpl. by rewrite Hvs, lookup_insert_eq.
  - destruct (ss !! s) as [l'|] eqn:Es; [|done]. simpl. rewrite Hvs.
    destruct (decide (l = l')) as [<-|Hne'].
    + assert (s = section) as -> by (by eapply (c_own _ _ _ _ Hr)).
      rewrite He, lookup_insert_eq. simpl. rewrite lookup_insert_ne by congruence.
      destruct (em !! k) as [p'|] eqn:Ek; [|done]. simpl. rewrite lookup_insert_ne; [done|].
      intros <-. destruct (center_place _ _ _ _ _ _ _ _ _ _ _ Hr He Hp He Ek) as [_ ->]. done.
    + rewrite lookup_insert_ne by done. destruct (es !! l') as [em'|] eqn:Ee; [|done]. simpl.
      destruct (em' !! k) as [p'|] eqn:Ek; [|done]. simpl. rewrite lookup_insert_ne; [done|].
      intros <-. by destruct (center_place _ _ _ _ _ _ _ _ _ _ _ Hr He Hp Ee Ek) as [-> _].
Qed.

Lemma center_update st ss es am section key l em m p v vs :
  center_rep st ss es am → ss !! section = Some l → es !! l = Some em →
  map_rep m (<[key := p]> em) →
  (em !! key = Some p ∨ em !! key = None ∧ cells (values st) !! p = None) →
  store_wf vs → cells vs = <[p := v]> (cells (values st)) →
  (is_cook v = false → ∃ t, value v = Text t) →
  center_rep (MkConfig (configs_sections st) (config_parsers st) (config_cleaners st)
    (MkStore (<[l := Some m]> (cells (sections st))) (brk (sections st))) vs (calls st))
    ss (<[l := <[key := p]> em]> es) (<[(section, key) := v]> am).
Proof.
  intros Hr Hl He Hm Hp Hwf Hvs Hv.
  assert (Hcase : ∀ l' em' k' p', <[l := <[key := p]> em]> es !! l' = Some em' →
    em' !! k' = Some p' → (l' = l ∧ k' = key ∧ p' = p) ∨
    (∃ em0, es !! l' = Some em0 ∧ em0 !! k' = Some p' ∧ p' ≠ p)).
  { intros l' em' k' p' [[<- <-]|[Hne He']]%lookup_insert_Some.
    - intros [[<- <-]|[Hne Hk]]%lookup_insert_Some; [auto|]. right. exists em. split_and!; [done..|].
      intros ->. by destruct (center_place _ _ _ _ _ _ _ _ _ _ _ Hr He Hp He Hk) as [_ ->].
    - intros Hk. right. exists em'. split_and!; [done..|]. intros ->.
      by destruct (center_place _ _ _ _ _ _ _ _ _ _ _ Hr He Hp He' Hk) as [-> _]. }
  split; simpl; try apply Hr; try done.
  - intros l' em' [[<- <-]|[Hne He']]%lookup_insert_Some; [rewrite lookup_insert_eq; eauto|].
    rewrite lookup_insert_ne by done. by apply (c_entries _ _ _ _ Hr).
  - intros s l' Hs. destruct (decide (l = l')) as [->|]; [rewrite lookup_insert_eq; eauto|].
    rewrite lookup_insert_ne by done. by apply (c_known _ _ _ _ Hr s).
  - intros l' em' k' p' He' Hk'. rewrite Hvs.
    destruct (Hcase _ _ _ _ He' Hk') as [(_ & _ & ->)|(em0 & G0 & Hk0 & Hne)].
    + rewrite lookup_insert_eq. eauto.
    + rewrite lookup_insert_ne by done. by apply (c_values _ _ _ _ Hr l' em0 k').
  - intros l1 l2 em1 em2 k1 k2 p' He1 He2 Hk1 Hk2.
    destruct (Hcase _ _ _ _ He1 Hk1) as [(-> & -> & ->)|(em0 & G0 & Hk0 & Hne)],
      (Hcase _ _ _ _ He2 Hk2) as [(-> & -> & ?)|(em0' & G0' & Hk0' & Hne')]; try done.
    by apply (c_own_values _ _ _ _ Hr l1 l2 em0 em0' k1 k2 p').
  - intros s k. rewrite (value_at_update st ss es am section key l em p v) by done.
    rewrite lookup_insert. case_decide; [done|]. apply (c_settings _ _ _ _ Hr).
  - intros sk w [[<- <-]|[_ Hw]]%lookup_insert_Some; [done|]. by apply (c_text _ _ _ _ Hr sk).
  - destruct (c_entries _ _ _ _ Hr l em He) as (m' & Hm' & _).
    apply (store_wf_insert (sections st)); [apply Hr|eauto].
Qed.
Lemma section_of_spec st ss es am section :
  center_rep st ss es am →
  ∃ l st' ss' es' em, section_of section st = Ret (l, st') ∧ center_rep st' ss' es' am ∧
    ss' !! section = Some l ∧ es' !! l = Some em ∧ values st' = values st ∧
    config_parsers st' = config_parsers st ∧ config_cleaners st' = config_cleaners st ∧
    calls st' = calls st.
Proof using All.
  intros Hr. destruct (c_sections _ _ _ _ Hr) as (cs & Ecs & Hcs).
  unfold section_of, get_from. rewrite Ecs, (map_get_spec _ _ _ Hcs). cbn [mbind Res_bind].
  destruct (ss !! section) as [l|] eqn:El.
  - destruct (c_known _ _ _ _ Hr _ _ El) as [em Hem]. exists l, st, ss, es, em. by split_and!.
  - unfold create_section. rewrite malloc_total.
    destruct (map_create_spec (K := list Z) (V := loc) (M := ME)) as (m & Em & Hm). rewrite Em.
    cbn [mbind Res_bind]. unfold alloc. cbn [mbind Res_bind put_into].
    destruct (map_put_spec _ _ section (brk (sections st)) Hcs) as (cs' & E & Hcs'). rewrite E.
    cbn [mbind Res_bind].
    pose proof (center_new_section _ _ _ _ section cs' m _ Hr El eq_refl Hcs' Hm) as Hr'.
    eexists _, _, _, _, ∅. split; [done|]. split; [exact Hr'|].
    rewrite !lookup_insert_eq. done.
Qed.

Lemma clean_old_spec st st1 am section key e :
  keeps st st1 → am !! (section, key) = Some e →
  (is_cook e = false → ∃ t, value e = Text t) →
  clean_old section key e st1 = settings_clean (cleaner_of st) section key am.
Proof using All.
  intros [_ Hc Hn] He Ht. unfold clean_old, settings_clean, cleaner_of. rewrite He, Hc, Hn.
  destruct (is_cook e); [done|]. by destruct (Ht eq_refl) as [t ->].
Qed.

(** The last lines: the entry is put back, then the table of the section. *)
Lemma replace_value_end st ss es am section key l em m p v vs :
  center_rep st ss es am → ss !! section = Some l → es !! l = Some em →
  cells (sections st) !! l = Some (Some m) → map_rep m em →
  (em !! key = Some p ∨ em !! key = None ∧ cells (values st) !! p = None) →
  (is_cook v = false → ∃ t, value v = Text t) →
  store_wf vs → cells vs = <[p := v]> (cells (values st)) →
  ∃ st', ('(_, entries) ← put_into (Some m) key p;
    ss ← store (sections st) l entries;
    Ret (0, MkConfig (configs_sections st) (config_parsers st) (config_cleaners st) ss vs
              (calls st))) = Ret (0, st') ∧
    now_holds st st' (<[(section, key) := v]> am).
Proof using All.
  intros Hr Hl Hem Em Hm Hp Hv Hwf Hvs. cbn [put_into].
  destruct (map_put_spec _ _ key p Hm) as (m' & E & Hm'). rewrite E. cbn [mbind Res_bind].
  rewrite (store_Some _ _ _ _ Em). cbn [mbind Res_bind]. eexists. split; [done|].
  split; [|done]. eexists _, _. by eapply (center_update _ _ _ _ section key l em m' p v vs).
Qed.

Lemma keeps_trans st st1 st2 : keeps st st1 → keeps st1 st2 → keeps st st2.
Proof. intros [] []. split; congruence. Qed.

Lemma replace_value_spec st am section key v :
  center_holds st am → (is_cook v = false → ∃ t, value v = Text t) →
  implements (now_holds st) (replace_value section key v st)
    (settings_set (cleaner_of st) section key v am).
Proof using All.
  intros (ss0 & es0 & Hr0) Hv. unfold replace_value, settings_set.
  destruct (section_of_spec _ _ _ _ section Hr0)
    as (l & st1 & ss & es & em & -> & Hr & Hl & Hem & _ & Eps & Ecs & Ecalls).
  assert (Hk : keeps st st1) by done. clear Hr0 Eps Ecs Ecalls. cbn [mbind Res_bind].
  destruct (c_entries _ _ _ _ Hr _ _ Hem) as (m & Em & Hm).
  rewrite (load_Some _ _ _ Em). cbn [mbind Res_bind get_from].
  rewrite (map_get_spec _ _ _ Hm). cbn [mbind Res_bind].
  assert (Hfin : ∀ p vs, (em !! key = Some p ∨ em !! key = None ∧ cells (values st1) !! p = None) →
    store_wf vs → cells vs = <[p := v]> (cells (values st1)) →
    implements (now_holds st) ('(_, entries) ← put_into (Some m) key p;
      ss ← store (sections st1) l entries;
      Ret (0, MkConfig (configs_sections st1) (config_parsers st1) (config_cleaners st1) ss vs
                (calls st1))) (Ret (0, <[(section, key) := v]> am))).
  { intros p vs Hp Hwf Hvs.
    destruct (replace_value_end _ _ _ _ _ _ _ _ _ _ _ _ Hr Hl Hem Em Hm Hp Hv Hwf Hvs)
      as (st' & -> & Hh & Hk'). exists st'. split; [done|]. split; [done|by eapply keeps_trans]. }
  destruct (em !! key) as [p|] eqn:Ek.
  - destruct (c_values _ _ _ _ Hr _ _ _ _ Hem Ek) as [e He]. rewrite (load_Some _ _ _ He).
    cbn [mbind Res_bind].
    assert (Hsk : am !! (section, key) = Some e).
    { by rewrite (value_at_eq _ _ _ _ _ key _ _ Hr Hl Hem), Ek. }
    rewrite (clean_old_spec _ _ _ _ _ _ Hk Hsk (c_text _ _ _ _ Hr _ _ Hsk)).
    destruct (settings_clean _ section key am) as [[]| |]; [|done|done]. cbn [mbind Res_bind].
    rewrite (store_Some _ _ _ _ He). cbn [mbind Res_bind].
    apply Hfin; [by left| |done]. apply (store_wf_insert (values st1)); [apply Hr|eauto].
  - assert (Hsk : am !! (section, key) = None).
    { by rewrite (value_at_eq _ _ _ _ _ key _ _ Hr Hl Hem), Ek. }
    unfold entry_create. rewrite malloc_total. cbn [mbind Res_bind]. unfold alloc.
    cbn [mbind Res_bind]. unfold settings_clean. rewrite Hsk. cbn [mbind Res_bind].
    pose proof (c_values_wf _ _ _ _ Hr) as Hwf. apply Hfin; [|by apply (store_wf_alloc _ v)|done].
    right. split; [done|]. by apply store_wf_fresh.
Qed.

Lemma copy_key_short s : Z.of_nat (length s) < KEY_SIZE → copy_key s = Ret s.
Proof. intros. unfold copy_key. by rewrite (proj2 (Z.ltb_lt _ _)). Qed.

Lemma settings_get_None find section key am :
  am !! (section, key) = None → settings_get find section key am = Ret (1, None, am).
Proof. unfold settings_get. by intros ->. Qed.

Lemma settings_get_plain find section key am e :
  am !! (section, key) = Some e → find section = Ret None →
  settings_get find section key am = Ret (0, Some (value e), am).
Proof. unfold settings_get. intros -> ->. by destruct (is_cook e). Qed.

Lemma config_get_spec st am section key :
  center_holds st am → Z.of_nat (length section) < KEY_SIZE → Z.of_nat (length key) < KEY_SIZE →
  implements (now_holds st) (config_get section key true st)
    (settings_get (parser_of st) section key am).
Proof using All.
  intros (ss & es & Hr) Hs Hk. unfold config_get. cbn [negb].
  rewrite !copy_key_short by done. cbn [mbind Res_bind].
  assert (Hsame : now_holds st st am) by (split; [by exists ss, es|done]).
  destruct (c_sections _ _ _ _ Hr) as (m & Em & Hm). unfold get_from.
  rewrite Em, (map_get_spec _ _ _ Hm). cbn [mbind Res_bind].
  destruct (ss !! section) as [l|] eqn:El.
  2: { rewrite settings_get_None; [by exists st|]. rewrite (c_settings _ _ _ _ Hr).
       unfold value_at. by rewrite El. }
  destruct (c_known _ _ _ _ Hr _ _ El) as [em Hem].
  destruct (c_entries _ _ _ _ Hr _ _ Hem) as (m1 & Em1 & Hm1).
  rewrite (load_Some _ _ _ Em1). cbn [mbind Res_bind]. rewrite (map_get_spec _ _ _ Hm1).
  cbn [mbind Res_bind].
  pose proof (value_at_eq _ _ _ _ section key _ _ Hr El Hem) as Hsk.
  destruct (em !! key) as [p|] eqn:Ek.
  2: { rewrite settings_get_None by done. by exists st. }
  destruct (c_values _ _ _ _ Hr _ _ _ _ Hem Ek) as [e He]. simpl in Hsk. rewrite He in Hsk.
  rewrite (load_Some _ _ _ He). cbn [mbind Res_bind]. unfold settings_get, parser_of. rewrite Hsk.
  cbv beta. destruct (is_cook e); cbn [mbind Res_bind]; [by exists st|].
  destruct (registry_get (config_parsers st) (calls st) section) as [[parser|]| |];
    cbn [mbind Res_bind]; [|by exists st|done|done].
  destruct (value e) as [t|c]; [|done]. cbn [mbind Res_bind].
  destruct (parser key t) as [[rc tmp]| |]; [|done|done]. cbn [mbind Res_bind].
  destruct (rc =? 0); [|by exists st]. destruct tmp as [c|]; [|done]. cbn [nonnull mbind Res_bind].
  rewrite (store_Some _ _ _ _ He). cbn [mbind Res_bind]. eexists. split; [done|].
  split; [|done]. eexists ss, _.
  assert (Hins : <[key := p]> em = em) by (by apply insert_id).
  pose proof (center_update st ss es am section key l em m1 p (MkValue true (Parsed c))
    (MkStore (<[p := MkValue true (Parsed c)]> (cells (values st))) (brk (values st)))) as Hu.
  rewrite Hins in Hu. unfold set_values.
  assert (Hst : MkStore (<[l := Some m1]> (cells (sections st))) (brk (sections st)) = sections st).
  { rewrite (insert_id _ _ _ Em1). by destruct (sections st). }
  rewrite Hst in Hu. apply Hu; [done..|by left| |done|done].
  apply (store_wf_insert (values st)); [apply Hr|eauto].
Qed.

(** A new table of parsers or cleaners: nothing is found, no key is followed. *)
Lemma registry_create_empty {P} :
  ∃ r : option (Registry P), registry_create = Ret r ∧ is_Some r ∧
    ∀ now section, registry_get r now section = Ret None.
Proof using All.
  destruct (HashMap.hash_map_create_get (K := key_ptr) (A := list Z) (V := P)
    (hash_at 0) (compare_at 0) _) as (m & E & Hget).
  exists (Some m). split_and!; [exact E|done|]. intros now section.
  destruct (HashMap.hash_total _ _ HashMap.str_functions_ok section) as (h & Eh & Hh).
  apply (Hget _ _ _ h); [|done]. unfold hash_at, deref. cbn [call chars].
  by rewrite Z.eqb_refl, bind_Ret.
Qed.

(** A new center: no settings, and nothing registered. *)
Lemma config_init_spec :
  ∃ st, config_init = Ret (0, st) ∧ center_holds st ∅ ∧
    (∀ section, parser_of st section = Ret None) ∧ (∀ section, cleaner_of st section = Ret None).
Proof using All.
  unfold config_init.
  destruct (registry_create_empty (P := ConfigParser C)) as (r1 & -> & [r1' ->] & G1). cbn [mbind Res_bind].
  destruct (registry_create_empty (P := ConfigCleaner C)) as (r2 & -> & [r2' ->] & G2). cbn [mbind Res_bind].
  destruct (map_create_spec (K := list Z) (V := loc) (M := MS)) as (m & -> & Hm). cbn [mbind Res_bind].
  eexists. split; [done|]. split; [|split; intros section; [apply G1|apply G2]].
  eexists ∅, ∅. by eapply center_create.
Qed.

(** Registering leaves the settings alone. *)
Lemma config_register_parser_spec st am section parser :
  center_holds st am → Z.of_nat (length section) < KEY_SIZE →
  implements (λ st' ps, center_holds st' am ∧ config_parsers st' = ps ∧
      config_cleaners st' = config_cleaners st ∧ calls st' = calls st + 1)
    (st' ← config_register_parser section parser st; Ret (tt, st'))
    (ps ← registry_put (config_parsers st) (calls st) section parser; Ret (tt, ps)).
Proof using All.
  intros (ss & es & Hr) Hs. unfold config_register_parser.
  rewrite copy_key_short by done. cbn [mbind Res_bind].
  destruct (registry_put _ _ _ _) as [ps| |]; [|done..]. cbn [mbind Res_bind].
  eexists. split; [done|]. split_and!; [|done..]. exists ss, es. destruct Hr. by split.
Qed.

Lemma config_register_cleaner_spec st am section cleaner :
  center_holds st am → Z.of_nat (length section) < KEY_SIZE →
  implements (λ st' cs, center_holds st' am ∧ config_parsers st' = config_parsers st ∧
      config_cleaners st' = cs ∧ calls st' = calls st + 1)
    (st' ← config_register_cleaner section cleaner st; Ret (tt, st'))
    (cs ← registry_put (config_cleaners st) (calls st) section cleaner; Ret (tt, cs)).
Proof using All.
  intros (ss & es & Hr) Hs. unfold config_register_cleaner.
  rewrite copy_key_short by done. cbn [mbind Res_bind].
  destruct (registry_put _ _ _ _) as [cs| |]; [|done..]. cbn [mbind Res_bind].
  eexists. split; [done|]. split_and!; [|done..]. exists ss, es. destruct Hr. by split.
Qed.
End center.

(** ** A lenient machine

    Where every dead array still reads as it was, the registries are finite
    maps, and the settings can be followed to what the parsers make of them. *)

Class StaleOk `{Platform} : Prop := stale_ok : ∀ s, stale_read s = Ret s.
#[export] Instance lenient_stale : @StaleOk lenient.
Proof. done. Qed.

Section registry.
Context `{AllocTotal, StaleOk} {P : Type}.
Implicit Types (r : option (Registry P)) (pm : gmap (list Z) P).

Lemma deref_ok now k : deref now k = Ret (chars k).
Proof using H1 H2. unfold deref. destruct (call k =? now); [done|apply stale_ok]. Qed.

Lemma functions_at_ok now : HashMap.functions_ok (hash_at now) (compare_at now).
Proof using H1 H2.
  destruct HashMap.str_functions_ok as [Hh _ Hc]. unfold hash_at, compare_at. split.
  - intros k. rewrite deref_ok. apply Hh.
  - intros k k' E. rewrite !deref_ok. simpl in *. by rewrite E.
  - intros k k'. rewrite !deref_ok. apply Hc.
Qed.

Lemma hash_at_any now now' a :
  hash_at now (HashMap.holder a) = hash_at now' (HashMap.holder a).
Proof using H1 H2. unfold hash_at. by rewrite !deref_ok. Qed.

(** Whichever call looks, the table represents [pm]. *)
Definition registry_rep r pm : Prop :=
  ∃ m, r = Some m ∧ ∀ now, HashMap.hm_rep (at_call now m) pm.

Lemma registry_rep_at (m : Registry P) now pm :
  HashMap.hm_rep m pm → HashMap.hash_function m = hash_at now → registry_rep (Some m) pm.
Proof using All.
  intros Hm Hh. exists m. split; [done|]. intros now'.
  apply HashMap.hm_rep_with_functions; [done|apply functions_at_ok|].
  intros a. rewrite Hh. apply hash_at_any.
Qed.

Lemma registry_create_spec : ∃ r, registry_create = Ret r ∧ registry_rep r ∅.
Proof using All.
  destruct (HashMap.hash_map_create_spec (V := P) _ _ _ (functions_at_ok 0)) as (m & E & Hm & Hh & _).
  exists (Some m). split; [exact E|]. by eapply registry_rep_at.
Qed.

Lemma registry_get_spec r pm now section :
  registry_rep r pm → registry_get r now section = Ret (pm !! section).
Proof using All. intros (m & -> & Hm). apply (HashMap.hash_map_get_spec _ _ (KeyPtr section now) (Hm now)). Qed.

Lemma registry_put_spec r pm now section (p : P) :
  registry_rep r pm →
  ∃ r', registry_put r now section p = Ret r' ∧ registry_rep r' (<[section := p]> pm).
Proof using All.
  intros (m & -> & Hm). unfold registry_put.
  destruct (HashMap.hash_map_put_spec _ _ (KeyPtr section now) p _ (Hm now)) as (m' & E & Hm').
  exists (Some m'). rewrite E. split; [done|]. eapply (registry_rep_at _ now); [exact Hm'|].
  by rewrite (HashMap.hash_map_put_functions _ _ _ _ _ E).
Qed.
End registry.


Lemma known_Some {P} (pm : gmap (list Z) P) section p :
  pm !! section = Some p → known pm section = Ret (Some p).
Proof. by unfold known; intros ->. Qed.
Lemma known_None {P} (pm : gmap (list Z) P) section :
  pm !! section = None → known pm section = Ret None.
Proof. by unfold known; intros ->. Qed.

Lemma settings_get_ext {C} (find find' : list Z → Res (option (ConfigParser C))) section key am :
  find section = find' section → settings_get find section key am = settings_get find' section key am.
Proof. unfold settings_get. by intros ->. Qed.

Lemma settings_set_ext {C} (find find' : list Z → Res (option (ConfigCleaner C))) section key v am :
  find section = find' section → settings_set find section key v am = settings_set find' section key v am.
Proof. unfold settings_set, settings_clean. by intros ->. Qed.

Lemma implements_mono {X A B} (R R' : A → B → Prop) (r : Res (X * A)) (s : Res (X * B)) :
  (∀ a b, R a b → R' a b) → implements R r s → implements R' r s.
Proof. intros HR. destruct s as [[x b]| |]; simpl; [|done..]. intros (a & E & Hab). eauto. Qed.

Section lenient_center.
Context `{AllocTotal, StaleOk} {C MS ME : Type}.
Context `{!MapOps (list Z) loc MS, !MapOps (list Z) loc ME}.
Context `{!MapLaws (list Z) loc MS, !MapLaws (list Z) loc ME}.
Implicit Types (st : config C MS ME) (am : gmap (list Z * list Z) (ConfigValue C))
  (section key : list Z) (ps : gmap (list Z) (ConfigParser C)) (cs : gmap (list Z) (ConfigCleaner C)).

Definition config_rep st am ps cs : Prop :=
  center_holds st am ∧ registry_rep (config_parsers st) ps ∧ registry_rep (config_cleaners st) cs.

Lemma now_holds_rep st am ps cs st' am' :
  config_rep st am ps cs → now_holds st st' am' → config_rep st' am' ps cs.
Proof. intros (_ & Hp & Hc) [Hh [Ep Ec _]]. split; [done|]. by rewrite Ep, Ec. Qed.

Lemma replace_value_known st am ps cs section key v :
  config_rep st am ps cs → (is_cook v = false → ∃ t, value v = Text t) →
  implements (λ st' am', config_rep st' am' ps cs)
    (replace_value section key v st) (settings_set (known cs) section key v am).
Proof using All.
  intros Hr Hv. rewrite (settings_set_ext (known cs) (cleaner_of st))
    by (symmetry; by apply registry_get_spec, Hr).
  eapply implements_mono; [|by apply replace_value_spec; [apply Hr|]].
  intros st' am' Hh. by eapply now_holds_rep.
Qed.

Lemma config_get_known st am ps cs section key :
  config_rep st am ps cs →
  Z.of_nat (length section) < KEY_SIZE → Z.of_nat (length key) < KEY_SIZE →
  implements (λ st' am', config_rep st' am' ps cs)
    (config_get section key true st) (settings_get (known ps) section key am).
Proof using All.
  intros Hr Hs Hk. rewrite (settings_get_ext (known ps) (parser_of st))
    by (symmetry; by apply registry_get_spec, Hr).
  eapply implements_mono; [|by apply config_get_spec; [apply Hr| |]].
  intros st' am' Hh. by eapply now_holds_rep.
Qed.

Lemma config_init_known : ∃ st, config_init = Ret (0, st) ∧ config_rep st ∅ ∅ ∅.
Proof using All.
  unfold config_init.
  destruct (registry_create_spec (P := ConfigParser C)) as (r1 & -> & H1r). cbn [mbind Res_bind].
  destruct (registry_create_spec (P := ConfigCleaner C)) as (r2 & -> & H2r). cbn [mbind Res_bind].
  destruct (map_create_spec (K := list Z) (V := loc) (M := MS)) as (m & -> & Hm). cbn [mbind Res_bind].
  destruct r1 as [r1|]; [|by destruct H1r as (? & ? & _)].
  destruct r2 as [r2|]; [|by destruct H2r as (? & ? & _)].
  eexists. split; [done|]. split; [|done]. eexists ∅, ∅. by eapply center_create.
Qed.

Lemma config_register_parser_known st am ps cs section parser :
  config_rep st am ps cs → Z.of_nat (length section) < KEY_SIZE →
  ∃ st', config_register_parser section parser st = Ret st' ∧
    config_rep st' am (<[section := parser]> ps) cs.
Proof using All.
  intros (Hh & Hps & Hcs) Hs. pose proof (config_register_parser_spec st am section parser Hh Hs) as Hi.
  destruct (registry_put_spec _ _ (calls st) section parser Hps) as (r & E & Hr'). rewrite E in Hi.
  destruct Hi as (st' & E' & Hh' & Ep & Ec & _). exists st'.
  destruct (config_register_parser section parser st); [|done..]. injection E' as ->.
  split; [done|]. split; [done|]. by rewrite Ep, Ec.
Qed.

Lemma config_register_cleaner_known st am ps cs section cleaner :
  config_rep st am ps cs → Z.of_nat (length section) < KEY_SIZE →
  ∃ st', config_register_cleaner section cleaner st = Ret st' ∧
    config_rep st' am ps (<[section := cleaner]> cs).
Proof using All.
  intros (Hh & Hps & Hcs) Hs. pose proof (config_register_cleaner_spec st am section cleaner Hh Hs) as Hi.
  destruct (registry_put_spec _ _ (calls st) section cleaner Hcs) as (r & E & Hr'). rewrite E in Hi.
  destruct Hi as (st' & E' & Hh' & Ep & Ec & _). exists st'.
  destruct (config_register_cleaner section cleaner st); [|done..]. injection E' as ->.
  split; [done|]. split; [done|]. by rewrite Ep, Ec.
Qed.
End lenient_center.

(** ** Properties *)

(** C11. The configuration center implements settings, on any platform and over
    any tables that satisfy the map interface.  [config_get] answers 1 for an
    unknown value; a value that is still text has the parser of its section
    looked up, and is given as it is when there is none, otherwise parsed once
    and for all (-1, and the text kept, when the parser refuses); a parsed value
    is given without any lookup.  [config_set] and [config_inject] replace a
    value, a parsed one going first to the cleaner of its section, and register
    nothing.  Registering changes no setting.  What a lookup computes is left to
    the platform ([parser_of], [cleaner_of]), as the registries keep pointers to
    dead arrays; a new center has no settings, and there every lookup finds
    nothing without following a key. *)
Theorem config_refines_settings `{AllocTotal, Platform} {C MS ME : Type}
    `{!MapOps (list Z) loc MS, !MapOps (list Z) loc ME}
    `{!MapLaws (list Z) loc MS, !MapLaws (list Z) loc ME}
    (st : config C MS ME) (am : gmap (list Z * list Z) (ConfigValue C))
    (section key s : list Z) (v : T C) (parser : ConfigParser C) (cleaner : ConfigCleaner C) :
  center_holds st am → Z.of_nat (length section) < KEY_SIZE → Z.of_nat (length key) < KEY_SIZE →
  implements (now_holds st) (config_get section key true st)
    (settings_get (parser_of st) section key am) ∧
  config_get section key false st = Ret (-1, None, st) ∧
  implements (now_holds st) (config_set section key v st)
    (settings_set (cleaner_of st) section key (MkValue true v) am) ∧
  implements (now_holds st) (config_inject section key s st)
    (settings_set (cleaner_of st) section key (MkValue false (Text s)) am) ∧
  implements (λ st' ps, center_holds st' am ∧ config_parsers st' = ps ∧
      config_cleaners st' = config_cleaners st ∧ calls st' = calls st + 1)
    (st' ← config_register_parser section parser st; Ret (tt, st'))
    (ps ← registry_put (config_parsers st) (calls st) section parser; Ret (tt, ps)) ∧
  implements (λ st' cs, center_holds st' am ∧ config_parsers st' = config_parsers st ∧
      config_cleaners st' = cs ∧ calls st' = calls st + 1)
    (st' ← config_register_cleaner section cleaner st; Ret (tt, st'))
    (cs ← registry_put (config_cleaners st) (calls st) section cleaner; Ret (tt, cs)) ∧
  (∃ st0 : config C MS ME, config_init = Ret (0, st0) ∧ center_holds st0 ∅ ∧
    (∀ sec, parser_of st0 sec = Ret None) ∧ (∀ sec, cleaner_of st0 sec = Ret None)).
Proof.
  intros Hr Hs Hk. split_and!; [by apply config_get_spec|done| | | | |apply config_init_spec].
  - by apply replace_value_spec.
  - apply replace_value_spec; [done|]. intros _. by eexists.
  - by apply config_register_parser_spec.
  - by apply config_register_cleaner_spec.
Qed.

(** The tables the program uses. *)
Abbreviation table := (HashMap.HashMap (list Z) loc).
#[local] Instance table_ops : MapOps (list Z) loc table := @HashMap.str_table_ops always loc.
#[local] Instance table_laws : MapLaws (list Z) loc table :=
  @HashMap.str_table_laws always always_total loc.
#[local] Instance always_laws : @AllocTotal always := always_total.

(** A section [d] with a parser that measures the text. *)
Definition measure : ConfigParser Z := λ _ text, Ret (0, Some (Z.of_nat (length text))).
Abbreviation injected p st := (@config_inject always p Z table table _ _ [100] [107] [49; 50] st).
Abbreviation registered_in p st := (@config_register_parser always p Z table table [100] measure st).
Abbreviation got p st := (@config_get p Z table table _ _ [100] [107] true st).

Lemma measure_found :
  match ('(_, st) ← @config_init always lenient Z table table _; '(_, st) ← injected lenient st;
         registered_in lenient st) with
  | Ret st => @parser_of lenient Z table table st [100] = Ret (Some measure)
  | _ => False
  end.
Proof. vm_compute. reflexivity. Qed.

Lemma measure_kept :
  match ('(_, st) ← @config_init always strict Z table table _;
         @registry_put always strict _ (config_parsers st) (calls st) [100] measure) with
  | Ret _ => True
  | _ => False
  end.
Proof. by vm_compute. Qed.

(** On the lenient platform a text is parsed by the first call, and the second
    call gives the same value; on the strict one a parsed value can be stored
    and read. *)
Lemma config_refines_settings_witness :
  (∃ st0 st1 st2 st3 st4 : config Z table table,
    @config_init always lenient Z table table _ = Ret (0, st0) ∧
    injected lenient st0 = Ret (0, st1) ∧ registered_in lenient st1 = Ret st2 ∧
    got lenient st2 = Ret (0, Some (Parsed 2), st3) ∧
    got lenient st3 = Ret (0, Some (Parsed 2), st4)) ∧
  (∃ st0 st1 st2 st3 : config Z table table,
    @config_init always strict Z table table _ = Ret (0, st0) ∧
    registered_in strict st0 = Ret st1 ∧
    @config_set always strict Z table table _ _ [100] [107] (Parsed 5) st1 = Ret (0, st2) ∧
    got strict st2 = Ret (0, Some (Parsed 5), st3)).
Proof.
  pose proof (λ p st am, @config_refines_settings always _ p Z table table _ _ _ _ st am [100] [107]
    [49; 50] (Parsed 5) measure (λ _ _, UB)) as Hth.
  split.
  - destruct (@config_init_spec always _ lenient Z table table _ _ _ _) as (st0 & E0 & Hr0 & _).
    destruct (Hth lenient st0 ∅ Hr0 ltac:(by_compute) ltac:(by_compute)) as (_ & _ & _ & (st1 & E1 & Hr1 & _) & _).
    destruct (Hth lenient st1 _ Hr1 ltac:(by_compute) ltac:(by_compute)) as (_ & _ & _ & _ & Hp & _).
    pose proof measure_found as Hf. rewrite E0, bind_Ret, E1, bind_Ret in Hf. revert Hf.
    unfold config_register_parser in Hp |- *. rewrite (copy_key_short [100]), !bind_Ret in Hp |- * by by_compute.
    destruct (registry_put _ _ _ _) as [ps| |] eqn:Eps; [|intros []..]. rewrite bind_Ret in Hp |- *. intros Hf.
    destruct Hp as (st2 & [= <-] & Hr2 & _).
    match type of Hr2 with center_holds ?st _ => set (st2 := st) in * end.
    destruct (Hth lenient st2 _ Hr2 ltac:(by_compute) ltac:(by_compute)) as (Hg & _).
    unfold settings_get in Hg. rewrite lookup_insert_eq in Hg. cbn [is_cook value] in Hg.
    rewrite Hf, bind_Ret in Hg. destruct Hg as (st3 & E3 & Hr3 & Hk3).
    destruct (Hth lenient st3 _ Hr3 ltac:(by_compute) ltac:(by_compute)) as (Hg & _).
    unfold settings_get in Hg. rewrite lookup_insert_eq in Hg. cbn [is_cook value] in Hg.
    rewrite bind_Ret in Hg. destruct Hg as (st4 & E4 & _).
    exists st0, st1, st2, st3, st4. split_and!; [done|done| |exact E3|exact E4].
    by rewrite bind_Ret, Eps.
  - destruct (@config_init_spec always _ strict Z table table _ _ _ _) as (st0 & E0 & Hr0 & _).
    destruct (Hth strict st0 ∅ Hr0 ltac:(by_compute) ltac:(by_compute)) as (_ & _ & _ & _ & Hp & _).
    pose proof measure_kept as Hf. rewrite E0, bind_Ret in Hf.
    destruct (registry_put _ _ _ _) as [ps| |]; [|by destruct Hf..]. destruct Hp as (st1' & E1 & Hr1 & _).
    destruct (registered_in strict st0) as [st1| |] eqn:Est1; [|done..]. injection E1 as <-.
    destruct (Hth strict st1 ∅ Hr1 ltac:(by_compute) ltac:(by_compute)) as (_ & _ & (st2 & E2 & Hr2 & _) & _).
    destruct (Hth strict st2 _ Hr2 ltac:(by_compute) ltac:(by_compute)) as ((st3 & E3 & _) & _).
    exists st0, st1, st2, st3. split_and!; [exact E0|exact Est1|exact E2|exact E3].
Defined.

Definition server_section : list Z := [115; 101; 114; 118; 101; 114].
Definition upstream_key : list Z :=
  [115; 101; 114; 118; 101; 114; 95; 117; 112; 115; 116; 114; 101; 97; 109].

(** What the program does when it starts with upstream servers on its command
    line. *)
Definition registered (text : list Z) (parser : ConfigParser Z) : Res (config Z table table) :=
  '(_, st) ← @config_init always strict Z table table table_ops;
  '(_, st) ← @config_inject always strict Z table table _ _ server_section upstream_key text st;
  @config_register_parser always strict Z table table server_section parser st.

Definition is_UB {A} (r : Res A) : bool := match r with UB => true | _ => false end.

Lemma is_UB_eq {A} (r : Res A) : is_UB r = true → r = UB.
Proof. by destruct r. Qed.

(** C40. Where C gives no meaning to an array of a function that has returned,
    no value that needs a parser can be read: once the server has registered
    its parser, [config_get] of the upstream servers, whatever their text,
    compares the name of the section with the dead array [sec] of
    [config_register_parser]. *)
Theorem registered_key_dangles (text : list Z) (parser : ConfigParser Z) :
  ∃ st, registered text parser = Ret st ∧
    @config_get strict Z table table _ _ server_section upstream_key true st = UB.
Proof.
  assert (E : match registered text parser with
    | Ret st => is_UB (@config_get strict Z table table _ _ server_section upstream_key true st)
    | _ => false end = true) by (vm_compute; reflexivity).
  destruct (registered text parser) as [st| |]; [|done|done]. eauto using is_UB_eq.
Qed.

End Config.
