(* ===== verification/TextFile.v ===== *)
(** * Reading text files line by line

    [fgets] and the scanning of its buffer, which the loading of the
    configuration and of the ip table share.  A cell of the buffer is [None]
    until something is written to it; a line leaves what earlier, longer lines
    wrote behind its NUL. *)

From S2P Require Import Prelude CString.

Section text_file.
Implicit Types (buf : list (option Z)) (file s t : list Z) (i : Z) (stop : Z → bool).

Definition newline : Z := 10.

(** [isspace] in the C locale *)
Definition isspace (c : Z) : bool := ((9 <=? c) && (c <=? 13)) || (c =? 32).

(** At most [n] bytes, up to and including a newline. *)
Fixpoint take_line (n : nat) file : list Z * list Z :=
  match n, file with
  | S n, c :: file =>
      if c =? newline then ([c], file)
      else let '(line, rest) := take_line n file in (c :: line, rest)
  | _, _ => ([], file)
  end.

Definition fgets buf file : option (list (option Z) * list Z) :=
  match file with
  | [] => None
  | _ =>
      let '(line, rest) := take_line (length buf - 1) file in
      Some ((Some <$> line ++ [0]) ++ drop (S (length line)) buf, rest)
  end.

(** [buf[i]], which must have been written *)
Definition char_at buf i : Res Z := c ← rd buf i; nonnull c.

(** [while (isspace(p[0])) p++] *)
Fixpoint skip_loop (fuel : nat) buf i : Res Z :=
  match fuel with
  | O => OutOfFuel
  | S fuel => c ← char_at buf i; if isspace c then skip_loop fuel buf (i + 1) else Ret i
  end.

(** [while (!stop(nc[len])) len++] *)
Fixpoint token_loop (fuel : nat) stop buf nc (len : Z) : Res Z :=
  match fuel with
  | O => OutOfFuel
  | S fuel =>
      c ← char_at buf (nc + len);
      if stop c then Ret len else token_loop fuel stop buf nc (len + 1)
  end.

(** The index stays below the length of the buffer. *)
Definition skip_spaces buf i : Res Z := skip_loop (S (length buf)) buf i.
Definition token stop buf nc : Res Z := token_loop (S (length buf)) stop buf nc 0.

(** [memcpy(dst, nc, len); dst[len] = 0] *)
Definition copy_token buf nc len (dst : list Z) : Res (list Z) :=
  cs ← slice buf nc len;
  s ← nonnull (mapM id cs);
  dst ← blit dst 0 s;
  blit dst len [0].

(** The string an array holds. *)
Definition c_string (m : list Z) : Res (list Z) :=
  n ← strlen m; Ret (take (Z.to_nat n) m).

(** ** Numbers *)

Fixpoint skip_blanks (s : list Z) : list Z :=
  match s with
  | c :: s' => if isspace c then skip_blanks s' else s
  | [] => []
  end.
Fixpoint digits_value (acc : Z) (s : list Z) : Z :=
  match s with
  | c :: s => if (48 <=? c) && (c <=? 57) then digits_value (acc * 10 + (c - 48)) s else acc
  | [] => acc
  end.
Definition number (s : list Z) : Z :=
  match skip_blanks s with
  | c :: s' =>
      if c =? 45 then - digits_value 0 s' else if c =? 43 then digits_value 0 s'
      else digits_value 0 (c :: s')
  | [] => 0
  end.
(** A value the result type cannot hold is undefined. *)
Definition atol (s : list Z) : Res Z :=
  let n := number s in if (- 2 ^ 63 <=? n) && (n <? 2 ^ 63) then Ret n else UB.
Definition atoi (s : list Z) : Res Z :=
  let n := number s in if (- 2 ^ 31 <=? n) && (n <? 2 ^ 31) then Ret n else UB.

(** ** A buffer that starts with a known text *)

Definition holds buf s : Prop := ∃ junk, buf = (Some <$> s) ++ junk.

Lemma holds_app buf s t : holds buf (s ++ t) → holds buf s.
Proof. intros [junk ->]. rewrite fmap_app, <- app_assoc. by eexists. Qed.

Lemma holds_length buf s : holds buf s → (length s ≤ length buf)%nat.
Proof. intros [junk ->]. rewrite length_app, length_fmap. lia. Qed.

Lemma char_at_holds buf s t c :
  holds buf (s ++ c :: t) → char_at buf (Z.of_nat (length s)) = Ret c.
Proof.
  intros [junk ->]. unfold char_at. rewrite (rd_Some _ _ (Some c)); [done|].
  rewrite lookup_app_l by (rewrite length_fmap, length_app; simpl; lia).
  by rewrite list_lookup_fmap, list_lookup_middle by done.
Qed.

Lemma char_at_holds' buf s t c i :
  holds buf (s ++ c :: t) → i = Z.of_nat (length s) → char_at buf i = Ret c.
Proof. intros Hb ->. by eapply char_at_holds. Qed.

Lemma skip_loop_holds fuel buf pre sp c t :
  holds buf (pre ++ sp ++ c :: t) → Forall (λ b, isspace b = true) sp → isspace c = false →
  (length sp < fuel)%nat →
  skip_loop fuel buf (Z.of_nat (length pre)) = Ret (Z.of_nat (length (pre ++ sp))).
Proof.
  intros Hb Hsp Hc. revert pre fuel Hb. induction Hsp as [|b sp Hs _ IH]; intros pre [|fuel] Hb Hf;
    simpl in Hf; try lia.
  - simpl. rewrite (char_at_holds _ _ _ _ Hb), app_nil_r. cbn [mbind Res_bind]. by rewrite Hc.
  - simpl. rewrite (char_at_holds _ _ _ _ Hb). cbn [mbind Res_bind]. rewrite Hs.
    replace (Z.of_nat (length pre) + 1) with (Z.of_nat (length (pre ++ [b])))
      by (rewrite length_app; simpl; lia).
    rewrite (IH (pre ++ [b])); [by rewrite <- app_assoc|by rewrite <- app_assoc|lia].
Qed.

Lemma token_loop_holds fuel stop buf pre done_ w c t nc :
  holds buf (pre ++ done_ ++ w ++ c :: t) → Forall (λ b, stop b = false) w → stop c = true →
  (length w < fuel)%nat → nc = Z.of_nat (length pre) →
  token_loop fuel stop buf nc (Z.of_nat (length done_)) = Ret (Z.of_nat (length (done_ ++ w))).
Proof.
  intros Hb Hw Hc Hf ->. revert done_ fuel Hb Hf.
  induction Hw as [|b w Hs _ IH]; intros done_ [|fuel] Hb Hf; simpl in Hf; try lia.
  - simpl. erewrite char_at_holds' with (s := pre ++ done_);
      [|by rewrite <- app_assoc|rewrite length_app; lia].
    cbn [mbind Res_bind]. by rewrite Hc, app_nil_r.
  - simpl. erewrite char_at_holds' with (s := pre ++ done_);
      [|by rewrite <- app_assoc|rewrite length_app; lia].
    cbn [mbind Res_bind]. rewrite Hs.
    replace (Z.of_nat (length done_) + 1) with (Z.of_nat (length (done_ ++ [b])))
      by (rewrite length_app; simpl; lia).
    rewrite (IH (done_ ++ [b])); [by rewrite <- app_assoc|by rewrite <- app_assoc|lia].
Qed.

Lemma skip_spaces_holds buf pre sp c t :
  holds buf (pre ++ sp ++ c :: t) → Forall (λ b, isspace b = true) sp → isspace c = false →
  skip_spaces buf (Z.of_nat (length pre)) = Ret (Z.of_nat (length (pre ++ sp))).
Proof.
  intros Hb Hsp Hc. eapply skip_loop_holds; [done..|]. apply holds_length in Hb.
  rewrite !length_app in Hb. lia.
Qed.

Lemma token_holds stop buf pre w c t nc :
  holds buf (pre ++ w ++ c :: t) → Forall (λ b, stop b = false) w → stop c = true →
  nc = Z.of_nat (length pre) → token stop buf nc = Ret (Z.of_nat (length w)).
Proof.
  intros Hb Hw Hc Hn. pose proof (holds_length _ _ Hb) as Hl. rewrite !length_app in Hl.
  apply (token_loop_holds (S (length buf)) stop buf pre [] w c t nc Hb Hw Hc); [lia|done].
Qed.

Lemma copy_token_holds buf pre w t dst nc :
  holds buf (pre ++ w ++ t) → (length w < length dst)%nat → nc = Z.of_nat (length pre) →
  copy_token buf nc (Z.of_nat (length w)) dst = Ret (w ++ 0 :: drop (S (length w)) dst).
Proof.
  intros [junk ->] Hl ->. unfold copy_token.
  rewrite slice_Ret by (rewrite ?length_app, ?length_fmap, ?length_app; lia). rewrite !Nat2Z.id.
  assert (E : take (length w) (drop (length pre) ((Some <$> pre ++ w ++ t) ++ junk)) = Some <$> w).
  { rewrite !fmap_app, <- !app_assoc, drop_app_length' by by rewrite length_fmap.
    by rewrite take_app_length' by by rewrite length_fmap. }
  rewrite E, bind_Ret.
  assert (M : mapM id (Some <$> w) = Some w).
  { by apply mapM_fmap_Some. }
  rewrite M. cbn [nonnull mbind Res_bind]. rewrite blit_Ret by lia. cbn [mbind Res_bind].
  change (Z.to_nat 0) with 0%nat. simpl.
  rewrite blit_Ret by (rewrite ?length_app, ?length_drop; simpl; lia). rewrite Nat2Z.id.
  rewrite take_app_length. simpl. f_equal. f_equal. f_equal.
  rewrite drop_app_ge by lia. rewrite drop_drop. f_equal. lia.
Qed.

Lemma c_string_app s t : no_nul s → c_string (s ++ 0 :: t) = Ret s.
Proof.
  intros Hs. unfold c_string. rewrite strlen_app by done. cbn [mbind Res_bind].
  by rewrite Nat2Z.id, take_app_length.
Qed.

Lemma take_line_spec n s file :
  Forall (λ b, b ≠ newline) s → (length s < n)%nat →
  take_line n (s ++ newline :: file) = (s ++ [newline], file).
Proof.
  intros Hs. revert n. induction Hs as [|b s Hb _ IH]; intros [|n] Hn; simpl in *; try lia.
  - done.
  - rewrite (proj2 (Z.eqb_neq _ _)) by done. by rewrite IH by lia.
Qed.

Lemma fgets_line buf s file :
  Forall (λ b, b ≠ newline) s → (length s + 2 ≤ length buf)%nat →
  ∃ buf', fgets buf (s ++ newline :: file) = Some (buf', file) ∧
    holds buf' (s ++ [newline; 0]) ∧ length buf' = length buf.
Proof.
  intros Hs Hl. unfold fgets. destruct (s ++ newline :: file) as [|b r] eqn:E; [by destruct s|].
  rewrite <- E, take_line_spec by (done || lia). eexists. split; [done|]. split.
  - eexists. by rewrite <- app_assoc.
  - rewrite length_app, length_fmap, !length_app, length_drop. simpl. lia.
Qed.

(** Every call consumes something, so that reading a file ends. *)
Lemma fgets_shorter buf file buf' rest :
  (2 ≤ length buf)%nat → fgets buf file = Some (buf', rest) → (length rest < length file)%nat.
Proof.
  intros Hb. unfold fgets. destruct file as [|c file]; [done|].
  assert (Hle : ∀ n f, (length (take_line n f).2 ≤ length f)%nat).
  { induction n as [|n IH]; intros [|b f]; simpl; try lia. destruct (b =? newline); [simpl; lia|].
    specialize (IH f). destruct (take_line n f). simpl in *. lia. }
  destruct (length buf - 1)%nat as [|n] eqn:E; [lia|]. simpl.
  destruct (c =? newline); [intros [= _ <-]; lia|]. specialize (Hle n file).
  destruct (take_line n file) as [l r]. intros [= _ <-]. simpl in *. lia.
Qed.
End text_file.
