(* ===== verification/Ini.v ===== *)
(** * The loading of the configuration file: [config_load_file]

    The file is read line by line into a buffer of 256 bytes; a line is a
    comment, the header of a section or a pair.  [print_line] writes such lines,
    and the loader is proved to inject exactly the pairs of what is printed. *)

From S2P Require Import Prelude CString MapInterface HashMap Config TextFile.

Module Ini.
Import Config.

Definition VALUE_STR_SIZE : Z := 128.
Definition LINE_SIZE : Z := 256.

(** The characters with a meaning: [#], [[], []], [=]. *)
Definition hash_sign : Z := 35.
Definition left_bracket : Z := 91.
Definition right_bracket : Z := 93.
Definition equals_sign : Z := 61.

(** The local arrays that live through the loop. *)
Record scratch := MkScratch {
  cur_section_str : list Z;
  cur_key_str : list Z;
  cur_value_str : list Z;
}.

Definition scratch_start : scratch :=
  MkScratch (replicate (Z.to_nat KEY_SIZE) 0) (replicate (Z.to_nat KEY_SIZE) 0)
    (replicate (Z.to_nat VALUE_STR_SIZE) 0).

Section load.
Context `{Allocator, Platform} {C MS ME : Type}.
Context `{!MapOps (list Z) loc MS, !MapOps (list Z) loc ME}.
Implicit Types (st : config C MS ME) (line : list (option Z)) (file : list Z) (b : scratch).

(** The body of the loop; [false]: [break]. *)
Definition load_line line b st : Res (bool * scratch * config C MS ME) :=
  nc ← skip_spaces line 0;
  c ← char_at line nc;
  if c =? hash_sign then Ret (true, b, st)
  else if c =? left_bracket then
    nc ← skip_spaces line (nc + 1);
    len ← token (λ c, (c =? right_bracket) || isspace c) line nc;
    c ← char_at line (nc + len);
    if c =? 0 then Ret (false, b, st)
    else
      sec ← copy_token line nc len (cur_section_str b);
      Ret (true, MkScratch sec (cur_key_str b) (cur_value_str b), st)
  else
    len ← token (λ c, (c =? equals_sign) || isspace c) line nc;
    c ← char_at line (nc + len);
    if c =? 0 then Ret (false, b, st)
    else
      key ← copy_token line nc len (cur_key_str b);
      let b := MkScratch (cur_section_str b) key (cur_value_str b) in
      let nc := nc + (len + 1) in
      len ← token (λ c, isspace c || (c =? 0)) line nc;
      if len =? 0 then Ret (false, b, st)
      else
        v ← copy_token line nc len (cur_value_str b);
        section ← c_string (cur_section_str b);
        k ← c_string key;
        s ← c_string v;
        '(_, st) ← config_inject section k s st;
        Ret (true, MkScratch (cur_section_str b) key v, st).

Fixpoint load_loop (fuel : nat) file line b st : Res (config C MS ME) :=
  match fuel with
  | O => OutOfFuel
  | S fuel =>
      match fgets line file with
      | None => Ret st
      | Some (line, file) =>
          '(go_on, b, st) ← load_line line b st;
          if go_on : bool then load_loop fuel file line b st else Ret st
      end
  end.

(** [None]: [fopen] fails.  Every iteration reads at least one byte. *)
Definition config_load_file (file : option (list Z)) st : Res (Z * config C MS ME) :=
  match file with
  | None => Ret (-1, st)
  | Some file =>
      st ← load_loop (S (length file)) file (replicate (Z.to_nat LINE_SIZE) None)
             scratch_start st;
      Ret (0, st)
  end.
End load.

(** ** Printed files *)

Inductive ini_line :=
| Comment (s : list Z)
| Header (section : list Z)
| Pair (key value : list Z).

Definition print_line (l : ini_line) : list Z :=
  match l with
  | Comment s => hash_sign :: s
  | Header s => left_bracket :: s ++ [right_bracket]
  | Pair k v => k ++ equals_sign :: v
  end.
Definition print_file (ls : list ini_line) : list Z :=
  concat ((λ l, print_line l ++ [newline]) <$> ls).

Definition no_space (s : list Z) : Prop := Forall (λ c, isspace c = false ∧ c ≠ 0) s.

(** What a line may hold to be read back. *)
Definition line_ok (l : ini_line) : Prop :=
  match l with
  | Comment s => Forall (λ c, c ≠ newline) s ∧ (length s < 254)%nat
  | Header s => no_space s ∧ Forall (λ c, c ≠ right_bracket) s ∧ Z.of_nat (length s) < KEY_SIZE
  | Pair k v =>
      no_space k ∧ Forall (λ c, c ≠ equals_sign) k ∧ Z.of_nat (length k) < KEY_SIZE ∧
      head k ≠ None ∧ head k ≠ Some hash_sign ∧ head k ≠ Some left_bracket ∧
      no_space v ∧ v ≠ [] ∧ Z.of_nat (length v) < VALUE_STR_SIZE
  end.

#[export] Instance no_space_dec s : Decision (no_space s).
Proof. unfold no_space. apply _. Defined.
#[export] Instance line_ok_dec l : Decision (line_ok l).
Proof. destruct l; simpl; apply _. Defined.

(** The injections a file stands for, from the section [section] on. *)
Fixpoint inject_lines `{Allocator, Platform} {C MS ME : Type}
    `{!MapOps (list Z) loc MS, !MapOps (list Z) loc ME}
    (section : list Z) (ls : list ini_line) (st : config C MS ME) : Res (config C MS ME) :=
  match ls with
  | [] => Ret st
  | Comment _ :: ls => inject_lines section ls st
  | Header s :: ls => inject_lines s ls st
  | Pair k v :: ls => '(_, st) ← config_inject section k v st; inject_lines section ls st
  end.

(** The settings of a file: the last value given to a key counts. *)
Fixpoint file_settings {C} (section : list Z) (ls : list ini_line)
    (am : gmap (list Z * list Z) (ConfigValue C)) : gmap (list Z * list Z) (ConfigValue C) :=
  match ls with
  | [] => am
  | Comment _ :: ls => file_settings section ls am
  | Header s :: ls => file_settings s ls am
  | Pair k v :: ls => file_settings section ls (<[(section, k) := MkValue false (Text v)]> am)
  end.

Lemma no_space_plain s c : no_space s → c ∈ s → isspace c = false ∧ c ≠ 0.
Proof. intros Hs. by apply (proj1 (Forall_forall _ _) Hs). Qed.

Lemma no_space_no_nul s : no_space s → no_nul s.
Proof. intros Hs. eapply Forall_impl; [exact Hs|]. by intros c [_ ?]. Qed.

Lemma no_space_no_newline s : no_space s → Forall (λ c, c ≠ newline) s.
Proof. intros Hs. eapply Forall_impl; [exact Hs|]. by intros c [Hc _] ->. Qed.

(** The characters of a token do not stop it. *)
Lemma not_stopped s (x : Z) :
  no_space s → Forall (λ c, c ≠ x) s → Forall (λ c, (c =? x) || isspace c = false) s.
Proof.
  intros Hs Hx. apply Forall_forall. intros c Hc.
  destruct (no_space_plain _ _ Hs Hc) as [-> _].
  pose proof (proj1 (Forall_forall _ _) Hx c Hc) as Hne. by rewrite (proj2 (Z.eqb_neq _ _)).
Qed.

Lemma print_line_fits l : line_ok l → (length (print_line l) + 2 ≤ 256)%nat.
Proof.
  destruct l as [s|s|k v]; simpl; unfold KEY_SIZE, VALUE_STR_SIZE.
  - lia.
  - intros (_ & _ & ?). rewrite length_app. simpl. lia.
  - intros (_ & _ & ? & _ & _ & _ & _ & _ & ?). rewrite length_app. simpl. lia.
Qed.

Lemma print_line_no_newline l : line_ok l → Forall (λ c, c ≠ newline) (print_line l).
Proof.
  destruct l as [s|s|k v]; simpl.
  - intros [? _]. by constructor.
  - intros (? & _ & _). constructor; [done|]. apply Forall_app. split; [by apply no_space_no_newline|].
    by constructor.
  - intros (? & _ & _ & _ & _ & _ & ? & _). apply Forall_app. split; [by apply no_space_no_newline|].
    constructor; [done|]. by apply no_space_no_newline.
Qed.

(** The arrays keep their sizes and the first holds the section. *)
Record scratch_ok (b : scratch) (section : list Z) : Prop := {
  sc_section : c_string (cur_section_str b) = Ret section;
  sc_section_size : Z.of_nat (length (cur_section_str b)) = KEY_SIZE;
  sc_key_size : Z.of_nat (length (cur_key_str b)) = KEY_SIZE;
  sc_value_size : Z.of_nat (length (cur_value_str b)) = VALUE_STR_SIZE;
}.

Lemma scratch_start_ok : scratch_ok scratch_start [].
Proof. by split. Qed.

Lemma token_length w (d : list Z) :
  (length w < length d)%nat → length (w ++ 0 :: drop (S (length w)) d) = length d.
Proof. intros. rewrite length_app. simpl. rewrite length_drop. lia. Qed.

Section read_back.
Context `{Allocator, Platform} {C MS ME : Type}.
Context `{!MapOps (list Z) loc MS, !MapOps (list Z) loc ME}.
Implicit Types (st : config C MS ME) (line : list (option Z)) (b : scratch).

(** A line that starts with a character starts at index 0. *)
Lemma load_line_first line b st c t :
  holds line (c :: t) → isspace c = false → skip_spaces line 0 = Ret 0 ∧ char_at line 0 = Ret c.
Proof.
  intros Hb Hc. split; [by apply (skip_spaces_holds line [] [] c t)|].
  by apply (char_at_holds line [] t c).
Qed.

Lemma load_comment line b st s :
  holds line (print_line (Comment s)) → load_line line b st = Ret (true, b, st).
Proof.
  intros Hb. destruct (load_line_first _ b st _ _ Hb eq_refl) as [E1 E2].
  unfold load_line. rewrite E1. cbn [mbind Res_bind]. by rewrite E2.
Qed.

Lemma load_header line b st section s :
  holds line (print_line (Header s) ++ [newline; 0]) → line_ok (Header s) →
  scratch_ok b section →
  ∃ b', load_line line b st = Ret (true, b', st) ∧ scratch_ok b' s.
Proof.
  intros Hb (Hs & Hx & Hl) Hsc. cbn [print_line] in Hb.
  assert (Hb' : holds line ([left_bracket] ++ s ++ right_bracket :: [newline; 0])).
  { simpl in *. by rewrite <- app_assoc in Hb. }
  destruct (load_line_first _ b st left_bracket _ Hb' eq_refl) as [E1 E2].
  unfold load_line. rewrite E1. cbn [mbind Res_bind]. rewrite E2. cbn [mbind Res_bind].
  change (left_bracket =? hash_sign) with false. change (left_bracket =? left_bracket) with true.
  cbv iota.
  assert (Esk : skip_spaces line (0 + 1) = Ret 1).
  { destruct s as [|c s].
    - by apply (skip_spaces_holds line [left_bracket] [] right_bracket [newline; 0]).
    - apply (skip_spaces_holds line [left_bracket] [] c (s ++ [right_bracket; newline; 0])); [done..|].
      by apply Forall_cons in Hs as [[? _] _]. }
  rewrite Esk. cbn [mbind Res_bind].
  rewrite (token_holds _ line [left_bracket] s right_bracket [newline; 0] 1)
    by (done || by apply not_stopped). cbn [mbind Res_bind].
  rewrite (char_at_holds' line ([left_bracket] ++ s) [newline; 0] right_bracket)
    by (rewrite ?length_app; simpl; rewrite ?app_comm_cons, <- ?app_assoc; done || lia).
  cbn [mbind Res_bind]. change (right_bracket =? 0) with false. cbv iota.
  pose proof (sc_section_size _ _ Hsc). unfold KEY_SIZE in *.
  rewrite (copy_token_holds line [left_bracket] s [right_bracket; newline; 0]) by (done || lia).
  cbn [mbind Res_bind]. eexists. split; [done|]. split; simpl; try apply Hsc.
  - by apply c_string_app, no_space_no_nul.
  - rewrite token_length; unfold KEY_SIZE; lia.
Qed.

Lemma load_pair line b st section k v :
  holds line (print_line (Pair k v) ++ [newline; 0]) → line_ok (Pair k v) →
  scratch_ok b section →
  ∃ b', scratch_ok b' section ∧
    load_line line b st = ('(_, st) ← config_inject section k v st; Ret (true, b', st)).
Proof.
  intros Hb (Hk & Hke & Hkl & Hk0 & Hk1 & Hk2 & Hv & Hv0 & Hvl) Hsc. cbn [print_line] in Hb.
  destruct (head k) as [c|] eqn:Ehd; [|done]. apply head_Some in Ehd as [k' Ek].
  assert (Hc1 : c ≠ hash_sign) by congruence. assert (Hc2 : c ≠ left_bracket) by congruence.
  assert (Hb1 : holds line ([] ++ k ++ equals_sign :: v ++ [newline; 0])).
  { simpl. by rewrite <- app_assoc in Hb. }
  assert (Hb2 : holds line ((k ++ [equals_sign]) ++ v ++ newline :: [0])).
  { by rewrite <- app_assoc. }
  assert (Hfirst : holds line (c :: k' ++ equals_sign :: v ++ [newline; 0])) by (by rewrite Ek in Hb1).
  assert (Hc : isspace c = false) by (rewrite Ek in Hk; by apply Forall_cons in Hk as [[? _] _]).
  destruct (load_line_first _ b st c _ Hfirst Hc) as [E1 E2].
  pose proof (sc_key_size _ _ Hsc). pose proof (sc_value_size _ _ Hsc).
  unfold KEY_SIZE, VALUE_STR_SIZE in *.
  unfold load_line. rewrite E1. cbn [mbind Res_bind]. rewrite E2. cbn [mbind Res_bind].
  rewrite !(proj2 (Z.eqb_neq _ _)) by done.
  rewrite (token_holds _ line [] k equals_sign (v ++ [newline; 0]) 0) by (done || by apply not_stopped).
  cbn [mbind Res_bind].
  rewrite (char_at_holds' line k (v ++ [newline; 0]) equals_sign) by (done || lia).
  cbn [mbind Res_bind]. change (equals_sign =? 0) with false. cbv iota.
  rewrite (copy_token_holds line [] k (equals_sign :: v ++ [newline; 0])) by (done || lia).
  cbn [mbind Res_bind cur_section_str cur_key_str cur_value_str].
  assert (Hnc : 0 + (Z.of_nat (length k) + 1) = Z.of_nat (length (k ++ [equals_sign])))
    by (rewrite length_app; simpl; lia). rewrite Hnc.
  assert (Htok : token (λ c, isspace c || (c =? 0)) line (Z.of_nat (length (k ++ [equals_sign]))) =
    Ret (Z.of_nat (length v))).
  { apply (token_holds _ line (k ++ [equals_sign]) v newline [0]); [done| |done|done]. eapply Forall_impl; [exact Hv|].
    intros x [-> Hx]. by rewrite (proj2 (Z.eqb_neq _ _)). }
  rewrite Htok. cbn [mbind Res_bind].
  assert (length v ≠ 0%nat) by (by destruct v). rewrite (proj2 (Z.eqb_neq _ _)) by lia.
  rewrite (copy_token_holds line (k ++ [equals_sign]) v [newline; 0]) by (done || lia).
  cbn [mbind Res_bind]. rewrite (sc_section _ _ Hsc). cbn [mbind Res_bind].
  rewrite !c_string_app by (by apply no_space_no_nul). cbn [mbind Res_bind].
  eexists. split; [|done]. split; simpl; try apply Hsc; rewrite token_length; unfold KEY_SIZE, VALUE_STR_SIZE; lia.
Qed.

Lemma load_loop_file fuel ls line b section st :
  Forall line_ok ls → length line = 256%nat → scratch_ok b section →
  (length (print_file ls) < fuel)%nat →
  load_loop fuel (print_file ls) line b st = inject_lines section ls st.
Proof.
  intros Hls. revert fuel line b section st.
  induction Hls as [|l ls Hl _ IH]; intros [|fuel] line b section st Hlen Hsc Hf; try lia; [done|].
  assert (Efile : print_file (l :: ls) = print_line l ++ newline :: print_file ls)
    by (unfold print_file; simpl; by rewrite <- app_assoc).
  pose proof (print_line_fits _ Hl). rewrite Efile, length_app in Hf. simpl in Hf.
  rewrite Efile. cbn [load_loop].
  destruct (fgets_line line (print_line l) (print_file ls)) as (line' & -> & Hb & Hlen');
    [by apply print_line_no_newline|lia|].
  rewrite Hlen in Hlen'.
  destruct l as [s|s|k v].
  - rewrite (load_comment line' b st s) by (by eapply holds_app). cbn [mbind Res_bind].
    apply IH; [done..|lia].
  - destruct (load_header line' b st section s Hb Hl Hsc) as (b' & -> & Hsc').
    cbn [mbind Res_bind]. apply IH; [done..|lia].
  - destruct (load_pair line' b st section k v Hb Hl Hsc) as (b' & Hsc' & ->).
    cbn [inject_lines]. destruct (config_inject section k v st) as [[r st']| |]; [|done|done].
    cbn [mbind Res_bind]. apply IH; [done..|lia].
Qed.
End read_back.

Section settings.
Context `{AllocTotal, Platform} {C MS ME : Type}.
Context `{!MapOps (list Z) loc MS, !MapOps (list Z) loc ME}.
Context `{!MapLaws (list Z) loc MS, !MapLaws (list Z) loc ME}.
Implicit Types (st : config C MS ME).

(** When no cleaner is found, the injections always succeed. *)
Lemma inject_lines_spec ls section st am :
  center_holds st am → (∀ s, cleaner_of st s = Ret None) →
  ∃ st', inject_lines section ls st = Ret st' ∧ now_holds st st' (file_settings section ls am).
Proof using All.
  revert section st am. induction ls as [|[s|s|k v] ls IH]; intros section st am Hr Hno;
    cbn [inject_lines file_settings]; [by exists st|by apply IH|by apply IH|].
  pose proof (replace_value_spec st am section k (MkValue false (Text v)) Hr
    ltac:(intros _; by eexists)) as Hi.
  unfold settings_set in Hi. assert (Hcl : settings_clean (cleaner_of st) section k am = Ret tt).
  { unfold settings_clean. destruct (am !! (section, k)) as [e|]; [|done].
    destruct (is_cook e); [|done]. by rewrite Hno. }
  rewrite Hcl in Hi. destruct Hi as (st1 & E & Hr1 & Hk1). unfold config_inject. rewrite E.
  cbn [mbind Res_bind]. destruct (IH section st1 _ Hr1) as (st' & E' & Hh & Hk').
  - intros s. rewrite <- (Hno s). unfold cleaner_of. by destruct Hk1 as [_ -> ->].
  - exists st'. split; [done|]. split; [done|by eapply keeps_trans].
Qed.
End settings.

(** ** Properties *)

(** C23. Loading reads back what a configuration file says.  Of a file of
    comments, headers and pairs in the documented format, with names of at most
    63 and values of at most 127 bytes, the loader injects exactly the pairs, in
    order, each into the section of the last header; on a new center the
    settings are then those of the file, the last value of a key winning, and
    still nothing is registered.  A missing file changes nothing and is
    reported.  No key of a registry is followed, so this is on any platform. *)
Theorem config_file_roundtrip `{AllocTotal, Platform} {C MS ME : Type}
    `{!MapOps (list Z) loc MS, !MapOps (list Z) loc ME}
    `{!MapLaws (list Z) loc MS, !MapLaws (list Z) loc ME} (ls : list ini_line)
    (st : config C MS ME) :
  Forall line_ok ls →
  config_load_file (Some (print_file ls)) st = (st' ← inject_lines [] ls st; Ret (0, st')) ∧
  (∃ st0 st', config_init = Ret (0, st0) ∧
     config_load_file (Some (print_file ls)) st0 = Ret (0, st') ∧
     now_holds (st0 : config C MS ME) st' (file_settings [] ls ∅) ∧
     (∀ s, parser_of st' s = Ret None) ∧ (∀ s, cleaner_of st' s = Ret None)) ∧
  config_load_file None st = Ret (-1, st).
Proof.
  intros Hls. assert (Hload : ∀ st : config C MS ME, config_load_file (Some (print_file ls)) st =
    (st' ← inject_lines [] ls st; Ret (0, st'))).
  { intros st'. unfold config_load_file. f_equal. apply load_loop_file; [done|done| |lia].
    apply scratch_start_ok. }
  split_and!; [apply Hload| |done].
  destruct (config_init_spec (C := C) (MS := MS) (ME := ME)) as (st0 & E & Hr & Hp & Hc).
  destruct (inject_lines_spec ls [] st0 ∅ Hr Hc) as (st' & E' & Hr').
  exists st0, st'. split_and!; [done|by rewrite Hload, E'|done|..]; intros s;
    destruct Hr' as [_ [Ep Ec En]]; unfold parser_of, cleaner_of; rewrite ?Ep, ?Ec, En; [apply Hp|apply Hc].
Qed.

#[local] Existing Instances table_ops table_laws always_laws.

(** [[a]], [kk=vv] *)
Definition small_file : list ini_line := [Header [97]; Pair [107; 107] [118; 118]].

Lemma config_file_roundtrip_witness :
  ∃ st st', @config_init always strict Z table table table_ops = Ret (0, st) ∧
    @config_load_file always strict Z table table table_ops table_ops
      (Some [91; 97; 93; 10; 107; 107; 61; 118; 118; 10]) st = Ret (0, st').
Proof.
  destruct (@config_init_spec always _ strict Z table table _ _ _ _) as (st & E & _).
  destruct (@config_file_roundtrip always _ strict Z table table _ _ _ _ small_file st)
    as (_ & (st0 & st1 & E0 & E1 & _) & _).
  - by_compute.
  - exists st0, st1. split; [exact E0|exact E1].
Defined.

(** What the center answers for a key after loading a file. *)
Definition asked (file section key : list Z) : Res (Z * option (T Z)) :=
  '(_, st) ← @config_init always strict Z table table table_ops;
  '(_, st) ← @config_load_file always strict Z table table table_ops table_ops (Some file) st;
  '(rc, v, _) ← @config_get strict Z table table table_ops table_ops section key true st;
  Ret (rc, v).

(** A blank line is not skipped.  The scan for the key goes past the NUL
    behind the newline: in the first line of a file it reads memory that was
    never written; later it reads what is left of the line before, whose value
    is then injected again under the empty key.  A line without newline at the
    end of the file and without [=] is read past its end the same way, and a
    line with nothing behind its key ends the loading silently. *)
Theorem blank_line_overreads :
  asked (newline :: print_file small_file) [97] [107; 107] = UB ∧
  asked (print_file small_file ++ [newline]) [97] [] = Ret (0, Some (Text [118; 118])) ∧
  asked (print_file small_file) [97] [] = Ret (1, None) ∧
  asked [107; 107] [97] [107; 107] = UB ∧
  asked ([107; newline] ++ print_file small_file) [97] [107; 107] = Ret (1, None).
Proof. split_and!; vm_compute; reflexivity. Qed.

End Ini.
