(* ===== verification/NameCodec.v ===== *)
(** * Domain names: [encode_name] and [decode_name] of [src/dns/dns_resolver.c]

    The readable form is a C string with dots, the wire form a block of
    length-prefixed labels closed by a zero byte. *)

From S2P Require Import Prelude CString.

Module NameCodec.

Definition dot : Z := 46.

Section codec.
Context `{Allocator}.

(** The bytes between [label_start] and [read] are [label]; [out] is what has
    been written to the block of [cap] bytes. *)
Definition encode_label (cap : Z) (label out : list Z) : Res (option (list Z)) :=
  if Z.of_nat (length label) >? 63 then Ret None
  else
    out ← put cap out [wrap_u8 (Z.of_nat (length label))];
    out ← put cap out label;
    Ret (Some out).

Fixpoint encode_loop (cap : Z) (read label out : list Z) : Res (option (list Z)) :=
  match read with
  | [] =>
      done ← encode_label cap label out;
      match done with
      | None => Ret None
      | Some out => out ← put cap out [0]; Ret (Some out)
      end
  | c :: read =>
      if c =? dot then
        done ← encode_label cap label out;
        match done with
        | None => Ret None
        | Some out => encode_loop cap read [] out
        end
      else encode_loop cap read (label ++ [c]) out
  end.

(** [domain] is the string without its NUL, [None] the null pointer. *)
Definition encode_name (domain : option (list Z)) : Res (option (list Z)) :=
  match domain with
  | None | Some [] => Ret None
  | Some domain =>
      let len := Z.of_nat (length domain) in
      if negb (malloc_ok (len + 2)) then Ret None
      else encode_loop (len + 2) domain [] []
  end.

(** First pass: the size of the readable form without its NUL, [None] when a
    compression pointer is met. *)
Fixpoint decode_size (fuel : nat) (encoded : list Z) (p total : Z) : Res (option Z) :=
  match fuel with
  | O => OutOfFuel
  | S fuel =>
      c ← rd encoded p;
      if c =? 0 then Ret (Some total)
      else if Z.land c 0xC0 =? 0xC0 then Ret None
      else decode_size fuel encoded (p + (c + 1)) (total + (c + 1))
  end.

Fixpoint decode_copy (fuel : nat) (cap : Z) (encoded : list Z) (p : Z) (out : list Z) :
    Res (list Z) :=
  match fuel with
  | O => OutOfFuel
  | S fuel =>
      label_len ← rd encoded p;
      if label_len =? 0 then Ret out
      else
        label ← slice encoded (p + 1) label_len;
        out ← put cap out label;
        c ← rd encoded (p + 1 + label_len);
        out ← if negb (c =? 0) then put cap out [dot] else Ret out;
        decode_copy fuel cap encoded (p + 1 + label_len) out
  end.

(** [p] grows at every iteration and stays in the block. *)
Definition decode_fuel (encoded : list Z) : nat := S (length encoded).

Definition decode_name (encoded : option (list Z)) : Res (option (list Z)) :=
  match encoded with
  | None => Ret None
  | Some encoded =>
      total ← decode_size (decode_fuel encoded) encoded 0 0;
      match total with
      | None => Ret None
      | Some total =>
          let total := total + 1 in
          if negb (malloc_ok total) then Ret None
          else
            out ← decode_copy (decode_fuel encoded) total encoded 0 [];
            out ← put total out [0];
            Ret (Some out)
      end
  end.
End codec.

(** ** Labels *)

Definition wire_label (l : list Z) : list Z := Z.of_nat (length l) :: l.
Definition wire (ls : list (list Z)) : list Z := concat (wire_label <$> ls).
(** the name as the protocol stores it *)
Definition wire_name (ls : list (list Z)) : list Z := wire ls ++ [0].

Fixpoint join (ls : list (list Z)) : list Z :=
  match ls with
  | [] => []
  | l :: [] => l
  | l :: ls => l ++ dot :: join ls
  end.

(** No NUL and no dot in a label; a label of a name has 1 to 63 bytes. *)
Definition plain (l : list Z) : Prop := Forall (λ b, b ≠ 0 ∧ b ≠ dot) l.
Definition label_ok (l : list Z) : Prop := plain l ∧ (1 ≤ length l ≤ 63)%nat.

#[export] Instance plain_dec l : Decision (plain l).
Proof. unfold plain. apply _. Defined.
#[export] Instance label_ok_dec l : Decision (label_ok l).
Proof. unfold label_ok. apply _. Defined.

Lemma wire_cons l ls : wire (l :: ls) = Z.of_nat (length l) :: l ++ wire ls.
Proof. reflexivity. Qed.

Lemma wire_app a b : wire (a ++ b) = wire a ++ wire b.
Proof. unfold wire. by rewrite fmap_app, concat_app. Qed.

Lemma join_cons l l' ls : join (l :: l' :: ls) = l ++ dot :: join (l' :: ls).
Proof. reflexivity. Qed.

Lemma wire_length ls : ls ≠ [] → length (wire ls) = S (length (join ls)).
Proof.
  induction ls as [|l [|l' ls] IH]; [done| |]; intros _.
  - rewrite wire_cons. simpl. by rewrite app_nil_r.
  - rewrite wire_cons, join_cons. cbn [length]. rewrite !length_app, IH by done. simpl. lia.
Qed.

Lemma encode_label_spec cap label out :
  (length label ≤ 63)%nat →
  Z.of_nat (length out) + 1 + Z.of_nat (length label) ≤ cap →
  encode_label cap label out = Ret (Some (out ++ wire_label label)).
Proof.
  intros Hl Hcap. unfold encode_label. rewrite Z.gtb_ltb, (proj2 (Z.ltb_ge _ _)) by lia.
  assert (Hu : wrap_u8 (Z.of_nat (length label)) = Z.of_nat (length label))
    by (unfold wrap_u8; apply Z.mod_small; lia).
  rewrite Hu, put_Ret by (simpl; lia). cbn [mbind Res_bind].
  rewrite put_Ret by (rewrite length_app; simpl; lia). cbn [mbind Res_bind].
  by rewrite <- app_assoc.
Qed.

(** Reading the first label, up to its dot or the end. *)
Lemma encode_loop_label cap l read label out :
  plain l → encode_loop cap (l ++ read) label out = encode_loop cap read (label ++ l) out.
Proof.
  intros Hl. revert label. induction Hl as [|c l [_ Hc] _ IH]; intros label.
  - by rewrite app_nil_r.
  - simpl. rewrite (proj2 (Z.eqb_neq _ _)) by done. rewrite IH. by rewrite <- app_assoc.
Qed.

Lemma encode_loop_spec cap ls out :
  ls ≠ [] → Forall plain ls →
  Z.of_nat (length out) + Z.of_nat (length (join ls)) + 2 ≤ cap →
  encode_loop cap (join ls) [] out =
    Ret (if bool_decide (Forall (λ l, length l ≤ 63)%nat ls) then Some (out ++ wire_name ls) else None).
Proof.
  revert out. induction ls as [|l [|l' ls] IH]; intros out Hne Hp Hcap; [done| |].
  - apply (proj1 (Forall_singleton plain _)) in Hp. cbn [join] in *.
    pose proof (encode_loop_label cap l [] [] out Hp) as E. rewrite app_nil_r in E.
    rewrite E. cbn [encode_loop app].
    destruct (decide (length l ≤ 63)%nat) as [Hl|Hl].
    + rewrite bool_decide_eq_true_2 by (by apply Forall_singleton).
      rewrite encode_label_spec by lia. cbn [mbind Res_bind].
      rewrite put_Ret by (rewrite length_app; simpl; lia). cbn [mbind Res_bind].
      unfold wire_name, wire. simpl. by rewrite <- app_assoc, app_nil_r.
    + rewrite bool_decide_eq_false_2 by (by rewrite Forall_singleton).
      unfold encode_label. by rewrite Z.gtb_ltb, (proj2 (Z.ltb_lt _ _)) by lia.
  - apply Forall_cons in Hp as [Hpl Hp]. rewrite join_cons in *.
    rewrite encode_loop_label by done. cbn [encode_loop app]. rewrite Z.eqb_refl.
    rewrite length_app in Hcap. cbn [length] in Hcap.
    destruct (decide (length l ≤ 63)%nat) as [Hl|Hl].
    + rewrite encode_label_spec by lia. cbn [mbind Res_bind].
      rewrite IH; [|done|done|rewrite length_app; simpl in *; lia].
      assert (E : bool_decide (Forall (λ l, length l ≤ 63)%nat (l :: l' :: ls)) =
        bool_decide (Forall (λ l, length l ≤ 63)%nat (l' :: ls))).
      { apply bool_decide_ext. rewrite !Forall_cons. tauto. }
      rewrite E. clear E. destruct (bool_decide (Forall _ (l' :: ls))); [|done]. unfold wire_name.
      rewrite (wire_cons l). unfold wire_label.
      rewrite <- !app_assoc. cbn [app]. by rewrite <- !app_assoc.
    + rewrite bool_decide_eq_false_2 by (rewrite Forall_cons; tauto).
      unfold encode_label. by rewrite Z.gtb_ltb, (proj2 (Z.ltb_lt _ _)) by lia.
Qed.

Lemma encode_name_spec `{Allocator} ls :
  Forall plain ls → join ls ≠ [] →
  malloc_ok (Z.of_nat (length (join ls)) + 2) = true →
  encode_name (Some (join ls)) =
    Ret (if bool_decide (Forall (λ l, length l ≤ 63)%nat ls) then Some (wire_name ls) else None).
Proof.
  intros Hp Hne Hm. unfold encode_name. destruct (join ls) as [|c r] eqn:E; [done|].
  rewrite Hm. simpl negb. cbv iota. rewrite <- E.
  rewrite encode_loop_spec; [done| |done|rewrite E; simpl; lia].
  intros ->. by simpl in E.
Qed.

(** A cursor between the labels already read and those to come. *)
Lemma rd_app (pre : list Z) b r : rd (pre ++ b :: r) (Z.of_nat (length pre)) = Ret b.
Proof. apply rd_Some. apply list_lookup_middle. done. Qed.

Lemma label_top_bits n : 1 ≤ n ≤ 63 → (n =? 0) = false ∧ (Z.land n 0xC0 =? 0xC0) = false.
Proof.
  intros Hn. split; [lia|].
  assert (Hall : forallb (λ k, negb (Z.land (Z.of_nat k) 0xC0 =? 0xC0)) (seq 0 64) = true)
    by reflexivity.
  rewrite forallb_forall in Hall. specialize (Hall (Z.to_nat n)).
  rewrite Z2Nat.id in Hall by lia. apply negb_true_iff, Hall, in_seq. lia.
Qed.

Lemma decode_size_spec fuel pre ls rest total :
  Forall label_ok ls → (length (wire ls) < fuel)%nat →
  decode_size fuel (pre ++ wire ls ++ 0 :: rest) (Z.of_nat (length pre)) total =
    Ret (Some (total + Z.of_nat (length (wire ls)))).
Proof.
  intros Hls. revert fuel pre total. induction Hls as [|l ls [_ Hl] _ IH]; intros fuel pre total Hf.
  - destruct fuel as [|fuel]; [simpl in Hf; lia|]. cbn [decode_size wire fmap list_fmap concat app].
    rewrite rd_app. cbn [mbind Res_bind]. rewrite Z.eqb_refl. do 2 f_equal. simpl. lia.
  - destruct fuel as [|fuel]; [simpl in Hf; lia|]. rewrite wire_cons in *. cbn [decode_size].
    cbn [app]. rewrite rd_app. cbn [mbind Res_bind].
    destruct (label_top_bits (Z.of_nat (length l))) as [-> ->]; [lia|].
    cbn [length] in *. rewrite length_app in *.
    replace (pre ++ Z.of_nat (length l) :: (l ++ wire ls) ++ 0 :: rest)
      with ((pre ++ wire_label l) ++ wire ls ++ 0 :: rest)
      by (unfold wire_label; by rewrite <- !app_assoc).
    replace (Z.of_nat (length pre) + (Z.of_nat (length l) + 1))
      with (Z.of_nat (length (pre ++ wire_label l))) by (rewrite length_app; simpl; lia).
    rewrite IH by lia. do 2 f_equal. lia.
Qed.

Lemma slice_app (pre l rest : list Z) :
  slice (pre ++ l ++ rest) (Z.of_nat (length pre)) (Z.of_nat (length l)) = Ret l.
Proof.
  rewrite slice_Ret by (rewrite ?length_app; lia).
  by rewrite !Nat2Z.id, drop_app_length, take_app_length.
Qed.

Lemma decode_copy_spec fuel cap pre ls rest out :
  Forall label_ok ls → (length (wire ls) < fuel)%nat →
  Z.of_nat (length out) + Z.of_nat (length (wire ls)) ≤ cap + 1 →
  decode_copy fuel cap (pre ++ wire ls ++ 0 :: rest) (Z.of_nat (length pre)) out =
    Ret (out ++ join ls).
Proof.
  intros Hls. revert fuel pre out. induction Hls as [|l ls [Hp Hl] Hls IH]; intros fuel pre out Hf Hcap.
  - destruct fuel as [|fuel]; [simpl in Hf; lia|]. cbn [decode_copy wire fmap list_fmap concat app].
    rewrite rd_app. cbn [mbind Res_bind]. rewrite Z.eqb_refl. simpl. by rewrite app_nil_r.
  - destruct fuel as [|fuel]; [simpl in Hf; lia|]. rewrite wire_cons in *. cbn [decode_copy].
    cbn [app]. rewrite rd_app. cbn [mbind Res_bind].
    destruct (label_top_bits (Z.of_nat (length l))) as [-> _]; [lia|].
    cbn [length] in *. rewrite length_app in *.
    replace (pre ++ Z.of_nat (length l) :: (l ++ wire ls) ++ 0 :: rest)
      with ((pre ++ [Z.of_nat (length l)]) ++ l ++ wire ls ++ 0 :: rest)
      by (by rewrite <- !app_assoc).
    replace (Z.of_nat (length pre) + 1) with (Z.of_nat (length (pre ++ [Z.of_nat (length l)])))
      by (rewrite length_app; simpl; lia).
    rewrite slice_app. cbn [mbind Res_bind].
    rewrite put_Ret by lia. cbn [mbind Res_bind].
    rewrite (app_assoc _ l). rewrite <- Nat2Z.inj_add, <- length_app.
    destruct ls as [|l' ls].
    + cbn [wire fmap list_fmap concat app] in *. rewrite rd_app. cbn [mbind Res_bind].
      rewrite Z.eqb_refl. simpl negb. cbv iota. cbn [mbind Res_bind].
      change (0 :: rest) with (wire [] ++ 0 :: rest). rewrite IH by (rewrite ?length_app; simpl in *; lia).
      simpl. by rewrite app_nil_r.
    + apply Forall_cons in Hls as [[_ Hl'] _].
      rewrite wire_cons at 1. cbn [app]. rewrite rd_app. cbn [mbind Res_bind].
      destruct (label_top_bits (Z.of_nat (length l'))) as [-> _]; [lia|]. simpl negb. cbv iota.
      rewrite wire_cons in Hcap. cbn [length] in Hcap.
      rewrite put_Ret by (rewrite length_app; simpl; lia). cbn [mbind Res_bind].
      rewrite IH; [|lia|].
      * rewrite join_cons, <- !app_assoc. done.
      * rewrite !length_app, wire_cons. simpl. lia.
Qed.

Lemma decode_name_spec `{Allocator} ls rest :
  Forall label_ok ls → ls ≠ [] → malloc_ok (Z.of_nat (length (wire ls)) + 1) = true →
  decode_name (Some (wire_name ls ++ rest)) = Ret (Some (join ls ++ [0])).
Proof.
  intros Hls Hne Hm. unfold decode_name, wire_name. rewrite <- app_assoc. simpl app.
  assert (Hf : (length (wire ls) < decode_fuel (wire ls ++ 0%Z :: rest))%nat)
    by (unfold decode_fuel; rewrite length_app; lia).
  pose proof (decode_size_spec _ [] _ rest 0 Hls Hf) as E1. simpl app in E1.
  change (Z.of_nat (length ([] : list Z))) with 0 in E1. rewrite E1. cbn [mbind Res_bind].
  rewrite Z.add_0_l, Hm. simpl negb. cbv iota.
  pose proof (decode_copy_spec _ (Z.of_nat (length (wire ls)) + 1) [] _ rest [] Hls Hf) as E2.
  simpl app in E2. change (Z.of_nat (length ([] : list Z))) with 0 in E2.
  rewrite E2 by lia. cbn [mbind Res_bind].
  rewrite put_Ret; [done|]. rewrite (wire_length _ Hne). simpl. lia.
Qed.

(** ** Properties *)

(** C33. Domain names, from the readable form to the wire form and back.  For
    every name given by its labels (no dot and no NUL inside), [encode_name]
    writes the length-prefixed labels and a final zero exactly when each label
    has at most 63 bytes, and fails otherwise; the result fills the block of
    [strlen + 2] bytes it was given when no label is empty, and [decode_name]
    gives the readable form back.  Neither writes outside its block. *)
Theorem name_roundtrip `{AllocTotal} (ls : list (list Z)) :
  Forall plain ls → join ls ≠ [] →
  encode_name (Some (join ls)) =
    Ret (if bool_decide (Forall (λ l, length l ≤ 63)%nat ls) then Some (wire_name ls) else None) ∧
  Z.of_nat (length (wire_name ls)) = Z.of_nat (length (join ls)) + 2 ∧
  (Forall label_ok ls →
   (encode_name (Some (join ls)) ≫= decode_name) = Ret (Some (join ls ++ [0]))).
Proof.
  intros Hp Hne. assert (Hls : ls ≠ []) by (by intros ->).
  rewrite encode_name_spec by (done || apply malloc_total).
  split_and!; [done| |].
  - unfold wire_name. rewrite length_app, (wire_length _ Hls). simpl. lia.
  - intros Hok. rewrite bool_decide_eq_true_2.
    2: { eapply Forall_impl; [exact Hok|]. intros l [_ [_ ?]]. done. }
    cbn [mbind Res_bind]. rewrite <- (app_nil_r (wire_name ls)).
    apply decode_name_spec; [done|done|apply malloc_total].
Qed.

(** ["www.cn"] *)
Lemma name_roundtrip_witness :
  @encode_name always (Some [119; 119; 119; 46; 99; 110]) =
    Ret (Some [3; 119; 119; 119; 2; 99; 110; 0]) ∧
  (@encode_name always (Some [119; 119; 119; 46; 99; 110]) ≫= @decode_name always) =
    Ret (Some [119; 119; 119; 46; 99; 110; 0]).
Proof.
  destruct (@name_roundtrip always always_total [[119; 119; 119]; [99; 110]])
    as (E & _ & D); [by_compute|discriminate|].
  split; [exact E|]. apply D. by_compute.
Defined.
End NameCodec.
