(* ===== verification/Protocol.v ===== *)
(** * Packets: [src/include/dns/protocol.h] and the constructors of
    [src/dns/dns_resolver.c]

    A name is the block its pointer designates, terminator included; [rdata] is
    the block of the record data.  The two vectors of a packet are lists, which
    is what [Vector.v] shows a vector to be.  Requests for memory made while
    building packets are granted: the code dereferences their result untested. *)

From S2P Require Import Prelude CString NameCodec.
Import NameCodec.

Module Protocol.

Definition MAX_PACKET_SIZE : Z := 512.

(** ** The macros of the header flags *)

Definition IS_QUERY (flags : Z) : Z := Z.lxor (Z.shiftr flags 15) 1.
Definition QR_SET (flags : Z) : Z := wrap_u16 (Z.lor flags 0x8000).
Definition OPCODE_GET (flags : Z) : Z := Z.land (Z.shiftr flags 12) 0xf.
Definition AA_GET (flags : Z) : Z := Z.land (Z.shiftr flags 10) 1.
Definition AA_SET (flags : Z) : Z := wrap_u16 (Z.lor flags 0x0400).
Definition TC_GET (flags : Z) : Z := Z.land (Z.shiftr flags 9) 1.
Definition TC_SET (flags : Z) : Z := wrap_u16 (Z.lor flags 0x0200).
Definition RD_GET (flags : Z) : Z := Z.land (Z.shiftr flags 8) 1.
Definition RD_SET (flags : Z) : Z := wrap_u16 (Z.lor flags 0x0100).
Definition RA_GET (flags : Z) : Z := Z.land (Z.shiftr flags 7) 1.
Definition RA_SET (flags : Z) : Z := wrap_u16 (Z.lor flags 0x0080).
Definition Z_GET (flags : Z) : Z := Z.land (Z.shiftr flags 4) 0x7.
Definition Z_SET (flags : Z) : Z := wrap_u16 (Z.lor flags 0x0070).
Definition RCODE (flags : Z) : Z := Z.land flags 0xf.

Inductive OpCode := QUERY | IQUERY | STATUS.
Definition opcode_value (o : OpCode) : Z :=
  match o with QUERY => 0 | IQUERY => 1 | STATUS => 2 end.

Inductive Rcode :=
  RCODE_NOERROR | RCODE_FORMERR | RCODE_SERVFAIL | RCODE_NXDOMAIN | RCODE_NOTIMP | RCODE_REFUSED.
Definition rcode_value (r : Rcode) : Z :=
  match r with
  | RCODE_NOERROR => 0 | RCODE_FORMERR => 1 | RCODE_SERVFAIL => 2
  | RCODE_NXDOMAIN => 3 | RCODE_NOTIMP => 4 | RCODE_REFUSED => 5
  end.
#[export] Instance Rcode_eq_dec : EqDecision Rcode.
Proof. solve_decision. Defined.

Inductive PacketDirection := UPSTREAM | CLIENT.

Definition QTYPE_A : Z := 1.
Definition QTYPE_NS : Z := 2.
Definition QTYPE_CNAME : Z := 5.
Definition QTYPE_MX : Z := 15.
Definition QTYPE_AAAA : Z := 28.
Definition QCLASS_IN : Z := 1.

(** ** Structures *)

Record SectionHeader := MkHeader {
  id : Z; flags : Z; qcount : Z; answer_RRs : Z; authority_RRs : Z; additional_RRs : Z;
}.
Record SectionQuestion := MkQuestion { qname : list Z; qtype : Z; qclass : Z }.
Record ResourceRecord := MkRR {
  rr_name : list Z; rr_type : Z; rr_class : Z; rr_ttl : Z; rdata_length : Z; rdata : list Z;
}.
Record DnsPacket := MkPacket {
  header : SectionHeader;
  questions : list SectionQuestion;
  rrs : list ResourceRecord;
}.

#[export] Instance header_eq_dec : EqDecision SectionHeader.
Proof. solve_decision. Defined.
#[export] Instance question_eq_dec : EqDecision SectionQuestion.
Proof. solve_decision. Defined.
#[export] Instance rr_eq_dec : EqDecision ResourceRecord.
Proof. solve_decision. Defined.
#[export] Instance packet_eq_dec : EqDecision DnsPacket.
Proof. solve_decision. Defined.

Definition set_id (p : DnsPacket) (i : Z) : DnsPacket :=
  let h := header p in
  MkPacket (MkHeader i (flags h) (qcount h) (answer_RRs h) (authority_RRs h) (additional_RRs h))
    (questions p) (rrs p).
Definition set_flags (p : DnsPacket) (f : Z) : DnsPacket :=
  let h := header p in
  MkPacket (MkHeader (id h) f (qcount h) (answer_RRs h) (authority_RRs h) (additional_RRs h))
    (questions p) (rrs p).
Definition set_counts (p : DnsPacket) (an ns ar : Z) : DnsPacket :=
  let h := header p in
  MkPacket (MkHeader (id h) (flags h) (qcount h) an ns ar) (questions p) (rrs p).

(** The number of records a header announces; [int] cannot overflow here. *)
Definition rr_count (h : SectionHeader) : Z := answer_RRs h + authority_RRs h + additional_RRs h.

Definition sizeof_SectionHeader : Z := 12.

(** ** Cloning *)

Definition question_clone (orig : SectionQuestion) : Res SectionQuestion :=
  qname ← strdup (qname orig); Ret (MkQuestion qname (qtype orig) (qclass orig)).

Fixpoint questions_clone (qs : list SectionQuestion) : Res (list SectionQuestion) :=
  match qs with
  | [] => Ret []
  | q :: qs => q ← question_clone q; qs ← questions_clone qs; Ret (q :: qs)
  end.

Definition pack_create : DnsPacket := MkPacket (MkHeader 0 0 0 0 0 0) [] [].

(** [None] is a NULL argument or a NULL result. *)
Definition rr_clone (record : option ResourceRecord) : Res (option ResourceRecord) :=
  match record with
  | None => Ret None
  | Some r =>
      name ← strdup (rr_name r);
      data ← slice (rdata r) 0 (rdata_length r);
      Ret (Some (MkRR name (rr_type r) (rr_class r) (rr_ttl r) (rdata_length r) data))
  end.

(** The same copy, record by record. *)
Fixpoint rrs_clone (RRS : list ResourceRecord) : Res (list ResourceRecord) :=
  match RRS with
  | [] => Ret []
  | src :: RRS =>
      name ← strdup (rr_name src);
      data ← slice (rdata src) 0 (rdata_length src);
      RRS ← rrs_clone RRS;
      Ret (MkRR name (rr_type src) (rr_class src) (rr_ttl src) (rdata_length src) data :: RRS)
  end.

Definition packet_clone (source : DnsPacket) : Res DnsPacket :=
  qs ← questions_clone (questions source);
  rs ← rrs_clone (rrs source);
  Ret (MkPacket (header source) qs rs).

(** ** Records from the configuration *)

(** [inet_pton] of the C library: the address bytes of a text, [None] when it
    is not an address of the family. *)
Class InetPton := {
  inet_pton4 : list Z → option (list Z);
  inet_pton6 : list Z → option (list Z);
}.

Definition rr_make_from_config_pair `{Allocator, InetPton} (name : option (list Z)) (ttl type : Z)
    (data : option (list Z)) : Res (option ResourceRecord) :=
  match name, data with
  | Some name, Some data =>
      wire ← encode_name (Some name);
      match wire with
      | None => Ret None
      | Some wire =>
          if type =? QTYPE_A then
            if negb (malloc_ok 4) then Ret None
            else match inet_pton4 data with
                 | Some ip => Ret (Some (MkRR wire (wrap_u16 type) QCLASS_IN ttl 4 ip))
                 | None => Ret None
                 end
          else if type =? QTYPE_AAAA then
            if negb (malloc_ok 16) then Ret None
            else match inet_pton6 data with
                 | Some ip => Ret (Some (MkRR wire (wrap_u16 type) QCLASS_IN ttl 16 ip))
                 | None => Ret None
                 end
          else if type =? QTYPE_CNAME then
            encoded ← encode_name (Some data);
            match encoded with
            | None => Ret None
            | Some encoded =>
                n ← strlen encoded;
                let len := n + 1 in
                if negb (malloc_ok len) then Ret None
                else
                  bytes ← slice encoded 0 len;
                  Ret (Some (MkRR wire (wrap_u16 type) QCLASS_IN ttl (wrap_u16 len) bytes))
            end
          else Ret None
      end
  | _, _ => Ret None
  end.

(** ** Queries and responses *)

Definition packet_is_query (packet : DnsPacket) : bool := negb (IS_QUERY (flags (header packet)) =? 0).

(** The code returns -1 on NULL; it is never called on NULL. *)
Definition setRcode (pack : DnsPacket) (rcode : Rcode) : DnsPacket :=
  let flags := wrap_u16 (Z.land (flags (header pack)) 0xfff0) in
  set_flags pack (wrap_u16 (Z.lor flags (Z.land 0x000f (rcode_value rcode)))).

Definition make_response_empty (query : DnsPacket) : Res DnsPacket :=
  let response := MkPacket (header query) (questions pack_create) (rrs pack_create) in
  let response := set_flags response (RA_SET (flags (header response))) in
  let response := set_flags response (QR_SET (flags (header response))) in
  let response := setRcode response RCODE_NOERROR in
  let response := set_counts response 0 0 0 in
  qs ← questions_clone (questions query);
  Ret (MkPacket (header response) qs (rrs response)).

Definition make_response_fail (query : DnsPacket) (rcode : Rcode) : Res DnsPacket :=
  fail ← make_response_empty query; Ret (setRcode fail rcode).

Definition make_response_status (query : DnsPacket) : Res DnsPacket :=
  make_response_fail query RCODE_NOTIMP.

Definition pack_make_inner_error (query : DnsPacket) : Res DnsPacket :=
  make_response_fail query RCODE_SERVFAIL.

Definition pack_make_query_relay (query_pack : DnsPacket) (relay_id : Z) : Res DnsPacket :=
  p ← packet_clone query_pack; Ret (set_id p relay_id).

(** [while (len > 0 && mem[--len] == 0); return !len;] *)
Fixpoint memallz_loop (n : nat) (mem : list Z) (len : Z) : Res Z :=
  match n with
  | O => Ret len
  | S n =>
      let len := len - 1 in
      c ← rd mem len;
      if c =? 0 then memallz_loop n mem len else Ret len
  end.
Definition memallz (mem : list Z) (len : Z) : Res bool :=
  len ← memallz_loop (Z.to_nat len) mem len; Ret (len =? 0).

(** The parent of the name at offset [off] of the block [name], as an offset. *)
Definition get_parent_qname (name : list Z) (off : Z) : Res (option Z) :=
  c ← rd name off;
  if (c =? 0) || (Z.land c 0xC0 =? 0xC0) then Ret None
  else
    let parent := off + 1 + c in
    c ← rd name parent;
    Ret (if c =? 0 then None else Some parent).

(** ** Well-formed packets *)

Definition cstring (b : list Z) : Prop := ∃ s, b = s ++ [0] ∧ no_nul s.

Record rr_ok (r : ResourceRecord) : Prop := {
  ok_name : cstring (rr_name r);
  ok_rdata : rdata_length r = Z.of_nat (length (rdata r));
}.

Record pack_ok (p : DnsPacket) : Prop := {
  ok_questions : Forall (λ q, cstring (qname q)) (questions p);
  ok_rrs : Forall rr_ok (rrs p);
}.

(** a computable form of [cstring] *)
Definition is_cstring (b : list Z) : bool :=
  match strlen b with Ret n => n + 1 =? Z.of_nat (length b) | _ => false end.

Lemma cstring_check b : is_cstring b = true → cstring b.
Proof.
  unfold is_cstring. destruct (strlen b) as [n| |] eqn:E; [|done..]. intros Hn. bools.
  destruct (strlen_inv _ _ E) as (s & r & -> & Hs & ->). exists s. split; [|done].
  rewrite length_app in Hn. simpl in Hn. destruct r; [done|simpl in Hn; lia].
Qed.

Lemma strdup_cstring b : cstring b → strdup b = Ret b.
Proof. intros (s & -> & Hs). by apply strdup_app. Qed.

Lemma slice_all {A} (m : list A) n : n = Z.of_nat (length m) → slice m 0 n = Ret m.
Proof. intros ->. rewrite slice_Ret by lia. simpl. rewrite Nat2Z.id. by rewrite firstn_all. Qed.

Lemma questions_clone_ok qs :
  Forall (λ q, cstring (qname q)) qs → questions_clone qs = Ret qs.
Proof.
  induction 1 as [|q qs Hq _ IH]; [done|]. simpl. unfold question_clone.
  rewrite (strdup_cstring _ Hq). cbn [mbind Res_bind]. rewrite IH. by destruct q.
Qed.

Lemma rrs_clone_ok rs : Forall rr_ok rs → rrs_clone rs = Ret rs.
Proof.
  induction 1 as [|r rs [Hn Hd] _ IH]; [done|]. simpl. rewrite (strdup_cstring _ Hn).
  cbn [mbind Res_bind]. rewrite (slice_all _ _ Hd). cbn [mbind Res_bind]. rewrite IH. by destruct r.
Qed.

Lemma packet_clone_ok p : pack_ok p → packet_clone p = Ret p.
Proof.
  intros [Hq Hr]. unfold packet_clone. rewrite (questions_clone_ok _ Hq).
  cbn [mbind Res_bind]. rewrite (rrs_clone_ok _ Hr). by destruct p.
Qed.

Lemma make_response_fail_ok query rcode :
  pack_ok query →
  make_response_fail query rcode = Ret (MkPacket
    (MkHeader (id (header query))
       (flags (header (setRcode (setRcode (set_flags query
          (QR_SET (RA_SET (flags (header query))))) RCODE_NOERROR) rcode)))
       (qcount (header query)) 0 0 0)
    (questions query) []).
Proof.
  intros [Hq _]. unfold make_response_fail, make_response_empty.
  rewrite (questions_clone_ok _ Hq). done.
Qed.

(** ** The flags of a response *)

Lemma testbit_wrap_u16 z i : 0 ≤ i < 16 → Z.testbit (wrap_u16 z) i = Z.testbit z i.
Proof. intros. unfold wrap_u16. apply Z.mod_pow2_bits_low. lia. Qed.

Definition response_flags (f : Z) (rcode : Rcode) : Z :=
  flags (header (setRcode (setRcode (set_flags pack_create (QR_SET (RA_SET f))) RCODE_NOERROR) rcode)).

Lemma response_flags_bits f rcode i :
  0 ≤ i < 16 →
  Z.testbit (response_flags f rcode) i =
    if i <? 4 then Z.testbit (rcode_value rcode) i
    else if (i =? 7) || (i =? 15) then true else Z.testbit f i.
Proof.
  intros Hi. unfold response_flags, setRcode, QR_SET, RA_SET, set_flags. cbn [header flags].
  repeat rewrite ?testbit_wrap_u16, ?Z.lor_spec, ?Z.land_spec by lia.
  assert (Hc : i ∈ seqZ 0 16) by (apply elem_of_seqZ; lia).
  revert Hc. change (seqZ 0 16) with [0; 1; 2; 3; 4; 5; 6; 7; 8; 9; 10; 11; 12; 13; 14; 15].
  rewrite !elem_of_cons. intros Hc.
  repeat (destruct Hc as [->|Hc]; [by destruct (Z.testbit f _), rcode|]).
  by apply elem_of_nil in Hc.
Qed.

Lemma response_flags_u16 f rcode : is_u16 (response_flags f rcode).
Proof. apply wrap_u16_range. Qed.

(** Extensionality of 16-bit values. *)
Lemma u16_ext a b : is_u16 a → is_u16 b → (∀ i, 0 ≤ i < 16 → Z.testbit a i = Z.testbit b i) → a = b.
Proof.
  intros Ha Hb Hbits. rewrite <- (wrap_u16_small a), <- (wrap_u16_small b) by done.
  unfold wrap_u16. apply Z.bits_inj'. intros i Hi. destruct (decide (i < 16)).
  - rewrite !Z.mod_pow2_bits_low by lia. apply Hbits. lia.
  - by rewrite !Z.mod_pow2_bits_high by lia.
Qed.

Lemma response_rcode f rcode : RCODE (response_flags f rcode) = rcode_value rcode.
Proof.
  unfold RCODE. change 0xf with (Z.ones 4). rewrite Z.land_ones by lia.
  apply Z.bits_inj'. intros i Hi. destruct (decide (i < 4)) as [Hlt|Hge].
  - rewrite Z.mod_pow2_bits_low by lia. rewrite response_flags_bits by lia.
    by rewrite (proj2 (Z.ltb_lt _ _)).
  - rewrite Z.mod_pow2_bits_high by lia. symmetry.
    destruct (decide (i = 0)); [lia|]. apply Z.bits_above_log2; [by destruct rcode|].
    destruct rcode; simpl; lia.
Qed.

Lemma response_qr f rcode : IS_QUERY (response_flags f rcode) = 0.
Proof.
  pose proof (response_flags_u16 f rcode) as Hr. unfold is_u16 in Hr.
  assert (Hb : Z.testbit (response_flags f rcode) 15 = true)
    by (by rewrite response_flags_bits).
  unfold IS_QUERY. rewrite Z.shiftr_div_pow2 by lia.
  assert (E : response_flags f rcode / 2 ^ 15 = 1); [|by rewrite E].
  rewrite Z.testbit_true in Hb by lia.
  assert (0 ≤ response_flags f rcode / 2 ^ 15 < 2).
  { split; [apply Z.div_pos; lia|apply Z.div_lt_upper_bound; lia]. }
  rewrite Z.mod_small in Hb by lia. done.
Qed.

Lemma memallz_loop_spec n mem :
  (n ≤ length mem)%nat →
  ∃ k, memallz_loop n mem (Z.of_nat n) = Ret (Z.of_nat k) ∧ (k ≤ n)%nat ∧
    (k = 0%nat ↔ ∀ i b, (1 ≤ i < n)%nat → mem !! i = Some b → b = 0).
Proof.
  induction n as [|n IH]; intros Hn; [exists 0%nat; split_and!; [done|lia|]; split; [lia|done]|].
  destruct (lookup_lt_is_Some_2 mem n) as [b Hb]; [lia|].
  cbn [memallz_loop]. replace (Z.of_nat (S n) - 1) with (Z.of_nat n) by lia.
  rewrite (rd_Some _ _ _ Hb). cbn [mbind Res_bind]. destruct (b =? 0) eqn:E; bools.
  - destruct IH as (k & -> & Hk & Hiff); [lia|]. exists k. split_and!; [done|lia|].
    rewrite Hiff. split; intros Hall i c Hi Hc.
    + destruct (decide (i = n)) as [->|]; [congruence|]. apply (Hall i); [lia|done].
    + apply (Hall i); [lia|done].
  - exists n. split_and!; [done|lia|]. split; [intros ->; intros i c Hi; lia|].
    intros Hall. destruct (decide (n = 0%nat)); [done|]. destruct E. apply (Hall n); [lia|done].
Qed.

Lemma memallz_spec mem :
  memallz mem (Z.of_nat (length mem)) = Ret (bool_decide (Forall (λ b, b = 0) (tail mem))).
Proof.
  unfold memallz. rewrite Nat2Z.id.
  destruct (memallz_loop_spec (length mem) mem) as (k & -> & _ & Hk); [lia|].
  cbn [mbind Res_bind]. f_equal. apply Bool.eq_iff_eq_true. rewrite bool_decide_eq_true, Z.eqb_eq.
  rewrite Forall_lookup. split.
  - intros Hk0 i b Hi. assert (k = 0%nat) as Hk1 by lia.
    destruct mem as [|c mem]; [done|]. simpl in Hi.
    apply (proj1 Hk Hk1 (S i)); [|done]. apply lookup_lt_Some in Hi. simpl. lia.
  - intros Hall. assert (k = 0%nat) as ->; [|done]. apply Hk. intros [|i] b Hi Hb; [lia|].
    destruct mem as [|c mem]; [done|]. by apply (Hall i).
Qed.

(** ** Properties *)

(** Cloning a packet is the identity on well-formed packets (names are NUL
    terminated, each record has the data its length announces), and the packet
    relayed upstream is the query of the client under the relay id: flags,
    question and records are untouched. *)
Theorem packet_clone_identity (p : DnsPacket) (relay_id : Z) :
  pack_ok p →
  packet_clone p = Ret p ∧ pack_make_query_relay p relay_id = Ret (set_id p relay_id) ∧
  Forall (λ r, rr_clone (Some r) = Ret (Some r)) (rrs p).
Proof.
  intros Hp. split_and!; [by apply packet_clone_ok| |].
  - unfold pack_make_query_relay. by rewrite packet_clone_ok.
  - destruct Hp as [_ Hr]. eapply Forall_impl; [exact Hr|]. intros r [Hn Hd]. unfold rr_clone.
    rewrite (strdup_cstring _ Hn). cbn [mbind Res_bind]. rewrite (slice_all _ _ Hd). by destruct r.
Qed.

(** A query for [a.], type A. *)
Definition demo_query : DnsPacket :=
  MkPacket (MkHeader 7 0x0100 1 0 0 0) [MkQuestion [1; 97; 0] 1 1] [].

Lemma demo_query_ok : pack_ok demo_query.
Proof. split; [|constructor]. apply Forall_singleton, cstring_check. reflexivity. Qed.

Lemma packet_clone_identity_witness :
  packet_clone demo_query = Ret demo_query ∧ pack_make_query_relay demo_query 9 =
    Ret (MkPacket (MkHeader 9 0x0100 1 0 0 0) [MkQuestion [1; 97; 0] 1 1] []).
Proof.
  destruct (packet_clone_identity demo_query 9 demo_query_ok) as (E1 & E2 & _).
  split; [exact E1|exact E2].
Defined.

(** A locally made response answers the query it was made from: same id and
    question, no records, the response code in the low four bits, the QR and RA
    bits set, every other bit of the flags as in the query. *)
Theorem make_response_fail_answers (query : DnsPacket) (rcode : Rcode) :
  pack_ok query →
  ∃ resp, make_response_fail query rcode = Ret resp ∧
    id (header resp) = id (header query) ∧ questions resp = questions query ∧
    rrs resp = [] ∧ qcount (header resp) = qcount (header query) ∧ rr_count (header resp) = 0 ∧
    RCODE (flags (header resp)) = rcode_value rcode ∧ packet_is_query resp = false ∧
    ∀ i, 0 ≤ i < 16 → Z.testbit (flags (header resp)) i =
      if i <? 4 then Z.testbit (rcode_value rcode) i
      else if (i =? 7) || (i =? 15) then true else Z.testbit (flags (header query)) i.
Proof.
  intros Hq. eexists. split; [by apply make_response_fail_ok|]. cbn [header id questions rrs].
  split_and!; [done..| | |].
  - apply response_rcode.
  - unfold packet_is_query. cbn [header flags].
    pose proof (response_qr (flags (header query)) rcode) as E. unfold response_flags in E.
    cbn [set_flags header flags setRcode] in *. by rewrite E.
  - intros i Hi. by apply (response_flags_bits (flags (header query))).
Qed.

Lemma make_response_fail_answers_witness :
  ∃ resp, make_response_fail demo_query RCODE_NXDOMAIN = Ret resp ∧
    flags (header resp) = 0x8183 ∧ RCODE (flags (header resp)) = 3.
Proof.
  destruct (make_response_fail_answers demo_query RCODE_NXDOMAIN demo_query_ok)
    as (resp & E & _ & _ & _ & _ & _ & Hc & _ & _).
  exists resp. split; [exact E|]. split; [|exact Hc].
  assert (E' : make_response_fail demo_query RCODE_NXDOMAIN =
    Ret (MkPacket (MkHeader 7 0x8183 1 0 0 0) [MkQuestion [1; 97; 0] 1 1] []))
    by (vm_compute; reflexivity).
  rewrite E' in E. injection E as <-. reflexivity.
Defined.

(** [memallz], meant to recognise the addresses 0.0.0.0 and ::, tells
    whether every byte but the first is zero: 5.0.0.0 passes for blocked. *)
Theorem memallz_ignores_first (b : Z) (mem : list Z) :
  memallz (b :: mem) (Z.of_nat (length (b :: mem))) = Ret (bool_decide (Forall (λ c, c = 0) mem)).
Proof. apply (memallz_spec (b :: mem)). Qed.
End Protocol.
