(* ===== verification/Wire.v ===== *)
(** * The wire format: serialization and parsing in [src/dns/dns_resolver.c]

    A buffer is a block of bytes; a position is an offset into it.  The parser
    is given the whole receive buffer (the length of the datagram is only
    tested on entry), so what it reads beyond the datagram is what the buffer
    holds.  [char] is signed.  Parsing may recurse or loop for ever on hostile
    input: it takes fuel. *)

From S2P Require Import Prelude CString NameCodec Utils Protocol.
Import NameCodec Utils Protocol.

Module Wire.

Definition get_u16 (buf : list Z) (off : Z) : Res Z :=
  b ← slice buf off 2; Ret (n2h_2 (of_bytes b)).
Definition get_u32 (buf : list Z) (off : Z) : Res Z :=
  b ← slice buf off 4; Ret (n2h_4 (of_bytes b)).
Definition put_u16 (buf : list Z) (off v : Z) : Res (list Z) := blit buf off (bytes_of 2 (h2n_2 v)).
Definition put_u32 (buf : list Z) (off v : Z) : Res (list Z) := blit buf off (bytes_of 4 (h2n_4 v)).

(** ** Parsing *)

(** [while (cur_p[i] && (cur_p[i] & 0xC0) != 0xC0) i += cur_p[i] + 1;] *)
Fixpoint skip_labels (fuel : nat) (buf : list Z) (cur_p i : Z) : Res Z :=
  match fuel with
  | O => OutOfFuel
  | S fuel =>
      c ← rd buf (cur_p + i);
      if (c =? 0) || (Z.land c 0xC0 =? 0xC0) then Ret i
      else skip_labels fuel buf cur_p (i + (schar c + 1))
  end.

(** The number of bytes the field takes, and the block of the parsed name. *)
Fixpoint name_deserialize (fuel : nat) (buf : list Z) (cur_p : Z) : Res (Z * list Z) :=
  match fuel with
  | O => OutOfFuel
  | S fuel =>
      i ← skip_labels fuel buf cur_p 0;
      c ← rd buf (cur_p + i);
      if c =? 0 then
        m ← ptr buf cur_p; res ← strdup m; n ← strlen m; Ret (n + 1, res)
      else
        offset ← get_u16 buf (cur_p + i);
        let offset := Z.lxor offset 0xC000 in
        '(_, suffix) ← name_deserialize fuel buf offset;
        n ← strlen suffix;
        prefix ← slice buf cur_p i;
        tail ← slice suffix 0 (n + 1);
        Ret (i + 2, prefix ++ tail)
  end.

Definition question_deserialize (buf : list Z) (cur_p : Z) : Res (Z * SectionQuestion) :=
  m ← ptr buf cur_p;
  qname ← strdup m;
  n ← strlen qname;
  let cursor := cur_p + (n + 1) in
  qtype ← get_u16 buf cursor;
  qclass ← get_u16 buf (cursor + 2);
  Ret (cursor + 2 + 2 - cur_p, MkQuestion qname qtype qclass).

Fixpoint questions_deserialize (qc : nat) (buf : list Z) (cursor : Z)
    (segment : list SectionQuestion) : Res (Z * list SectionQuestion) :=
  match qc with
  | O => Ret (cursor, segment)
  | S qc =>
      '(n, question) ← question_deserialize buf cursor;
      questions_deserialize qc buf (cursor + n) (segment ++ [question])
  end.

(** The record data and its final length. *)
Definition rdata_deserialize (fuel : nat) (buf : list Z) (cur_p type rlen : Z) : Res (Z * list Z) :=
  if (type =? QTYPE_CNAME) || (type =? QTYPE_NS) then
    '(_, rdata) ← name_deserialize fuel buf cur_p;
    n ← strlen rdata;
    Ret (wrap_u16 (n + 1), rdata)
  else if type =? QTYPE_MX then
    _ ← slice buf cur_p 2;
    '(_, name) ← name_deserialize fuel buf (cur_p + 2);
    _ ← strlen name;
    (* memcpy(&rr->rdata, &preference, 2) overwrites two bytes of the pointer,
       which is then written through *)
    UB
  else
    rdata ← slice buf cur_p rlen;
    Ret (rlen, rdata).

Definition rr_deserialize (fuel : nat) (buf : list Z) (cur_p : Z) : Res (Z * ResourceRecord) :=
  '(n, name) ← name_deserialize fuel buf cur_p;
  let cursor := cur_p + n in
  type ← get_u16 buf cursor;
  let cursor := cursor + 2 in
  class ← get_u16 buf cursor;
  let cursor := cursor + 2 in
  ttl ← get_u32 buf cursor;
  let cursor := cursor + 4 in
  rlen ← get_u16 buf cursor;
  let cursor := cursor + 2 in
  '(rdata_length, rdata) ← rdata_deserialize fuel buf cursor type rlen;
  let cursor := cursor + rlen in
  Ret (cursor - cur_p, MkRR name type class ttl rdata_length rdata).

Fixpoint rrs_deserialize (cnt : nat) (fuel : nat) (buf : list Z) (cursor : Z)
    (rrs : list ResourceRecord) : Res (Z * list ResourceRecord) :=
  match cnt with
  | O => Ret (cursor, rrs)
  | S cnt =>
      '(n, rr) ← rr_deserialize fuel buf cursor;
      rrs_deserialize cnt fuel buf (cursor + n) (rrs ++ [rr])
  end.

(** The twelve bytes of a header in memory, six numbers in host order. *)
Definition header_fields (h : SectionHeader) : list Z :=
  [id h; flags h; qcount h; answer_RRs h; authority_RRs h; additional_RRs h].
Definition header_memory (h : SectionHeader) : list Z := concat (bytes_of 2 <$> header_fields h).
Definition header_of (m : list Z) : Res SectionHeader :=
  let field off := b ← slice m off 2; Ret (of_bytes b) in
  id ← field 0; flags ← field 2; qcount ← field 4; an ← field 6; ns ← field 8; ar ← field 10;
  Ret (MkHeader id flags qcount an ns ar).

(** [for (int i = 0; i < 6; i++, cursor++) convert(cursor);] *)
Fixpoint endian_loop (n : nat) (convert : Z → Z) (m : list Z) (cursor : Z) : Res (list Z) :=
  match n with
  | O => Ret m
  | S n =>
      b ← slice m cursor 2;
      m ← blit m cursor (bytes_of 2 (convert (of_bytes b)));
      endian_loop n convert m (cursor + 2)
  end.
Definition header_endian_2h (m : list Z) : Res (list Z) := endian_loop 6 n2h_2 m 0.
Definition header_endian_2n (m : list Z) : Res (list Z) := endian_loop 6 h2n_2 m 0.

Definition header_deserialize (buf : list Z) : Res SectionHeader :=
  m ← slice buf 0 sizeof_SectionHeader; m ← header_endian_2h m; header_of m.

(** [None] is the return code -1. *)
Definition pack_deserialize (fuel : nat) (raw_pack : list Z) (len : Z) : Res (option DnsPacket) :=
  if (len >? 512) || (len <? 12) then Ret None
  else
    h ← header_deserialize raw_pack;
    let cursor := sizeof_SectionHeader in
    '(cursor, qs) ← questions_deserialize (Z.to_nat (qcount h)) raw_pack cursor [];
    let rr_c := additional_RRs h + answer_RRs h + authority_RRs h in
    '(_, rs) ← rrs_deserialize (Z.to_nat rr_c) fuel raw_pack cursor [];
    Ret (Some (MkPacket h qs rs)).

(** ** Serialization *)

(** [strcpy] *)
Definition strcpy (buf : list Z) (off : Z) (src : list Z) : Res (list Z) :=
  n ← strlen src; s ← slice src 0 (n + 1); blit buf off s.

(** [while (strcmp(j, name) && j < end_e) j++;] from [j], with at most [n]
    steps to [end_e]; the result is the offset of a match before [end_e]. *)
Fixpoint find_loop (n : nat) (buf : list Z) (start_i j : Z) (name : list Z) : Res (option Z) :=
  m ← ptr buf j;
  same ← streq m name;
  match n with
  | O => Ret None
  | S n =>
      if (same : bool) then Ret (Some (wrap_u16 (j - start_i)))
      else find_loop n buf start_i (j + 1) name
  end.
Definition find_previous_name (buf : list Z) (start_i end_e : Z) (name : list Z) : Res (option Z) :=
  find_loop (Z.to_nat (end_e - start_i)) buf start_i start_i name.

(** The search of [name_serialize]: the index of the label it stops at, and the
    offset found.  Every suffix is tried with the whole name. *)
Fixpoint search_suffix (fuel : nat) (buf : list Z) (cur_p : Z) (name : list Z) (i : Z) :
    Res (Z * option Z) :=
  match fuel with
  | O => OutOfFuel
  | S fuel =>
      c ← rd name i;
      if c =? 0 then Ret (i, None)
      else
        found ← find_previous_name buf sizeof_SectionHeader cur_p name;
        match found with
        | Some offset => Ret (i, Some offset)
        | None => search_suffix fuel buf cur_p name (i + (schar c + 1))
        end
  end.

Definition name_serialize (name buf : list Z) (cur_p : Z) : Res (list Z * Z) :=
  '(i, found) ← search_suffix (S (length name)) buf cur_p name 0;
  match found with
  | Some offset =>
      let offset := Z.lor (wrap_u16 (offset + sizeof_SectionHeader)) 0xC000 in
      prefix ← slice name 0 i;
      buf ← blit buf cur_p prefix;
      buf ← put_u16 buf (cur_p + i) offset;
      Ret (buf, i + 2)
  | None =>
      buf ← strcpy buf cur_p name;
      n ← strlen name;
      Ret (buf, n + 1)
  end.

Definition question_serialize (question : SectionQuestion) (buf : list Z) (cur_p : Z) :
    Res (list Z * Z) :=
  buf ← strcpy buf cur_p (qname question);
  n ← strlen (qname question);
  let cursor := cur_p + (n + 1) in
  buf ← put_u16 buf cursor (qtype question);
  let cursor := cursor + 2 in
  buf ← put_u16 buf cursor (qclass question);
  let cursor := cursor + 2 in
  Ret (buf, cursor - cur_p).

(** [n] questions left to write; [vector_get] gives NULL past the end. *)
Fixpoint questions_serialize (n : nat) (qs : list SectionQuestion) (buf : list Z) (cursor : Z) :
    Res (list Z * Z) :=
  match n with
  | O => Ret (buf, cursor)
  | S n =>
      q ← nonnull (head qs);
      '(buf, k) ← question_serialize q buf cursor;
      questions_serialize n (tail qs) buf (cursor + k)
  end.

Definition rr_serialize (rr : ResourceRecord) (buf : list Z) (cur_p : Z) : Res (list Z * Z) :=
  '(buf, n) ← name_serialize (rr_name rr) buf cur_p;
  let cursor := cur_p + n in
  buf ← put_u16 buf cursor (rr_type rr);
  let cursor := cursor + 2 in
  buf ← put_u16 buf cursor (rr_class rr);
  let cursor := cursor + 2 in
  buf ← put_u32 buf cursor (rr_ttl rr);
  let cursor := cursor + 4 in
  buf ← put_u16 buf cursor (rdata_length rr);
  let cursor := cursor + 2 in
  data ← slice (rdata rr) 0 (rdata_length rr);
  buf ← blit buf cursor data;
  let cursor := cursor + rdata_length rr in
  Ret (buf, cursor - cur_p).

(** The size is compared with the buffer only after the record is written. *)
Fixpoint rrs_serialize (cnt : nat) (rs : list ResourceRecord) (buf : list Z) (cursor buff_size : Z) :
    Res (list Z * Z) :=
  match cnt with
  | O => Ret (buf, cursor)
  | S cnt =>
      r ← nonnull (head rs);
      '(buf, k) ← rr_serialize r buf cursor;
      let cursor := cursor + k in
      if cursor >? buff_size then Ret (buf, cursor)
      else rrs_serialize cnt (tail rs) buf cursor buff_size
  end.

(** The buffer after the call, and the size written or -1. *)
Definition pack_serialize (dns_pack : DnsPacket) (packet_buf : list Z) (buf_size : Z) :
    Res (list Z * Z) :=
  let h := header dns_pack in
  buf ← blit packet_buf 0 (header_memory h);
  buf ← header_endian_2n buf;
  let cursor := sizeof_SectionHeader in
  if cursor >? buf_size then Ret (buf, -1)
  else
    '(buf, cursor) ← questions_serialize (Z.to_nat (qcount h)) (questions dns_pack) buf cursor;
    if cursor >? buf_size then Ret (buf, -1)
    else
      let rrs_c := answer_RRs h + authority_RRs h + additional_RRs h in
      rrs_serialize (Z.to_nat rrs_c) (rrs dns_pack) buf cursor buf_size.

(** ** Specification: the bytes of a packet *)

Definition u16_bytes (v : Z) : list Z := rev (bytes_of 2 v).
Definition u32_bytes (v : Z) : list Z := rev (bytes_of 4 v).
Definition header_bytes (h : SectionHeader) : list Z := concat (u16_bytes <$> header_fields h).

(** The first position from [j] on at which the written bytes contain [name]. *)
Definition occurs (out name : list Z) (j : nat) : Prop := take (length name) (drop j out) = name.
#[export] Instance occurs_dec out name j : Decision (occurs out name j).
Proof. unfold occurs. apply _. Defined.

Fixpoint search (n : nat) (out name : list Z) (j : nat) : option nat :=
  match n with
  | O => None
  | S n => if decide (occurs out name j) then Some j else search n out name (S j)
  end.

Definition name_bytes (out name : list Z) : list Z :=
  if decide (name = [0]) then name
  else match search (length out - 12) out name 12 with
       | Some j => u16_bytes (0xC000 + Z.of_nat j)
       | None => name
       end.

Definition question_bytes (q : SectionQuestion) : list Z :=
  qname q ++ u16_bytes (qtype q) ++ u16_bytes (qclass q).

Definition rr_bytes (out : list Z) (r : ResourceRecord) : list Z :=
  name_bytes out (rr_name r) ++ u16_bytes (rr_type r) ++ u16_bytes (rr_class r) ++
  u32_bytes (rr_ttl r) ++ u16_bytes (rdata_length r) ++ rdata r.

Fixpoint rrs_out (out : list Z) (rs : list ResourceRecord) : list Z :=
  match rs with [] => out | r :: rs => rrs_out (out ++ rr_bytes out r) rs end.

Definition head_out (p : DnsPacket) : list Z :=
  header_bytes (header p) ++ concat (question_bytes <$> questions p).
Definition pack_out (p : DnsPacket) : list Z := rrs_out (head_out p) (rrs p).

(** ** Packets the program can write and read back *)

Definition label_wf (l : list Z) : Prop := no_nul l ∧ (1 ≤ length l ≤ 63)%nat.
Definition name_wf (name : list Z) : Prop := ∃ ls, name = wire_name ls ∧ Forall label_wf ls.

Record rr_wire_ok (r : ResourceRecord) : Prop := {
  w_name : name_wf (rr_name r);
  w_type : is_u16 (rr_type r);
  w_class : is_u16 (rr_class r);
  w_ttl : is_u32 (rr_ttl r);
  w_rdata : rdata_length r = Z.of_nat (length (rdata r));
  w_rlen : is_u16 (rdata_length r);
  w_mx : rr_type r ≠ QTYPE_MX;
  w_target : rr_type r = QTYPE_CNAME ∨ rr_type r = QTYPE_NS → name_wf (rdata r);
}.

Record header_ok (h : SectionHeader) : Prop := {
  h_id : is_u16 (id h); h_flags : is_u16 (flags h); h_qcount : is_u16 (qcount h);
  h_an : is_u16 (answer_RRs h); h_ns : is_u16 (authority_RRs h); h_ar : is_u16 (additional_RRs h);
}.

Record wire_ok (p : DnsPacket) : Prop := {
  w_header : header_ok (header p);
  w_qcount : qcount (header p) = Z.of_nat (length (questions p));
  w_rrcount : rr_count (header p) = Z.of_nat (length (rrs p));
  w_questions : Forall (λ q, cstring (qname q) ∧ is_u16 (qtype q) ∧ is_u16 (qclass q)) (questions p);
  w_rrs : Forall rr_wire_ok (rrs p);
}.

(** A match of the search lies in what has been written: no name is found
    partly in the old contents [rest] of the buffer. *)
Definition clean (out rest name : list Z) : Prop :=
  Forall (λ j, occurs (out ++ rest) name j → (j + length name ≤ length out)%nat)
    (seq 12 (length out - 12)).
Fixpoint rrs_clean (buf out : list Z) (rs : list ResourceRecord) : Prop :=
  match rs with
  | [] => True
  | r :: rs =>
      clean out (drop (length out) buf) (rr_name r) ∧ rrs_clean buf (out ++ rr_bytes out r) rs
  end.
Definition pack_clean (buf : list Z) (p : DnsPacket) : Prop := rrs_clean buf (head_out p) (rrs p).

#[export] Instance clean_dec out rest name : Decision (clean out rest name).
Proof. unfold clean. apply _. Defined.
#[export] Instance rrs_clean_dec buf rs out : Decision (rrs_clean buf out rs).
Proof. revert out. induction rs; intros out; simpl; apply _. Defined.
#[export] Instance pack_clean_dec buf p : Decision (pack_clean buf p).
Proof. unfold pack_clean. apply _. Defined.

(** ** Reading and writing at the end of what is written *)

Lemma u16_bytes_eq v : bytes_of 2 (h2n_2 v) = u16_bytes v.
Proof. apply (swap_bytes 2). Qed.
Lemma u32_bytes_eq v : bytes_of 4 (h2n_4 v) = u32_bytes v.
Proof. apply (swap_bytes 4). Qed.
Lemma u16_bytes_length v : length (u16_bytes v) = 2%nat.
Proof. reflexivity. Qed.
Lemma u32_bytes_length v : length (u32_bytes v) = 4%nat.
Proof. reflexivity. Qed.

Lemma blit_app (out rest bs : list Z) off :
  off = Z.of_nat (length out) → (length bs ≤ length rest)%nat →
  blit (out ++ rest) off bs = Ret ((out ++ bs) ++ drop (length bs) rest).
Proof.
  intros -> Hl. rewrite blit_Ret by (rewrite ?length_app; lia). rewrite Nat2Z.id.
  rewrite take_app_length, <- app_assoc. f_equal. f_equal. f_equal.
  rewrite drop_app_ge by lia. f_equal. lia.
Qed.

Lemma put_u16_app out rest off v :
  off = Z.of_nat (length out) → (2 ≤ length rest)%nat →
  put_u16 (out ++ rest) off v = Ret ((out ++ u16_bytes v) ++ drop 2 rest).
Proof. intros -> Hl. unfold put_u16. rewrite u16_bytes_eq. by rewrite blit_app. Qed.

Lemma put_u32_app out rest off v :
  off = Z.of_nat (length out) → (4 ≤ length rest)%nat →
  put_u32 (out ++ rest) off v = Ret ((out ++ u32_bytes v) ++ drop 4 rest).
Proof. intros -> Hl. unfold put_u32. rewrite u32_bytes_eq. by rewrite blit_app. Qed.

Lemma slice_at pre (l : list Z) rest off n :
  off = Z.of_nat (length pre) → n = Z.of_nat (length l) → slice (pre ++ l ++ rest) off n = Ret l.
Proof. intros -> ->. apply slice_app. Qed.

Lemma get_u16_at pre v rest off :
  off = Z.of_nat (length pre) → is_u16 v → get_u16 (pre ++ u16_bytes v ++ rest) off = Ret v.
Proof.
  intros Hoff Hv. unfold get_u16. rewrite (slice_at pre (u16_bytes v)) by done.
  cbn [mbind Res_bind]. unfold n2h_2, htons, u16_bytes. f_equal. apply (swap_twice 2).
  unfold is_u16 in Hv. lia.
Qed.

Lemma get_u32_at pre v rest off :
  off = Z.of_nat (length pre) → is_u32 v → get_u32 (pre ++ u32_bytes v ++ rest) off = Ret v.
Proof.
  intros Hoff Hv. unfold get_u32. rewrite (slice_at pre (u32_bytes v)) by done.
  cbn [mbind Res_bind]. unfold n2h_4, htonl, u32_bytes. f_equal. apply (swap_twice 4).
  unfold is_u32 in Hv. lia.
Qed.

Lemma ptr_at pre rest off :
  off = Z.of_nat (length pre) → ptr (pre ++ rest) off = Ret rest.
Proof. intros ->. apply ptr_app. Qed.

Lemma wire_no_nul ls : Forall label_wf ls → no_nul (wire ls).
Proof.
  induction 1 as [|l ls [Hl Hlen] _ IH]; [constructor|]. rewrite wire_cons.
  constructor; [lia|]. by apply no_nul_app.
Qed.

Lemma name_wf_cstring name : name_wf name → cstring name.
Proof. intros (ls & -> & Hls). exists (wire ls). split; [done|]. by apply wire_no_nul. Qed.

Lemma wire_lengths p : wire_ok p → Z.of_nat (length (questions p)) < 2 ^ 30 ∧ Z.of_nat (length (rrs p)) < 2 ^ 30.
Proof. intros [[? ? ? ? ? ?] Hq Hr _ _]. unfold is_u16, rr_count in *. lia. Qed.

Lemma wire_pack_ok p : wire_ok p → pack_ok p.
Proof.
  intros [_ _ _ Hq Hr]. split; (eapply Forall_impl; [eassumption|]); [by intros q (? & _)|].
  intros r []. by split; [apply name_wf_cstring|].
Qed.

(** ** The compression search *)

Lemma streq_occurs m s :
  no_nul s → (length s < length m)%nat →
  streq m (s ++ [0]) = Ret (bool_decide (take (length (s ++ [0])) m = s ++ [0])).
Proof.
  intros Hs Hm. destruct (streq_total m s [] Hs Hm) as [b E]. rewrite E. f_equal. symmetry.
  destruct b.
  - apply bool_decide_eq_true. destruct (streq_true _ _ _ Hs E) as [r' ->].
    rewrite (app_assoc s [0] r' : s ++ 0 :: r' = _). by rewrite take_app_length.
  - apply bool_decide_eq_false. intros Ht. rewrite <- (take_drop (length (s ++ [0])) m), Ht in E.
    rewrite <- app_assoc in E. cbn [app] in E. by rewrite streq_refl in E.
Qed.

Lemma occurs_app out rest name j :
  (j + length name ≤ length out)%nat → occurs (out ++ rest) name j ↔ occurs out name j.
Proof.
  intros Hj. unfold occurs. rewrite drop_app_le by lia.
  rewrite take_app_le by (rewrite length_drop; lia). done.
Qed.

Lemma occurs_fits out name j : occurs out name j → name ≠ [] → (j + length name ≤ length out)%nat.
Proof.
  unfold occurs. intros E Hne. apply (f_equal length) in E.
  rewrite length_take, length_drop in E. destruct name; [done|]. cbn [length] in *. lia.
Qed.

Lemma find_name_spec n out rest s j :
  no_nul s → (length s < length rest)%nat → (12 ≤ j)%nat → (j + n = length out)%nat →
  clean out rest (s ++ [0]) → Z.of_nat (length out) ≤ 2 ^ 14 →
  find_loop n (out ++ rest) 12 (Z.of_nat j) (s ++ [0]) =
    Ret ((λ k, Z.of_nat k - 12) <$> search n out (s ++ [0]) j).
Proof.
  intros Hs Hrest. revert j. induction n as [|n IH]; intros j Hj Hn Hc Hlen; cbn [find_loop search].
  - assert (j = length out) as -> by lia. rewrite ptr_app. cbn [mbind Res_bind].
    by rewrite streq_occurs.
  - unfold ptr. rewrite !(proj2 (Z.leb_le _ _)) by (rewrite ?length_app; lia).
    cbn [andb mbind Res_bind]. rewrite Nat2Z.id.
    rewrite streq_occurs by (done || (rewrite length_drop, length_app; lia)).
    cbn [mbind Res_bind].
    assert (Hocc : take (length (s ++ [0])) (drop j (out ++ rest)) = s ++ [0] ↔
      occurs out (s ++ [0]) j).
    { fold (occurs (out ++ rest) (s ++ [0]) j). split; intros Ho.
      - apply (occurs_app _ rest); [|done]. unfold clean in Hc. rewrite Forall_forall in Hc.
        apply Hc; [|done]. apply elem_of_seq. lia.
      - apply occurs_app; [|done]. apply occurs_fits; [done|]. by destruct s. }
    rewrite (bool_decide_ext _ _ Hocc). case_decide as Ho.
    + rewrite bool_decide_eq_true_2 by done. simpl. f_equal. f_equal.
      apply wrap_u16_small. unfold is_u16. lia.
    + rewrite bool_decide_eq_false_2 by done.
      replace (Z.of_nat j + 1) with (Z.of_nat (S j)) by lia. apply IH; [lia|lia|done|done].
Qed.

Lemma search_bound n out name j k :
  search n out name j = Some k → (j ≤ k < j + n)%nat ∧ occurs out name k.
Proof.
  revert j. induction n as [|n IH]; intros j; [done|]. simpl. case_decide.
  - intros [= <-]. split; [lia|done].
  - intros [??]%IH. split; [lia|done].
Qed.

(** The labels of a name are skipped one by one, finding nothing. *)
Lemma search_suffix_none fuel buf cur_p pre ls :
  Forall label_wf ls → (length ls < fuel)%nat →
  find_previous_name buf 12 cur_p (pre ++ wire ls ++ [0]) = Ret None →
  search_suffix fuel buf cur_p (pre ++ wire ls ++ [0]) (Z.of_nat (length pre)) =
    Ret (Z.of_nat (length (pre ++ wire ls)), None).
Proof.
  intros Hls. revert fuel pre. induction Hls as [|l ls [_ Hl] _ IH]; intros fuel pre Hf E;
    (destruct fuel as [|fuel]; [simpl in Hf; lia|]); cbn [search_suffix].
  - cbn [wire fmap list_fmap concat app]. rewrite rd_app. cbn [mbind Res_bind].
    by rewrite Z.eqb_refl, app_nil_r.
  - rewrite wire_cons in *. cbn [app] in *. rewrite rd_app. cbn [mbind Res_bind].
    rewrite (proj2 (Z.eqb_neq _ _)) by lia. change sizeof_SectionHeader with 12. rewrite E. cbn [mbind Res_bind].
    assert (Hsplit : pre ++ Z.of_nat (length l) :: (l ++ wire ls) ++ [0] =
      (pre ++ wire_label l) ++ wire ls ++ [0]) by (unfold wire_label; by rewrite <- !app_assoc).
    rewrite Hsplit in *. unfold schar. rewrite (proj2 (Z.ltb_lt _ _)) by lia.
    replace (Z.of_nat (length pre) + (Z.of_nat (length l) + 1))
      with (Z.of_nat (length (pre ++ wire_label l))) by (rewrite length_app; simpl; lia).
    rewrite IH; [|simpl in Hf; lia|done]. rewrite <- app_assoc. done.
Qed.

Lemma wire_labels_length ls : (length ls ≤ length (wire ls))%nat.
Proof. induction ls as [|l ls IH]; [done|]. rewrite wire_cons. simpl. rewrite length_app. lia. Qed.

Lemma strlen_wire ls : Forall label_wf ls → strlen (wire_name ls) = Ret (Z.of_nat (length (wire ls))).
Proof. intros Hls. by apply (strlen_app _ []), wire_no_nul. Qed.

Lemma strcpy_app out rest b off :
  cstring b → off = Z.of_nat (length out) → (length b ≤ length rest)%nat →
  strcpy (out ++ rest) off b = Ret ((out ++ b) ++ drop (length b) rest).
Proof.
  intros (s & -> & Hs) Hoff Hl. unfold strcpy.
  rewrite (strlen_app s [] Hs). cbn [mbind Res_bind].
  rewrite slice_all by (rewrite length_app; simpl; lia). cbn [mbind Res_bind]. by apply blit_app.
Qed.

Lemma lor_pointer j : 0 ≤ j < 2 ^ 14 → Z.lor j 0xC000 = 0xC000 + j.
Proof. intros Hj. rewrite Z.lor_comm. by apply (lor_add _ _ 14); [lia|reflexivity|]. Qed.

Lemma name_bytes_length out name : name_wf name → (length (name_bytes out name) ≤ length name + 1)%nat.
Proof.
  intros (ls & -> & _). unfold name_bytes. case_decide; [lia|].
  destruct (search _ _ _ _); [rewrite u16_bytes_length|lia].
  unfold wire_name. rewrite length_app. simpl. lia.
Qed.

(** A name that occurred before becomes a pointer to it. *)
Lemma name_serialize_found out rest l ls k :
  name_wf (wire_name (l :: ls)) → (12 ≤ length out)%nat → (length (wire_name (l :: ls)) + 1 ≤ length rest)%nat →
  Z.of_nat (length out) ≤ 2 ^ 14 →
  search (length out - 12) out (wire_name (l :: ls)) 12 = Some k →
  find_previous_name (out ++ rest) 12 (Z.of_nat (length out)) (wire_name (l :: ls)) = Ret (Some (Z.of_nat k - 12)) →
  (1 ≤ length l ≤ 63)%nat →
  let bs := u16_bytes (0xC000 + Z.of_nat k) in
  name_serialize (wire_name (l :: ls)) (out ++ rest) (Z.of_nat (length out)) =
    Ret ((out ++ bs) ++ drop (length bs) rest, Z.of_nat (length bs)).
Proof.
  intros Hn Hout Hrest Hlen Es Hfind Hl bs. unfold name_serialize.
  destruct (search_bound _ _ _ _ _ Es) as [Hk _].
  assert (E0 : search_suffix (S (length (wire_name (l :: ls)))) (out ++ rest)
    (Z.of_nat (length out)) (wire_name (l :: ls)) 0 = Ret (0, Some (Z.of_nat k - 12))).
  { cbn [search_suffix].
    change (rd (wire_name (l :: ls)) 0) with (Ret (Z.of_nat (length l))).
    cbn [mbind Res_bind]. rewrite (proj2 (Z.eqb_neq _ _)) by lia.
    change sizeof_SectionHeader with 12. by rewrite Hfind. }
  rewrite E0. cbn [mbind Res_bind]. change sizeof_SectionHeader with 12.
  rewrite slice_Ret by lia. cbn [mbind Res_bind]. simpl take.
  rewrite (blit_app out rest []) by (simpl; lia). cbn [mbind Res_bind].
  rewrite app_nil_r. change (drop (length ([] : list Z)) rest) with rest.
  replace (Z.of_nat k - 12 + 12) with (Z.of_nat k) by lia.
  rewrite wrap_u16_small by (unfold is_u16; lia). rewrite lor_pointer by lia.
  assert (2 ≤ length rest)%nat
    by (unfold wire_name in Hrest; rewrite length_app in Hrest; simpl in Hrest; lia).
  by rewrite put_u16_app by lia.
Qed.

(** A new name is copied. *)
Lemma name_serialize_copied out rest ls :
  Forall label_wf ls → name_wf (wire_name ls) → (length (wire_name ls) + 1 ≤ length rest)%nat →
  find_previous_name (out ++ rest) 12 (Z.of_nat (length out)) (wire_name ls) = Ret None →
  let bs := wire_name ls in
  name_serialize bs (out ++ rest) (Z.of_nat (length out)) =
    Ret ((out ++ bs) ++ drop (length bs) rest, Z.of_nat (length bs)).
Proof.
  intros Hls Hn Hrest Hfind bs. pose proof (name_wf_cstring _ Hn) as Hcs. unfold name_serialize, bs.
  pose proof (search_suffix_none (S (length (wire_name ls))) (out ++ rest)
    (Z.of_nat (length out)) [] ls Hls) as E. cbn [app] in E. fold (wire_name ls) in E.
  change (Z.of_nat (length ([] : list Z))) with 0 in E. rewrite E; [|..].
  2: { pose proof (wire_labels_length ls). unfold wire_name. rewrite length_app. lia. }
  2: { exact Hfind. }
  cbn [mbind Res_bind]. rewrite strcpy_app by (done || lia). cbn [mbind Res_bind].
  rewrite strlen_wire by done. cbn [mbind Res_bind]. f_equal. f_equal.
  unfold wire_name. rewrite length_app. simpl. lia.
Qed.

Lemma name_serialize_spec out rest name :
  name_wf name → (12 ≤ length out)%nat → (length name + 1 ≤ length rest)%nat →
  clean out rest name → Z.of_nat (length out) ≤ 2 ^ 14 →
  let bs := name_bytes out name in
  name_serialize name (out ++ rest) (Z.of_nat (length out)) =
    Ret ((out ++ bs) ++ drop (length bs) rest, Z.of_nat (length bs)).
Proof.
  intros Hn Hout Hrest Hc Hlen. pose proof Hn as (ls & -> & Hls).
  assert (Hfind : find_previous_name (out ++ rest) 12 (Z.of_nat (length out)) (wire_name ls) =
    Ret ((λ k, Z.of_nat k - 12) <$> search (length out - 12) out (wire_name ls) 12)).
  { unfold find_previous_name.
    replace (Z.to_nat (Z.of_nat (length out) - 12)) with (length out - 12)%nat by lia.
    apply (find_name_spec _ _ _ _ 12); [by apply wire_no_nul| |lia|lia|done|done].
    unfold wire_name in Hrest. rewrite length_app in Hrest. simpl in Hrest. lia. }
  destruct ls as [|l ls].
  - (* the root name is not searched *)
    unfold name_bytes. rewrite decide_True by done. unfold name_serialize.
    assert (E0 : search_suffix (S (length (wire_name []))) (out ++ rest)
      (Z.of_nat (length out)) (wire_name []) 0 = Ret (0, None)) by reflexivity.
    rewrite E0. cbn [mbind Res_bind]. change (wire_name []) with [0] in *.
    by rewrite strcpy_app by (by apply (name_wf_cstring _ Hn) || (simpl in *; lia)).
  - pose proof Hls as [[_ Hl] _]%Forall_cons. unfold name_bytes. rewrite decide_False.
    2: { unfold wire_name. rewrite wire_cons. intros [= E _]. lia. }
    destruct (search (length out - 12) out _ 12) as [k|] eqn:Es.
    + by apply name_serialize_found.
    + by apply name_serialize_copied.
Qed.

(** ** The serializer writes the specified bytes *)

(** One more field: the cursor moves with what is written. *)
Lemma emitted (out bs rest : list Z) k :
  (out ++ bs) ++ drop (length bs) (drop k rest) = (out ++ bs) ++ drop (k + length bs) rest.
Proof. by rewrite drop_drop. Qed.

Lemma rr_serialize_spec out rest r :
  rr_wire_ok r → (12 ≤ length out)%nat → Z.of_nat (length out) ≤ 2 ^ 14 →
  (length (rr_bytes out r) ≤ length rest)%nat → (length (rr_name r) + 1 ≤ length rest)%nat →
  clean out rest (rr_name r) →
  let bs := rr_bytes out r in
  rr_serialize r (out ++ rest) (Z.of_nat (length out)) =
    Ret ((out ++ bs) ++ drop (length bs) rest, Z.of_nat (length bs)).
Proof.
  intros Hr Hout Hlen Hrest Hname Hc. cbv zeta. unfold rr_serialize.
  rewrite (name_serialize_spec _ _ _ (w_name _ Hr)) by done. cbn [mbind Res_bind].
  unfold rr_bytes in *. set (nb := name_bytes out (rr_name r)) in *.
  rewrite !length_app, !u16_bytes_length, u32_bytes_length in Hrest.
  rewrite put_u16_app by (rewrite ?length_app, ?length_drop; lia). cbn [mbind Res_bind].
  rewrite put_u16_app by (rewrite ?length_app, ?length_drop, ?u16_bytes_length; lia).
  cbn [mbind Res_bind].
  rewrite put_u32_app by (rewrite ?length_app, ?length_drop, ?u16_bytes_length; lia).
  cbn [mbind Res_bind].
  rewrite put_u16_app
    by (rewrite ?length_app, ?length_drop, ?u16_bytes_length, ?u32_bytes_length; lia).
  cbn [mbind Res_bind]. rewrite (slice_all _ _ (w_rdata _ Hr)). cbn [mbind Res_bind].
  rewrite blit_app
    by (rewrite ?length_app, ?length_drop, ?u16_bytes_length, ?u32_bytes_length; lia).
  cbn [mbind Res_bind]. rewrite !drop_drop, <- !app_assoc. f_equal. f_equal.
  - repeat apply (f_equal (app _)). f_equal. rewrite !length_app, !u16_bytes_length, u32_bytes_length. lia.
  - rewrite !length_app, !u16_bytes_length, u32_bytes_length, (w_rdata _ Hr). lia.
Qed.

Lemma question_serialize_spec out rest q :
  cstring (qname q) → (length (question_bytes q) ≤ length rest)%nat →
  let bs := question_bytes q in
  question_serialize q (out ++ rest) (Z.of_nat (length out)) =
    Ret ((out ++ bs) ++ drop (length bs) rest, Z.of_nat (length bs)).
Proof.
  intros Hq Hrest. cbv zeta. unfold question_serialize, question_bytes in *.
  rewrite !length_app, !u16_bytes_length in Hrest.
  rewrite strcpy_app by (done || lia). cbn [mbind Res_bind].
  destruct Hq as (s & Hs & Hnn). rewrite Hs in *.
  rewrite (strlen_app s [] Hnn). cbn [mbind Res_bind]. rewrite length_app in *. simpl length in *.
  rewrite put_u16_app by (rewrite ?length_app, ?length_drop; simpl; lia). cbn [mbind Res_bind].
  rewrite put_u16_app by (rewrite ?length_app, ?length_drop, ?u16_bytes_length; simpl; lia).
  cbn [mbind Res_bind]. rewrite !drop_drop, <- !app_assoc. f_equal. f_equal.
  - repeat apply (f_equal (app _)). f_equal. rewrite ?length_app, ?u16_bytes_length. simpl. lia.
  - rewrite ?length_app, ?u16_bytes_length. simpl. lia.
Qed.

Lemma questions_serialize_spec qs out rest :
  Forall (λ q, cstring (qname q)) qs →
  let bs := concat (question_bytes <$> qs) in
  (length bs ≤ length rest)%nat →
  questions_serialize (length qs) qs (out ++ rest) (Z.of_nat (length out)) =
    Ret ((out ++ bs) ++ drop (length bs) rest, Z.of_nat (length (out ++ bs))).
Proof.
  cbv zeta. intros Hqs. revert out rest. induction Hqs as [|q qs Hq _ IH]; intros out rest Hrest.
  { simpl. by rewrite app_nil_r. }
  cbn [fmap list_fmap concat] in *. rewrite length_app in Hrest.
  cbn [questions_serialize length head nonnull mbind Res_bind tail].
  rewrite question_serialize_spec by (done || lia). cbn [mbind Res_bind].
  rewrite <- Nat2Z.inj_add, <- length_app. rewrite IH by (rewrite length_drop; lia).
  by rewrite drop_drop, <- !app_assoc, (length_app (question_bytes q)).
Qed.

Lemma rrs_out_prefix out rs : ∃ more, rrs_out out rs = out ++ more.
Proof.
  revert out. induction rs as [|r rs IH]; intros out; simpl.
  - exists []. by rewrite app_nil_r.
  - destruct (IH (out ++ rr_bytes out r)) as [more ->]. eexists. by rewrite <- app_assoc.
Qed.

(** The records are written as long as they fit; [buf0] is the buffer as it
    was, of which [out] has been overwritten. *)
Lemma rrs_serialize_spec rs out buf0 buff_size :
  Forall rr_wire_ok rs → (12 ≤ length out)%nat →
  Z.of_nat (length (rrs_out out rs)) ≤ buff_size → Z.of_nat (length (rrs_out out rs)) ≤ 2 ^ 14 →
  Forall (λ r, length (rrs_out out rs) + length (rr_name r) + 1 ≤ length buf0)%nat rs →
  (length (rrs_out out rs) ≤ length buf0)%nat → rrs_clean buf0 out rs →
  rrs_serialize (length rs) rs (out ++ drop (length out) buf0) (Z.of_nat (length out)) buff_size =
    Ret (rrs_out out rs ++ drop (length (rrs_out out rs)) buf0,
         Z.of_nat (length (rrs_out out rs))).
Proof.
  intros Hrs. revert out. induction Hrs as [|r rs Hr _ IH]; intros out Hout Hsz Hmax Hnames Hbuf Hc;
    [done|].
  cbn [rrs_out rrs_clean] in *. destruct Hc as [Hc Hcs].
  apply Forall_cons in Hnames as [Hname Hnames].
  destruct (rrs_out_prefix (out ++ rr_bytes out r) rs) as [more Hmore].
  rewrite Hmore, !length_app in Hsz, Hmax, Hbuf, Hname.
  cbn [rrs_serialize length head nonnull mbind Res_bind tail].
  rewrite rr_serialize_spec by (done || rewrite ?length_drop; lia). cbn [mbind Res_bind].
  rewrite <- Nat2Z.inj_add, <- length_app, Z.gtb_ltb.
  rewrite (proj2 (Z.ltb_ge _ _)) by (rewrite length_app; lia).
  rewrite drop_drop, <- length_app. apply IH; try done.
  all: rewrite ?Hmore, ?length_app; lia.
Qed.

(** The loop converts number after number. *)
Lemma endian_loop_spec convert vs pre post :
  endian_loop (length vs) convert (pre ++ concat (bytes_of 2 <$> vs) ++ post) (Z.of_nat (length pre)) =
    Ret (pre ++ concat ((λ v, bytes_of 2 (convert (of_bytes (bytes_of 2 v)))) <$> vs) ++ post).
Proof.
  revert pre. induction vs as [|v vs IH]; intros pre; [done|].
  cbn [fmap list_fmap concat length endian_loop]. rewrite <- !app_assoc.
  rewrite (slice_at pre (bytes_of 2 v)) by (by rewrite ?bytes_of_length).
  cbn [mbind Res_bind]. rewrite blit_app by (rewrite ?length_app, ?bytes_of_length; lia).
  rewrite bytes_of_length, <- (bytes_of_length 2 v), drop_app_length. cbn [mbind Res_bind].
  set (w := bytes_of (length (bytes_of 2 v)) _).
  replace (Z.of_nat (length pre) + 2) with (Z.of_nat (length (pre ++ w)))
    by (unfold w; rewrite length_app, !bytes_of_length; lia).
  rewrite IH. unfold w. by rewrite !bytes_of_length, <- !app_assoc.
Qed.

Lemma header_endian_2n_spec h post :
  header_endian_2n (header_memory h ++ post) = Ret (header_bytes h ++ post).
Proof.
  etransitivity; [exact (endian_loop_spec h2n_2 (header_fields h) [] post)|]. cbn [app]. do 2 f_equal.
  unfold header_bytes. f_equal. apply list_fmap_ext. intros _ v _.
  rewrite u16_bytes_eq. unfold u16_bytes. f_equal. rewrite <- (bytes_of_length 2 v) at 1.
  apply bytes_of_of, bytes_of_u8.
Qed.

Lemma header_endian_2h_spec h post :
  Forall is_u16 (header_fields h) →
  header_endian_2h (header_bytes h ++ post) = Ret (header_memory h ++ post).
Proof.
  intros Hh. unfold header_endian_2h, header_bytes.
  replace (u16_bytes <$> header_fields h) with (bytes_of 2 <$> (h2n_2 <$> header_fields h))
    by (rewrite <- list_fmap_compose; apply list_fmap_ext; intros; apply u16_bytes_eq).
  etransitivity; [exact (endian_loop_spec n2h_2 (h2n_2 <$> header_fields h) [] post)|].
  rewrite <- list_fmap_compose. cbn [app]. do 2 f_equal.
  unfold header_memory. f_equal. apply list_fmap_ext. intros i v Hv.
  change (bytes_of 2 (n2h_2 (of_bytes (bytes_of 2 (h2n_2 v)))) = bytes_of 2 v).
  rewrite (u16_bytes_eq v). f_equal. apply (swap_twice 2). exact (Forall_lookup_1 _ _ _ _ Hh Hv).
Qed.

Lemma header_of_memory h : Forall is_u16 (header_fields h) → header_of (header_memory h) = Ret h.
Proof.
  intros Hh. transitivity (match (λ v, of_bytes (bytes_of 2 v)) <$> header_fields h with
    | [i; f; q; an; ns; ar] => Ret (MkHeader i f q an ns ar) | _ => UB end); [done|].
  replace ((λ v, of_bytes (bytes_of 2 v)) <$> header_fields h) with (header_fields h); [by destruct h|].
  rewrite <- (list_fmap_id (header_fields h)) at 1. apply list_fmap_ext. intros i v Hv. symmetry.
  apply (of_bytes_of 2). exact (Forall_lookup_1 _ _ _ _ Hh Hv).
Qed.

Lemma header_memory_length h : length (header_memory h) = 12%nat.
Proof. reflexivity. Qed.
Lemma header_bytes_length h : length (header_bytes h) = 12%nat.
Proof. reflexivity. Qed.

(** Room for the packet, and for the names the search compares with. *)
Definition fits (p : DnsPacket) (packet_buf : list Z) (buf_size : Z) : Prop :=
  Z.of_nat (length (pack_out p)) ≤ buf_size ∧ Z.of_nat (length (pack_out p)) ≤ 2 ^ 14 ∧
  (length (pack_out p) ≤ length packet_buf)%nat ∧
  Forall (λ r, length (pack_out p) + length (rr_name r) + 1 ≤ length packet_buf)%nat (rrs p).

Lemma pack_serialize_spec p packet_buf buf_size :
  wire_ok p → fits p packet_buf buf_size → pack_clean packet_buf p →
  pack_serialize p packet_buf buf_size =
    Ret (pack_out p ++ drop (length (pack_out p)) packet_buf, Z.of_nat (length (pack_out p))).
Proof.
  intros Hp (Hsz & Hmax & Hbuf & Hnames) Hc. unfold pack_serialize, pack_out in *.
  destruct (rrs_out_prefix (head_out p) (rrs p)) as [more Hmore].
  assert (Hhead : length (head_out p) =
    (12 + length (concat (question_bytes <$> questions p)))%nat)
    by (unfold head_out; by rewrite length_app, header_bytes_length).
  assert (Hle : (length (head_out p) ≤ length (rrs_out (head_out p) (rrs p)))%nat)
    by (rewrite Hmore, length_app; lia).
  rewrite (blit_app [] packet_buf (header_memory (header p)))
    by (rewrite ?header_memory_length; simpl; lia). cbn [mbind Res_bind app].
  rewrite header_endian_2n_spec, header_memory_length, <- (header_bytes_length (header p)). cbn [mbind Res_bind].
  change sizeof_SectionHeader with 12. rewrite !Z.gtb_ltb, (proj2 (Z.ltb_ge _ _)) by lia.
  rewrite (w_qcount _ Hp), Nat2Z.id.
  replace 12 with (Z.of_nat (length (header_bytes (header p)))) by (by rewrite header_bytes_length).
  rewrite questions_serialize_spec.
  2: { eapply Forall_impl; [apply Hp|]. by intros q [? _]. }
  2: { rewrite length_drop, header_bytes_length. lia. }
  fold (head_out p). cbn [mbind Res_bind]. rewrite Z.gtb_ltb, (proj2 (Z.ltb_ge _ _)) by lia.
  pose proof (w_rrcount _ Hp) as Hcnt. unfold rr_count in Hcnt. rewrite Hcnt, Nat2Z.id.
  rewrite drop_drop, <- length_app. fold (head_out p).
  apply rrs_serialize_spec; try done; [apply Hp|lia].
Qed.

(** ** The parser reads them back *)

Lemma skip_labels_spec fuel pre mid ls post :
  Forall label_wf ls → (length ls < fuel)%nat →
  skip_labels fuel (pre ++ mid ++ wire ls ++ 0 :: post) (Z.of_nat (length pre))
    (Z.of_nat (length mid)) = Ret (Z.of_nat (length (mid ++ wire ls))).
Proof.
  intros Hls. revert fuel mid. induction Hls as [|l ls [_ Hl] _ IH]; intros fuel mid Hf;
    (destruct fuel as [|fuel]; [simpl in Hf; lia|]); cbn [skip_labels];
    rewrite <- Nat2Z.inj_add, <- length_app, app_assoc.
  - cbn [wire fmap list_fmap concat app]. rewrite rd_app. cbn [mbind Res_bind].
    by rewrite Z.eqb_refl, app_nil_r.
  - rewrite wire_cons. cbn [app]. rewrite rd_app. cbn [mbind Res_bind].
    destruct (label_top_bits (Z.of_nat (length l))) as [-> ->]; [lia|]. cbn [orb].
    unfold schar. rewrite (proj2 (Z.ltb_lt _ _)) by lia.
    replace ((pre ++ mid) ++ Z.of_nat (length l) :: (l ++ wire ls) ++ 0 :: post)
      with (pre ++ (mid ++ wire_label l) ++ wire ls ++ 0 :: post)
      by (unfold wire_label; by rewrite <- !app_assoc).
    replace (Z.of_nat (length mid) + (Z.of_nat (length l) + 1))
      with (Z.of_nat (length (mid ++ wire_label l))) by (rewrite length_app; simpl; lia).
    rewrite IH by (simpl in Hf; lia). by rewrite <- app_assoc.
Qed.

(** A name without pointer. *)
Lemma name_deserialize_plain fuel pre ls post :
  Forall label_wf ls → (S (length ls) < fuel)%nat →
  name_deserialize fuel (pre ++ wire_name ls ++ post) (Z.of_nat (length pre)) =
    Ret (Z.of_nat (length (wire_name ls)), wire_name ls).
Proof.
  intros Hls Hf. destruct fuel as [|fuel]; [lia|]. unfold wire_name. rewrite <- app_assoc. cbn [app].
  pose proof (skip_labels_spec fuel pre [] ls post Hls ltac:(lia)) as E. cbn [app] in E.
  change (Z.of_nat (length ([] : list Z))) with 0 in E.
  cbn [name_deserialize]. rewrite E. cbn [mbind Res_bind].
  rewrite <- Nat2Z.inj_add, <- length_app. rewrite (app_assoc pre).
  rewrite rd_app. cbn [mbind Res_bind]. rewrite Z.eqb_refl.
  rewrite <- app_assoc, ptr_app. cbn [mbind Res_bind].
  pose proof (wire_no_nul _ Hls) as Hnn. rewrite (strdup_app _ _ Hnn). cbn [mbind Res_bind].
  rewrite (strlen_app _ _ Hnn). cbn [mbind Res_bind]. f_equal. f_equal.
  rewrite length_app. simpl. lia.
Qed.

Lemma top_bits_set c : 192 ≤ c < 256 → (Z.land c 0xC0 =? 0xC0) = true.
Proof.
  intros Hc.
  assert (Hall : forallb (λ k, Z.land (192 + Z.of_nat k) 0xC0 =? 0xC0) (seq 0 64) = true)
    by reflexivity.
  rewrite forallb_forall in Hall. specialize (Hall (Z.to_nat (c - 192))).
  rewrite Z2Nat.id in Hall by lia. replace (192 + (c - 192)) with c in Hall by lia.
  apply Hall, in_seq. lia.
Qed.

Lemma pointer_bits k :
  0 ≤ k < 2 ^ 14 →
  let v := 0xC000 + k in
  (byte_of v 1 =? 0) = false ∧ (Z.land (byte_of v 1) 0xC0 =? 0xC0) = true ∧ Z.lxor v 0xC000 = k.
Proof.
  intros Hk v.
  assert (Hb : 192 ≤ byte_of v 1 < 256).
  { split; [|apply byte_of_range]. rewrite byte_of_div by lia. change (2 ^ (8 * 1)) with 256.
    unfold v. replace (0xC000 + k) with (k + 192 * 256) by lia. rewrite Z.div_add by lia.
    assert (0 ≤ k / 256 < 64)
      by (split; [apply Z.div_pos; lia|apply Z.div_lt_upper_bound; lia]).
    rewrite Z.mod_small; lia. }
  split_and!; [lia|by apply top_bits_set|]. by apply (lxor_add _ _ 14).
Qed.

(** Any field the serializer produces. *)
Lemma name_deserialize_spec fuel out name post :
  name_wf name → (length name + 2 < fuel)%nat → Z.of_nat (length out) ≤ 2 ^ 14 →
  let bs := name_bytes out name in
  name_deserialize fuel (out ++ bs ++ post) (Z.of_nat (length out)) =
    Ret (Z.of_nat (length bs), name).
Proof.
  intros (ls & -> & Hls) Hf Hlen. cbv zeta.
  assert (Hfl : (S (S (length ls)) < fuel)%nat).
  { pose proof (wire_labels_length ls). unfold wire_name in Hf. rewrite length_app in Hf.
    simpl in Hf. lia. }
  unfold name_bytes. case_decide; [apply name_deserialize_plain; [done|lia]|].
  destruct (search _ _ _ _) as [k|] eqn:Es; [|apply name_deserialize_plain; [done|lia]].
  destruct (search_bound _ _ _ _ _ Es) as [Hk Hocc].
  destruct (pointer_bits (Z.of_nat k) ltac:(lia)) as (H0 & H1 & H2). set (v := 0xC000 + Z.of_nat k) in *.
  destruct fuel as [|fuel]; [lia|]. cbn [name_deserialize].
  assert (Hrd : rd (out ++ u16_bytes v ++ post) (Z.of_nat (length out)) = Ret (byte_of v 1))
    by apply rd_app.
  assert (Hskip : skip_labels fuel (out ++ u16_bytes v ++ post) (Z.of_nat (length out)) 0 = Ret 0).
  { destruct fuel as [|fuel']; [lia|]. cbn [skip_labels]. rewrite Z.add_0_r, Hrd.
    cbn [mbind Res_bind]. by rewrite H0, H1. }
  rewrite Hskip. cbn [mbind Res_bind].
  rewrite Z.add_0_r, Hrd. cbn [mbind Res_bind]. rewrite H0.
  rewrite get_u16_at by (done || unfold is_u16, v; lia). cbn [mbind Res_bind]. rewrite H2.
  pose proof (occurs_fits _ _ _ Hocc) as Hfit. unfold occurs in Hocc.
  assert (Hbuf : out ++ u16_bytes v ++ post = take k out ++ wire_name ls ++
    (drop (length (wire_name ls)) (drop k out) ++ u16_bytes v ++ post)).
  { rewrite <- Hocc at 1. rewrite !app_assoc. f_equal. f_equal.
    by rewrite <- app_assoc, take_drop, take_drop. }
  assert (Hkl : Z.of_nat k = Z.of_nat (length (take k out))).
  { rewrite length_take. lia. }
  rewrite Hbuf, Hkl. rewrite name_deserialize_plain by (done || lia).
  cbn [mbind Res_bind]. rewrite strlen_wire by done. cbn [mbind Res_bind].
  rewrite <- Hbuf. rewrite (slice_Ret _ (Z.of_nat (length out)) 0) by (rewrite ?length_app; lia). cbn [mbind Res_bind].
  rewrite slice_all by (unfold wire_name; rewrite length_app; simpl; lia). done.
Qed.

Lemma question_deserialize_spec out q post :
  cstring (qname q) → is_u16 (qtype q) → is_u16 (qclass q) →
  let bs := question_bytes q in
  question_deserialize (out ++ bs ++ post) (Z.of_nat (length out)) =
    Ret (Z.of_nat (length bs), q).
Proof.
  intros (s & Hs & Hnn) Ht Hc. cbv zeta. unfold question_deserialize, question_bytes.
  destruct q as [name t c]. cbn [qname qtype qclass] in *. subst name.
  rewrite ptr_app. cbn [mbind Res_bind]. rewrite <- !app_assoc. cbn [app].
  rewrite strdup_app by done. cbn [mbind Res_bind].
  rewrite (strlen_app s []) by done. cbn [mbind Res_bind].
  set (r := u16_bytes t ++ u16_bytes c ++ post).
  assert (G1 : get_u16 (out ++ s ++ 0 :: r) (Z.of_nat (length out) + (Z.of_nat (length s) + 1)) =
    Ret t).
  { replace (out ++ s ++ 0 :: r) with ((out ++ s ++ [0]) ++ u16_bytes t ++ u16_bytes c ++ post)
      by (unfold r; by rewrite <- !app_assoc).
    apply get_u16_at; [rewrite !length_app; simpl; lia|done]. }
  assert (G2 : get_u16 (out ++ s ++ 0 :: r)
    (Z.of_nat (length out) + (Z.of_nat (length s) + 1) + 2) = Ret c).
  { replace (out ++ s ++ 0 :: r)
      with (((out ++ s ++ [0]) ++ u16_bytes t) ++ u16_bytes c ++ post)
      by (unfold r; by rewrite <- !app_assoc).
    apply get_u16_at; [rewrite !length_app, u16_bytes_length; simpl; lia|done]. }
  rewrite G1. cbn [mbind Res_bind]. rewrite G2. cbn [mbind Res_bind].
  do 2 f_equal. cbn [qname]. rewrite !length_app. simpl. lia.
Qed.

Lemma questions_deserialize_spec qs out post seg :
  Forall (λ q, cstring (qname q) ∧ is_u16 (qtype q) ∧ is_u16 (qclass q)) qs →
  let bs := concat (question_bytes <$> qs) in
  questions_deserialize (length qs) (out ++ bs ++ post) (Z.of_nat (length out)) seg =
    Ret (Z.of_nat (length (out ++ bs)), seg ++ qs).
Proof.
  cbv zeta. intros Hqs. revert out seg.
  induction Hqs as [|q qs (Hn & Ht & Hc) _ IH]; intros out seg.
  { simpl. by rewrite !app_nil_r. }
  cbn [fmap list_fmap concat questions_deserialize length]. rewrite <- app_assoc.
  rewrite question_deserialize_spec by done. cbn [mbind Res_bind].
  rewrite <- Nat2Z.inj_add, <- length_app, (app_assoc out), IH.
  by rewrite <- !app_assoc.
Qed.

Lemma header_deserialize_spec h post :
  header_ok h → header_deserialize (header_bytes h ++ post) = Ret h.
Proof.
  intros Hh. assert (Forall is_u16 (header_fields h)) by (destruct Hh; by repeat (apply Forall_cons; split)).
  unfold header_deserialize. pose proof (slice_at [] (header_bytes h) post 0 sizeof_SectionHeader eq_refl eq_refl) as E.
  cbn [app] in E. rewrite E. cbn [mbind Res_bind].
  rewrite <- (app_nil_r (header_bytes h)), header_endian_2h_spec, app_nil_r by done. cbn [mbind Res_bind].
  by apply header_of_memory.
Qed.

Lemma rdata_deserialize_spec fuel pre r post :
  rr_wire_ok r → (length (rdata r) + 2 < fuel)%nat →
  rdata_deserialize fuel (pre ++ rdata r ++ post) (Z.of_nat (length pre)) (rr_type r)
    (rdata_length r) = Ret (rdata_length r, rdata r).
Proof.
  intros Hr Hf. unfold rdata_deserialize. pose proof (w_mx _ Hr). pose proof (w_rdata _ Hr) as Hrl.
  destruct ((rr_type r =? QTYPE_CNAME) || (rr_type r =? QTYPE_NS)) eqn:E.
  - destruct (w_target _ Hr) as (ls & Hls & Hok).
    { apply orb_true_iff in E as [E|E]; bools; auto. }
    rewrite Hls in *. unfold wire_name in Hf, Hrl. rewrite length_app in Hf, Hrl.
    simpl in Hf, Hrl. pose proof (wire_labels_length ls).
    rewrite name_deserialize_plain by (done || lia). cbn [mbind Res_bind].
    rewrite strlen_wire by done. cbn [mbind Res_bind]. f_equal. f_equal.
    pose proof (w_rlen _ Hr). rewrite <- (wrap_u16_small (rdata_length r)) by done. f_equal. lia.
  - rewrite (proj2 (Z.eqb_neq _ _)) by done. rewrite slice_at by done. done.
Qed.

Lemma rr_deserialize_spec fuel out r post :
  rr_wire_ok r → (length (rr_name r) + 2 < fuel)%nat → (length (rdata r) + 2 < fuel)%nat →
  Z.of_nat (length out) ≤ 2 ^ 14 →
  let bs := rr_bytes out r in
  rr_deserialize fuel (out ++ bs ++ post) (Z.of_nat (length out)) = Ret (Z.of_nat (length bs), r).
Proof.
  intros Hr Hfn Hfd Hlen. cbv zeta. unfold rr_deserialize, rr_bytes.
  set (nb := name_bytes out (rr_name r)). rewrite <- !app_assoc. set (buf := out ++ _).
  assert (Gn : name_deserialize fuel buf (Z.of_nat (length out)) =
    Ret (Z.of_nat (length nb), rr_name r)) by (by apply name_deserialize_spec; [apply Hr|..]).
  rewrite Gn. cbn [mbind Res_bind]. rewrite <- Nat2Z.inj_add, <- length_app.
  set (pre := out ++ nb). set (c := Z.of_nat (length pre)).
  assert (G1 : get_u16 buf c = Ret (rr_type r)).
  { unfold buf. rewrite (app_assoc out). by apply get_u16_at; [|apply Hr]. }
  assert (G2 : get_u16 buf (c + 2) = Ret (rr_class r)).
  { unfold buf. rewrite (app_assoc out), (app_assoc (out ++ nb)). apply get_u16_at; [|apply Hr].
    rewrite length_app, u16_bytes_length. unfold c, pre. lia. }
  assert (G3 : get_u32 buf (c + 2 + 2) = Ret (rr_ttl r)).
  { unfold buf. do 3 rewrite app_assoc.
    apply get_u32_at; [|apply Hr].
    rewrite !length_app, !u16_bytes_length. unfold c, pre. rewrite length_app. lia. }
  assert (G4 : get_u16 buf (c + 2 + 2 + 4) = Ret (rdata_length r)).
  { unfold buf. do 4 rewrite app_assoc. apply get_u16_at; [|apply Hr].
    rewrite !length_app, !u16_bytes_length, u32_bytes_length. unfold c, pre. rewrite length_app. lia. }
  assert (G5 : rdata_deserialize fuel buf (c + 2 + 2 + 4 + 2) (rr_type r) (rdata_length r) =
    Ret (rdata_length r, rdata r)).
  { unfold buf. do 5 rewrite app_assoc.
    replace (c + 2 + 2 + 4 + 2) with (Z.of_nat (length (((((out ++ nb) ++ u16_bytes (rr_type r)) ++
      u16_bytes (rr_class r)) ++ u32_bytes (rr_ttl r)) ++ u16_bytes (rdata_length r)))).
    { by apply rdata_deserialize_spec. }
    rewrite !length_app, !u16_bytes_length, u32_bytes_length. unfold c, pre. rewrite length_app. lia. }
  rewrite G1. cbn [mbind Res_bind]. rewrite G2. cbn [mbind Res_bind]. rewrite G3.
  cbn [mbind Res_bind]. rewrite G4. cbn [mbind Res_bind]. rewrite G5. cbn [mbind Res_bind].
  pose proof (w_rdata _ Hr) as Hrl. destruct r as [n t cl l rl dat].
  cbn [rr_name rr_type rr_class rr_ttl rdata_length rdata] in *.
  f_equal. f_equal. unfold c, pre.
  rewrite !length_app, !u16_bytes_length, u32_bytes_length. lia.
Qed.

Lemma rrs_deserialize_spec fuel rs out post acc :
  Forall rr_wire_ok rs →
  Forall (λ r, length (rr_name r) + 2 < fuel ∧ length (rdata r) + 2 < fuel)%nat rs →
  Z.of_nat (length (rrs_out out rs)) ≤ 2 ^ 14 →
  rrs_deserialize (length rs) fuel (rrs_out out rs ++ post) (Z.of_nat (length out)) acc =
    Ret (Z.of_nat (length (rrs_out out rs)), acc ++ rs).
Proof.
  intros Hrs. revert out acc. induction Hrs as [|r rs Hr _ IH]; intros out acc Hf Hlen.
  { simpl. by rewrite app_nil_r. }
  apply Forall_cons in Hf as [[Hfn Hfd] Hf]. cbn [rrs_out length rrs_deserialize] in *.
  destruct (rrs_out_prefix (out ++ rr_bytes out r) rs) as [more Hmore].
  assert (Hlo : Z.of_nat (length out) ≤ 2 ^ 14) by (rewrite Hmore, !length_app in Hlen; lia).
  assert (E : rr_deserialize fuel (rrs_out (out ++ rr_bytes out r) rs ++ post)
    (Z.of_nat (length out)) = Ret (Z.of_nat (length (rr_bytes out r)), r)).
  { rewrite Hmore, <- !app_assoc. by apply rr_deserialize_spec. }
  rewrite E. cbn [mbind Res_bind]. rewrite <- Nat2Z.inj_add, <- length_app.
  rewrite IH by done. by rewrite <- app_assoc.
Qed.

Lemma pack_out_header p : (12 ≤ length (pack_out p))%nat.
Proof.
  unfold pack_out. destruct (rrs_out_prefix (head_out p) (rrs p)) as [more ->].
  unfold head_out. rewrite !length_app, header_bytes_length. lia.
Qed.

Lemma pack_deserialize_spec fuel p post len :
  wire_ok p → Z.of_nat (length (pack_out p)) ≤ 2 ^ 14 → 12 ≤ len ≤ 512 →
  Forall (λ r, length (rr_name r) + 2 < fuel ∧ length (rdata r) + 2 < fuel)%nat (rrs p) →
  pack_deserialize fuel (pack_out p ++ post) len = Ret (Some p).
Proof.
  intros Hp Hmax Hlen Hf. unfold pack_deserialize. rewrite Z.gtb_ltb.
  rewrite !(proj2 (Z.ltb_ge _ _)) by lia. cbn [orb]. unfold pack_out in *.
  destruct (rrs_out_prefix (head_out p) (rrs p)) as [more Hmore].
  assert (Hb : rrs_out (head_out p) (rrs p) ++ post = header_bytes (header p) ++
    concat (question_bytes <$> questions p) ++ more ++ post)
    by (rewrite Hmore; unfold head_out; by rewrite <- !app_assoc).
  rewrite Hb, header_deserialize_spec by apply Hp. cbn [mbind Res_bind].
  change sizeof_SectionHeader with 12.
  replace 12 with (Z.of_nat (length (header_bytes (header p)))) at 1
    by (by rewrite header_bytes_length).
  rewrite (w_qcount _ Hp), Nat2Z.id, questions_deserialize_spec by apply Hp.
  cbn [mbind Res_bind]. fold (head_out p). rewrite <- Hb.
  pose proof (w_rrcount _ Hp) as Hcnt. unfold rr_count in Hcnt.
  replace (additional_RRs (header p) + answer_RRs (header p) + authority_RRs (header p))
    with (Z.of_nat (length (rrs p))) by lia.
  rewrite Nat2Z.id, rrs_deserialize_spec by (done || apply Hp). cbn [mbind Res_bind app].
  by destruct p.
Qed.

(** ** Input on which the parser does not come back *)

Lemma name_deserialize_into buf j i c off :
  (∀ f, skip_labels f buf j 0 = OutOfFuel ∨ skip_labels f buf j 0 = Ret i) →
  rd buf (j + i) = Ret c → c ≠ 0 → get_u16 buf (j + i) = Ret off →
  (∀ fuel, name_deserialize fuel buf (Z.lxor off 0xC000) = OutOfFuel) →
  ∀ fuel, name_deserialize fuel buf j = OutOfFuel.
Proof.
  intros Hskip Hc Hc0 Hoff Hrec [|fuel]; [done|]. cbn [name_deserialize].
  destruct (Hskip fuel) as [->| ->]; [done|]. cbn [mbind Res_bind]. rewrite Hc.
  cbn [mbind Res_bind]. rewrite (proj2 (Z.eqb_neq _ _)) by done. rewrite Hoff.
  cbn [mbind Res_bind]. by rewrite Hrec.
Qed.

Lemma name_deserialize_cycle buf j i c off :
  (∀ f, skip_labels f buf j 0 = OutOfFuel ∨ skip_labels f buf j 0 = Ret i) →
  rd buf (j + i) = Ret c → c ≠ 0 → get_u16 buf (j + i) = Ret off → Z.lxor off 0xC000 = j →
  ∀ fuel, name_deserialize fuel buf j = OutOfFuel.
Proof.
  intros Hskip Hc Hc0 Hoff Hj. induction fuel as [|fuel IH]; [done|]. cbn [name_deserialize].
  destruct (Hskip fuel) as [->| ->]; [done|]. cbn [mbind Res_bind]. rewrite Hc.
  cbn [mbind Res_bind]. rewrite (proj2 (Z.eqb_neq _ _)) by done. rewrite Hoff.
  cbn [mbind Res_bind]. rewrite Hj, IH. done.
Qed.

(** A response with one record and no question; the name of the record starts
    right after the header, at offset 12. *)
Definition one_rr_header : list Z := [0; 7; 0x81; 0x80; 0; 0; 0; 1; 0; 0; 0; 0].
(** a pointer to itself *)
Definition self_pointer : list Z := one_rr_header ++ [0xC0; 12] ++ replicate 50 0.
(** a label of 63 bytes, then the length 0xBF, which is -65 as a [char] *)
Definition back_label : list Z := one_rr_header ++ [63] ++ replicate 63 97 ++ [0xBF] ++ replicate 50 0.

Lemma back_label_skips : ∀ f, skip_labels f back_label 12 0 = OutOfFuel.
Proof.
  intros f. induction f as [f IH] using lt_wf_ind. destruct f as [|[|f]]; [reflexivity..|].
  change (skip_labels (S (S f)) back_label 12 0) with (skip_labels f back_label 12 0).
  apply IH. lia.
Qed.

Lemma first_name_diverges fuel buf len h :
  (len >? 512) || (len <? 12) = false → header_deserialize buf = Ret h → qcount h = 0 →
  additional_RRs h + answer_RRs h + authority_RRs h = 1 →
  name_deserialize fuel buf 12 = OutOfFuel → pack_deserialize fuel buf len = OutOfFuel.
Proof.
  intros Hlen Hh Hq Hr Hn. unfold pack_deserialize. rewrite Hlen, Hh. cbn [mbind Res_bind].
  rewrite Hq, Hr. change (Z.to_nat 0) with 0%nat. change (Z.to_nat 1) with 1%nat.
  cbn [questions_deserialize mbind Res_bind rrs_deserialize]. unfold rr_deserialize.
  change sizeof_SectionHeader with 12. by rewrite Hn.
Qed.

Lemma questions_overread fuel buf h :
  header_deserialize buf = Ret h →
  questions_deserialize (Z.to_nat (qcount h)) buf sizeof_SectionHeader [] = UB →
  pack_deserialize fuel buf 12 = UB.
Proof.
  intros Hh Hq. unfold pack_deserialize. change ((12 >? 512) || (12 <? 12)) with false. cbv iota.
  rewrite Hh. cbn [mbind Res_bind]. by rewrite Hq.
Qed.

(** The bytes of a question with an empty name end in 5, those of the header of
    12 bytes say that there are 1000 of them. *)
Definition many_questions : list Z := [0; 7; 1; 0; 0x03; 0xE8; 0; 0; 0; 0; 0; 0] ++ replicate 4084 0.

(** A record of type TXT for the root, then an address record for [a.]. *)
Definition straddling_response : DnsPacket :=
  MkPacket (MkHeader 7 0x8180 0 2 0 0) []
    [MkRR [0] 16 1 300 2 [1; 97]; MkRR [1; 97; 0] 1 1 300 4 [10; 0; 0; 1]].

Lemma many_questions_header : header_deserialize many_questions = Ret (MkHeader 7 256 1000 0 0 0).
Proof. vm_compute. reflexivity. Qed.

Lemma many_questions_read :
  questions_deserialize (Z.to_nat 1000) many_questions sizeof_SectionHeader [] = UB.
Proof. vm_compute. reflexivity. Qed.

(** ** Properties *)

(** C20. [pack_serialize] writes exactly the bytes of the packet, big-endian,
    and returns their number, for every packet with well-formed names (labels
    of 1 to 63 bytes), counts that agree with its lists, no MX record, and a
    buffer with room for it: the header, the questions in full, then each
    record, its name either in full or, when the bytes already written contain
    it entirely from offset 12 on, as a pointer to the first occurrence.  The
    rest of the buffer is untouched, provided no match of the search runs into
    the old contents of the buffer. *)
Theorem pack_serialize_refines (p : DnsPacket) (packet_buf : list Z) (buf_size : Z) :
  wire_ok p → fits p packet_buf buf_size → pack_clean packet_buf p →
  pack_serialize p packet_buf buf_size =
    Ret (pack_out p ++ drop (length (pack_out p)) packet_buf, Z.of_nat (length (pack_out p))).
Proof. apply pack_serialize_spec. Qed.

(** Two records for the name of the question: both names are compressed. *)
Definition demo_response : DnsPacket :=
  MkPacket (MkHeader 7 0x8180 1 1 1 0) [MkQuestion [1; 97; 2; 99; 110; 0] 1 1]
    [MkRR [1; 97; 2; 99; 110; 0] 1 1 300 4 [10; 0; 0; 1];
     MkRR [1; 97; 2; 99; 110; 0] 5 1 70000 3 [1; 98; 0]].

Lemma name_wf_check ls : bool_decide (Forall (λ l, Forall (λ b, b ≠ 0) l ∧ (1 ≤ length l ≤ 63)%nat) ls) = true →
  name_wf (wire_name ls).
Proof. intros Hls. exists ls. split; [done|]. by apply bool_decide_eq_true in Hls. Qed.

Lemma demo_response_ok : wire_ok demo_response.
Proof.
  split; try reflexivity.
  - split; unfold is_u16; simpl; lia.
  - apply Forall_singleton. split_and!; [by apply cstring_check|unfold is_u16; simpl; lia..].
  - apply Forall_cons; split; [|apply Forall_singleton]; split; simpl; try done;
      try (unfold is_u16, is_u32; lia).
    + by apply (name_wf_check [[97]; [99; 110]]).
    + intros [?|?]; done.
    + by apply (name_wf_check [[97]; [99; 110]]).
    + intros _. by apply (name_wf_check [[98]]).
Qed.

Lemma straddling_response_ok : wire_ok straddling_response.
Proof.
  split; try reflexivity; [split; unfold is_u16; simpl; lia|constructor|].
  apply Forall_cons; split; [|apply Forall_singleton]; split; simpl; try done;
    try (unfold is_u16, is_u32; lia).
  - by apply (name_wf_check []).
  - intros [?|?]; done.
  - by apply (name_wf_check [[97]]).
  - intros [?|?]; done.
Qed.

Lemma demo_response_fits : fits demo_response (replicate 128 0) 128.
Proof. unfold fits. split_and!; by_compute. Qed.

Lemma pack_serialize_refines_witness :
  ∃ out, pack_serialize demo_response (replicate 128 0) 128 = Ret (out, 53) ∧
    take 6 (drop 18 out) = [0; 1; 0; 1; 0xC0; 12].
Proof.
  assert (Hc : pack_clean (replicate 128 0) demo_response) by by_compute.
  pose proof (pack_serialize_refines demo_response (replicate 128 0) 128 demo_response_ok
    demo_response_fits Hc) as E.
  assert (Hl : Z.of_nat (length (pack_out demo_response)) = 53) by by_compute.
  rewrite Hl in E. eexists. split; [exact E|]. by_compute.
Defined.

(** C9. What is sent is what is read back: parsing the buffer
    [pack_serialize] filled, when the datagram is at most 512 bytes, gives the
    same packet, through the compression pointers.  The fuel needed is the
    length of the longest name plus three. *)
Theorem pack_roundtrip (fuel : nat) (p : DnsPacket) (packet_buf : list Z) (buf_size : Z) :
  wire_ok p → fits p packet_buf buf_size → pack_clean packet_buf p →
  (length (pack_out p) ≤ 512)%nat →
  Forall (λ r, length (rr_name r) + 2 < fuel ∧ length (rdata r) + 2 < fuel)%nat (rrs p) →
  ('(buf, n) ← pack_serialize p packet_buf buf_size; pack_deserialize fuel buf n) = Ret (Some p).
Proof.
  intros Hp Hfits Hc H512 Hf. rewrite pack_serialize_spec by done. cbn [mbind Res_bind].
  apply pack_deserialize_spec; [done|by apply Hfits| |done].
  pose proof (pack_out_header p). lia.
Qed.

Lemma pack_roundtrip_witness :
  ('(buf, n) ← pack_serialize demo_response (replicate 128 0) 128; pack_deserialize 20 buf n) =
    Ret (Some demo_response).
Proof.
  apply (pack_roundtrip 20 demo_response (replicate 128 0) 128).
  - exact demo_response_ok.
  - exact demo_response_fits.
  - by_compute.
  - by_compute.
  - by_compute.
Defined.

(** C38. A datagram can keep the parser busy for ever: on a compression pointer
    to itself the recursion has no end (whatever the fuel, it is used up), and
    on a label length of 0x80 to 0xBF, negative as a [char], the scan goes
    back and loops. *)
Theorem pack_deserialize_diverges :
  ∀ fuel, pack_deserialize fuel self_pointer 64 = OutOfFuel ∧
          pack_deserialize fuel back_label 127 = OutOfFuel.
Proof.
  intros fuel. split.
  - assert (E : name_deserialize fuel self_pointer 12 = OutOfFuel).
    { apply (name_deserialize_cycle self_pointer 12 0 0xC0 0xC00C); try reflexivity; [|done].
      intros [|f]; [by left|by right]. }
    by apply (first_name_diverges _ _ _ (MkHeader 7 0x8180 0 1 0 0)).
  - assert (E : name_deserialize fuel back_label 12 = OutOfFuel).
    { destruct fuel as [|fuel]; [done|]. cbn [name_deserialize]. by rewrite back_label_skips. }
    by apply (first_name_diverges _ _ _ (MkHeader 7 0x8180 0 1 0 0)).
Qed.

(** The length of the datagram does not bound the reads: a header of 12
    bytes announcing 1000 questions is parsed from the stale contents of the
    receive buffer, and past its 4096 bytes. *)
Theorem pack_deserialize_overreads fuel : pack_deserialize fuel many_questions 12 = UB.
Proof. exact (questions_overread _ _ _ many_questions_header many_questions_read). Qed.

(** The search of [name_serialize] compares beyond the cursor.  In a zeroed
    buffer, a record whose data end in [1; 97], followed by one for the name
    [a.], makes it find that name at the last two bytes written and the zero
    after them, which the pointer then overwrites: the pointer designates a
    name that leads back to itself, and whoever parses the packet never
    finishes. *)
Theorem name_serialize_straddles :
  wire_ok straddling_response ∧ fits straddling_response (replicate 128 0) 128 ∧
  ∃ buf, pack_serialize straddling_response (replicate 128 0) 128 = Ret (buf, 41) ∧
    ∀ fuel, name_deserialize fuel buf 25 = OutOfFuel.
Proof.
  split; [exact straddling_response_ok|]. split; [unfold fits; split_and!; by_compute|].
  eexists. split; [vm_compute; reflexivity|].
  set (buf := _ :: _).
  assert (Hcycle : ∀ fuel, name_deserialize fuel buf 23 = OutOfFuel).
  { apply (name_deserialize_cycle buf 23 2 0xC0 0xC017); try reflexivity; [|done].
    intros [|[|f]]; [by left|by left|by right]. }
  apply (name_deserialize_into buf 25 0 0xC0 0xC017); try reflexivity; [|done|exact Hcycle].
  intros [|f]; [by left|by right].
Qed.

End Wire.
