(* ===== verification/Cache.v ===== *)
(** * The record cache of [src/dns/dns_cache.c]

    A hash table from keys to entries, and an intrusive doubly linked list of
    the entries between two sentinels, hottest first.  The table is any
    implementation of [MapInterface].  The clock is an argument: one reading
    [now] per call.  The mutex is a flag; locking it twice is undefined, as for
    [mtx_plain].  Requests for memory are granted: most of their results are
    dereferenced untested. *)

From S2P Require Import Prelude CString MapInterface HashMap DoublyLinked Protocol.
Import Protocol.

Module Cache.

Definition DNS_CACHE_DEFAULT_CAPACITY : Z := 1024.

(** [None] is a NULL vector. *)
Record CacheValue := MkValue {
  v_answer : Z; v_authority : Z; v_additional : Z; v_rrs : option (list ResourceRecord);
}.
#[export] Instance value_eq_dec : EqDecision CacheValue.
Proof. solve_decision. Defined.

Record CacheEntry := MkEntry {
  key : list Z;
  value : CacheValue;
  created_at : Z;
  hotter : option loc;
  colder : option loc;
}.

Record DnsCache (M : Type) := MkCache {
  table : M;
  lru_head : loc;
  lru_tail : loc;
  lock : bool;
  size : Z;
  capacity : Z;
  entries : Store CacheEntry;
}.
Arguments MkCache {M} table lru_head lru_tail lock size capacity entries.
Arguments table {M} d.
Arguments lru_head {M} d.
Arguments lru_tail {M} d.
Arguments lock {M} d.
Arguments size {M} d.
Arguments capacity {M} d.
Arguments entries {M} d.

(** ** Keys *)

(** [%u] of [snprintf], for a number of at most [fuel] digits *)
Fixpoint digits (fuel : nat) (n : Z) (acc : list Z) : list Z :=
  match fuel with
  | O => acc
  | S fuel =>
      let acc := 48 + n mod 10 :: acc in
      if n / 10 =? 0 then acc else digits fuel (n / 10) acc
  end.
(** ten digits are enough for 32 bits *)
Definition print_u (n : Z) : list Z := digits 10 n [].
Definition bar : Z := 124.

Definition cache_key_create (qname : list Z) (qtype qclass : Z) : Res (list Z) :=
  n ← strlen qname;
  Ret (print_u (wrap_u16 qclass) ++ [bar] ++ print_u (wrap_u16 qtype) ++ [bar] ++
       take (Z.to_nat n) qname).

(** ** Values *)

Fixpoint clone_rrs (rs : list ResourceRecord) : Res (option (list ResourceRecord)) :=
  match rs with
  | [] => Ret (Some [])
  | r :: rs =>
      copy ← rr_clone (Some r);
      match copy with
      | None => Ret None
      | Some copy =>
          rs ← clone_rrs rs;
          Ret (match rs with Some rs => Some (copy :: rs) | None => None end)
      end
  end.

(** [None] is the return code 0. *)
Definition cache_value_clone (src : CacheValue) : Res (option CacheValue) :=
  rs ← clone_rrs (match v_rrs src with Some rs => rs | None => [] end);
  Ret (match rs with
       | Some rs => Some (MkValue (v_answer src) (v_authority src) (v_additional src) (Some rs))
       | None => None
       end).

Definition cache_entry_create (now : Z) (qname : list Z) (qtype qclass : Z)
    (cache_value : CacheValue) : Res (option CacheEntry) :=
  key ← cache_key_create qname qtype qclass;
  v ← cache_value_clone cache_value;
  Ret (match v with Some v => Some (MkEntry key v now None None) | None => None end).

Definition rr_expired (now created : Z) (rr : ResourceRecord) : bool :=
  if rr_ttl rr =? UINT32_MAX then false else Z.quot (now - created) 1000 >=? rr_ttl rr.

Definition value_expired (now created : Z) (v : CacheValue) : bool :=
  match v_rrs v with
  | None => true
  | Some rs => existsb (rr_expired now created) rs
  end.

Definition is_entry_expired (now : Z) (entry : CacheEntry) : bool :=
  value_expired now (created_at entry) (value entry).

(** ** The LRU list *)

Definition set_hotter (p : option loc) (e : CacheEntry) : CacheEntry :=
  MkEntry (key e) (value e) (created_at e) p (colder e).
Definition set_colder (p : option loc) (e : CacheEntry) : CacheEntry :=
  MkEntry (key e) (value e) (created_at e) (hotter e) p.

Definition write_hotter (es : Store CacheEntry) (l : loc) (p : option loc) : Res (Store CacheEntry) :=
  e ← load es l; store es l (set_hotter p e).
Definition write_colder (es : Store CacheEntry) (l : loc) (p : option loc) : Res (Store CacheEntry) :=
  e ← load es l; store es l (set_colder p e).

Definition lru_remove (es : Store CacheEntry) (entry : loc) : Res (Store CacheEntry) :=
  e ← load es entry;
  match hotter e, colder e with
  | Some h, Some c =>
      es ← write_colder es h (Some c);
      es ← write_hotter es c (Some h);
      es ← write_hotter es entry None;
      write_colder es entry None
  | _, _ => Ret es
  end.

(** the second half of [lru_touch] *)
Definition lru_push (es : Store CacheEntry) (head entry : loc) : Res (Store CacheEntry) :=
  hd ← load es head;
  es ← write_colder es entry (colder hd);
  es ← write_hotter es entry (Some head);
  hd ← load es head;
  c ← nonnull (colder hd);
  es ← write_hotter es c (Some entry);
  write_colder es head (Some entry).

Definition lru_touch (es : Store CacheEntry) (head entry : loc) : Res (Store CacheEntry) :=
  e ← load es entry;
  es ← match hotter e, colder e with
       | Some _, Some _ => lru_remove es entry
       | _, _ => Ret es
       end;
  lru_push es head entry.

Section cache.
Context {M : Type} `{!MapOps (list Z) loc M}.
Implicit Types (c : DnsCache M).

Definition set_entries c (es : Store CacheEntry) : DnsCache M :=
  MkCache (table c) (lru_head c) (lru_tail c) (lock c) (size c) (capacity c) es.
Definition set_lock c (b : bool) : DnsCache M :=
  MkCache (table c) (lru_head c) (lru_tail c) b (size c) (capacity c) (entries c).

Definition mtx_lock c : Res (DnsCache M) := if lock c then UB else Ret (set_lock c true).
Definition mtx_unlock c : Res (DnsCache M) := if lock c then Ret (set_lock c false) else UB.

Definition cache_remove_entry c (entry : loc) : Res (DnsCache M) :=
  es ← lru_remove (entries c) entry;
  e ← load es entry;
  t ← map_remove (table c) (key e);
  es ← free es entry;
  Ret (MkCache t (lru_head c) (lru_tail c) (lock c)
         (if size c >? 0 then size c - 1 else size c) (capacity c) es).

(** The walk of [dns_cache_prune_locked] from [entry] on. *)
Fixpoint prune_loop (fuel : nat) (now : Z) c (entry : option loc) : Res (DnsCache M) :=
  match entry with
  | None => UB   (* entry->colder on NULL *)
  | Some l =>
      if decide (l = lru_tail c) then Ret c
      else
        match fuel with
        | O => OutOfFuel
        | S fuel =>
            e ← load (entries c) l;
            let next := colder e in
            c ← if is_entry_expired now e then cache_remove_entry c l else Ret c;
            prune_loop fuel now c next
        end
  end.

(** An entry is visited once. *)
Definition walk_fuel c : nat := S (base.size (cells (entries c))).

Definition dns_cache_prune_locked (now : Z) c : Res (DnsCache M) :=
  hd ← load (entries c) (lru_head c); prune_loop (walk_fuel c) now c (colder hd).

(** ** The interface; the first component is the return code *)

(** Everything [dns_cache_init] does before it reads the ip table. *)
Definition cache_create : Res (option (DnsCache M)) :=
  t ← map_create;
  match t with
  | None => Ret None
  | Some t =>
      let sentinel := MkEntry [] (MkValue 0 0 0 None) 0 None None in
      let '(hd, es) := alloc sentinel empty_store in
      let '(tl, es) := alloc sentinel es in
      es ← write_colder es hd (Some tl);
      es ← write_hotter es tl (Some hd);
      Ret (Some (MkCache t hd tl false 0 DNS_CACHE_DEFAULT_CAPACITY es))
  end.

Definition dns_cache_put (now : Z) (g_cache : option (DnsCache M)) (qname : list Z)
    (type qclass : Z) (cache_value : CacheValue) : Res (Z * option (DnsCache M)) :=
  match g_cache, v_rrs cache_value with
  | Some c, Some _ =>
      k ← cache_key_create qname type qclass;
      c ← mtx_lock c;
      found ← map_get (table c) k;
      match found with
      | Some entry =>
          new_value ← cache_value_clone cache_value;
          match new_value with
          | None => c ← mtx_unlock c; Ret (1, Some c)
          | Some v =>
              e ← load (entries c) entry;
              es ← store (entries c) entry (MkEntry (key e) v now (hotter e) (colder e));
              es ← lru_touch es (lru_head c) entry;
              c ← mtx_unlock (set_entries c es);
              Ret (0, Some c)
          end
      | None =>
          c ← if size c >=? capacity c then
                tl ← load (entries c) (lru_tail c);
                victim ← nonnull (hotter tl);
                if decide (victim = lru_head c) then Ret c else cache_remove_entry c victim
              else Ret c;
          e ← cache_entry_create now qname type qclass cache_value;
          e ← nonnull e;
          let '(entry, es) := alloc e (entries c) in
          '(_, t) ← map_put (table c) (key e) entry;
          es ← lru_touch es (lru_head c) entry;
          c ← mtx_unlock (MkCache t (lru_head c) (lru_tail c) (lock c) (size c + 1)
                            (capacity c) es);
          Ret (0, Some c)
      end
  | _, _ => Ret (1, g_cache)
  end.

(** The result is [None] when the code returns 1, a miss. *)
Definition dns_cache_get (now : Z) (g_cache : option (DnsCache M)) (qname : list Z)
    (type qclass : Z) : Res (option CacheValue * option (DnsCache M)) :=
  match g_cache with
  | None => Ret (None, None)
  | Some c =>
      k ← cache_key_create qname type qclass;
      c ← mtx_lock c;
      found ← map_get (table c) k;
      match found with
      | None => c ← mtx_unlock c; Ret (None, Some c)
      | Some entry =>
          e ← load (entries c) entry;
          if is_entry_expired now e then
            c ← cache_remove_entry c entry;
            c ← mtx_unlock c;
            Ret (None, Some c)
          else
            result ← cache_value_clone (value e);
            match result with
            | None => c ← mtx_unlock c; Ret (None, Some c)
            | Some v =>
                es ← lru_touch (entries c) (lru_head c) entry;
                c ← mtx_unlock (set_entries c es);
                Ret (Some v, Some c)
            end
      end
  end.

Definition dns_cache_prune (now : Z) (g_cache : option (DnsCache M)) :
    Res (Z * option (DnsCache M)) :=
  match g_cache with
  | None => Ret (-1, None)
  | Some c =>
      c ← mtx_lock c;
      c ← dns_cache_prune_locked now c;
      c ← mtx_unlock c;
      Ret (0, Some c)
  end.

Fixpoint free_loop (fuel : nat) c (entry : option loc) : Res (DnsCache M) :=
  match entry with
  | None => UB
  | Some l =>
      if decide (l = lru_tail c) then Ret c
      else
        match fuel with
        | O => OutOfFuel
        | S fuel =>
            e ← load (entries c) l;
            let next := colder e in
            t ← map_remove (table c) (key e);
            es ← free (entries c) l;
            free_loop fuel (MkCache t (lru_head c) (lru_tail c) (lock c) (size c)
                              (capacity c) es) next
        end
  end.

Definition dns_cache_free (g_cache : option (DnsCache M)) : Res (Z * option (DnsCache M)) :=
  match g_cache with
  | None => Ret (0, None)
  | Some c =>
      c ← mtx_lock c;
      hd ← load (entries c) (lru_head c);
      c ← free_loop (walk_fuel c) c (colder hd);
      c ← mtx_unlock c;
      _ ← map_free (table c);
      es ← free (entries c) (lru_head c);
      _ ← free es (lru_tail c);
      Ret (0, None)
  end.
End cache.

(** ** The abstract cache: a list of items, hottest first *)

Record item := MkItem { i_key : list Z; i_value : CacheValue; i_created : Z }.
#[export] Instance item_eq_dec : EqDecision item.
Proof. solve_decision. Defined.

Definition item_expired (now : Z) (i : item) : bool := value_expired now (i_created i) (i_value i).

Definition find_item (k : list Z) (items : list item) : option item :=
  head (filter (λ i, i_key i = k) items).
Definition remove_key (k : list Z) (items : list item) : list item :=
  filter (λ i, i_key i ≠ k) items.

Definition lru_get (now : Z) (k : list Z) (items : list item) : option CacheValue * list item :=
  match find_item k items with
  | None => (None, items)
  | Some i =>
      if item_expired now i then (None, remove_key k items)
      else (Some (i_value i), i :: remove_key k items)
  end.

Definition lru_put (now : Z) (cap : nat) (k : list Z) (v : CacheValue) (items : list item) :
    list item :=
  MkItem k v now ::
  match find_item k items with
  | Some _ => remove_key k items
  | None => if decide (cap ≤ length items)%nat then removelast items else items
  end.

Definition lru_prune (now : Z) (items : list item) : list item :=
  filter (λ i, item_expired now i = false) items.

(** ** The list of entries in memory *)

Definition item_of (e : CacheEntry) : item := MkItem (key e) (value e) (created_at e).

Lemma entry_laws : link_laws hotter colder set_hotter set_colder item_of.
Proof. by split. Qed.

Lemma write_hotter_upd es l p :
  is_Some (cells es !! l) →
  write_hotter es l p = Ret (MkStore (upd (cells es) (Some l) (set_hotter p)) (brk es)).
Proof.
  intros [e He]. unfold write_hotter. rewrite (load_Some _ _ _ He). cbn [mbind Res_bind].
  by apply upd_store.
Qed.

Lemma write_colder_upd es l p :
  is_Some (cells es !! l) →
  write_colder es l p = Ret (MkStore (upd (cells es) (Some l) (set_colder p)) (brk es)).
Proof.
  intros [e He]. unfold write_colder. rewrite (load_Some _ _ _ He). cbn [mbind Res_bind].
  by apply upd_store.
Qed.

Record lru (h : gmap loc CacheEntry) (hd tl : loc) (cs : list (loc * item)) : Prop := {
  lru_seg : seg hotter colder h None (hd :: cs.*1 ++ [tl]) None;
  lru_nodup : NoDup (hd :: cs.*1 ++ [tl]);
  lru_data : Forall (λ c, item_of <$> h !! c.1 = Some c.2) cs;
}.

(** The store after a change of links only. *)
Definition relinked (es es' : Store CacheEntry) : Prop :=
  dom (cells es') = dom (cells es) ∧ brk es' = brk es ∧
  ∀ l, item_of <$> cells es' !! l = item_of <$> cells es !! l.

Lemma relinked_wf es es' : relinked es es' → store_wf es → store_wf es'.
Proof.
  intros (Hd & Hb & _) Hwf l Hl. rewrite Hb. apply Hwf.
  apply elem_of_dom. rewrite <- Hd. by apply elem_of_dom.
Qed.

Lemma relinked_upd es p f b :
  b = brk es → (∀ e, item_of (f e) = item_of e) → relinked es (MkStore (upd (cells es) p f) b).
Proof.
  intros -> Hf. split_and!; [apply upd_dom|done|]. intros l. simpl.
  apply (upd_data item_of). done.
Qed.

Lemma relinked_trans a b c : relinked a b → relinked b c → relinked a c.
Proof. intros (?&?&Hi) (?&?&Hj). split_and!; [congruence..|]. intros l. by rewrite Hj, Hi. Qed.

Lemma relinked_some es es' l : relinked es es' → is_Some (cells es !! l) → is_Some (cells es' !! l).
Proof. intros (Hd & _) Hl. apply elem_of_dom. rewrite Hd. by apply elem_of_dom. Qed.

Lemma lru_parts h hd tl pre l i post :
  lru h hd tl (pre ++ (l, i) :: post) →
  let a := hd :: pre.*1 in let b := post.*1 ++ [tl] in
  seg hotter colder h None (a ++ l :: b) None ∧ NoDup (a ++ l :: b) ∧
  ∃ w c, last a = Some w ∧ head b = Some c ∧ w ∈ a ∧ c ∈ b.
Proof.
  intros [Hs Hn _] a b. rewrite fmap_app, fmap_cons, <- app_assoc in Hs, Hn. split; [exact Hs|]. split; [exact Hn|].
  destruct (last a) as [w|] eqn:Ew; [|by apply last_None in Ew].
  destruct (head b) as [c|] eqn:Ec; [|unfold b in Ec; by destruct post.*1].
  exists w, c. split_and!; [done|done| |by apply head_Some_elem_of]. by apply last_Some_elem_of.
Qed.

Lemma lru_mid h hd tl pre l i post :
  lru h hd tl (pre ++ (l, i) :: post) →
  ∃ e, h !! l = Some e ∧ item_of e = i ∧ hotter e = last (hd :: pre.*1) ∧
    colder e = head (post.*1 ++ [tl]).
Proof.
  intros Hl. destruct (lru_parts _ _ _ _ _ _ _ Hl) as (Hs & _). destruct Hl as [_ _ Hd].
  apply seg_mid in Hs as (e & He & Hp & Hc). exists e. split_and!; [done| |done|done].
  apply Forall_app in Hd as [_ [Hd _]%Forall_cons]. cbn [fst snd] in Hd. rewrite He in Hd.
  by injection Hd.
Qed.

Lemma lru_relink (h h' : gmap loc CacheEntry) hd tl cs :
  seg hotter colder h' None (hd :: cs.*1 ++ [tl]) None → NoDup (hd :: cs.*1 ++ [tl]) →
  (∀ l, item_of <$> h' !! l = item_of <$> h !! l) →
  Forall (λ c, item_of <$> h !! c.1 = Some c.2) cs → lru h' hd tl cs.
Proof.
  intros Hs Hn Hi Hd. split; [done..|]. eapply Forall_impl; [exact Hd|].
  intros c Hc. cbn beta in *. by rewrite Hi.
Qed.

(** The store after one link of an entry was written. *)
Definition relink es (l : loc) (f : CacheEntry → CacheEntry) : Store CacheEntry :=
  MkStore (upd (cells es) (Some l) f) (brk es).

Lemma relinked_refl es : relinked es es.
Proof. done. Qed.
Lemma relinked_hotter es es' l p : relinked es es' → relinked es (relink es' l (set_hotter p)).
Proof. intros R. eapply relinked_trans; [exact R|]. by apply relinked_upd. Qed.
Lemma relinked_colder es es' l p : relinked es es' → relinked es (relink es' l (set_colder p)).
Proof. intros R. eapply relinked_trans; [exact R|]. by apply relinked_upd. Qed.

(** Run the writes of links: the entries of [es] stay where they are. *)
Ltac relinked_tac := repeat first [apply relinked_hotter | apply relinked_colder]; apply relinked_refl.
Ltac write_link es :=
  first [rewrite write_hotter_upd by (apply (relinked_some es); [relinked_tac|done])
        |rewrite write_colder_upd by (apply (relinked_some es); [relinked_tac|done])];
  cbn [mbind Res_bind];
  repeat match goal with |- context [MkStore (upd (cells ?s) (Some ?l) ?f) (brk ?s)] => fold (relink s l f) end.

(** What [lru_remove] writes, [w] and [c] being the neighbours. *)
Definition removed es (w c l : loc) : Store CacheEntry :=
  relink (relink (relink (relink es w (set_colder (Some c))) c (set_hotter (Some w)))
            l (set_hotter None)) l (set_colder None).

Lemma lru_remove_eval es w c l e :
  cells es !! l = Some e → hotter e = Some w → colder e = Some c →
  is_Some (cells es !! w) → is_Some (cells es !! c) →
  lru_remove es l = Ret (removed es w c l) ∧ relinked es (removed es w c l).
Proof.
  intros He Hh Hc Sw Sc. unfold lru_remove. rewrite (load_Some _ _ _ He). cbn [mbind Res_bind]. rewrite Hh, Hc.
  assert (Sl : is_Some (cells es !! l)) by eauto.
  do 4 write_link es. split; [done|]. unfold removed. relinked_tac.
Qed.

(** Taking an entry out of the list. *)
Lemma lru_remove_spec es hd tl pre l i post :
  lru (cells es) hd tl (pre ++ (l, i) :: post) →
  ∃ es' e, lru_remove es l = Ret es' ∧ lru (cells es') hd tl (pre ++ post) ∧ relinked es es' ∧
    cells es' !! l = Some e ∧ item_of e = i ∧ hotter e = None ∧ colder e = None.
Proof.
  intros Hl. destruct (lru_mid _ _ _ _ _ _ _ Hl) as (e & He & Hi & Hh & Hc).
  destruct (lru_parts _ _ _ _ _ _ _ Hl) as (Hs & Hn & w & c & Ew & Ec & Hw & Hcb).
  destruct (nodup_mid _ _ _ Hn) as [Hn' [Hla Hlb]%not_elem_of_app]. rewrite Ew in Hh. rewrite Ec in Hc.
  destruct (lru_remove_eval es w c l e He Hh Hc) as [E R].
  { apply (seg_lookup _ _ _ _ _ _ w Hs). apply elem_of_app. by left. }
  { apply (seg_lookup _ _ _ _ _ _ c Hs). apply elem_of_app. right. by right. }
  assert (Hlw : Some w ≠ Some l) by congruence. assert (Hlc : Some c ≠ Some l) by congruence.
  exists (removed es w c l), (set_colder None (set_hotter None e)). split_and!; [done| |done| |done..].
  2: { apply upd_eq, upd_eq. unfold relink. cbn [cells]. by rewrite !upd_ne. }
  apply (lru_relink (cells es)); [| |apply R|].
  - rewrite fmap_app, <- app_assoc. change (hd :: pre.*1 ++ post.*1 ++ [tl]) with ((hd :: pre.*1) ++ post.*1 ++ [tl]).
    eapply (seg_ext _ _ (upd (upd (cells es) (Some w) (set_colder (Some c))) (Some c) (set_hotter (Some w)))).
    + intros x Hx. unfold removed, relink. cbn [cells]. rewrite !(upd_ne _ (Some l)); [done|..];
        intros [= <-]; apply elem_of_app in Hx as [?|?]; done.
    + rewrite <- Ew, <- Ec. eapply chain_unlink; [apply entry_laws|exact Hn|exact Hs].
  - rewrite fmap_app, <- app_assoc. exact Hn'.
  - pose proof (lru_data _ _ _ _ Hl) as Hd. apply Forall_app in Hd as [? [_ ?]%Forall_cons].
    by apply Forall_app.
Qed.

(** What [lru_push] writes, [c] being the entry behind the sentinel. *)
Definition pushed es (hd c l : loc) : Store CacheEntry :=
  relink (relink (relink (relink es l (set_colder (Some c))) l (set_hotter (Some hd)))
            c (set_hotter (Some l))) hd (set_colder (Some l)).

Lemma lru_push_eval es hd c l eh :
  cells es !! hd = Some eh → colder eh = Some c → is_Some (cells es !! c) → is_Some (cells es !! l) → l ≠ hd →
  lru_push es hd l = Ret (pushed es hd c l) ∧ relinked es (pushed es hd c l).
Proof.
  intros Eh Hc Sc Sl Hne. unfold lru_push. rewrite (load_Some _ _ _ Eh). cbn [mbind Res_bind]. rewrite Hc.
  do 2 write_link es. rewrite (load_Some _ hd eh) by (unfold relink; cbn [cells]; rewrite !upd_ne by congruence; done).
  cbn [mbind Res_bind]. rewrite Hc. cbn [mbind Res_bind nonnull].
  do 2 write_link es. split; [done|]. unfold pushed. relinked_tac.
Qed.

(** Putting an unlinked entry in front. *)
Lemma lru_push_spec es hd tl cs l e :
  lru (cells es) hd tl cs → cells es !! l = Some e → l ∉ hd :: cs.*1 ++ [tl] →
  ∃ es', lru_push es hd l = Ret es' ∧ lru (cells es') hd tl ((l, item_of e) :: cs) ∧ relinked es es'.
Proof.
  intros Hl He [Hlh Hlb]%not_elem_of_cons.
  pose proof (lru_seg _ _ _ _ Hl) as Hs. pose proof (lru_nodup _ _ _ _ Hl) as Hn. set (b := cs.*1 ++ [tl]) in *.
  destruct (head b) as [c|] eqn:Ec; [|unfold b in Ec; by destruct cs.*1].
  assert (Hc : c ∈ b) by (by apply head_Some_elem_of in Ec).
  assert (Hhc : hd ≠ c) by (apply NoDup_cons in Hn as [? _]; congruence).
  destruct (seg_mid hotter colder (cells es) [] hd b Hs) as (eh & Heh & _ & Hcold). rewrite Ec in Hcold.
  destruct (lru_push_eval es hd c l eh Heh Hcold) as [E R]; [|by eauto|done|].
  { apply (seg_lookup _ _ _ _ _ _ c Hs). by right. }
  exists (pushed es hd c l). split_and!; [done| |done].
  assert (Hn' : NoDup ([hd] ++ l :: b)).
  { simpl. rewrite !NoDup_cons, elem_of_cons in *. destruct Hn. split_and!; [|done|done].
    intros [?|?]; congruence. }
  apply (lru_relink (cells es)); [|exact Hn'|apply R|].
  - cbn [fmap list_fmap fst app]. fold b. change (hd :: l :: b) with ([hd] ++ l :: b).
    unfold pushed, relink. cbn [cells]. rewrite (upd_comm _ (Some c) (Some hd)) by congruence.
    rewrite <- Ec. change (Some hd) with (last [hd]).
    eapply chain_link; [apply entry_laws|exact Hn'| |by apply upd_eq, upd_eq|done|by rewrite Ec].
    eapply seg_ext; [|exact Hs]. intros x Hx. rewrite !upd_ne; [done|..];
      intros [= ->]; apply elem_of_cons in Hx as [?|?]; done.
  - apply Forall_cons. split; [cbn [fst snd]; by rewrite He|apply Hl].
Qed.

Lemma lru_touch_linked es hd tl pre l i post :
  lru (cells es) hd tl (pre ++ (l, i) :: post) →
  ∃ es', lru_touch es hd l = Ret es' ∧ lru (cells es') hd tl ((l, i) :: pre ++ post) ∧
    relinked es es'.
Proof.
  intros Hl. destruct (lru_mid _ _ _ _ _ _ _ Hl) as (e & He & Hi & Hh & Hc).
  destruct (lru_remove_spec _ _ _ _ _ _ _ Hl) as (es1 & e1 & E1 & Hl1 & R1 & He1 & Hi1 & _).
  unfold lru_touch. rewrite (load_Some _ _ _ He). cbn [mbind Res_bind]. rewrite Hh, Hc.
  destruct (last (hd :: pre.*1)) as [h|] eqn:Eh; [|by apply last_None in Eh].
  destruct (head (post.*1 ++ [tl])) as [c|] eqn:Ec; [|by destruct post.*1].
  rewrite E1. cbn [mbind Res_bind].
  destruct (lru_push_spec es1 hd tl (pre ++ post) l e1 Hl1 He1) as (es2 & E2 & Hl2 & R2).
  { destruct (lru_parts _ _ _ _ _ _ _ Hl) as (_ & Hn & _).
    destruct (nodup_mid _ _ _ Hn) as [_ Hx]. by rewrite fmap_app, <- app_assoc. }
  exists es2. rewrite Hi1 in Hl2. split_and!; [done..|]. by eapply relinked_trans.
Qed.

Lemma lru_touch_new es hd tl cs l e :
  lru (cells es) hd tl cs → cells es !! l = Some e → hotter e = None →
  l ∉ hd :: cs.*1 ++ [tl] →
  ∃ es', lru_touch es hd l = Ret es' ∧ lru (cells es') hd tl ((l, item_of e) :: cs) ∧ relinked es es'.
Proof.
  intros Hl He Hh Hfresh. unfold lru_touch. rewrite (load_Some _ _ _ He). cbn [mbind Res_bind].
  rewrite Hh. cbn [mbind Res_bind]. by apply lru_push_spec.
Qed.

(** ** Representation *)

Section rep.
Context {M : Type} `{!MapOps (list Z) loc M, !MapLaws (list Z) loc M}.
Implicit Types (c : DnsCache M) (cs : list (loc * item)).

Definition keys cs : list (list Z) := (λ x, i_key x.2) <$> cs.

(** The cache with its list [cs]; [b] is the state of the lock. *)
Record cache_at (b : bool) c cs : Prop := {
  cr_lru : lru (cells (entries c)) (lru_head c) (lru_tail c) cs;
  cr_wf : store_wf (entries c);
  cr_keys : NoDup (keys cs);
  cr_table : ∃ tm, map_rep (table c) tm ∧
    ∀ k l, tm !! k = Some l ↔ ∃ i, (l, i) ∈ cs ∧ i_key i = k;
  cr_size : size c = Z.of_nat (length cs);
  cr_cap : 1 ≤ capacity c ∧ size c ≤ capacity c;
  cr_lock : lock c = b;
}.

Definition cache_rep c (items : list item) : Prop := ∃ cs, cache_at false c cs ∧ cs.*2 = items.

(** Values a clone reproduces. *)
Definition value_ok (v : CacheValue) : Prop := ∃ rs, v_rrs v = Some rs ∧ Forall rr_ok rs.

Lemma clone_rrs_ok rs : Forall rr_ok rs → clone_rrs rs = Ret (Some rs).
Proof.
  induction 1 as [|r rs [Hn Hd] _ IH]; [done|]. cbn [clone_rrs]. unfold rr_clone.
  rewrite (strdup_cstring _ Hn). cbn [mbind Res_bind]. rewrite (slice_all _ _ Hd).
  cbn [mbind Res_bind]. rewrite IH. by destruct r.
Qed.

Lemma cache_value_clone_ok v : value_ok v → cache_value_clone v = Ret (Some v).
Proof.
  intros (rs & Hv & Hrs). unfold cache_value_clone. rewrite Hv, clone_rrs_ok by done.
  destruct v. simpl in *. by rewrite Hv.
Qed.

Lemma cs_lookup cs l i : (l, i) ∈ cs → ∃ pre post, cs = pre ++ (l, i) :: post.
Proof. intros (pre & post & ->)%list_elem_of_split. eauto. Qed.

Lemma nodup_other (pre post : list (loc * item)) l i :
  NoDup (keys (pre ++ (l, i) :: post)) → ∀ x, x ∈ pre ++ post → i_key x.2 ≠ i_key i.
Proof.
  unfold keys. rewrite fmap_app, fmap_cons. intros [_ Hx]%nodup_mid x Hc E. cbn [snd] in Hx.
  apply Hx. rewrite <- fmap_app, <- E. by apply list_elem_of_fmap_2 with (f := λ x, i_key x.2).
Qed.

Lemma remove_key_mid pre l i post :
  NoDup (keys (pre ++ (l, i) :: post)) →
  remove_key (i_key i) (pre ++ (l, i) :: post).*2 = (pre ++ post).*2.
Proof.
  intros Hnd. pose proof (nodup_other _ _ _ _ Hnd) as Hne. unfold remove_key.
  rewrite !fmap_app, fmap_cons, filter_app, filter_cons. cbn [snd].
  rewrite decide_False by tauto.
  assert (Hall : ∀ qs : list (loc * item), (∀ x, x ∈ qs → i_key x.2 ≠ i_key i) →
    filter (λ j, i_key j ≠ i_key i) qs.*2 = qs.*2).
  { induction qs as [|q qs IH]; intros Hq; [done|]. rewrite fmap_cons, filter_cons.
    rewrite decide_True by (apply Hq; by left). f_equal. apply IH. intros x Hc. apply Hq. by right. }
  rewrite !Hall; [done|..]; intros x Hc; apply Hne, elem_of_app; auto.
Qed.

Lemma find_item_mid pre l i post :
  NoDup (keys (pre ++ (l, i) :: post)) →
  find_item (i_key i) (pre ++ (l, i) :: post).*2 = Some i.
Proof.
  intros Hnd. pose proof (nodup_other _ _ _ _ Hnd) as Hne. unfold find_item.
  rewrite fmap_app, fmap_cons, filter_app, filter_cons. cbn [snd]. rewrite decide_True by done.
  assert (Hnil : filter (λ j, i_key j = i_key i) pre.*2 = []).
  { clear Hnd. induction pre as [|q pre IH]; [done|]. rewrite fmap_cons, filter_cons.
    rewrite decide_False by (apply Hne; by left). apply IH. intros x Hc. apply Hne. by right. }
  by rewrite Hnil.
Qed.

Lemma find_item_None k cs : (∀ x, x ∈ cs → i_key x.2 ≠ k) → find_item k cs.*2 = None.
Proof.
  intros Hne. unfold find_item. induction cs as [|q cs IH]; [done|].
  rewrite fmap_cons, filter_cons. rewrite decide_False by (apply Hne; by left).
  apply IH. intros x Hc. apply Hne. by right.
Qed.

(** Looking a key up. *)
Lemma cache_find b c cs k :
  cache_at b c cs →
  (map_get (table c) k = Ret None ∧ (∀ x, x ∈ cs → i_key x.2 ≠ k) ∧ find_item k cs.*2 = None) ∨
  (∃ pre l i post, cs = pre ++ (l, i) :: post ∧ i_key i = k ∧ map_get (table c) k = Ret (Some l)).
Proof.
  intros Hc. destruct (cr_table _ _ _ Hc) as (tm & Hm & Htm).
  rewrite (map_get_spec _ _ k Hm). destruct (tm !! k) as [l|] eqn:E.
  - right. apply Htm in E as (i & Hin & Hk). destruct (cs_lookup _ _ _ Hin) as (pre & post & ->).
    by exists pre, l, i, post.
  - left. split; [done|].
    assert (Hne : ∀ x, x ∈ cs → i_key x.2 ≠ k).
    { intros [l i] Hin Hk. assert (tm !! k = Some l) by (apply Htm; eauto). congruence. }
    split; [done|]. by apply find_item_None.
Qed.

(** [cache_remove_entry] deletes one element of the list. *)
Lemma cache_remove_spec b c pre l i post :
  cache_at b c (pre ++ (l, i) :: post) →
  ∃ c', cache_remove_entry c l = Ret c' ∧ cache_at b c' (pre ++ post) ∧
    capacity c' = capacity c ∧ lru_head c' = lru_head c ∧ lru_tail c' = lru_tail c ∧
    ∀ l', l' ≠ l → item_of <$> cells (entries c') !! l' = item_of <$> cells (entries c) !! l'.
Proof.
  intros Hc. pose proof (cr_keys _ _ _ Hc) as Hnd.
  destruct (lru_remove_spec _ _ _ _ _ _ _ (cr_lru _ _ _ Hc))
    as (es & e & E & Hl & R & He & Hi & _).
  unfold cache_remove_entry. rewrite E. cbn [mbind Res_bind].
  rewrite (load_Some _ _ _ He). cbn [mbind Res_bind].
  destruct (cr_table _ _ _ Hc) as (tm & Hm & Htm).
  destruct (map_remove_spec _ _ (key e) Hm) as (t' & -> & Hm'). cbn [mbind Res_bind].
  rewrite (free_Some _ _ _ He). cbn [mbind Res_bind].
  pose proof (nodup_other _ _ _ _ Hnd) as Hother.
  assert (Hke : key e = i_key i) by (by rewrite <- Hi).
  assert (Hln : l ∉ lru_head c :: (pre ++ post).*1 ++ [lru_tail c]).
  { pose proof (lru_nodup _ _ _ _ (cr_lru _ _ _ Hc)) as Hn.
    rewrite fmap_app, fmap_cons, <- app_assoc in Hn. cbn [fst app] in Hn.
    change (lru_head c :: pre.*1 ++ l :: post.*1 ++ [lru_tail c])
      with ((lru_head c :: pre.*1) ++ l :: post.*1 ++ [lru_tail c]) in Hn.
    destruct (nodup_mid _ _ _ Hn) as [_ Hx]. by rewrite fmap_app, <- app_assoc. }
  pose proof (cr_size _ _ _ Hc) as Hsz. rewrite length_app in Hsz. simpl in Hsz.
  pose proof (cr_cap _ _ _ Hc). rewrite Z.gtb_ltb, (proj2 (Z.ltb_lt _ _)) by lia.
  eexists. split; [done|]. split_and!; [|done..|].
  - split; simpl.
    + destruct Hl as [Hs Hn Hd]. split; [|done|].
      * eapply seg_ext; [|exact Hs]. intros x Hx. apply lookup_delete_ne. congruence.
      * rewrite Forall_forall in *. intros x Hx. rewrite lookup_delete_ne; [by apply Hd|].
        intros ->. apply Hln. right. apply elem_of_app. left. by apply list_elem_of_fmap_2.
    + apply store_wf_delete. eapply relinked_wf; [done|apply Hc].
    + unfold keys in *. rewrite fmap_app, fmap_cons in Hnd. rewrite fmap_app.
      by destruct (nodup_mid _ _ _ Hnd).
    + exists (delete (key e) tm). split; [done|]. intros k l'. rewrite lookup_delete_Some, Htm, Hke.
      split.
      * intros (Hk & j & Hj & Hjk). exists j. split; [|done].
        rewrite elem_of_app, elem_of_cons in Hj. rewrite elem_of_app.
        destruct Hj as [?|[[= -> ->]|?]]; auto. congruence.
      * intros (j & Hj & <-). split; [|exists j; split; [|done]].
        -- apply not_eq_sym. exact (Hother _ Hj).
        -- rewrite elem_of_app, elem_of_cons. apply elem_of_app in Hj as [?|?]; auto.
    + rewrite length_app. lia.
    + lia.
    + apply Hc.
  - intros l' Hl'. simpl. rewrite lookup_delete_ne by done. apply R.
Qed.

Lemma lru_locs_some h hd tl cs l :
  lru h hd tl cs → l ∈ hd :: cs.*1 ++ [tl] → is_Some (h !! l).
Proof. intros Hl. by apply (seg_lookup _ _ _ _ _ _ l (lru_seg _ _ _ _ Hl)). Qed.

(** New data in an entry. *)
Lemma lru_set_data es hd tl pre l i post e j :
  lru (cells es) hd tl (pre ++ (l, i) :: post) → cells es !! l = Some e →
  let e' := MkEntry (i_key j) (i_value j) (i_created j) (hotter e) (colder e) in
  lru (<[l := e']> (cells es)) hd tl (pre ++ (l, j) :: post).
Proof.
  intros Hl He e'. destruct Hl as [Hs Hn Hd].
  assert (Hfst : (pre ++ (l, j) :: post).*1 = (pre ++ (l, i) :: post).*1)
    by (by rewrite !fmap_app).
  split; rewrite ?Hfst; [|done|].
  - eapply seg_links; [|exact Hs]. intros x n Hx.
    destruct (decide (x = l)) as [->|]; [|rewrite lookup_insert_ne by done; eauto].
    rewrite lookup_insert_eq. eexists. split; [done|]. rewrite He in Hx. by injection Hx as <-.
  - assert (Hx : l ∉ (pre ++ post).*1).
    { rewrite fmap_app, fmap_cons, <- app_assoc in Hn. cbn [fst app] in Hn.
      change (hd :: pre.*1 ++ l :: post.*1 ++ [tl])
        with ((hd :: pre.*1) ++ l :: post.*1 ++ [tl]) in Hn.
      destruct (nodup_mid _ _ _ Hn) as [_ Hx]. rewrite fmap_app. intros Hin. apply Hx.
      cbn [app]. right. rewrite app_assoc. apply elem_of_app. by left. }
    apply Forall_app in Hd as [Hd1 [_ Hd2]%Forall_cons].
    assert (Hold : ∀ qs, (∀ x, x ∈ qs → x ∈ pre ++ post) →
      Forall (λ x, item_of <$> cells es !! x.1 = Some x.2) qs →
      Forall (λ x, item_of <$> <[l := e']> (cells es) !! x.1 = Some x.2) qs).
    { intros qs Hqs Hf. rewrite Forall_forall in *. intros x Hin.
      rewrite lookup_insert_ne; [by apply Hf|]. intros ->. apply Hx.
      apply list_elem_of_fmap_2. by apply Hqs. }
    apply Forall_app. split; [apply Hold; [|done]; intros; apply elem_of_app; by left|].
    apply Forall_cons. split; [|apply Hold; [|done]; intros; apply elem_of_app; by right].
    cbn [fst snd]. rewrite lookup_insert_eq. by destruct j.
Qed.

Lemma fresh_not_in b c cs : cache_at b c cs → brk (entries c) ∉ lru_head c :: cs.*1 ++ [lru_tail c].
Proof.
  intros Hc Hin. apply (lru_locs_some _ _ _ _ _ (cr_lru _ _ _ Hc)) in Hin.
  rewrite (store_wf_fresh _ (cr_wf _ _ _ Hc)) in Hin. by destruct Hin.
Qed.

(** The eviction step makes room. *)
Lemma evict_spec c cs :
  cache_at true c cs →
  ∃ c' cs', (if size c >=? capacity c then
       tl ← load (entries c) (lru_tail c);
       victim ← nonnull (hotter tl);
       if decide (victim = lru_head c) then Ret c else cache_remove_entry c victim
     else Ret c) = Ret c' ∧ cache_at true c' cs' ∧ size c' < capacity c' ∧
    capacity c' = capacity c ∧ lru_head c' = lru_head c ∧ lru_tail c' = lru_tail c ∧
    cs' = if decide (Z.to_nat (capacity c) ≤ length cs)%nat then removelast cs else cs.
Proof.
  intros Hc. pose proof (cr_cap _ _ _ Hc). pose proof (cr_size _ _ _ Hc). rewrite Z.geb_leb.
  destruct (capacity c <=? size c) eqn:E; bools.
  2: { exists c, cs. split_and!; [done..|]. by rewrite decide_False by lia. }
  rewrite decide_True by lia.
  destruct cs as [|[l i] cs _] using rev_ind; [simpl in *; lia|].
  rewrite removelast_last. pose proof (lru_seg _ _ _ _ (cr_lru _ _ _ Hc)) as Hs.
  rewrite fmap_app in Hs. cbn [fmap list_fmap fst] in Hs.
  change (lru_head c :: (cs.*1 ++ [l]) ++ [lru_tail c])
    with ((lru_head c :: cs.*1 ++ [l]) ++ lru_tail c :: []) in Hs.
  destruct (seg_mid _ _ _ _ _ _ Hs) as (tl & Htl & Hh & _).
  rewrite (load_Some _ _ _ Htl). cbn [mbind Res_bind]. rewrite Hh, app_comm_cons, last_snoc.
  cbn [nonnull mbind Res_bind].
  pose proof (lru_nodup _ _ _ _ (cr_lru _ _ _ Hc)) as Hn.
  rewrite decide_False.
  2: { intros ->. apply NoDup_cons in Hn as [Hx _]. apply Hx. rewrite fmap_app, !elem_of_app.
       left. right. by left. }
  destruct (cache_remove_spec true c cs l i [] Hc) as (c' & E' & Hc' & Hcap & Hhd & Htl' & _).
  rewrite app_nil_r in Hc'. exists c', cs. split_and!; [done..| |done|done|done|done].
  rewrite Hcap, (cr_size _ _ _ Hc'). rewrite length_app in *. simpl in *. lia.
Qed.

Lemma cache_unlock c cs : cache_at true c cs → mtx_unlock c = Ret (set_lock c false) ∧ cache_at false (set_lock c false) cs.
Proof. intros Hc. unfold mtx_unlock. rewrite (cr_lock _ _ _ Hc). split; [done|]. by destruct Hc. Qed.

Lemma cache_lock c cs : cache_at false c cs → mtx_lock c = Ret (set_lock c true) ∧ cache_at true (set_lock c true) cs.
Proof. intros Hc. unfold mtx_lock. rewrite (cr_lock _ _ _ Hc). split; [done|]. by destruct Hc. Qed.

(** Moving a known entry to the front, possibly with new data. *)
Lemma cache_touch_spec c pre l i post :
  cache_at true c (pre ++ (l, i) :: post) →
  ∃ es, lru_touch (entries c) (lru_head c) l = Ret es ∧
    cache_at true (set_entries c es) ((l, i) :: pre ++ post).
Proof.
  intros Hc. destruct (lru_touch_linked _ _ _ _ _ _ _ (cr_lru _ _ _ Hc)) as (es & E & Hl & R).
  assert (Hp : (l, i) :: pre ++ post ≡ₚ pre ++ (l, i) :: post) by apply Permutation_middle.
  assert (Hn : NoDup (keys ((l, i) :: pre ++ post))) by (unfold keys; rewrite Hp; apply Hc).
  exists es. split; [done|]. split; simpl; try apply Hc.
  - done.
  - eapply relinked_wf; [done|apply Hc].
  - exact Hn.
  - destruct (cr_table _ _ _ Hc) as (tm & Hm & Htm). exists tm. split; [done|].
    intros k l'. rewrite Htm. by setoid_rewrite Hp.
  - rewrite (cr_size _ _ _ Hc), <- Hp. done.
Qed.

Lemma cache_set_spec c pre l i post e j :
  cache_at true c (pre ++ (l, i) :: post) → cells (entries c) !! l = Some e → i_key j = i_key i →
  let e' := MkEntry (i_key j) (i_value j) (i_created j) (hotter e) (colder e) in
  ∃ es, store (entries c) l e' = Ret es ∧ cache_at true (set_entries c es) (pre ++ (l, j) :: post).
Proof.
  intros Hc He Hk e'. rewrite (store_Some _ _ _ _ He). eexists. split; [done|].
  assert (Hkeys : keys (pre ++ (l, j) :: post) = keys (pre ++ (l, i) :: post)).
  { unfold keys. rewrite !fmap_app, !fmap_cons. cbn [snd]. by rewrite Hk. }
  split; simpl; try apply Hc.
  - exact (lru_set_data _ _ _ _ _ _ _ _ j (cr_lru _ _ _ Hc) He).
  - apply store_wf_insert; [apply Hc|eauto].
  - rewrite Hkeys. apply Hc.
  - destruct (cr_table _ _ _ Hc) as (tm & Hm & Htm). exists tm. split; [done|].
    intros k l'. rewrite Htm.
    split; intros (x & Hx & Hkx); rewrite elem_of_app, elem_of_cons in Hx;
      (destruct Hx as [?|[[= -> ->]|?]];
        [exists x|eexists|exists x]; rewrite elem_of_app, elem_of_cons; split; eauto); congruence.
  - rewrite (cr_size _ _ _ Hc), !length_app. done.
Qed.

(** ** The operations on a well-formed cache *)

Lemma removelast_snd cs : (removelast cs).*2 = removelast cs.*2.
Proof. induction cs as [|x [|y cs] IH]; [done..|]. cbn [removelast fmap list_fmap] in *. by rewrite IH. Qed.

Lemma removelast_sub cs x : x ∈ removelast cs → x ∈ cs.
Proof.
  induction cs as [|y [|z cs] IH]; [done|by intros ?%elem_of_nil|]. cbn [removelast].
  rewrite !(elem_of_cons _ _ y). intros [->|Hx]; [by left|right; by apply IH].
Qed.

(** A fresh entry linked in front. *)
Lemma cache_new_spec c cs e k :
  cache_at true c cs → size c < capacity c → (∀ x, x ∈ cs → i_key x.2 ≠ k) → key e = k →
  hotter e = None →
  let l := brk (entries c) in
  ∃ r t es c', map_put (table c) k l = Ret (r, t) ∧
    lru_touch (alloc e (entries c)).2 (lru_head c) l = Ret es ∧
    mtx_unlock (MkCache t (lru_head c) (lru_tail c) (lock c) (size c + 1) (capacity c) es)
      = Ret c' ∧ capacity c' = capacity c ∧ cache_at false c' ((l, item_of e) :: cs).
Proof.
  intros Hc Hsz Hne Hk Hh l. pose proof (fresh_not_in _ _ _ Hc) as Hl.
  destruct (cr_table _ _ _ Hc) as (tm & Hm & Htm).
  destruct (map_put_spec _ _ k l Hm) as (t & Et & Hm').
  assert (Hlru : lru (cells (alloc e (entries c)).2) (lru_head c) (lru_tail c) cs).
  { destruct (cr_lru _ _ _ Hc) as [Hs Hn Hd]. simpl. split; [|done|].
    - eapply seg_ext; [|exact Hs]. intros x Hx. apply lookup_insert_ne. intros <-. by apply Hl.
    - rewrite Forall_forall in *. intros x Hx. rewrite lookup_insert_ne; [by apply Hd|].
      intros E. apply Hl. right. apply elem_of_app. left. rewrite E. by apply list_elem_of_fmap_2. }
  destruct (lru_touch_new (alloc e (entries c)).2 (lru_head c) (lru_tail c) cs l e)
    as (es & Ees & Hl' & R); [done|apply lookup_insert_eq|done|done|].
  pose proof (cr_lock _ _ _ Hc) as Hlock. pose proof (cr_cap _ _ _ Hc).
  eexists _, t, es, _. split; [exact Et|]. split; [exact Ees|].
  unfold mtx_unlock. cbn [lock]. rewrite Hlock. split; [done|]. split; [done|].
  split; simpl; [done| | | | |lia|done].
  - eapply relinked_wf; [exact R|]. apply store_wf_alloc, Hc.
  - apply NoDup_cons. split; [|apply Hc]. intros ((l' & i) & E & Hin)%list_elem_of_fmap.
    cbn [snd] in E. apply (Hne _ Hin). cbn [snd]. congruence.
  - exists (<[k := l]> tm). split; [done|]. intros k' l'. split.
    + intros [[<- <-]|[Hkk Hl2]]%lookup_insert_Some.
      * exists (item_of e). split; [by left|done].
      * apply Htm in Hl2 as (i & Hin & Hik). exists i. split; [by right|done].
    + intros (i & [E|Hin]%elem_of_cons & Hik).
      * injection E as -> ->. rewrite <- Hik. simpl. rewrite Hk. by rewrite lookup_insert_eq.
      * rewrite lookup_insert_ne; [apply Htm; eauto|]. intros <-. by apply (Hne _ Hin).
  - rewrite (cr_size _ _ _ Hc). lia.
Qed.

Lemma dns_cache_put_spec now c items qname type qclass k v :
  cache_rep c items → cache_key_create qname type qclass = Ret k → value_ok v →
  ∃ c', dns_cache_put now (Some c) qname type qclass v = Ret (0, Some c') ∧
    cache_rep c' (lru_put now (Z.to_nat (capacity c)) k v items) ∧ capacity c' = capacity c.
Proof.
  intros (cs & Hc & <-) Hk Hv. pose proof Hv as (rs & Hrs & _).
  unfold dns_cache_put. rewrite Hrs, Hk. cbn [mbind Res_bind].
  destruct (cache_lock _ _ Hc) as [-> Hc1]. cbn [mbind Res_bind].
  destruct (cache_find _ _ _ k Hc1) as [(E & Hne & Hfind)|(pre & l & i & post & -> & Hik & E)];
    rewrite E; cbn [mbind Res_bind].
  - destruct (evict_spec _ _ Hc1) as (c2 & cs2 & E2 & Hc2 & Hsz & Hcap & Hhd & Htl & Hcs2).
    rewrite E2. cbn [capacity set_lock] in Hcs2. cbn [mbind Res_bind]. unfold cache_entry_create. rewrite Hk. cbn [mbind Res_bind].
    rewrite cache_value_clone_ok by done. cbn [mbind Res_bind nonnull].
    set (e := MkEntry k v now None None).
    destruct (cache_new_spec c2 cs2 e k Hc2 Hsz) as (r & t & es & c3 & Et & Ees & Eu & Hcap3 & Hc3);
      [|done|done|].
    { rewrite Hcs2. intros x Hx. apply Hne. case_decide; [by apply removelast_sub|done]. }
    unfold alloc in Ees |- *. cbn [snd] in Ees. cbn [key e]. rewrite Et. cbn [mbind Res_bind].
    rewrite Ees. cbn [mbind Res_bind]. rewrite Eu. cbn [mbind Res_bind].
    exists c3. split_and!; [done| |by rewrite Hcap3, Hcap]. eexists. split; [exact Hc3|].
    unfold lru_put. rewrite Hfind. cbn [fmap list_fmap snd item_of]. f_equal.
    rewrite length_fmap, Hcs2. case_decide; [apply removelast_snd|done].
  - rewrite cache_value_clone_ok by done. cbn [mbind Res_bind].
    destruct (lru_mid _ _ _ _ _ _ _ (cr_lru _ _ _ Hc1)) as (e & He & Hi & _).
    rewrite (load_Some _ _ _ He). cbn [mbind Res_bind].
    assert (Hke : key e = k) by (rewrite <- Hik, <- Hi; done).
    destruct (cache_set_spec _ _ _ _ _ e (MkItem k v now) Hc1 He) as (es & Es & Hc2); [done|].
    cbn [i_key i_value i_created] in Es. rewrite Hke, Es. cbn [mbind Res_bind].
    destruct (cache_touch_spec _ _ _ _ _ Hc2) as (es2 & Es2 & Hc3).
    change (entries (set_entries (set_lock c true) es)) with es in Es2.
    change (lru_head (set_entries (set_lock c true) es)) with (lru_head (set_lock c true)) in Es2.
    change (set_entries (set_entries (set_lock c true) es) es2)
      with (set_entries (set_lock c true) es2) in Hc3.
    rewrite Es2. cbn [mbind Res_bind].
    destruct (cache_unlock _ _ Hc3) as [-> Hc4]. cbn [mbind Res_bind].
    eexists. split_and!; [done| |done]. eexists. split; [exact Hc4|].
    unfold lru_put. rewrite <- Hik, (find_item_mid _ _ _ _ (cr_keys _ _ _ Hc)).
    by rewrite (remove_key_mid _ _ _ _ (cr_keys _ _ _ Hc)).
Qed.

Lemma dns_cache_get_spec now c items qname type qclass k :
  cache_rep c items → cache_key_create qname type qclass = Ret k →
  Forall (λ i, value_ok (i_value i)) items →
  ∃ c', dns_cache_get now (Some c) qname type qclass = Ret ((lru_get now k items).1, Some c') ∧
    cache_rep c' (lru_get now k items).2 ∧ capacity c' = capacity c.
Proof.
  intros (cs & Hc & <-) Hk Hv. unfold dns_cache_get. rewrite Hk. cbn [mbind Res_bind].
  destruct (cache_lock _ _ Hc) as [-> Hc1]. cbn [mbind Res_bind]. unfold lru_get.
  destruct (cache_find _ _ _ k Hc1) as [(E & Hne & Hfind)|(pre & l & i & post & -> & <- & E)];
    rewrite E; cbn [mbind Res_bind].
  - rewrite Hfind. destruct (cache_unlock _ _ Hc1) as [Eu Hc2]. rewrite Eu. cbn [mbind Res_bind].
    eexists. split; [done|]. split; [|done]. by eexists.
  - rewrite (find_item_mid _ _ _ _ (cr_keys _ _ _ Hc)).
    destruct (lru_mid _ _ _ _ _ _ _ (cr_lru _ _ _ Hc1)) as (e & He & Hi & _).
    rewrite (load_Some _ _ _ He). cbn [mbind Res_bind].
    assert (Hexp : is_entry_expired now e = item_expired now i) by (by rewrite <- Hi).
    rewrite Hexp. destruct (item_expired now i) eqn:Ex.
    + destruct (cache_remove_spec _ _ _ _ _ _ Hc1) as (c2 & -> & Hc2 & Hcap & _).
      cbn [mbind Res_bind]. destruct (cache_unlock _ _ Hc2) as [-> Hc3]. cbn [mbind Res_bind].
      eexists. split; [done|]. split; [|done]. eexists. split; [exact Hc3|].
      by rewrite (remove_key_mid _ _ _ _ (cr_keys _ _ _ Hc)).
    + assert (Hvi : value_ok (value e)).
      { rewrite fmap_app, fmap_cons in Hv. apply Forall_app in Hv as [_ [Hv _]%Forall_cons].
        by rewrite <- Hi in Hv. }
      rewrite cache_value_clone_ok by done. cbn [mbind Res_bind].
      destruct (cache_touch_spec _ _ _ _ _ Hc1) as (es & -> & Hc2). cbn [mbind Res_bind].
      destruct (cache_unlock _ _ Hc2) as [-> Hc3]. cbn [mbind Res_bind].
      eexists. split; [by rewrite <- Hi|]. split; [|done]. eexists. split; [exact Hc3|].
      cbn [snd fmap list_fmap]. by rewrite (remove_key_mid _ _ _ _ (cr_keys _ _ _ Hc)).
Qed.

(** One visit per entry is enough fuel. *)
Lemma lru_fuel b c cs : cache_at b c cs → (length cs < walk_fuel c)%nat.
Proof.
  intros Hc. unfold walk_fuel. pose proof (lru_nodup _ _ _ _ (cr_lru _ _ _ Hc)) as Hn.
  apply NoDup_cons in Hn as [_ (Hn & _)%NoDup_app].
  assert (Hsub : list_to_set (C := gset loc) cs.*1 ⊆ dom (cells (entries c))).
  { intros l. rewrite elem_of_list_to_set. intros Hl. apply elem_of_dom.
    eapply lru_locs_some; [apply Hc|]. right. apply elem_of_app. by left. }
  apply subseteq_size in Hsub. rewrite size_list_to_set, size_dom, length_fmap in Hsub by done.
  lia.
Qed.

Lemma lru_not_tail b c pre l i post : cache_at b c (pre ++ (l, i) :: post) → l ≠ lru_tail c.
Proof.
  intros Hc ->. pose proof (lru_nodup _ _ _ _ (cr_lru _ _ _ Hc)) as Hn.
  rewrite fmap_app, fmap_cons, <- app_assoc in Hn. cbn [fst app] in Hn.
  apply NoDup_cons in Hn as [_ (_ & _ & Hn)%NoDup_app].
  apply NoDup_cons in Hn as [Hn _]. apply Hn, elem_of_app. right. by left.
Qed.

Lemma prune_loop_spec fuel now b c pre todo :
  cache_at b c (pre ++ todo) → (length todo ≤ fuel)%nat →
  ∃ c', prune_loop fuel now c (head (todo.*1 ++ [lru_tail c])) = Ret c' ∧
    cache_at b c' (pre ++ filter (λ x, item_expired now x.2 = false) todo) ∧
    capacity c' = capacity c.
Proof.
  revert fuel c pre. induction todo as [|[l i] todo IH]; intros fuel c pre Hc Hf.
  { exists c. split_and!; [|done..]. destruct fuel; simpl; by rewrite decide_True. }
  destruct fuel as [|fuel]; [simpl in Hf; lia|].
  destruct (lru_mid _ _ _ _ _ _ _ (cr_lru _ _ _ Hc)) as (e & He & Hi & _ & Hcold).
  cbn [fmap list_fmap fst app head prune_loop]. rewrite decide_False by apply (lru_not_tail _ _ _ _ _ _ Hc).
  rewrite (load_Some _ _ _ He). cbn [mbind Res_bind].
  assert (Hexp : is_entry_expired now e = item_expired now i) by (by rewrite <- Hi).
  rewrite Hexp, Hcold, filter_cons. cbn [snd]. destruct (item_expired now i) eqn:E.
  - rewrite decide_False by done.
    destruct (cache_remove_spec _ _ _ _ _ _ Hc) as (c1 & -> & Hc1 & Hcap & _ & Htl & _).
    cbn [mbind Res_bind]. rewrite <- Htl. rewrite <- Hcap.
    apply IH; [done|simpl in Hf; lia].
  - rewrite decide_True by done. cbn [mbind Res_bind].
    rewrite (cons_middle (l, i)), app_assoc in Hc |- *. apply IH; [done|simpl in Hf; lia].
Qed.

Lemma lru_first h hd tl cs : lru h hd tl cs → ∃ e, h !! hd = Some e ∧ colder e = head (cs.*1 ++ [tl]).
Proof.
  intros Hl. pose proof (lru_seg _ _ _ _ Hl) as Hs. simpl in Hs.
  destruct Hs as [(e & He & _ & Hx) _]. exists e. split; [done|]. by rewrite Hx, first_of_None.
Qed.

Lemma dns_cache_prune_spec now c items :
  cache_rep c items →
  ∃ c', dns_cache_prune now (Some c) = Ret (0, Some c') ∧
    cache_rep c' (lru_prune now items) ∧ capacity c' = capacity c.
Proof.
  intros (cs & Hc & <-). unfold dns_cache_prune.
  destruct (cache_lock _ _ Hc) as [-> Hc1]. cbn [mbind Res_bind]. unfold dns_cache_prune_locked.
  destruct (lru_first _ _ _ _ (cr_lru _ _ _ Hc1)) as (e & He & Hcold).
  rewrite (load_Some _ _ _ He). cbn [mbind Res_bind]. rewrite Hcold.
  destruct (prune_loop_spec (walk_fuel (set_lock c true)) now true _ [] cs Hc1)
    as (c2 & -> & Hc2 & Hcap); [pose proof (lru_fuel _ _ _ Hc1); lia|].
  cbn [mbind Res_bind]. destruct (cache_unlock _ _ Hc2) as [-> Hc3]. cbn [mbind Res_bind].
  eexists. split; [done|]. split; [|done]. eexists. split; [exact Hc3|].
  unfold lru_prune. clear. cbn [app]. induction cs as [|x cs IH]; [done|].
  rewrite fmap_cons, !filter_cons. case_decide; [|done]. cbn [fmap list_fmap]. by rewrite IH.
Qed.

Lemma cache_create_spec :
  ∃ c, cache_create = Ret (Some c) ∧ cache_rep c [] ∧ capacity c = DNS_CACHE_DEFAULT_CAPACITY.
Proof.
  unfold cache_create. destruct map_create_spec as (t & -> & Hm). cbn [mbind Res_bind].
  eexists. split; [reflexivity|]. split; [|done]. exists []. split; [|done].
  split; simpl; try done.
  - split; [|by_compute|constructor]. simpl.
    split; [eexists; split; [reflexivity|done]|].
    split; [eexists; split; [reflexivity|done]|done].
  - apply store_wf_check. by_compute.
  - by apply NoDup_nil.
  - exists ∅. split; [done|]. intros k l. rewrite lookup_empty. split; [done|].
    by intros (i & ?%elem_of_nil & _).
Qed.

(** Freeing: the entries from [todo] on are still linked. *)
Lemma free_loop_spec fuel c prev todo tm :
  seg hotter colder (cells (entries c)) prev (todo ++ [lru_tail c]) None →
  NoDup (lru_head c :: todo ++ [lru_tail c]) → is_Some (cells (entries c) !! lru_head c) →
  map_rep (table c) tm → (length todo ≤ fuel)%nat →
  ∃ c' tm', free_loop fuel c (head (todo ++ [lru_tail c])) = Ret c' ∧
    map_rep (table c') tm' ∧ lock c' = lock c ∧
    lru_head c' = lru_head c ∧ lru_tail c' = lru_tail c ∧
    is_Some (cells (entries c') !! lru_head c) ∧ is_Some (cells (entries c') !! lru_tail c).
Proof.
  revert fuel c prev tm. induction todo as [|l todo IH]; intros fuel c prev tm Hs Hn Hhd Hm Hf.
  { exists c, tm. split_and!; try done; [destruct fuel; simpl; by rewrite decide_True|].
    simpl in Hs. destruct Hs as [(n & Hn' & _) _]. by exists n. }
  destruct fuel as [|fuel]; [simpl in Hf; lia|]. cbn [app head free_loop].
  cbn [app] in Hs, Hn. apply NoDup_cons in Hn as [Hh Hn]. apply NoDup_cons in Hn as [Hl Hn].
  rewrite elem_of_cons in Hh. rewrite decide_False.
  2: { intros ->. apply Hl, elem_of_app. right. by left. }
  simpl in Hs. destruct Hs as [(e & He & _ & Hcold) Hs].
  rewrite (load_Some _ _ _ He). cbn [mbind Res_bind].
  destruct (map_remove_spec _ _ (key e) Hm) as (t' & -> & Hm'). cbn [mbind Res_bind].
  rewrite (free_Some _ _ _ He). cbn [mbind Res_bind]. rewrite Hcold, first_of_None.
  assert (Hlh : l ≠ lru_head c) by (intros ->; apply Hh; by left).
  set (c1 := MkCache t' _ _ _ _ _ _).
  destruct (IH fuel c1 (Some l) (delete (key e) tm)) as (c' & tm' & E & ? & ? & ? & ? & ? & ?).
  - eapply seg_ext; [|exact Hs]. intros x Hx. apply lookup_delete_ne. intros <-. exact (Hl Hx).
  - apply NoDup_cons. split; [|done]. intros ?. apply Hh. by right.
  - simpl. by rewrite lookup_delete_ne.
  - done.
  - simpl in Hf. lia.
  - exists c', tm'. by split_and!.
Qed.

Lemma dns_cache_free_spec c items :
  cache_rep c items → dns_cache_free (Some c) = Ret (0, None).
Proof.
  intros (cs & Hc & _). unfold dns_cache_free.
  destruct (cache_lock _ _ Hc) as [-> Hc1]. cbn [mbind Res_bind].
  destruct (lru_first _ _ _ _ (cr_lru _ _ _ Hc1)) as (e & He & Hcold).
  rewrite (load_Some _ _ _ He). cbn [mbind Res_bind]. rewrite Hcold.
  pose proof (lru_nodup _ _ _ _ (cr_lru _ _ _ Hc1)) as Hn.
  destruct (cr_table _ _ _ Hc1) as (tm & Hm & _).
  pose proof (lru_seg _ _ _ _ (cr_lru _ _ _ Hc1)) as Hs. destruct Hs as [_ Hs].
  destruct (free_loop_spec (walk_fuel (set_lock c true)) (set_lock c true) _ cs.*1 tm Hs Hn)
    as (c' & tm' & -> & Hm' & Hlock & Hh & Ht & Sh & St); [by eexists|done| |].
  { rewrite length_fmap. pose proof (lru_fuel _ _ _ Hc1). lia. }
  cbn [mbind Res_bind]. unfold mtx_unlock. rewrite Hlock. cbn [lock set_lock mbind Res_bind].
  cbn [table set_lock lru_head lru_tail entries]. rewrite (map_free_spec _ _ Hm'). cbn [mbind Res_bind entries lru_head lru_tail].
  rewrite Hh, Ht. destruct Sh as [eh Eh], St as [et Et].
  rewrite (free_Some _ _ _ Eh). cbn [mbind Res_bind].
  rewrite (free_Some _ _ et); [done|]. cbn [cells]. rewrite lookup_delete_ne; [done|].
  intros E. apply NoDup_cons in Hn as [Hx _]. apply Hx. rewrite E.
  apply elem_of_app. right. by left.
Qed.
End rep.

(** ** Keys are injective *)

Definition digit (b : Z) : Prop := 48 ≤ b < 58.

Lemma digits_spec fuel n acc :
  0 ≤ n < 10 ^ Z.of_nat fuel →
  ∃ ds, digits fuel n acc = ds ++ acc ∧ Forall digit ds ∧
    fold_left (λ a b, 10 * a + (b - 48)) ds 0 = n.
Proof.
  revert n acc. induction fuel as [|fuel IH]; intros n acc Hn.
  { exists []. split_and!; [done|constructor|simpl in *; lia]. }
  cbn [digits]. pose proof (Z.mod_pos_bound n 10). pose proof (Z.div_mod n 10).
  assert (Hd : digit (48 + n mod 10)) by (unfold digit; lia).
  destruct (n / 10 =? 0) eqn:E; bools.
  - exists [48 + n mod 10]. split_and!; [done|by apply Forall_singleton|cbn [fold_left]; lia].
  - destruct (IH (n / 10) (48 + n mod 10 :: acc)) as (ds & -> & Hds & Hv).
    { rewrite Nat2Z.inj_succ, Z.pow_succ_r in Hn by lia.
      split; [apply Z.div_pos; lia|apply Z.div_lt_upper_bound; lia]. }
    exists (ds ++ [48 + n mod 10]). split_and!; [by rewrite <- app_assoc| |].
    + apply Forall_app. split; [done|by apply Forall_singleton].
    + rewrite fold_left_app, Hv. cbn [fold_left]. lia.
Qed.

Lemma print_u_spec n :
  is_u16 n → Forall digit (print_u n) ∧ fold_left (λ a b, 10 * a + (b - 48)) (print_u n) 0 = n.
Proof.
  intros Hn. unfold print_u. destruct (digits_spec 10 n []) as (ds & -> & ? & ?).
  - unfold is_u16 in Hn. simpl. lia.
  - by rewrite app_nil_r.
Qed.

(** A field of digits is read back up to its bar. *)
Lemma field_inj (a b r r' : list Z) :
  Forall digit a → Forall digit b → a ++ bar :: r = b ++ bar :: r' → a = b ∧ r = r'.
Proof.
  intros Ha. revert b. induction Ha as [|x a Hx Ha IH]; intros b Hb E.
  - destruct Hb as [|y b Hy _]; [split; [done|by injection E]|].
    injection E as E _. unfold digit, bar in *. lia.
  - destruct Hb as [|y b Hy Hb]; [injection E as E _; unfold digit, bar in *; lia|].
    injection E as -> E. by destruct (IH b Hb E) as [-> ->].
Qed.

Lemma cache_key_spec s r qtype qclass :
  no_nul s →
  cache_key_create (s ++ 0 :: r) qtype qclass =
    Ret (print_u (wrap_u16 qclass) ++ bar :: print_u (wrap_u16 qtype) ++ bar :: s).
Proof.
  intros Hs. unfold cache_key_create. rewrite (strlen_app _ _ Hs). cbn [mbind Res_bind].
  by rewrite Nat2Z.id, take_app_length.
Qed.

Lemma cache_key_inj s r t c s' r' t' c' k :
  no_nul s → no_nul s' → is_u16 t → is_u16 c → is_u16 t' → is_u16 c' →
  cache_key_create (s ++ 0 :: r) t c = Ret k → cache_key_create (s' ++ 0 :: r') t' c' = Ret k →
  s = s' ∧ t = t' ∧ c = c'.
Proof.
  intros Hs Hs' Ht Hc Ht' Hc'. rewrite !cache_key_spec by done. rewrite !wrap_u16_small by done.
  intros [= <-] [= E]. destruct (print_u_spec _ Ht) as [D1 V1], (print_u_spec _ Hc) as [D2 V2],
    (print_u_spec _ Ht') as [D3 V3], (print_u_spec _ Hc') as [D4 V4].
  apply field_inj in E as [E1 E]; [|done..]. apply field_inj in E as [E2 E]; [|done..].
  split_and!; congruence.
Qed.

(** ** Sequences of calls

    An execution of the server thread and of the pruning thread is a sequence of
    calls, each at the time of its clock reading: [Threads.v] proves that the
    mutex makes it so, access by access. *)

Inductive cache_op :=
| OpPut (qname : list Z) (type qclass : Z) (v : CacheValue)
| OpGet (qname : list Z) (type qclass : Z)
| OpPrune.

Inductive answer := Code (r : Z) | Found (v : option CacheValue).

(** Arguments of the program: a terminated name, well-formed records. *)
Definition op_ok (op : cache_op) : Prop :=
  match op with
  | OpPut q t c v => is_Some (match strlen q with Ret n => Some n | _ => None end) ∧ value_ok v
  | OpGet q t c => is_Some (match strlen q with Ret n => Some n | _ => None end)
  | OpPrune => True
  end.

Section run.
Context {M : Type} `{!MapOps (list Z) loc M, !MapLaws (list Z) loc M}.

Definition run_op (now : Z) (op : cache_op) (g : option (DnsCache M)) :
    Res (answer * option (DnsCache M)) :=
  match op with
  | OpPut q t c v => '(r, g) ← dns_cache_put now g q t c v; Ret (Code r, g)
  | OpGet q t c => '(r, g) ← dns_cache_get now g q t c; Ret (Found r, g)
  | OpPrune => '(r, g) ← dns_cache_prune now g; Ret (Code r, g)
  end.

Fixpoint run_ops (ops : list (Z * cache_op)) (g : option (DnsCache M)) :
    Res (list answer * option (DnsCache M)) :=
  match ops with
  | [] => Ret ([], g)
  | (now, op) :: ops =>
      '(a, g) ← run_op now op g; '(answers, g) ← run_ops ops g; Ret (a :: answers, g)
  end.
End run.

Definition key_of (q : list Z) (t c : Z) : list Z :=
  match cache_key_create q t c with Ret k => k | _ => [] end.

Definition spec_op (now : Z) (cap : nat) (op : cache_op) (items : list item) : answer * list item :=
  match op with
  | OpPut q t c v => (Code 0, lru_put now cap (key_of q t c) v items)
  | OpGet q t c => let '(r, items) := lru_get now (key_of q t c) items in (Found r, items)
  | OpPrune => (Code 0, lru_prune now items)
  end.

Fixpoint spec_ops (cap : nat) (ops : list (Z * cache_op)) (items : list item) :
    list answer * list item :=
  match ops with
  | [] => ([], items)
  | (now, op) :: ops =>
      let '(a, items) := spec_op now cap op items in
      let '(answers, items) := spec_ops cap ops items in (a :: answers, items)
  end.

Lemma key_of_spec q t c :
  is_Some (match strlen q with Ret n => Some n | _ => None end) →
  cache_key_create q t c = Ret (key_of q t c).
Proof.
  unfold key_of, cache_key_create. destruct (strlen q); intros [? E]; try done.
Qed.

Definition items_ok (items : list item) : Prop := Forall (λ i, value_ok (i_value i)) items.

Lemma removelast_Forall {A} (P : A → Prop) l : Forall P l → Forall P (removelast l).
Proof.
  induction 1 as [|x l Hx Hl IH]; [done|]. cbn [removelast]. destruct l; [constructor|].
  by constructor.
Qed.

Lemma filter_keeps {A} (P Q : A → Prop) `{∀ x, Decision (Q x)} l : Forall P l → Forall P (filter Q l).
Proof. rewrite !Forall_forall. intros Hl x [_ Hx]%list_elem_of_filter. by apply Hl. Qed.

Lemma lru_put_Forall (P : item → Prop) now cap k v items :
  P (MkItem k v now) → Forall P items → Forall P (lru_put now cap k v items).
Proof.
  intros Hk Hi. unfold lru_put. constructor; [done|]. destruct (find_item _ _); [by apply filter_keeps|].
  case_decide; [by apply removelast_Forall|done].
Qed.

Lemma items_ok_spec now cap op items :
  op_ok op → items_ok items → items_ok (spec_op now cap op items).2.
Proof.
  intros Hop Hi. unfold items_ok in *. destruct op as [q t c v|q t c|]; simpl in *.
  - apply lru_put_Forall; [apply Hop|done].
  - unfold lru_get. destruct (find_item _ items) as [i|] eqn:E; [|done].
    destruct (item_expired now i); simpl; [by apply filter_keeps|].
    apply Forall_cons. split; [|by apply filter_keeps].
    unfold find_item in E. apply head_Some_elem_of, list_elem_of_filter in E as [_ Hin].
    rewrite Forall_forall in Hi. by apply Hi.
  - by apply filter_keeps.
Qed.

Section refinement.
Context {M : Type} `{!MapOps (list Z) loc M, !MapLaws (list Z) loc M}.
Implicit Types (c : DnsCache M).

Lemma run_op_spec now op c items :
  op_ok op → items_ok items → cache_rep c items →
  ∃ c', run_op now op (Some c) = Ret ((spec_op now (Z.to_nat (capacity c)) op items).1, Some c') ∧
    cache_rep c' (spec_op now (Z.to_nat (capacity c)) op items).2 ∧ capacity c' = capacity c.
Proof.
  intros Hop Hi Hc. destruct op as [q t cl v|q t cl|]; cbn [run_op spec_op op_ok fst snd] in *.
  - destruct Hop as [Hq Hv].
    destruct (dns_cache_put_spec now c items q t cl _ v Hc (key_of_spec _ _ _ Hq) Hv)
      as (c' & -> & ? & ?). simpl. eauto.
  - destruct (dns_cache_get_spec now c items q t cl _ Hc (key_of_spec _ _ _ Hop) Hi)
      as (c' & -> & Hr & Hcap). simpl. destruct (lru_get now _ items). eauto.
  - destruct (dns_cache_prune_spec now c items Hc) as (c' & -> & ? & ?). simpl. eauto.
Qed.

Lemma run_ops_spec ops c items :
  Forall (λ o, op_ok o.2) ops → items_ok items → cache_rep c items →
  ∃ c', run_ops ops (Some c) = Ret ((spec_ops (Z.to_nat (capacity c)) ops items).1, Some c') ∧
    cache_rep c' (spec_ops (Z.to_nat (capacity c)) ops items).2 ∧ capacity c' = capacity c.
Proof.
  intros Hops. revert c items. induction Hops as [|[now op] ops Hop _ IH]; intros c items Hi Hc.
  { simpl. eauto. }
  cbn [run_ops spec_ops snd] in *.
  destruct (run_op_spec now op c items Hop Hi Hc) as (c1 & -> & Hc1 & Hcap).
  cbn [mbind Res_bind]. pose proof (items_ok_spec now (Z.to_nat (capacity c)) op items Hop Hi) as Hi1.
  destruct (spec_op now _ op items) as [a items1]. cbn [fst snd] in *.
  destruct (IH c1 items1 Hi1 Hc1) as (c2 & -> & Hc2 & Hcap2). cbn [mbind Res_bind].
  rewrite Hcap in *. destruct (spec_ops _ ops items1) as [answers items2]. simpl in *.
  exists c2. split_and!; [done..|congruence].
Qed.

Lemma cache_rep_keys c items : cache_rep c items → NoDup (i_key <$> items).
Proof. intros (cs & Hc & <-). rewrite <- list_fmap_compose. apply (cr_keys _ _ _ Hc). Qed.

Lemma cache_rep_bound c items : cache_rep c items → Z.of_nat (length items) ≤ capacity c.
Proof.
  intros (cs & Hc & <-). rewrite length_fmap. pose proof (cr_cap _ _ _ Hc).
  pose proof (cr_size _ _ _ Hc). lia.
Qed.

(** ** Properties *)

(** C1. The cache implements a least-recently-used list, over any hash table
    that satisfies the map interface.  A put inserts or replaces its key in
    front and, when a new key finds the cache full, drops the coldest item;
    a get answers the value of a live item, moved to the front, and removes
    an expired one; a prune removes exactly the expired items.  Every call
    releases the mutex and keeps at most [capacity] items, and
    [dns_cache_free] frees every entry and both sentinels exactly once. *)
Theorem cache_refines_lru (now : Z) c items (qname : list Z) (type qclass : Z) (k : list Z)
    (v : CacheValue) :
  cache_rep c items → items_ok items → value_ok v →
  cache_key_create qname type qclass = Ret k →
  (∃ c', dns_cache_put now (Some c) qname type qclass v = Ret (0, Some c') ∧
     cache_rep c' (lru_put now (Z.to_nat (capacity c)) k v items)) ∧
  (∃ c', dns_cache_get now (Some c) qname type qclass =
       Ret ((lru_get now k items).1, Some c') ∧ cache_rep c' (lru_get now k items).2) ∧
  (∃ c', dns_cache_prune now (Some c) = Ret (0, Some c') ∧ cache_rep c' (lru_prune now items)) ∧
  dns_cache_free (Some c) = Ret (0, None) ∧
  lock c = false ∧ Z.of_nat (length items) ≤ capacity c.
Proof.
  intros Hc Hi Hv Hk. split_and!.
  - destruct (dns_cache_put_spec now c items qname type qclass k v Hc Hk Hv) as (c' & ? & ? & _).
    eauto.
  - destruct (dns_cache_get_spec now c items qname type qclass k Hc Hk Hi) as (c' & ? & ? & _).
    eauto.
  - destruct (dns_cache_prune_spec now c items Hc) as (c' & ? & ? & _). eauto.
  - by eapply dns_cache_free_spec.
  - destruct Hc as (cs & Hc & _). apply (cr_lock _ _ _ Hc).
  - by apply cache_rep_bound.
Qed.

(** C22. Whatever the interleaving of puts, gets and prunes from a new cache,
    no call has undefined behaviour, the answers are those of the abstract
    list, and the cache never holds more than 1024 items. *)
Theorem cache_trace_refines (ops : list (Z * cache_op)) :
  Forall (λ o, op_ok o.2) ops →
  ∃ c0 c : DnsCache M, cache_create = Ret (Some c0) ∧
    run_ops ops (Some c0) = Ret ((spec_ops 1024 ops []).1, Some c) ∧
    cache_rep c (spec_ops 1024 ops []).2 ∧ (length (spec_ops 1024 ops []).2 ≤ 1024)%nat ∧
    lock c = false.
Proof.
  intros Hops. destruct (cache_create_spec (M := M)) as (c0 & E & Hc0 & Hcap).
  destruct (run_ops_spec ops c0 [] Hops) as (c & Er & Hc & Hcap'); [constructor|done|].
  rewrite Hcap in *. change (Z.to_nat DNS_CACHE_DEFAULT_CAPACITY) with 1024%nat in *.
  exists c0, c. split_and!; [done..| |].
  - pose proof (cache_rep_bound _ _ Hc) as Hb. rewrite Hcap' in Hb.
    unfold DNS_CACHE_DEFAULT_CAPACITY in Hb. lia.
  - destruct Hc as (cs & Hc & _). apply (cr_lock _ _ _ Hc).
Qed.

Lemma find_item_key k items i : find_item k items = Some i → i_key i = k ∧ i ∈ items.
Proof. unfold find_item. intros Hi%head_Some_elem_of. by apply list_elem_of_filter in Hi. Qed.

Lemma find_item_removed k items : find_item k (remove_key k items) = None.
Proof.
  unfold find_item. destruct (head _) as [i|] eqn:E; [|done].
  apply head_Some_elem_of, list_elem_of_filter in E as [Hi [Hk _]%list_elem_of_filter]. done.
Qed.

(** What has expired stays so. *)
Lemma item_expired_later now now' i : now ≤ now' → item_expired now i = true → item_expired now' i = true.
Proof.
  intros Hle. unfold item_expired, value_expired. destruct (v_rrs _) as [rs|]; [|done].
  rewrite !existsb_exists. intros (rr & Hin & E). exists rr. split; [done|]. unfold rr_expired in *.
  destruct (rr_ttl rr =? UINT32_MAX); [done|]. rewrite Z.geb_leb in *. bools. apply Z.leb_le.
  pose proof (Z.quot_le_mono (now - i_created i) (now' - i_created i) 1000 ltac:(lia) ltac:(lia)). lia.
Qed.

Lemma find_item_filter (P : item → bool) k items :
  NoDup (i_key <$> items) →
  find_item k (filter P items) =
    match find_item k items with Some i => if P i then Some i else None | None => None end.
Proof.
  unfold find_item. induction items as [|i items IH]; intros Hnd; [done|].
  rewrite fmap_cons, NoDup_cons in Hnd. destruct Hnd as [Hi Hnd].
  rewrite !filter_cons. destruct (decide (i_key i = k)) as [Hk|Hk].
  - cbn [head]. destruct (P i) eqn:E; cbn [Is_true]; [by rewrite decide_True, filter_cons, decide_True by done|].
    rewrite decide_False by (by intros []). rewrite IH by done.
    destruct (filter (λ i0, i_key i0 = k) items) as [|j l] eqn:Ef; [done|]. destruct Hi.
    assert (Hj : j ∈ filter (λ i0, i_key i0 = k) items) by (rewrite Ef; left).
    apply list_elem_of_filter in Hj as [Hjk Hj]. rewrite Hk, <- Hjk. by apply list_elem_of_fmap_2.
  - case_decide; [rewrite filter_cons, decide_False by done|]; by apply IH.
Qed.

(** Pruning takes a key away exactly when its item has expired. *)
Lemma find_item_prune now k items :
  NoDup (i_key <$> items) →
  find_item k (lru_prune now items) =
    match find_item k items with Some i => if item_expired now i then None else Some i | None => None end.
Proof.
  intros Hnd. unfold lru_prune.
  rewrite (list_filter_iff _ (λ i, negb (item_expired now i)) items) by (intros i; by destruct (item_expired now i)).
  rewrite (find_item_filter (λ i, negb (item_expired now i)) k items Hnd).
  destruct (find_item k items) as [i|]; [|done]. by destruct (item_expired now i).
Qed.

Lemma lru_put_length now cap k v items : (length (lru_put now cap k v items) ≤ S (length items))%nat.
Proof.
  unfold lru_put. destruct (find_item _ _); simpl.
  - pose proof (length_filter (λ i, i_key i ≠ k) items). unfold remove_key. lia.
  - case_decide; [|lia]. pose proof (f_equal length (removelast_firstn_len items)) as E.
    rewrite length_take in E. lia.
Qed.

Lemma find_item_put_same now cap k v items :
  find_item k (lru_put now cap k v items) = Some (MkItem k v now).
Proof. unfold find_item, lru_put. rewrite filter_cons. by rewrite decide_True. Qed.

Lemma find_item_remove k k' items : k ≠ k' → find_item k' (remove_key k items) = find_item k' items.
Proof.
  intros Hne. unfold find_item, remove_key. f_equal. rewrite list_filter_filter_l; [done|].
  intros i <-. congruence.
Qed.

Lemma find_item_put_other now cap k k' v items :
  k ≠ k' → (length items < cap)%nat →
  find_item k' (lru_put now cap k v items) = find_item k' items.
Proof.
  intros Hne Hlen. unfold lru_put. unfold find_item at 1. rewrite filter_cons.
  rewrite decide_False by done. destruct (find_item k items).
  - by apply find_item_remove.
  - by rewrite decide_False by lia.
Qed.

Lemma value_expired_iff now created v rs :
  v_rrs v = Some rs → created ≤ now → Forall (λ rr, 0 ≤ rr_ttl rr) rs →
  value_expired now created v = true ↔
    Exists (λ rr, rr_ttl rr ≠ UINT32_MAX ∧ rr_ttl rr * 1000 ≤ now - created) rs.
Proof.
  intros Hv Hnow Hrs. unfold value_expired. rewrite Hv, existsb_exists, Exists_exists.
  rewrite Forall_forall in Hrs. split; intros (rr & Hin & He); exists rr.
  - apply list_elem_of_In in Hin. split; [done|]. unfold rr_expired in He.
    specialize (Hrs _ Hin). destruct (rr_ttl rr =? UINT32_MAX) eqn:E; [done|]. bools.
    split; [done|]. rewrite Z.quot_div_nonneg in He by lia.
    pose proof (Z.mul_div_le (now - created) 1000). lia.
  - specialize (Hrs _ Hin). split; [by apply list_elem_of_In|]. destruct He as [He1 He2].
    unfold rr_expired. rewrite (proj2 (Z.eqb_neq _ _)) by done.
    rewrite Z.geb_leb. apply Z.leb_le. rewrite Z.quot_div_nonneg by lia.
    apply Z.div_le_lower_bound; lia.
Qed.

(** What is cached is what is answered, for as long as its records live:
    after a put, a get of the same question answers the value until the first
    moment at which some record with a finite TTL has aged past it (ages
    count in whole seconds), and misses from then on; the other questions of
    a cache with room are answered as before. *)
Theorem cache_put_get (now now' : Z) c items (q q' : list Z) (t t' cl cl' : Z) (k k' : list Z)
    (v : CacheValue) (rs : list ResourceRecord) :
  cache_rep c items → items_ok items → value_ok v → v_rrs v = Some rs →
  cache_key_create q t cl = Ret k → cache_key_create q' t' cl' = Ret k' →
  now ≤ now' → Forall (λ rr, 0 ≤ rr_ttl rr) rs → Z.of_nat (length items) < capacity c →
  ∃ c1, dns_cache_put now (Some c) q t cl v = Ret (0, Some c1) ∧
    (∃ r c2, dns_cache_get now' (Some c1) q t cl = Ret (r, Some c2) ∧
       (r = Some v ↔
          ¬ Exists (λ rr, rr_ttl rr ≠ UINT32_MAX ∧ rr_ttl rr * 1000 ≤ now' - now) rs) ∧
       (r = None ↔
          Exists (λ rr, rr_ttl rr ≠ UINT32_MAX ∧ rr_ttl rr * 1000 ≤ now' - now) rs)) ∧
    (k ≠ k' →
       ∃ r c2 c2', dns_cache_get now' (Some c1) q' t' cl' = Ret (r, Some c2) ∧
         dns_cache_get now' (Some c) q' t' cl' = Ret (r, Some c2')).
Proof.
  intros Hc Hi Hv Hrs Hk Hk' Hnow Httl Hroom.
  destruct (dns_cache_put_spec now c items q t cl k v Hc Hk Hv) as (c1 & E1 & Hc1 & _).
  assert (Hi1 : items_ok (lru_put now (Z.to_nat (capacity c)) k v items)).
  { unfold key_of in *. pose proof (items_ok_spec now (Z.to_nat (capacity c)) (OpPut q t cl v) items) as H.
    cbn [spec_op snd op_ok] in H. unfold key_of in H. rewrite Hk in H. apply H; [|done].
    split; [|done]. unfold cache_key_create in Hk. destruct (strlen q); [by eexists|done|done]. }
  exists c1. split; [done|]. split.
  - destruct (dns_cache_get_spec now' c1 _ q t cl k Hc1 Hk Hi1) as (c2 & E2 & _).
    eexists _, c2. split; [exact E2|]. unfold lru_get. rewrite find_item_put_same.
    unfold item_expired. cbn [i_created i_value].
    pose proof (value_expired_iff now' now v rs Hrs Hnow Httl) as Hiff.
    destruct (value_expired now' now v); cbn [fst]; split; split; intros Hx; try done.
    + by destruct Hx; apply Hiff.
    + by apply Hiff.
    + intros ?%Hiff. done.
    + by apply Hiff in Hx.
  - intros Hne. destruct (dns_cache_get_spec now' c1 _ q' t' cl' k' Hc1 Hk' Hi1) as (c2 & E2 & _).
    destruct (dns_cache_get_spec now' c _ q' t' cl' k' Hc Hk' Hi) as (c2' & E2' & _).
    eexists _, c2, c2'. split; [exact E2|]. rewrite E2'. do 2 f_equal. unfold lru_get.
    rewrite find_item_put_other by (done || lia). destruct (find_item k' items); [|done].
    by destruct (item_expired now' i).
Qed.

(** A value without records, such as an error response, never expires:
    however late, a get answers it. *)
Theorem cache_empty_value_stays (now now' : Z) c items (q : list Z) (t cl : Z) (k : list Z)
    (an ns ar : Z) :
  cache_rep c items → items_ok items → cache_key_create q t cl = Ret k →
  ∃ c1 c2, dns_cache_put now (Some c) q t cl (MkValue an ns ar (Some [])) = Ret (0, Some c1) ∧
    dns_cache_get now' (Some c1) q t cl = Ret (Some (MkValue an ns ar (Some [])), Some c2).
Proof.
  intros Hc Hi Hk. set (v := MkValue an ns ar (Some [])).
  assert (Hv : value_ok v) by (exists []; split; [done|constructor]).
  destruct (dns_cache_put_spec now c items q t cl k v Hc Hk Hv) as (c1 & E1 & Hc1 & _).
  assert (Hi1 : items_ok (lru_put now (Z.to_nat (capacity c)) k v items)).
  { pose proof (items_ok_spec now (Z.to_nat (capacity c)) (OpPut q t cl v) items) as H.
    cbn [spec_op snd op_ok] in H. unfold key_of in H. rewrite Hk in H. apply H; [|done].
    split; [|done]. unfold cache_key_create in Hk. destruct (strlen q); [by eexists|done|done]. }
  destruct (dns_cache_get_spec now' c1 _ q t cl k Hc1 Hk Hi1) as (c2 & E2 & _).
  exists c1, c2. split; [done|]. rewrite E2. unfold lru_get. by rewrite find_item_put_same.
Qed.
End refinement.

(** Two questions share a cache entry only if they are the same question:
    the key "qclass|qtype|qname" determines the name, the type and the class. *)
Theorem cache_key_injective (s r s' r' : list Z) (t c t' c' : Z) (k : list Z) :
  no_nul s → no_nul s' → is_u16 t → is_u16 c → is_u16 t' → is_u16 c' →
  cache_key_create (s ++ 0 :: r) t c = Ret k → cache_key_create (s' ++ 0 :: r') t' c' = Ret k →
  s = s' ∧ t = t' ∧ c = c'.
Proof. apply cache_key_inj. Qed.

(** ["1|28|" ++ qname] *)
Lemma cache_key_injective_witness :
  cache_key_create [1; 97; 0] 28 1 = Ret [49; 124; 50; 56; 124; 1; 97] ∧
  ∀ s r t c, no_nul s → is_u16 t → is_u16 c →
    cache_key_create (s ++ 0 :: r) t c = Ret [49; 124; 50; 56; 124; 1; 97] → t = 28 ∧ c = 1.
Proof.
  split; [reflexivity|]. intros s r t c Hs Ht Hc E.
  destruct (cache_key_injective s r [1; 97] [] t c 28 1 [49; 124; 50; 56; 124; 1; 97]) as (_ & Et & Ec).
  - exact Hs.
  - by_compute.
  - exact Ht.
  - exact Hc.
  - unfold is_u16. lia.
  - unfold is_u16. lia.
  - exact E.
  - reflexivity.
  - split; [exact Et|exact Ec].
Defined.

(** ** The cache over the hash table of the library *)

Abbreviation ctable := (HashMap.HashMap (list Z) loc).
#[local] Instance demo_ops : MapOps (list Z) loc ctable := @HashMap.str_table_ops always loc.
#[local] Instance demo_laws : MapLaws (list Z) loc ctable := @HashMap.str_table_laws always always_total loc.

Definition demo_value : CacheValue :=
  MkValue 1 0 0 (Some [MkRR [1; 97; 0] 1 1 300 4 [10; 0; 0; 1]]).

Lemma demo_value_ok : value_ok demo_value.
Proof.
  eexists. split; [reflexivity|]. apply Forall_singleton.
  split; [by apply cstring_check|reflexivity].
Qed.

Lemma cache_refines_lru_witness :
  ∃ c : DnsCache ctable, cache_create = Ret (Some c) ∧
    ∃ c', dns_cache_put 5 (Some c) [1; 97; 0] 1 1 demo_value = Ret (0, Some c') ∧
          cache_rep c' [MkItem [49; 124; 49; 124; 1; 97] demo_value 5].
Proof.
  destruct (cache_create_spec (M := ctable)) as (c & E & Hc & _). exists c. split; [exact E|].
  destruct (cache_refines_lru 5 c [] [1; 97; 0] 1 1 [49; 124; 49; 124; 1; 97] demo_value Hc)
    as ((c' & E' & Hc') & _); [constructor|exact demo_value_ok|reflexivity|].
  exists c'. split; [exact E'|]. revert Hc'. unfold lru_put. cbn [find_item].
  intros Hc'. destruct (decide _) in Hc'; exact Hc'.
Defined.

Definition demo_ops_list : list (Z * cache_op) :=
  [(5, OpPut [1; 97; 0] 1 1 demo_value); (10, OpGet [1; 97; 0] 1 1); (400000, OpPrune);
   (400001, OpGet [1; 97; 0] 1 1)].

Lemma cache_trace_refines_witness :
  ∃ c0 c : DnsCache ctable, cache_create = Ret (Some c0) ∧
    run_ops demo_ops_list (Some c0) =
      Ret ([Code 0; Found (Some demo_value); Code 0; Found None], Some c).
Proof.
  destruct (cache_trace_refines (M := ctable) demo_ops_list) as (c0 & c & E & Er & _).
  { repeat constructor; try (eexists; reflexivity). exact demo_value_ok. }
  exists c0, c. split; [exact E|exact Er].
Defined.

Lemma cache_put_get_witness :
  ∃ c : DnsCache ctable, cache_create = Ret (Some c) ∧
    ∃ c1, dns_cache_put 5 (Some c) [1; 97; 0] 1 1 demo_value = Ret (0, Some c1).
Proof.
  destruct (cache_create_spec (M := ctable)) as (c & E & Hc & Hcap). exists c. split; [exact E|].
  destruct (cache_put_get 5 6 c [] [1; 97; 0] [1; 98; 0] 1 1 1 1 [49; 124; 49; 124; 1; 97]
    [49; 124; 49; 124; 1; 98] demo_value [MkRR [1; 97; 0] 1 1 300 4 [10; 0; 0; 1]] Hc)
    as (c1 & E1 & _).
  - constructor.
  - exact demo_value_ok.
  - reflexivity.
  - reflexivity.
  - reflexivity.
  - lia.
  - by_compute.
  - rewrite Hcap. reflexivity.
  - exists c1. exact E1.
Defined.

Lemma cache_empty_value_stays_witness :
  ∃ c c1 c2 : DnsCache ctable, cache_create = Ret (Some c) ∧
    dns_cache_put 0 (Some c) [1; 97; 0] 1 1 (MkValue 0 0 0 (Some [])) = Ret (0, Some c1) ∧
    dns_cache_get 1000000000 (Some c1) [1; 97; 0] 1 1 = Ret (Some (MkValue 0 0 0 (Some [])), Some c2).
Proof.
  destruct (cache_create_spec (M := ctable)) as (c & E & Hc & _).
  destruct (cache_empty_value_stays 0 1000000000 c [] [1; 97; 0] 1 1 [49; 124; 49; 124; 1; 97]
    0 0 0 Hc) as (c1 & c2 & E1 & E2); [constructor|reflexivity|].
  exists c, c1, c2. split; [exact E|]. split; [exact E1|exact E2].
Defined.
End Cache.
