(* ===== verification/Threads.v ===== *)
(** * The threads that share the cache

    The thread of [server_loop] and the one of [src/server/daemons.c] call the
    cache at the same time.  [Cache.v] runs a call as one function; here a call
    is the sequence of the accesses it makes, of its readings of the clock and
    of its operations on the mutex, and the steps of the threads interleave in
    any order.  The mutex makes the threads behave as if every call happened at
    one moment, and none of the accesses race.  [mtx_lock] succeeds once the
    mutex is free. *)

From S2P Require Import Prelude CString MapInterface HashMap DoublyLinked Protocol Cache.
Import Protocol Cache.

Module Threads.

(** ** The code of a call *)

(** [Local]: a computation on memory that no other thread can reach.
    [Access]: a read or write of the shared state. *)
Inductive code (S A : Type) : Type :=
| Done (a : A)
| Local {X : Type} (r : Res X) (k : X → code S A)
| Access {X : Type} (f : S → Res (X * S)) (k : X → code S A)
| Clock (k : Z → code S A)
| Acquire (k : code S A)
| Release (k : code S A).
Arguments Done {S A} a.
Arguments Local {S A X} r k.
Arguments Access {S A X} f k.
Arguments Clock {S A} k.
Arguments Acquire {S A} k.
Arguments Release {S A} k.

#[export] Instance code_ret {S} : MRet (code S) := λ A a, Done a.
#[export] Instance code_bind {S} : MBind (code S) := λ A B f,
  fix bind p :=
    match p with
    | Done a => f a
    | Local r k => Local r (λ x, bind (k x))
    | Access g k => Access g (λ x, bind (k x))
    | Clock k => Clock (λ t, bind (k t))
    | Acquire k => Acquire (bind k)
    | Release k => Release (bind k)
    end.

Definition local {S X} (r : Res X) : code S X := Local r Done.
Definition read {S X} (f : S → Res X) : code S X := Access (λ s, x ← f s; Ret (x, s)) Done.
Definition write {S} (f : S → Res S) : code S unit := Access (λ s, s ← f s; Ret (tt, s)) Done.

Section calls.
Context {M : Type} `{!MapOps (list Z) loc M}.
Implicit Types (c : DnsCache M).
Abbreviation Call := (code (DnsCache M)).

Definition sys_time_ms : Call Z := Clock Done.
Definition lock_mutex : Call unit := Acquire (Done tt).
Definition unlock_mutex : Call unit := Release (Done tt).

(** ** Accesses to the table and to the entries *)

Definition entry (l : loc) : Call CacheEntry := read (λ c, load (entries c) l).
Definition update (f : Store CacheEntry → Res (Store CacheEntry)) : Call unit :=
  write (λ c, es ← f (entries c); Ret (set_entries c es)).
Definition new_entry (e : CacheEntry) : Call loc :=
  Access (λ c, let '(l, es) := alloc e (entries c) in Ret (l, set_entries c es)) Done.
Definition set_table c (t : M) : DnsCache M :=
  MkCache t (lru_head c) (lru_tail c) (lock c) (size c) (capacity c) (entries c).
Definition set_size c (n : Z) : DnsCache M :=
  MkCache (table c) (lru_head c) (lru_tail c) (lock c) n (capacity c) (entries c).

(** ** The functions of [dns_cache.c] *)

Definition is_entry_expired (e : CacheEntry) : Call bool :=
  match v_rrs (value e) with
  | None => mret true
  | Some rrs => now ← sys_time_ms; mret (existsb (rr_expired now (created_at e)) rrs)
  end.

Definition lru_remove (l : loc) : Call unit :=
  e ← entry l;
  match hotter e, colder e with
  | Some h, Some c =>
      update (λ es, write_colder es h (Some c)) ≫= λ _,
      update (λ es, write_hotter es c (Some h)) ≫= λ _,
      update (λ es, write_hotter es l None) ≫= λ _,
      update (λ es, write_colder es l None)
  | _, _ => mret tt
  end.

Definition lru_touch (l : loc) : Call unit :=
  e ← entry l;
  match hotter e, colder e with
  | Some _, Some _ => lru_remove l
  | _, _ => mret tt
  end ≫= λ _,
  head ← read (λ c, Ret (lru_head c));
  hd ← entry head;
  update (λ es, write_colder es l (colder hd)) ≫= λ _,
  update (λ es, write_hotter es l (Some head)) ≫= λ _,
  hd ← entry head;
  c ← local (nonnull (colder hd));
  update (λ es, write_hotter es c (Some l)) ≫= λ _,
  update (λ es, write_colder es head (Some l)).

Definition cache_remove_entry (l : loc) : Call unit :=
  lru_remove l ≫= λ _,
  e ← entry l;
  write (λ c, t ← map_remove (table c) (key e); Ret (set_table c t)) ≫= λ _,
  update (λ es, free es l) ≫= λ _,
  write (λ c, Ret (set_size c (if size c >? 0 then size c - 1 else size c))).

Fixpoint prune_loop (fuel : nat) (entry_at : option loc) : Call unit :=
  l ← local (nonnull entry_at);
  tail ← read (λ c, Ret (lru_tail c));
  if decide (l = tail) then mret tt
  else
    match fuel with
    | O => local OutOfFuel
    | S fuel =>
        e ← entry l;
        let next := colder e in
        expired ← is_entry_expired e;
        (if expired : bool then cache_remove_entry l else mret tt) ≫= λ _,
        prune_loop fuel next
    end.

(** The fuel is one step for each entry there is. *)
Definition dns_cache_prune_locked : Call unit :=
  fuel ← read (λ c, Ret (walk_fuel c));
  head ← read (λ c, Ret (lru_head c));
  hd ← entry head;
  prune_loop fuel (colder hd).

Definition dns_cache_prune : Call Z :=
  lock_mutex ≫= λ _, dns_cache_prune_locked ≫= λ _, unlock_mutex ≫= λ _, mret 0.

Definition dns_cache_get (qname : list Z) (type qclass : Z) : Call (option CacheValue) :=
  k ← local (cache_key_create qname type qclass);
  lock_mutex ≫= λ _,
  found ← read (λ c, map_get (table c) k);
  match found with
  | None => unlock_mutex ≫= λ _, mret None
  | Some l =>
      e ← entry l;
      expired ← is_entry_expired e;
      if expired : bool then
        cache_remove_entry l ≫= λ _, unlock_mutex ≫= λ _, mret None
      else
        result ← local (cache_value_clone (value e));
        match result with
        | None => unlock_mutex ≫= λ _, mret None
        | Some v => lru_touch l ≫= λ _, unlock_mutex ≫= λ _, mret (Some v)
        end
  end.

Definition dns_cache_put (qname : list Z) (type qclass : Z) (cache_value : CacheValue) : Call Z :=
  match v_rrs cache_value with
  | None => mret 1
  | Some _ =>
      k ← local (cache_key_create qname type qclass);
      lock_mutex ≫= λ _,
      found ← read (λ c, map_get (table c) k);
      match found with
      | Some l =>
          new_value ← local (cache_value_clone cache_value);
          match new_value with
          | None => unlock_mutex ≫= λ _, mret 1
          | Some v =>
              update (λ es, e ← load es l;
                store es l (MkEntry (key e) v (created_at e) (hotter e) (colder e))) ≫= λ _,
              now ← sys_time_ms;
              update (λ es, e ← load es l;
                store es l (MkEntry (key e) (value e) now (hotter e) (colder e))) ≫= λ _,
              lru_touch l ≫= λ _, unlock_mutex ≫= λ _, mret 0
          end
      | None =>
          full ← read (λ c, Ret (size c >=? capacity c));
          (if full : bool then
            tail ← read (λ c, Ret (lru_tail c));
            tl ← entry tail;
            victim ← local (nonnull (hotter tl));
            head ← read (λ c, Ret (lru_head c));
            if decide (victim = head) then mret tt else cache_remove_entry victim
          else mret tt) ≫= λ _,
          now ← sys_time_ms;
          e ← local (cache_entry_create now qname type qclass cache_value);
          e ← local (nonnull e);
          l ← new_entry e;
          write (λ c, '(_, t) ← map_put (table c) (key e) l; Ret (set_table c t)) ≫= λ _,
          lru_touch l ≫= λ _,
          write (λ c, Ret (set_size c (size c + 1))) ≫= λ _,
          unlock_mutex ≫= λ _, mret 0
      end
  end.

Definition call (op : cache_op) : Call answer :=
  match op with
  | OpPut q t c v => r ← dns_cache_put q t c v; mret (Code r)
  | OpGet q t c => r ← dns_cache_get q t c; mret (Found r)
  | OpPrune => r ← dns_cache_prune; mret (Code r)
  end.
End calls.

(** ** A call that nobody disturbs *)

Section alone.
Context {M : Type} `{!MapOps (list Z) loc M}.
Implicit Types (c : DnsCache M).

Fixpoint alone {A} (now : Z) (p : code (DnsCache M) A) c : Res (A * DnsCache M) :=
  match p with
  | Done a => Ret (a, c)
  | Local r k => x ← r; alone now (k x) c
  | Access f k => '(x, c) ← f c; alone now (k x) c
  | Clock k => alone now (k now) c
  | Acquire k => c ← mtx_lock c; alone now k c
  | Release k => c ← mtx_unlock c; alone now k c
  end.

Lemma alone_bind {A B} now (p : code (DnsCache M) A) (f : A → code (DnsCache M) B) c :
  alone now (p ≫= f) c = '(x, c) ← alone now p c; alone now (f x) c.
Proof.
  revert c. induction p; intros c'; cbn; auto.
  all: rewrite ?bind_assoc.
  - destruct r; cbn; auto.
  - destruct (f0 c') as [[x c2]| |]; cbn; auto.
  - destruct (mtx_lock c'); cbn; auto.
  - destruct (mtx_unlock c'); cbn; auto.
Qed.

Lemma alone_if {A} now (b : bool) (p q : code (DnsCache M) A) c :
  alone now (if b then p else q) c = if b then alone now p c else alone now q c.
Proof. by destruct b. Qed.

Lemma alone_local {X} now (r : Res X) c : alone now (local r) c = x ← r; Ret (x, c).
Proof. by destruct r. Qed.

Lemma alone_read {X} now (f : DnsCache M → Res X) c : alone now (read f) c = x ← f c; Ret (x, c).
Proof. cbn. by destruct (f c). Qed.

Lemma alone_write now (f : DnsCache M → Res (DnsCache M)) c :
  alone now (write f) c = c ← f c; Ret (tt, c).
Proof. cbn. by destruct (f c). Qed.

Lemma alone_update now f c :
  alone now (update f) c = es ← f (entries c); Ret (tt, set_entries c es).
Proof. unfold update. rewrite alone_write. by destruct (f _). Qed.

Lemma alone_entry now l c : alone now (entry l) c = e ← load (entries c) l; Ret (e, c).
Proof. exact (alone_read now (λ c, load (entries c) l) c). Qed.

Lemma alone_expired now e c :
  alone now (is_entry_expired e) c = Ret (Cache.is_entry_expired now e, c).
Proof. unfold is_entry_expired, Cache.is_entry_expired, value_expired. by destruct (v_rrs _). Qed.

Lemma alone_lock now c : alone now lock_mutex c = c ← mtx_lock c; Ret (tt, c).
Proof. done. Qed.
Lemma alone_unlock now c : alone now unlock_mutex c = c ← mtx_unlock c; Ret (tt, c).
Proof. done. Qed.
Lemma alone_new_entry now e c :
  alone now (new_entry e) c = Ret (brk (entries c), set_entries c (alloc e (entries c)).2).
Proof. done. Qed.
Lemma alone_clock now c : alone now sys_time_ms c = Ret (now, c).
Proof. done. Qed.

Create Rewrite HintDb alone.
#[local] Hint Rewrite @alone_bind @alone_if @alone_local @alone_read @alone_write @alone_update
  @alone_entry @alone_expired
  @alone_lock @alone_unlock @alone_clock @alone_new_entry @bind_assoc : alone.

(** Push [alone] to the accesses of the code. *)
Ltac alone_simp := repeat (progress (autorewrite with alone;
  cbn [mbind Res_bind mret code_ret alone alloc snd entries lru_head lru_tail table size capacity lock
       set_entries set_table set_size])).
(** Follow both sides through their next common step. *)
Ltac alone_step :=
  match goal with
  | |- ?m ≫= _ = _ => destruct m as [?| |]; [cbn [mbind Res_bind]|done..]
  | |- context [match ?x with Some _ => _ | None => _ end] => destruct x
  | x : Z * _ |- _ => destruct x
  | |- context [if ?x then _ else _] => destruct x
  end.
Ltac alone_run := repeat (alone_simp; first [done | alone_step]).

Lemma alone_lru_remove now l c :
  alone now (lru_remove l) c = es ← Cache.lru_remove (entries c) l; Ret (tt, set_entries c es).
Proof. unfold lru_remove, Cache.lru_remove. alone_run; by destruct c. Qed.
#[local] Hint Rewrite @alone_lru_remove : alone.

Lemma alone_lru_touch now l c :
  alone now (lru_touch l) c =
    es ← Cache.lru_touch (entries c) (lru_head c) l; Ret (tt, set_entries c es).
Proof.
  unfold lru_touch, Cache.lru_touch, lru_push. alone_run.
Qed.

#[local] Hint Rewrite @alone_lru_touch : alone.

Lemma alone_remove_entry now l c :
  alone now (cache_remove_entry l) c = c ← Cache.cache_remove_entry c l; Ret (tt, c).
Proof. unfold cache_remove_entry, Cache.cache_remove_entry. alone_run. Qed.
#[local] Hint Rewrite @alone_remove_entry : alone.

Lemma alone_prune_loop now fuel p c :
  alone now (prune_loop fuel p) c = c ← Cache.prune_loop fuel now c p; Ret (tt, c).
Proof.
  revert p c. induction fuel as [|fuel IH]; intros [l|] c; try done; cbn [prune_loop Cache.prune_loop];
    alone_simp; cbn [nonnull mbind Res_bind]; alone_simp; destruct (decide _); try done.
  alone_simp. destruct (load (entries c) l) as [e| |]; [cbn [mbind Res_bind]|done..].
  alone_simp. destruct (Cache.is_entry_expired now e); alone_simp; [|apply IH].
  destruct (Cache.cache_remove_entry c l) as [c'| |]; [|done..]. alone_simp. apply IH.
Qed.

Lemma alone_prune now c :
  Cache.dns_cache_prune now (Some c) = ('(r, c) ← alone now dns_cache_prune c; Ret (r, Some c)).
Proof.
  symmetry. unfold dns_cache_prune, Cache.dns_cache_prune, dns_cache_prune_locked,
    Cache.dns_cache_prune_locked.
  alone_run. rewrite alone_prune_loop. alone_run.
Qed.

Lemma alone_get now q t cl c :
  Cache.dns_cache_get now (Some c) q t cl = ('(r, c) ← alone now (dns_cache_get q t cl) c; Ret (r, Some c)).
Proof.
  symmetry. unfold dns_cache_get, Cache.dns_cache_get. alone_run.
Qed.

Lemma store_twice {A B} (es : Store A) l x (g : A → A) (k : Store A → Res B) :
  (es ← store es l x; e ← load es l; es ← store es l (g e); k es) = es ← store es l (g x); k es.
Proof.
  unfold load, store. destruct (cells es !! l) as [e|]; [|done]. cbn [mbind Res_bind cells brk].
  rewrite lookup_insert_eq. cbn [nonnull mbind Res_bind].
  by rewrite insert_insert_eq.
Qed.

Lemma alone_put now q t cl v c :
  Cache.dns_cache_put now (Some c) q t cl v = ('(r, c) ← alone now (dns_cache_put q t cl v) c; Ret (r, Some c)).
Proof.
  symmetry. unfold dns_cache_put, Cache.dns_cache_put. alone_run.
  rewrite <- (store_twice _ _ (MkEntry (key a1) c0 (created_at a1) (hotter a1) (colder a1))
    (λ e, MkEntry (key e) (value e) now (hotter e) (colder e))). alone_run.
Qed.

Lemma alone_call now op c :
  run_op now op (Some c) = ('(a, c) ← alone now (call op) c; Ret (a, Some c)).
Proof.
  destruct op as [q t cl v|q t cl|]; cbn [run_op call].
  - rewrite alone_put, alone_bind. by destruct (alone _ _ _) as [[]| |].
  - rewrite alone_get, alone_bind. by destruct (alone _ _ _) as [[]| |].
  - rewrite alone_prune, alone_bind. by destruct (alone _ _ _) as [[]| |].
Qed.
End alone.

(** ** Threads

    A thread is what it asks of the cache, given what it asked before and was
    answered; [running] is the call under way and how far it has come. *)

Definition client : Type := list (cache_op * answer) → option cache_op.

Record thread (R : Type) := MkThread {
  asks : client;
  history : list (cache_op * answer);
  running : option (cache_op * R);
}.
Arguments MkThread {R} asks history running.
Arguments asks {R} t.
Arguments history {R} t.
Arguments running {R} t.

Definition spawn {R} (f : client) : thread R := MkThread f [] None.
Definition at_work {R} (t : thread R) (op : cache_op) (r : R) : thread R :=
  MkThread (asks t) (history t) (Some (op, r)).
Definition answered {R} (t : thread R) (op : cache_op) (a : answer) : thread R :=
  MkThread (asks t) (history t ++ [(op, a)]) None.

(** [daemon_dnscache_ttl]: it prunes for ever. *)
Definition daemon : client := λ _, Some OpPrune.

(** [holder]: the thread that has locked the mutex. *)
Record config (M : Type) := MkConfig {
  clock : Z;
  shared : DnsCache M;
  holder : option nat;
  threads : list (thread (code (DnsCache M) answer));
}.
Arguments MkConfig {M} clock shared holder threads.
Arguments clock {M} c.
Arguments shared {M} c.
Arguments holder {M} c.
Arguments threads {M} c.

Section machine.
Context {M : Type} `{!MapOps (list Z) loc M}.
Implicit Types (c : DnsCache M) (g : config M) (t : thread (code (DnsCache M) answer)).

Definition move g (i : nat) c (h : option nat) t : config M :=
  MkConfig (clock g) c h (<[i := t]> (threads g)).

(** Thread [i] is in [op] and has [p] still to do. *)
Definition busy g (i : nat) t (op : cache_op) (p : code (DnsCache M) answer) : Prop :=
  threads g !! i = Some t ∧ running t = Some (op, p).

Inductive step : config M → config M → Prop :=
| step_tick g d : 0 ≤ d → step g (MkConfig (clock g + d) (shared g) (holder g) (threads g))
| step_call g i t op :
    threads g !! i = Some t → running t = None → asks t (history t) = Some op →
    step g (move g i (shared g) (holder g) (at_work t op (call op)))
| step_return g i t op a :
    busy g i t op (Done a) → step g (move g i (shared g) (holder g) (answered t op a))
| step_local g i t op X (r : Res X) k x :
    busy g i t op (Local r k) → r = Ret x →
    step g (move g i (shared g) (holder g) (at_work t op (k x)))
| step_access g i t op X (f : DnsCache M → Res (X * DnsCache M)) k x c :
    busy g i t op (Access f k) → f (shared g) = Ret (x, c) →
    step g (move g i c (holder g) (at_work t op (k x)))
| step_clock g i t op k :
    busy g i t op (Clock k) → step g (move g i (shared g) (holder g) (at_work t op (k (clock g))))
| step_acquire g i t op k c :
    busy g i t op (Acquire k) → holder g = None → mtx_lock (shared g) = Ret c →
    step g (move g i c (Some i) (at_work t op k))
| step_release g i t op k c :
    busy g i t op (Release k) → holder g = Some i → mtx_unlock (shared g) = Ret c →
    step g (move g i c None (at_work t op k)).

(** The steps as a function: time passes, or thread [i] goes on. *)
Inductive event := Tick (d : Z) | Run (i : nat).

Definition perform (e : event) g : option (config M) :=
  match e with
  | Tick d => guard (0 ≤ d) ≫= λ _, Some (MkConfig (clock g + d) (shared g) (holder g) (threads g))
  | Run i =>
      t ← threads g !! i;
      match running t with
      | None =>
          op ← asks t (history t); Some (move g i (shared g) (holder g) (at_work t op (call op)))
      | Some (op, Done a) => Some (move g i (shared g) (holder g) (answered t op a))
      | Some (op, Local r k) =>
          match r with
          | Ret x => Some (move g i (shared g) (holder g) (at_work t op (k x)))
          | _ => None
          end
      | Some (op, Access f k) =>
          match f (shared g) with
          | Ret (x, c) => Some (move g i c (holder g) (at_work t op (k x)))
          | _ => None
          end
      | Some (op, Clock k) => Some (move g i (shared g) (holder g) (at_work t op (k (clock g))))
      | Some (op, Acquire k) =>
          match holder g, mtx_lock (shared g) with
          | None, Ret c => Some (move g i c (Some i) (at_work t op k))
          | _, _ => None
          end
      | Some (op, Release k) =>
          match mtx_unlock (shared g) with
          | Ret c => guard (holder g = Some i) ≫= λ _, Some (move g i c None (at_work t op k))
          | _ => None
          end
      end
  end.

(** A schedule; what cannot happen, like going on without the mutex, does not. *)
Fixpoint follow (es : list event) g : config M :=
  match es with
  | [] => g
  | e :: es => match perform e g with Some g => follow es g | None => follow es g end
  end.

Lemma perform_step g g' : step g g' ↔ ∃ e, perform e g = Some g'.
Proof.
  split.
  - intros [g1 d Hd|g1 i t op Ht Hr Hop|g1 i t op a [Ht Hr]|g1 i t op X r k x [Ht Hr] ->
      |g1 i t op X f k x c [Ht Hr] E|g1 i t op k [Ht Hr]|g1 i t op k c [Ht Hr] Hh E
      |g1 i t op k c [Ht Hr] Hh E]; [exists (Tick d); cbn; by case_guard|exists (Run i)..]; cbn; rewrite Ht; cbn;
      rewrite Hr, ?Hop, ?E, ?Hh; cbn; by repeat case_guard.
  - intros [[d|i] E]; cbn in E.
    + case_guard; [|done]. injection E as <-. by constructor.
    + destruct (threads g !! i) as [t|] eqn:Ht; [|done]. cbn in E.
      destruct (running t) as [[op p]|] eqn:Hr.
      * assert (Hb : busy g i t op p) by done. clear Ht Hr. destruct p; simplify_option_eq; repeat case_match;
          simplify_eq; [eapply step_return|eapply step_local|eapply step_access|eapply step_clock
            |eapply step_acquire|eapply step_release]; eauto.
      * destruct (asks t (history t)) eqn:Hop; [|done]. injection E as <-. by constructor.
Qed.

Lemma follow_steps es g : rtc step g (follow es g).
Proof.
  revert g. induction es as [|e es IH]; intros g; cbn; [done|].
  destruct (perform e g) as [g1|] eqn:E; [|apply IH]. eapply rtc_l; [apply perform_step; by exists e|apply IH].
Qed.

Definition start (now : Z) c (clients : list client) : config M :=
  MkConfig now c None (spawn <$> clients).

(** Thread [i] is about to do something without a meaning: an access that goes
    wrong, a second lock, an unlock of what it has not locked. *)
Definition stuck g (i : nat) (p : code (DnsCache M) answer) : Prop :=
  match p with
  | Local r _ => ∀ x, r ≠ Ret x
  | Access f _ => ∀ r, f (shared g) ≠ Ret r
  | Acquire _ => holder g = Some i ∨ (holder g = None ∧ ∀ c, mtx_lock (shared g) ≠ Ret c)
  | Release _ => holder g ≠ Some i ∨ ∀ c, mtx_unlock (shared g) ≠ Ret c
  | _ => False
  end.
Definition undefined g : Prop := ∃ i t op p, busy g i t op p ∧ stuck g i p.

Definition accesses (p : code (DnsCache M) answer) : Prop :=
  match p with Access _ _ => True | _ => False end.
(** A data race: two threads about to touch the cache. *)
Definition race g : Prop :=
  ∃ i j t u op op' p q, busy g i t op p ∧ busy g j u op' q ∧ i ≠ j ∧ accesses p ∧ accesses q.
End machine.

(** ** The specification: every call happens at one moment

    What a call may do between the times [lo] and [hi].  A prune looks at the
    clock for each item, in the order of the list. *)

Fixpoint prune_at (nows : list Z) (items : list item) : list item :=
  match nows, items with
  | now :: nows, i :: items =>
      if item_expired now i then prune_at nows items else i :: prune_at nows items
  | _, _ => []
  end.

Fixpoint ordered (lo : Z) (nows : list Z) (hi : Z) : Prop :=
  match nows with [] => lo ≤ hi | now :: nows => lo ≤ now ∧ ordered now nows hi end.

Inductive atomic (lo hi : Z) (cap : nat) (items : list item) :
    cache_op → answer → list item → Prop :=
| atomic_put now q t c v : lo ≤ now ≤ hi →
    atomic lo hi cap items (OpPut q t c v) (Code 0) (lru_put now cap (key_of q t c) v items)
| atomic_get now q t c : lo ≤ now ≤ hi →
    atomic lo hi cap items (OpGet q t c) (Found (lru_get now (key_of q t c) items).1)
      (lru_get now (key_of q t c) items).2
| atomic_prune nows : ordered lo nows hi → length nows = length items →
    atomic lo hi cap items OpPrune (Code 0) (prune_at nows items).

(** [last] is the time of the last call that has happened; the threads wait for
    their call to happen, then for its answer to reach them. *)
Record spec := MkSpec {
  time : Z;
  last : Z;
  items : list item;
  callers : list (thread (option answer));
}.

Definition advance (a : spec) (i : nat) (t : thread (option answer)) : spec :=
  MkSpec (time a) (last a) (items a) (<[i := t]> (callers a)).

Inductive spec_step (cap : nat) : spec → spec → Prop :=
| spec_tick a d : 0 ≤ d → spec_step cap a (MkSpec (time a + d) (last a) (items a) (callers a))
| spec_call a i t op :
    callers a !! i = Some t → running t = None → asks t (history t) = Some op →
    spec_step cap a (advance a i (at_work t op None))
| spec_happen a i t op r items' :
    callers a !! i = Some t → running t = Some (op, None) →
    atomic (last a) (time a) cap (items a) op r items' →
    spec_step cap a (MkSpec (time a) (time a) items' (<[i := at_work t op (Some r)]> (callers a)))
| spec_return a i t op r :
    callers a !! i = Some t → running t = Some (op, Some r) →
    spec_step cap a (advance a i (answered t op r)).

(** ** Calls keep the promise of the cache *)

Section inside.
Context {M : Type} `{!MapOps (list Z) loc M, !MapLaws (list Z) loc M}.
Implicit Types (c : DnsCache M).

(** What holds of the code of a thread that has the mutex: run from [now] and
    [c], whatever the clock says, it does nothing undefined, releases the mutex
    once and is done, with [Φ] of the result, the time and the cache. *)
Fixpoint inside {A} (now : Z) (p : code (DnsCache M) A) c (Φ : A → Z → DnsCache M → Prop) : Prop :=
  match p with
  | Done _ | Acquire _ => False
  | Local r k => ∃ x, r = Ret x ∧ inside now (k x) c Φ
  | Access f k => ∃ x c', f c = Ret (x, c') ∧ inside now (k x) c' Φ
  | Clock k => ∀ t, now ≤ t → inside t (k t) c Φ
  | Release k => ∃ a c', k = Done a ∧ mtx_unlock c = Ret c' ∧ Φ a now c'
  end.

(** As long as time does not matter to [Φ], but for a lower bound. *)
Lemma inside_later {A} now now' (p : code (DnsCache M) A) c Φ :
  (∀ a t t' c', t ≤ t' → Φ a t c' → Φ a t' c') → now ≤ now' → inside now p c Φ → inside now' p c Φ.
Proof.
  intros HΦ. revert now now' c. induction p; intros now now' c' Hn; cbn; try done.
  - intros (x & ? & ?). exists x. eauto.
  - intros (x & c2 & ? & ?). exists x, c2. eauto.
  - intros Hk t Ht. apply Hk. lia.
  - intros (a & c2 & -> & ? & ?). exists a, c2. eauto.
Qed.

(** The shape of code that ends by releasing the mutex, and of code that does
    nothing with it; [n] is how often the clock is read at most. *)
Fixpoint ends_locked {A} (n : nat) (p : code (DnsCache M) A) : Prop :=
  match p with
  | Done _ | Acquire _ => False
  | Local _ k | Access _ k => ∀ x, ends_locked n (k x)
  | Clock k => match n with O => False | S n => ∀ t, ends_locked n (k t) end
  | Release k => ∃ a, k = Done a
  end.

(** Code that reads the clock at most once is known by how it runs alone. *)
Lemma inside_untimed {A} now now' (p : code (DnsCache M) A) c a c' Φ :
  ends_locked 0 p → alone now' p c = Ret (a, c') → Φ a now c' → inside now p c Φ.
Proof.
  intros Hp E HΦ. revert c Hp E. induction p as [| | | | |]; intros c; cbn; try done.
  - intros Hp (x & -> & E)%bind_Ret_inv. eauto.
  - intros Hp ([x c2] & -> & E)%bind_Ret_inv. eauto 6.
  - intros [b ->] (c2 & Eu & [= -> ->])%bind_Ret_inv. eauto 6.
Qed.

Lemma inside_alone {A} now (p : code (DnsCache M) A) c Φ :
  ends_locked 1 p →
  (∀ t, now ≤ t → ∃ a c', alone t p c = Ret (a, c') ∧ Φ a t c') →
  (∀ a t t' c', t ≤ t' → Φ a t c' → Φ a t' c') → inside now p c Φ.
Proof.
  intros Hp H HΦ. revert c Hp H. induction p as [|X r k IH|X f k IH|k _| |k _]; intros c; cbn; try done.
  - intros Hp H. destruct (H now) as (a & c' & (x & -> & _)%bind_Ret_inv & _); [lia|].
    exists x. split; [done|]. apply IH; [done|]. intros t Ht. by apply H.
  - intros Hp H. destruct (H now) as (a & c' & ([x c2] & E & _)%bind_Ret_inv & _); [lia|].
    exists x, c2. split; [done|]. apply IH; [done|]. intros t Ht.
    destruct (H t Ht) as (a' & c3 & E' & ?). rewrite E in E'. eauto.
  - intros Hp H t Ht. destruct (H t Ht) as (a & c' & E & HΦa).
    by eapply inside_untimed.
  - intros [a ->] H. destruct (H now) as (a' & c' & (c2 & Eu & [= -> ->])%bind_Ret_inv & ?); [lia|].
    eauto 6.
Qed.
(** Code that neither reads the clock nor touches the mutex. *)
Fixpoint quiet {A} (p : code (DnsCache M) A) : Prop :=
  match p with
  | Done _ => True
  | Local _ k | Access _ k => ∀ x, quiet (k x)
  | _ => False
  end.

(** The same as [inside] for code that leaves the mutex alone. *)
Fixpoint runs {A} (now : Z) (p : code (DnsCache M) A) c (Φ : A → Z → DnsCache M → Prop) : Prop :=
  match p with
  | Done a => Φ a now c
  | Local r k => ∃ x, r = Ret x ∧ runs now (k x) c Φ
  | Access f k => ∃ x c', f c = Ret (x, c') ∧ runs now (k x) c' Φ
  | Clock k => ∀ t, now ≤ t → runs t (k t) c Φ
  | Acquire _ | Release _ => False
  end.

Lemma runs_bind {A B} now (p : code (DnsCache M) A) (f : A → code (DnsCache M) B) c Φ :
  runs now p c (λ a t c', runs t (f a) c' Φ) → runs now (p ≫= f) c Φ.
Proof.
  revert now c. induction p; intros now c'; cbn; auto; naive_solver.
Qed.

Lemma inside_bind {A B} now (p : code (DnsCache M) A) (f : A → code (DnsCache M) B) c Φ :
  runs now p c (λ a t c', inside t (f a) c' Φ) → inside now (p ≫= f) c Φ.
Proof.
  revert now c. induction p; intros now c'; cbn; auto; naive_solver.
Qed.

Lemma runs_quiet {A} now (p : code (DnsCache M) A) c a c' (Φ : A → Z → DnsCache M → Prop) :
  quiet p → alone now p c = Ret (a, c') → Φ a now c' → runs now p c Φ.
Proof.
  intros Hp E HΦ. revert c Hp E. induction p; intros c2; cbn; try done.
  - by intros _ [= -> ->].
  - intros Hp (x & -> & E)%bind_Ret_inv. eauto.
  - intros Hp ([x c3] & -> & E)%bind_Ret_inv. eauto 6.
Qed.

Lemma quiet_bind {A B} (p : code (DnsCache M) A) (f : A → code (DnsCache M) B) :
  quiet p → (∀ a, quiet (f a)) → quiet (p ≫= f).
Proof. intros Hp Hf. induction p; cbn in *; auto. Qed.

Lemma ends_locked_bind {A B} n (p : code (DnsCache M) A) (f : A → code (DnsCache M) B) :
  quiet p → (∀ a, ends_locked n (f a)) → ends_locked n (p ≫= f).
Proof. intros Hp Hf. induction p; cbn in *; auto; done. Qed.

Lemma lru_remove_quiet l : quiet (lru_remove (M := M) l).
Proof. apply quiet_bind; [done|]. intros e. by repeat case_match. Qed.
Lemma lru_touch_quiet l : quiet (lru_touch (M := M) l).
Proof.
  apply quiet_bind; [done|]. intros e. apply quiet_bind; [|done].
  repeat case_match; try done. apply lru_remove_quiet.
Qed.
Lemma remove_entry_quiet l : quiet (cache_remove_entry (M := M) l).
Proof. apply quiet_bind; [apply lru_remove_quiet|done]. Qed.

(** Whether an entry has expired: the code reads the clock, or needs not to. *)
Lemma runs_expired now e c (Φ : bool → Z → DnsCache M → Prop) :
  (∀ t, now ≤ t → Φ (Cache.is_entry_expired t e) t c) → runs now (is_entry_expired e) c Φ.
Proof.
  intros H. unfold is_entry_expired, Cache.is_entry_expired, value_expired in *.
  destruct (v_rrs (value e)); cbn; [done|]. apply H. lia.
Qed.

Lemma runs_remove_entry now b c pre l i post (Φ : unit → Z → DnsCache M → Prop) :
  cache_at b c (pre ++ (l, i) :: post) →
  (∀ c', cache_at b c' (pre ++ post) → capacity c' = capacity c → lru_tail c' = lru_tail c →
     Φ tt now c') → runs now (cache_remove_entry l) c Φ.
Proof.
  intros Hc HΦ. destruct (cache_remove_spec _ _ _ _ _ _ Hc) as (c' & E & Hc' & Hcap & _ & Ht & _).
  eapply runs_quiet; [apply remove_entry_quiet| |by apply HΦ].
  rewrite alone_remove_entry, E. done.
Qed.

Lemma runs_prune fuel now c pre todo (Φ : unit → Z → DnsCache M → Prop) :
  cache_at true c (pre ++ todo) → (length todo ≤ fuel)%nat →
  (∀ nows t c' left, ordered now nows t → length nows = length todo →
     left.*2 = prune_at nows todo.*2 → cache_at true c' (pre ++ left) →
     capacity c' = capacity c → Φ tt t c') →
  runs now (prune_loop fuel (head (todo.*1 ++ [lru_tail c]))) c Φ.
Proof.
  revert fuel now c pre. induction todo as [|[l i] todo IH]; intros fuel now c pre Hc Hf HΦ.
  { destruct fuel; cbn; eexists _; (split; [done|]); eexists _, _; (split; [done|]);
      rewrite decide_True by done; apply (HΦ [] now c []); (done || cbn; lia). }
  destruct fuel as [|fuel]; [simpl in Hf; lia|]. cbn [length] in Hf.
  destruct (lru_mid _ _ _ _ _ _ _ (cr_lru _ _ _ Hc)) as (e & He & Hi & _ & Hcold).
  cbn [fmap list_fmap fst app head prune_loop]. apply runs_bind. exists l. split; [done|].
  apply runs_bind. eexists _, _. split; [done|]. cbn [runs].
  rewrite decide_False by apply (lru_not_tail _ _ _ _ _ _ Hc).
  apply runs_bind. eexists _, _. rewrite (load_Some _ _ _ He). split; [done|]. cbn [runs].
  apply runs_bind, runs_expired. intros t Ht.
  assert (Hexp : Cache.is_entry_expired t e = item_expired t i) by (by rewrite <- Hi).
  rewrite Hexp. apply runs_bind. destruct (item_expired t i) eqn:E.
  - eapply runs_remove_entry; [done|]. intros c' Hc' Hcap Htl. rewrite Hcold, <- Htl.
    apply (IH fuel t c' pre Hc'); [lia|]. intros nows t' c2 left Ho Hlen Hleft Hc2 Hcap2.
    apply (HΦ (t :: nows) t' c2 left); [done| |by cbn; rewrite E|done|congruence].
    cbn. by rewrite Hlen.
  - cbn. rewrite Hcold. rewrite (cons_middle (l, i)), app_assoc in Hc.
    apply (IH fuel t c _ Hc); [lia|]. intros nows t' c2 left Ho Hlen Hleft Hc2 Hcap2.
    apply (HΦ (t :: nows) t' c2 ((l, i) :: left)); [done|cbn; by rewrite Hlen| |by rewrite <- app_assoc in Hc2|done].
    cbn. by rewrite E, Hleft.
Qed.

(** ** Every call keeps the promise *)

(** Before the mutex is asked for nothing shared is touched; [Ψ] holds of what
    follows. *)
Fixpoint ready {A} (p : code (DnsCache M) A) (Ψ : code (DnsCache M) A → Prop) : Prop :=
  match p with
  | Local r k => ∃ x, r = Ret x ∧ ready (k x) Ψ
  | Acquire k => Ψ k
  | _ => False
  end.

Definition good (cap : nat) c (its : list item) : Prop :=
  cache_rep c its ∧ items_ok its ∧ Z.to_nat (capacity c) = cap.

Definition promise (cap : nat) (lo : Z) (its : list item) (op : cache_op) (a : answer) (t : Z) c : Prop :=
  ∃ its', atomic lo t cap its op a its' ∧ good cap c its'.

Definition keeps (cap : nat) (op : cache_op) (k : code (DnsCache M) answer) : Prop :=
  ∀ lo now c c' its, good cap c its → mtx_lock c = Ret c' → lo ≤ now →
    inside now k c' (promise cap lo its op).

Lemma ordered_fewer lo lo' nows hi : lo ≤ lo' → ordered lo' nows hi → ordered lo nows hi.
Proof. destruct nows; cbn; intros; [lia|]. destruct_and!. split; [lia|done]. Qed.

Lemma ordered_later lo nows hi hi' : hi ≤ hi' → ordered lo nows hi → ordered lo nows hi'.
Proof. intros H. revert lo. induction nows; intros lo; cbn; [lia|]. intros []; auto. Qed.

Lemma promise_later cap lo its op a t t' c :
  t ≤ t' → promise cap lo its op a t c → promise cap lo its op a t' c.
Proof.
  intros Ht (its' & Ha & Hg). exists its'. split; [|done].
  destruct Ha; constructor; try lia; by eapply ordered_later.
Qed.

(** A call that reads the clock at most once: what [Cache.v] shows of it is
    what it keeps. *)
Lemma alone_keeps cap op k :
  (∀ lo t its, lo ≤ t → atomic lo t cap its op (spec_op t cap op its).1 (spec_op t cap op its).2) →
  op_ok op → ends_locked 1 k →
  (∀ t c c', mtx_lock c = Ret c' → alone t (call op) c = alone t k c') → keeps cap op k.
Proof.
  intros Ha Hop Hk E lo now c c' its (Hc & Hi & Hcap) Hlock Hlo. apply inside_alone; [done| |apply promise_later].
  intros t Ht. destruct (run_op_spec t op c its Hop Hi Hc) as (c2 & Erun & Hc2 & Hcap2).
  rewrite alone_call, (E t c c' Hlock) in Erun. apply bind_Ret_inv in Erun as ([a c3] & -> & [= -> ->]).
  eexists _, _. split; [done|]. rewrite Hcap in *. eexists. split; [apply Ha; lia|].
  split_and!; [done|by apply items_ok_spec|by rewrite Hcap2].
Qed.

Lemma prune_at_ok nows its : items_ok its → items_ok (prune_at nows its).
Proof.
  intros Hi. revert nows. induction Hi as [|i its Hi _ IH]; intros [|now nows]; cbn; try constructor.
  case_match; [apply IH|]. constructor; [done|apply IH].
Qed.

Lemma inside_map {A B} now (p : code (DnsCache M) A) (f : A → B) c Φ :
  inside now p c (λ a t c', Φ (f a) t c') → inside now (a ← p; mret (f a)) c Φ.
Proof.
  revert now c. induction p; intros now c'; cbn; auto; [naive_solver..|].
  intros (b & c2 & -> & ? & ?). by exists (f b), c2.
Qed.

Lemma prune_keeps cap : ready (call OpPrune) (keeps cap OpPrune).
Proof.
  intros lo now c c' its (Hc & Hi & Hcap) Hlock Hlo.
  destruct Hc as (cs & Hc & <-). destruct (cache_lock _ _ Hc) as [E Hc1].
  rewrite E in Hlock. injection Hlock as <-.
  apply (inside_map _ _ Code), (inside_bind _ dns_cache_prune_locked).
  unfold dns_cache_prune_locked. apply runs_bind. eexists _, _. split; [done|].
  apply runs_bind. eexists _, _. split; [done|].
  destruct (lru_first _ _ _ _ (cr_lru _ _ _ Hc1)) as (e & He & Hcold).
  apply runs_bind. eexists _, _. rewrite (load_Some _ _ _ He). split; [done|]. cbn [runs]. rewrite Hcold.
  eapply (runs_prune _ _ _ [] cs); [done|pose proof (lru_fuel _ _ _ Hc1); lia|].
  intros nows t c' left Ho Hlen Hleft Hc' Hcap'. destruct (cache_unlock _ _ Hc') as [Eu Hc2].
  eexists _, _. split; [done|]. split; [exact Eu|]. exists (prune_at nows cs.*2).
  split; [constructor; [by eapply ordered_fewer|by rewrite length_fmap]|].
  split_and!; [by eexists|by apply prune_at_ok|]. cbn [capacity set_lock] in *. congruence.
Qed.

Lemma ends_locked_map {A B} n (p : code (DnsCache M) A) (f : A → B) :
  ends_locked n p → ends_locked n (r ← p; mret (f r)).
Proof. revert n. induction p; intros m; cbn; auto; [destruct m; auto|]. intros [a' ->]. by eexists. Qed.

Lemma ends_locked_clock {A} n (f : Z → code (DnsCache M) A) :
  (∀ t, ends_locked n (f t)) → ends_locked (S n) (sys_time_ms ≫= f).
Proof. done. Qed.

Lemma ends_locked_expired {A} n e (f : bool → code (DnsCache M) A) :
  (∀ b n, ends_locked n (f b)) → ends_locked (S n) (is_entry_expired e ≫= f).
Proof. intros H. unfold is_entry_expired. destruct (v_rrs (value e)); cbn; auto. Qed.

(** What a body is made of. *)
Ltac quietly :=
  repeat first [done | apply lru_touch_quiet | apply remove_entry_quiet | case_match
    | apply quiet_bind; [|intros ?]].
Ltac ends :=
  repeat first [eexists; reflexivity | apply ends_locked_clock; intros ?
    | apply ends_locked_expired; intros ?? | apply ends_locked_bind; [solve [quietly]|intros ?]
    | case_match].

Lemma call_ready cap op : op_ok op → ready (call op) (keeps cap op).
Proof.
  intros Hop. pose proof Hop as Hok. destruct op as [q t cl v|q t cl|]; [| |apply prune_keeps].
  - destruct Hop as [Hq (rs & Hrs & Hv)]. cbn [call]. unfold dns_cache_put. rewrite Hrs.
    eexists. split; [by apply key_of_spec|]. apply alone_keeps; [intros; by constructor|done| |].
    + apply (ends_locked_map 1 _ Code). ends.
    + intros now c c' Hl. cbn. unfold dns_cache_put. rewrite Hrs. cbn. rewrite key_of_spec by done. cbn. by rewrite Hl.
  - eexists. split; [by apply key_of_spec|]. apply alone_keeps; [|done| |].
    + intros lo now its Hlo. cbn [spec_op]. pose proof (atomic_get lo now cap its now q t cl) as Ha.
      destruct (lru_get _ _ _). apply Ha. lia.
    + apply (ends_locked_map 1 _ Found). ends.
    + intros now c c' Hl. cbn. rewrite key_of_spec by done. cbn. by rewrite Hl.
Qed.
End inside.

(** ** The machine does what the specification allows *)

Section simulation.
Context {M : Type} `{!MapOps (list Z) loc M, !MapLaws (list Z) loc M} (cap : nat).
Implicit Types (c : DnsCache M) (g : config M) (a : spec) (h : option nat).
Implicit Types (t : thread (code (DnsCache M) answer)) (u : thread (option answer)).

Definition asks_ok (f : client) : Prop := ∀ past op, f past = Some op → op_ok op.

(** How far thread [i] has come with [op]: it has the mutex, and will keep the
    promise made on [its]; or not yet; or its call has happened. *)
Definition progress (now : Z) c h (lo : Z) (its : list item) (i : nat) (op : cache_op)
    (p : code (DnsCache M) answer) (r : option answer) : Prop :=
  if decide (h = Some i) then r = None ∧ inside now p c (promise cap lo its op)
  else match r with None => ready p (keeps cap op) | Some b => p = Done b end.

Record thread_sim (now : Z) c h (lo : Z) (its : list item) (i : nat) t u : Prop := {
  ts_asks : asks u = asks t;
  ts_ok : asks_ok (asks t);
  ts_history : history u = history t;
  ts_running : match running t, running u with
    | None, None => h ≠ Some i
    | Some (op, p), Some (op', r) => op' = op ∧ progress now c h lo its i op p r
    | _, _ => False
    end;
}.

Record sim g a : Prop := {
  sm_time : time a = clock g;
  sm_last : last a ≤ clock g;
  sm_threads : ∀ i, option_Forall2 (thread_sim (clock g) (shared g) (holder g) (last a) (items a) i)
    (threads g !! i) (callers a !! i);
  sm_free : holder g = None → good cap (shared g) (items a);
  sm_held i : holder g = Some i → is_Some (threads g !! i);
  sm_size : (length (items a) <= cap)%nat;
}.

(** A thread without the mutex does not notice what the others do. *)
Lemma thread_sim_other now c c' h h' lo lo' its its' i t u :
  h ≠ Some i → h' ≠ Some i → thread_sim now c h lo its i t u → thread_sim now c' h' lo' its' i t u.
Proof.
  intros Hh Hh' [? ? ? Hr]. split; [done..|].
  destruct (running t) as [[op p]|], (running u) as [[op' r]|]; try done.
  destruct Hr as [-> Hr]. split; [done|]. unfold progress in *.
  rewrite decide_False in Hr by done. by rewrite decide_False.
Qed.

Lemma thread_sim_later now now' c h lo its i t u :
  now ≤ now' → thread_sim now c h lo its i t u → thread_sim now' c h lo its i t u.
Proof.
  intros Hn [? ? ? Hr]. split; [done..|].
  destruct (running t) as [[op p]|], (running u) as [[op' r]|]; try done.
  destruct Hr as [-> Hr]. split; [done|]. unfold progress in *. case_decide; [|done].
  destruct Hr as [-> Hr]. split; [done|]. eapply inside_later; [|done..]. intros. by eapply promise_later.
Qed.

(** Thread [i] alone has moved. *)
Lemma sim_move g a i t u c' h' t' u' lo' its' :
  sim g a → threads g !! i = Some t → callers a !! i = Some u →
  thread_sim (clock g) c' h' lo' its' i t' u' →
  (c' = shared g ∧ h' = holder g ∧ lo' = last a ∧ its' = items a ∨
   ∀ j, j ≠ i → holder g ≠ Some j ∧ h' ≠ Some j) →
  lo' ≤ clock g → (h' = None → good cap c' its') → (h' = holder g ∨ h' = None ∨ h' = Some i) →
  (length its' <= cap)%nat →
  sim (move g i c' h' t') (MkSpec (time a) lo' its' (<[i := u']> (callers a))).
Proof.
  intros Hs Ht Hu Hi Ho Hlo Hfree Hh Hsz. split; cbn; [apply Hs|done| |done| |done].
  - intros j. destruct (decide (i = j)) as [<-|Hij].
    + rewrite !list_lookup_insert_eq by (by eapply lookup_lt_Some). by constructor.
    + rewrite !list_lookup_insert_ne by done. pose proof (sm_threads _ _ Hs j) as Hj.
      destruct Ho as [(-> & -> & -> & ->)|Ho]; [done|]. destruct (Ho j) as [H1 H2]; [done|].
      destruct Hj; constructor. by apply (thread_sim_other _ _ _ _ _ _ _ _ _ _ _ _ H1 H2 H).
  - intros j Hj. cbn in *. rewrite lookup_lt_is_Some, length_insert, <- lookup_lt_is_Some.
    destruct Hh as [->|[->| ->]]; [by apply Hs|done|]. injection Hj as <-. by eexists.
Qed.

(** What the invariant says of a thread in a call. *)
Lemma sim_busy g a i t op p :
  sim g a → busy g i t op p →
  ∃ u r, callers a !! i = Some u ∧ running u = Some (op, r) ∧ asks u = asks t ∧ asks_ok (asks t) ∧
    history u = history t ∧ progress (clock g) (shared g) (holder g) (last a) (items a) i op p r.
Proof.
  intros Hs [Ht Hr]. pose proof (sm_threads _ _ Hs i) as Hi. rewrite Ht in Hi.
  inversion Hi as [? u [? ? ? Hp] E1 E2|]; subst. exists u. rewrite Hr in Hp.
  destruct (running u) as [[op' r]|]; [|done]. destruct Hp as [-> Hp]. by exists r.
Qed.

Lemma sim_same a i u :
  callers a !! i = Some u → a = MkSpec (time a) (last a) (items a) (<[i := u]> (callers a)).
Proof. destruct a. cbn. intros. by rewrite list_insert_id. Qed.

Lemma sim_tick g a d : 0 ≤ d → sim g a →
  sim (MkConfig (clock g + d) (shared g) (holder g) (threads g))
    (MkSpec (time a + d) (last a) (items a) (callers a)).
Proof.
  intros Hd Hs. split; cbn; try apply Hs.
  - by rewrite (sm_time _ _ Hs).
  - pose proof (sm_last _ _ Hs). lia.
  - intros i. destruct (sm_threads _ _ Hs i); constructor. eapply thread_sim_later; [|done]. lia.
Qed.

(** A step inside a call that only changes what the thread has to do. *)
Lemma sim_inner g a i t op p p' c' :
  sim g a → busy g i t op p →
  (∀ r, progress (clock g) (shared g) (holder g) (last a) (items a) i op p r →
     progress (clock g) c' (holder g) (last a) (items a) i op p' r) →
  (holder g = Some i ∨ c' = shared g) →
  sim (move g i c' (holder g) (at_work t op p')) a.
Proof.
  intros Hs Hb Hp Hc. destruct (sim_busy _ _ _ _ _ _ Hs Hb) as (u & r & Hu & Hr & Ha & Hok & Hh & Hpr).
  destruct Hb as [Ht _].
  rewrite (sim_same a i u Hu). eapply sim_move; [done..| | |apply Hs| |by left|apply Hs].
  - split; [done..|]. cbn. rewrite Hr. split; [done|]. by apply Hp.
  - destruct Hc as [Hc| ->]; [right|by left]. intros j Hj. rewrite Hc. split; congruence.
  - intros Hn. destruct Hc as [Hc| ->]; [congruence|by apply Hs].
Qed.

Lemma sim_idle g a i t :
  sim g a → threads g !! i = Some t → running t = None →
  ∃ u, callers a !! i = Some u ∧ running u = None ∧ asks u = asks t ∧ asks_ok (asks t) ∧
    history u = history t ∧ holder g ≠ Some i.
Proof.
  intros Hs Ht Hr. pose proof (sm_threads _ _ Hs i) as Hi. rewrite Ht in Hi.
  inversion Hi as [? u [? ? ? Hp] E1 E2|]; subst. exists u. rewrite Hr in Hp.
  by destruct (running u) as [[op' r]|].
Qed.

Lemma sim_begin g a i t op :
  sim g a → threads g !! i = Some t → running t = None → asks t (history t) = Some op →
  ∃ a', spec_step cap a a' ∧ sim (move g i (shared g) (holder g) (at_work t op (call op))) a'.
Proof.
  intros Hs Ht Hr Hop. destruct (sim_idle _ _ _ _ Hs Ht Hr) as (u & Hu & Hru & Ha & Hok & Hh & Hn).
  exists (advance a i (at_work u op None)). split; [apply spec_call; [done..|congruence]|].
  eapply sim_move; [done..| |by left|apply Hs|apply Hs|by left|apply Hs].
  split; [done..|]. cbn. split; [done|]. unfold progress. rewrite decide_False by done.
  by eapply call_ready, Hok.
Qed.

Lemma sim_finish g a i t op b :
  sim g a → busy g i t op (Done b) →
  ∃ a', spec_step cap a a' ∧ sim (move g i (shared g) (holder g) (answered t op b)) a'.
Proof.
  intros Hs Hb. destruct (sim_busy _ _ _ _ _ _ Hs Hb) as (u & r & Hu & Hr & Ha & Hok & Hh & Hp).
  unfold progress in Hp. case_decide as Hi; [by destruct Hp|]. destruct r as [b'|]; [|done].
  injection Hp as <-. exists (advance a i (answered u op b)). split; [by eapply spec_return|].
  destruct Hb as [Ht _]. eapply sim_move; [done..| |by left|apply Hs|apply Hs|by left|apply Hs].
  split; cbn; [done..| |done]. by rewrite Hh.
Qed.

Lemma sim_acquire g a i t op k c :
  sim g a → busy g i t op (Acquire k) → holder g = None → mtx_lock (shared g) = Ret c →
  sim (move g i c (Some i) (at_work t op k)) a.
Proof.
  intros Hs Hb Hn Hl. destruct (sim_busy _ _ _ _ _ _ Hs Hb) as (u & r & Hu & Hr & Ha & Hok & Hh & Hp).
  unfold progress in Hp. rewrite Hn, decide_False in Hp by done. destruct r; [done|].
  rewrite (sim_same a i u Hu). destruct Hb as [Ht _].
  eapply sim_move; [done..| | |apply Hs|done|by right; right|apply Hs].
  - split; [done..|]. cbn. rewrite Hr. split; [done|]. unfold progress. rewrite decide_True by done.
    split; [done|]. eapply Hp; [by apply Hs|done|apply Hs].
  - right. intros j Hj. rewrite Hn. split; congruence.
Qed.

Lemma good_bound c its : good cap c its → (length its <= cap)%nat.
Proof. intros (Hc & _ & <-). pose proof (cache_rep_bound _ _ Hc). lia. Qed.

Lemma sim_release g a i t op k c :
  sim g a → busy g i t op (Release k) → holder g = Some i → mtx_unlock (shared g) = Ret c →
  ∃ a', spec_step cap a a' ∧ sim (move g i c None (at_work t op k)) a'.
Proof.
  intros Hs Hb Hn Hl. destruct (sim_busy _ _ _ _ _ _ Hs Hb) as (u & r & Hu & Hr & Ha & Hok & Hh & Hp).
  unfold progress in Hp. rewrite Hn, decide_True in Hp by done. destruct Hp as [-> (b & c' & -> & E & Hp)].
  rewrite Hl in E. injection E as <-. destruct Hp as (its' & Hat & Hg). destruct Hb as [Ht _].
  eexists. split; [eapply spec_happen; [done..|]; by rewrite (sm_time _ _ Hs)|].
  rewrite (sm_time _ _ Hs). rewrite <- (sm_time _ _ Hs) at 1.
  eapply sim_move; [done..| | |lia|done|by right; left|by eapply good_bound].
  - split; [done..|]. cbn. split; [done|]. unfold progress. by rewrite decide_False.
  - right. intros j Hj. rewrite Hn. split; congruence.
Qed.

Lemma sim_step g a g' : sim g a → step g g' → ∃ a', rtc (spec_step cap) a a' ∧ sim g' a'.
Proof.
  intros Hs Hstep. destruct Hstep as [g d Hd|g i t op Ht Hr Hop|g i t op b Hb|g i t op X r k x Hb ->
    |g i t op X f k x c Hb Hf|g i t op k Hb|g i t op k c Hb Hn Hl|g i t op k c Hb Hn Hl].
  - eexists. split; [apply rtc_once; by apply spec_tick|by apply sim_tick].
  - destruct (sim_begin _ _ _ _ _ Hs Ht Hr Hop) as (a' & ? & ?). eauto using rtc_once.
  - destruct (sim_finish _ _ _ _ _ _ Hs Hb) as (a' & ? & ?). eauto using rtc_once.
  - exists a. split; [done|]. eapply sim_inner; [done..| |by right]. intros r Hp. unfold progress in *.
    case_decide; [destruct Hp as [-> (y & [= ->] & ?)]; done|].
    destruct r; [done|]. by destruct Hp as (y & [= ->] & ?).
  - exists a. split; [done|].
    destruct (sim_busy _ _ _ _ _ _ Hs Hb) as (u & r0 & _ & _ & _ & _ & _ & Hp0). unfold progress in Hp0.
    case_decide as Hi; [|by destruct r0]. eapply sim_inner; [done..| |by left]. intros r Hp. unfold progress in *.
    rewrite decide_True in Hp |- * by done. destruct Hp as [-> (y & c' & E & ?)].
    rewrite Hf in E. by injection E as -> ->.
  - exists a. split; [done|]. eapply sim_inner; [done..| |by right]. intros r Hp. unfold progress in *.
    case_decide; [destruct Hp as [-> Hp]; split; [done|]; apply Hp; lia|by destruct r].
  - exists a. split; [done|]. by apply sim_acquire.
  - destruct (sim_release _ _ _ _ _ _ _ Hs Hb Hn Hl) as (a' & ? & ?). eauto using rtc_once.
Qed.

Lemma sim_steps g a g' : sim g a → rtc step g g' → ∃ a', rtc (spec_step cap) a a' ∧ sim g' a'.
Proof.
  intros Hs Hst. revert a Hs. induction Hst as [g|g g1 g' Hstep Hrest IH]; intros a Hs; [by exists a|].
  destruct (sim_step _ _ _ Hs Hstep) as (a1 & H1 & Hs1). destruct (IH a1 Hs1) as (a' & H2 & Hs').
  exists a'. split; [by etrans|done].
Qed.

Lemma sim_start now c its clients :
  good cap c its → Forall asks_ok clients →
  sim (start now c clients) (MkSpec now now its (spawn <$> clients)).
Proof.
  intros Hg Hc. split; cbn; try done; [|by eapply good_bound].
  intros i. rewrite !list_lookup_fmap. destruct (clients !! i) as [f|] eqn:Ef; constructor.
  split; cbn; try done. by eapply Forall_lookup_1 in Ef.
Qed.

Lemma sim_histories g a : sim g a → history <$> callers a = history <$> threads g.
Proof.
  intros Hs. apply list_eq. intros i. rewrite !list_lookup_fmap.
  pose proof (sm_threads _ _ Hs i) as Hi. destruct Hi as [t u Htu|]; [|done]. cbn. f_equal. apply Htu.
Qed.

Lemma sim_access g a i t op p : sim g a → busy g i t op p → accesses p → holder g = Some i.
Proof.
  intros Hs Hb Hp. destruct (sim_busy _ _ _ _ _ _ Hs Hb) as (u & r & _ & _ & _ & _ & _ & Hpr).
  unfold progress in Hpr. case_decide; [done|]. by destruct p, r.
Qed.

Lemma sim_defined g a : sim g a → ¬ undefined g.
Proof.
  intros Hs (i & t & op & p & Hb & Hst).
  destruct (sim_busy _ _ _ _ _ _ Hs Hb) as (u & r & _ & _ & _ & _ & _ & Hp). unfold progress in Hp.
  case_decide as Hi.
  - destruct Hp as [_ Hp]. destruct p; cbn in *; try naive_solver.
  - destruct r; [by subst|]. destruct p; cbn in *; try naive_solver.
    destruct Hst as [?|[Hn Hst]]; [done|]. pose proof (sm_free _ _ Hs Hn) as ((cs & Hc & _) & _).
    destruct (cache_lock _ _ Hc) as [E _]. by eapply Hst.
Qed.

(** ** A call can always be completed *)

(** After a step of its own, thread [i] still is in its call and the others are
    where they were. *)
Lemma busy_move g i c h t op p p' :
  busy g i t op p →
  busy (move g i c h (at_work t op p')) i (at_work t op p') op p' ∧
  history (at_work t op p') = history t ∧
  ∀ j, j ≠ i → threads (move g i c h (at_work t op p')) !! j = threads g !! j.
Proof.
  intros [Ht _]. split_and!; [split; [|done]|done|].
  - cbn. apply list_lookup_insert_eq. by eapply lookup_lt_Some.
  - intros j Hj. cbn. by rewrite list_lookup_insert_ne.
Qed.

(** Thread [i] has gone on to the answer of its call, and left the mutex. *)
Definition gone_on g (i : nat) t (op : cache_op) g' : Prop :=
  rtc step g g' ∧ holder g' = None ∧ (∃ a', sim g' a') ∧
  (∃ t' b, busy g' i t' op (Done b) ∧ history t' = history t) ∧
  ∀ j, j ≠ i → threads g' !! j = threads g !! j.

(** One own step, and the rest. *)
Lemma go_on g a i t op p p' c h :
  sim g a → busy g i t op p → step g (move g i c h (at_work t op p')) →
  (∀ a', sim (move g i c h (at_work t op p')) a' →
     busy (move g i c h (at_work t op p')) i (at_work t op p') op p' →
     ∃ g', gone_on (move g i c h (at_work t op p')) i (at_work t op p') op g') →
  ∃ g', gone_on g i t op g'.
Proof.
  intros Hs Hb Hst IH. destruct (sim_step _ _ _ Hs Hst) as (a1 & _ & Hs1).
  destruct (busy_move g i c h t op p p' Hb) as (Hb1 & Hh1 & Hj1).
  destruct (IH _ Hs1 Hb1) as (g' & Hr & Hn & Hs' & (t' & b & Hb' & Hh') & Hj').
  exists g'. split_and!; [by eapply rtc_l|done|done| |].
  - exists t', b. split; [done|congruence].
  - intros j Hji. by rewrite Hj', Hj1.
Qed.

Lemma leave_mutex g a i t op p :
  sim g a → busy g i t op p → holder g = Some i → ∃ g', gone_on g i t op g'.
Proof.
  revert g a t. induction p as [b|X r k IH|X f k IH|k IH|k _|k _]; intros g a t Hs Hb Hh;
    destruct (sim_busy _ _ _ _ _ _ Hs Hb) as (u & ro & _ & _ & _ & _ & _ & Hp);
    unfold progress in Hp; rewrite decide_True in Hp by done; destruct Hp as [_ Hp]; cbn in Hp; try done.
  - destruct Hp as (x & -> & _). eapply go_on; [done..|by eapply step_local|]. intros. by eapply (IH x).
  - destruct Hp as (x & c' & E & _). eapply go_on; [done..|by eapply step_access|]. intros. by eapply (IH x).
  - eapply go_on; [done..|by eapply step_clock|]. intros. by eapply (IH (clock g)).
  - destruct Hp as (b & c' & -> & E & _). pose proof (step_release g i t op (Done b) c' Hb Hh E) as Hst.
    destruct (sim_step _ _ _ Hs Hst) as (a1 & _ & Hs1). destruct (busy_move g i c' None t op _ (Done b) Hb) as (? & ? & ?).
    eexists. split; [by apply rtc_once|]. split_and!; [done|eauto..|done]. 
Qed.

Lemma enter_mutex g a i t op p :
  sim g a → busy g i t op p → holder g = None → ready p (keeps cap op) → ∃ g', gone_on g i t op g'.
Proof.
  revert g a t. induction p as [b|X r k IH|X f k IH|k IH|k _|k _]; intros g a t Hs Hb Hh Hp; cbn in Hp; try done.
  - destruct Hp as (x & -> & Hp). eapply go_on; [done..|by eapply step_local|]. intros. by eapply (IH x).
  - destruct (sm_free _ _ Hs Hh) as ((cs & Hc & _) & _). destruct (cache_lock _ _ Hc) as [E _].
    eapply go_on; [done..|by eapply step_acquire|]. intros. by eapply leave_mutex.
Qed.

Lemma call_completes g a i t op p :
  sim g a → busy g i t op p →
  ∃ g' t' b, rtc step g g' ∧ threads g' !! i = Some t' ∧ history t' = history t ++ [(op, b)].
Proof.
  intros Hs Hb.
  assert (Hlast : ∀ g1 t1 b, busy g1 i t1 op (Done b) → rtc step g g1 → history t1 = history t →
    ∃ g' t' b, rtc step g g' ∧ threads g' !! i = Some t' ∧ history t' = history t ++ [(op, b)]).
  { intros g1 t1 b Hb1 Hr Hh. exists (move g1 i (shared g1) (holder g1) (answered t1 op b)), (answered t1 op b), b.
    split_and!; [by eapply rtc_r; [|eapply step_return]| |cbn; congruence].
    cbn. apply list_lookup_insert_eq. destruct Hb1 as [Ht1 _]. by eapply lookup_lt_Some. }
  assert (Hfree : ∀ g1 a1, sim g1 a1 → busy g1 i t op p → rtc step g g1 → holder g1 = None →
    ∃ g' t' b, rtc step g g' ∧ threads g' !! i = Some t' ∧ history t' = history t ++ [(op, b)]).
  { intros g1 a1 Hs1 Hb1 Hr Hn. destruct (sim_busy _ _ _ _ _ _ Hs1 Hb1) as (u & ro & _ & _ & _ & _ & _ & Hp).
    unfold progress in Hp. rewrite Hn, decide_False in Hp by done. destruct ro as [b|]; [subst; by eapply Hlast|].
    destruct (enter_mutex g1 a1 i t op p) as (g' & Hr' & _ & _ & (t' & b & Hb' & Hh') & _); [done..|].
    eapply Hlast; [done|by etrans|done]. }
  destruct (holder g) as [j|] eqn:Hh; [|by eapply Hfree].
  destruct (decide (j = i)) as [->|Hij].
  - destruct (leave_mutex g a i t op p) as (g' & Hr & _ & _ & (t' & b & Hb' & Hh') & _); [done..|].
    by eapply Hlast.
  - destruct (sm_held _ _ Hs j Hh) as [tj Htj].
    destruct (running tj) as [[opj pj]|] eqn:Hrj.
    + destruct (leave_mutex g a j tj opj pj) as (g' & Hr & Hn & (a' & Hs') & _ & Hj); [done..|].
      eapply Hfree; [done| |done|done]. destruct Hb as [Ht Hrt]. split; [by rewrite Hj|done].
    + destruct (sim_idle _ _ _ _ Hs Htj Hrj) as (_ & _ & _ & _ & _ & _ & Hne). done.
Qed.
End simulation.
(** ** Properties *)

(** C8. The threads are linearizable.  However the steps of the threads
    interleave, every call has its effect and its answer at one moment between
    its begin and its end, the one [Cache.v] gives for that moment: the answers
    the threads get are those of the specification, in which calls are
    indivisible.  No two threads are ever about to touch the cache at once,
    nothing undefined happens (no second lock, no unlock by another thread, no
    access through a dangling pointer), and the cache never holds more items
    than its capacity. *)
Theorem threads_linearize {M : Type} `{!MapOps (list Z) loc M, !MapLaws (list Z) loc M}
    (cap : nat) (now : Z) (c : DnsCache M) (its : list item) (clients : list client) (g : config M) :
  good cap c its → Forall asks_ok clients → rtc step (start now c clients) g →
  ¬ undefined g ∧ ¬ race g ∧
  ∃ a, rtc (spec_step cap) (MkSpec now now its (spawn <$> clients)) a ∧ time a = clock g ∧
    history <$> callers a = history <$> threads g ∧ (length (items a) <= cap)%nat ∧
    (holder g = None → cache_rep (shared g) (items a)).
Proof.
  intros Hg Hc Hr. destruct (sim_steps cap _ _ _ (sim_start cap now c its clients Hg Hc) Hr) as (a & Ha & Hs).
  split_and!; [by eapply sim_defined| |].
  - intros (i & j & t & u & op & op' & p & q & Hi & Hj & Hne & Hp & Hq).
    pose proof (sim_access _ _ _ _ _ _ _ Hs Hi Hp). pose proof (sim_access _ _ _ _ _ _ _ Hs Hj Hq). congruence.
  - exists a. split_and!; [done|apply Hs|by eapply sim_histories|apply Hs|]. intros Hn. by apply Hs.
Qed.

(** C26. No deadlock: whatever the threads have done, a call that has begun can
    be completed; whoever has the mutex can go on to release it. *)
Theorem threads_complete {M : Type} `{!MapOps (list Z) loc M, !MapLaws (list Z) loc M}
    (cap : nat) (now : Z) (c : DnsCache M) (its : list item) (clients : list client) (g : config M)
    (i : nat) (t : thread (code (DnsCache M) answer)) op p :
  good cap c its → Forall asks_ok clients → rtc step (start now c clients) g → busy g i t op p →
  ∃ g' t' b, rtc step g g' ∧ threads g' !! i = Some t' ∧ history t' = history t ++ [(op, b)].
Proof.
  intros Hg Hc Hr Hb. destruct (sim_steps cap _ _ _ (sim_start cap now c its clients Hg Hc) Hr) as (a & _ & Hs).
  by eapply call_completes.
Qed.

(** ** A run of the server's thread and the pruning thread *)

Section witness.
Abbreviation ctable := (HashMap.HashMap (list Z) loc).
#[local] Instance demo_ops : MapOps (list Z) loc ctable := @HashMap.str_table_ops always loc.
#[local] Instance demo_laws : MapLaws (list Z) loc ctable := @HashMap.str_table_laws always always_total loc.

(** It stores a record unless it is there. *)
Definition demo_client : client := λ past,
  match past with
  | [] => Some (OpGet [1; 97; 0] 1 1)
  | [(_, Found None)] => Some (OpPut [1; 97; 0] 1 1 demo_value)
  | [_; _] => Some (OpGet [1; 97; 0] 1 1)
  | _ => None
  end.

Lemma demo_asks : Forall asks_ok [demo_client; daemon].
Proof.
  repeat constructor.
  - intros past op. unfold demo_client. repeat case_match; intros; simplify_eq; cbn; eauto using demo_value_ok.
  - by intros past op [= <-].
Qed.

(** The threads take turns. *)
Definition demo_schedule : list event := mjoin (replicate 120 [Run 0; Run 1; Tick 1]).

Lemma demo_created : ∃ c : DnsCache ctable, cache_create = Ret (Some c) ∧ good 1024 c [].
Proof.
  destruct (cache_create_spec (M := ctable)) as (c & E & Hc & Hcap). exists c. split; [exact E|].
  split_and!; [exact Hc|constructor|]. rewrite Hcap. reflexivity.
Qed.

Definition after_schedule {A} (f : config ctable → A) : Res A :=
  match cache_create (M := ctable) with
  | Ret (Some c) => Ret (f (follow demo_schedule (start 0 c [demo_client; daemon])))
  | _ => UB
  end.

(** What evaluation finds at the end of the schedule, there is. *)
Lemma after_schedule_found {A} (f : config ctable → A) v : after_schedule f = Ret v →
  ∃ c g, good 1024 c [] ∧ rtc step (start 0 c [demo_client; daemon]) g ∧ f g = v.
Proof.
  destruct demo_created as (c & E & Hg). unfold after_schedule. rewrite E. intros H.
  apply (f_equal (λ r, match r with Ret x => x | _ => v end)) in H. cbn beta iota in H.
  exists c, (follow demo_schedule (start 0 c [demo_client; daemon])).
  split; [exact Hg|]. split; [apply follow_steps|exact H].
Qed.

Definition demo_answers : list (cache_op * answer) :=
  [(OpGet [1; 97; 0] 1 1, Found None); (OpPut [1; 97; 0] 1 1 demo_value, Code 0);
   (OpGet [1; 97; 0] 1 1, Found (Some demo_value))].

Lemma threads_linearize_witness :
  ∃ a : spec, rtc (spec_step 1024) (MkSpec 0 0 [] (spawn <$> [demo_client; daemon])) a ∧
    history <$> callers a = [demo_answers; replicate 7 (OpPrune, Code 0)].
Proof.
  destruct (after_schedule_found (λ g, history <$> threads g) [demo_answers; replicate 7 (OpPrune, Code 0)])
    as (c & g & Hg & Hr & Eh); [vm_compute; reflexivity|].
  destruct (threads_linearize 1024 0 c [] [demo_client; daemon] g Hg demo_asks Hr) as (_ & _ & a & Ha & _ & Hh & _).
  exists a. split; [exact Ha|]. rewrite Hh. exact Eh.
Defined.

(** The pruning thread is in its eighth call when the schedule ends. *)
Lemma threads_complete_witness :
  ∃ (g g' : config ctable) t' b, rtc step g g' ∧ threads g' !! 1%nat = Some t' ∧
    history t' = replicate 7 (OpPrune, Code 0) ++ [(OpPrune, b)].
Proof.
  destruct (after_schedule_found (λ g, (λ t, (history t, fst <$> running t)) <$> threads g !! 1%nat)
    (Some (replicate 7 (OpPrune, Code 0), Some OpPrune))) as (c & g & Hg & Hs & Eh); [vm_compute; reflexivity|].
  apply fmap_Some in Eh as (t & Ht & Et). injection Et as Hh Et. symmetry in Et.
  apply fmap_Some in Et as ([op p] & Hr & Eop). cbn in Eop.
  destruct (threads_complete 1024 0 c [] [demo_client; daemon] g 1 t op p Hg demo_asks Hs (conj Ht Hr))
    as (g' & t' & b & Hs' & Ht' & Hh').
  exists g, g', t', b. split; [exact Hs'|]. split; [exact Ht'|]. rewrite Hh', <- Hh, <- Eop. reflexivity.
Defined.

End witness.
End Threads.
