(* ===== verification/Daemon.v ===== *)
(** * The server's thread does not notice the pruning thread

    [Server.v] runs the calls of the server's thread one after another, as if it
    were alone.  Here the steps of the two threads of the program interleave as
    [Threads.v] lets them: the answers the server's thread gets are those of its
    calls run one after another by the functions of [Cache.v], without the
    pruning thread, as long as the cache has room.  (When it is full the thread
    makes a difference: it frees places, and fewer items are evicted.) *)

From S2P Require Import Prelude CString MapInterface HashMap Protocol Cache Threads.
Import Protocol Cache Threads.

Module Daemon.

(** ** The live items

    Two caches are alike when they hold the same items that have not expired,
    in the same order. *)

Lemma prune_later t t' A : t ≤ t' → lru_prune t' (lru_prune t A) = lru_prune t' A.
Proof.
  intros Ht. unfold lru_prune. apply list_filter_filter_l. intros i Hi.
  destruct (item_expired t i) eqn:E; [|done]. by rewrite (item_expired_later _ _ _ Ht E) in Hi.
Qed.

Lemma filter_all {A} (P : A → Prop) `{∀ x, Decision (P x)} l : Forall P l → filter P l = l.
Proof. induction 1 as [|x l Hx _ IH]; [done|]. by rewrite filter_cons_True, IH. Qed.

Lemma find_item_none k A : find_item k A = None → remove_key k A = A.
Proof.
  intros Hf. apply filter_all, Forall_forall. intros i Hi Hk.
  assert (Hin : i ∈ filter (λ i, i_key i = k) A) by (by apply list_elem_of_filter).
  unfold find_item in Hf. destruct (filter _ A); [by apply elem_of_nil in Hin|done].
Qed.

Lemma prune_remove t k A : lru_prune t (remove_key k A) = remove_key k (lru_prune t A).
Proof.
  unfold lru_prune, remove_key. rewrite !list_filter_filter. apply list_filter_iff. intros i. tauto.
Qed.

Lemma prune_cons t i A :
  lru_prune t (i :: A) = (if item_expired t i then [] else [i]) ++ lru_prune t A.
Proof. unfold lru_prune. rewrite filter_cons. by destruct (item_expired t i). Qed.

Lemma keys_filter (P : item → Prop) `{∀ x, Decision (P x)} A :
  NoDup (i_key <$> A) → NoDup (i_key <$> filter P A).
Proof. intros Hnd. eapply sublist_NoDup; [exact Hnd|]. apply fmap_sublist, sublist_filter. Qed.

Lemma keys_cons k i A : i_key i = k → NoDup (i_key <$> A) → NoDup (i_key <$> i :: remove_key k A).
Proof.
  intros <- Hnd. cbn. apply NoDup_cons. split; [|by apply keys_filter].
  intros (j & E & [Hj _]%list_elem_of_filter)%list_elem_of_fmap. by destruct Hj.
Qed.

Lemma length_remove k A : (length (remove_key k A) ≤ length A)%nat.
Proof. apply length_filter. Qed.

Lemma length_found k i A : find_item k A = Some i → (length (remove_key k A) < length A)%nat.
Proof. intros [Hk Hi]%find_item_key. apply (length_filter_lt _ _ i Hi). by intros []. Qed.

(** What a lookup and a put make of the live items. *)
Lemma get_live t k A :
  NoDup (i_key <$> A) →
  (lru_get t k A).1 = i_value <$> find_item k (lru_prune t A) ∧
  lru_prune t (lru_get t k A).2 =
    match find_item k (lru_prune t A) with
    | Some i => i :: remove_key k (lru_prune t A)
    | None => lru_prune t A
    end.
Proof.
  intros Hnd. pose proof (find_item_prune t k A Hnd) as E. unfold lru_get. rewrite E.
  destruct (find_item k A) as [i|] eqn:Ef; [|done]. destruct (item_expired t i) eqn:Ex; cbn [fst snd].
  - split; [done|]. rewrite prune_remove. by apply find_item_none.
  - split; [done|]. by rewrite prune_cons, Ex, prune_remove.
Qed.

Lemma put_live t cap k v A :
  (length A < cap)%nat →
  lru_prune t (lru_put t cap k v A) = lru_prune t (MkItem k v t :: remove_key k (lru_prune t A)).
Proof.
  intros Hcap. assert (E : lru_put t cap k v A = MkItem k v t :: remove_key k A).
  { unfold lru_put. destruct (find_item k A) eqn:Ef; [done|].
    rewrite decide_False by lia. by rewrite (find_item_none _ _ Ef). }
  rewrite E, !prune_cons, !prune_remove, prune_later by done. done.
Qed.

Lemma prune_at_live lo nows hi A :
  ordered lo nows hi → length nows = length A → lru_prune hi (prune_at nows A) = lru_prune hi A.
Proof.
  revert lo nows. induction A as [|i A IH]; intros lo [|now nows] Ho Hl; cbn in Ho, Hl; try done.
  destruct Ho as [_ Ho]. cbn [prune_at]. rewrite prune_cons, <- (IH now nows) by (done || lia).
  destruct (item_expired now i) eqn:E; [|by rewrite prune_cons].
  assert (now ≤ hi) as Hle.
  { clear -Ho. revert now Ho. induction nows as [|n nows IH]; intros now; cbn; [lia|]. intros [? ?%IH]. lia. }
  by rewrite (item_expired_later _ _ _ Hle E).
Qed.

Lemma prune_at_sublist nows A : prune_at nows A `sublist_of` A.
Proof.
  revert nows. induction A as [|i A IH]; intros [|now nows]; cbn; try apply sublist_nil_l.
  destruct (item_expired now i); [by constructor|by constructor].
Qed.

(** ** Two caches that are alike *)

Record alike (t : Z) (n : nat) A B : Prop := {
  ak_live : lru_prune t A = lru_prune t B;
  ak_left : NoDup (i_key <$> A);
  ak_right : NoDup (i_key <$> B);
  ak_size : (length A ≤ n ∧ length B ≤ n)%nat;
}.

Lemma alike_later t t' n A B : t ≤ t' → alike t n A B → alike t' n A B.
Proof.
  intros Ht []. split; try done. rewrite <- (prune_later t t' A), <- (prune_later t t' B) by done. by f_equal.
Qed.

Definition is_put (op : cache_op) : nat := match op with OpPut _ _ _ _ => 1 | _ => 0 end.

Lemma put_keys t cap k v A :
  (length A < cap)%nat → NoDup (i_key <$> A) →
  NoDup (i_key <$> lru_put t cap k v A) ∧ (length (lru_put t cap k v A) ≤ S (length A))%nat.
Proof.
  intros Hcap Hnd. split; [|apply lru_put_length].
  assert (E : lru_put t cap k v A = MkItem k v t :: remove_key k A).
  { unfold lru_put. destruct (find_item k A) eqn:Ef; [done|].
    rewrite decide_False by lia. by rewrite (find_item_none _ _ Ef). }
  rewrite E. by apply keys_cons.
Qed.

Lemma get_keys t k A :
  NoDup (i_key <$> A) →
  NoDup (i_key <$> (lru_get t k A).2) ∧ (length (lru_get t k A).2 ≤ length A)%nat.
Proof.
  intros Hnd. unfold lru_get. destruct (find_item k A) as [i|] eqn:Ef; [|done].
  destruct (find_item_key _ _ _ Ef) as [Hk _]. pose proof (length_found _ _ _ Ef).
  destruct (item_expired t i); cbn [snd]; (split; [|cbn; lia]); [by apply keys_filter|by apply keys_cons].
Qed.

Lemma prune_alike lo nows hi n A B :
  ordered lo nows hi → length nows = length A → alike hi n A B → alike hi n (prune_at nows A) B.
Proof.
  intros Ho Hl [Hlive HA HB [Hn Hm]]. pose proof (prune_at_sublist nows A) as Hsub. split; [| |done|].
  - by rewrite (prune_at_live lo nows hi).
  - eapply sublist_NoDup; [exact HA|by apply fmap_sublist].
  - split; [|done]. apply sublist_length in Hsub. lia.
Qed.

(** A call that happens in the one cache and the same call, at a time in
    between, in the other. *)
Lemma happen_alike lo hi cap n A B op r A' :
  alike lo n A B → lo ≤ hi → (n + is_put op ≤ cap)%nat → atomic lo hi cap A op r A' →
  ∃ t B', lo ≤ t ≤ hi ∧ spec_op t cap op B = (r, B') ∧ alike hi (n + is_put op) A' B'.
Proof.
  intros Hal Hlo Hn Ha. destruct Ha as [t q ty c v Ht|t q ty c Ht|nows Ho Hl].
  - apply (alike_later _ t) in Hal; [|lia]. destruct Hal as [Hlive HA HB [HnA HnB]]. cbn [is_put] in *.
    exists t, (lru_put t cap (key_of q ty c) v B). split_and!; [lia|lia|done|].
    destruct (put_keys t cap (key_of q ty c) v A) as [? ?]; [lia|done|].
    destruct (put_keys t cap (key_of q ty c) v B) as [? ?]; [lia|done|].
    apply (alike_later t); [lia|]. split; [|done|done|lia]. by rewrite !put_live, Hlive by lia.
  - apply (alike_later _ t) in Hal; [|lia]. destruct Hal as [Hlive HA HB [HnA HnB]].
    destruct (get_live t (key_of q ty c) A HA) as [EA LA]. destruct (get_live t (key_of q ty c) B HB) as [EB LB].
    destruct (get_keys t (key_of q ty c) A HA) as [? ?]. destruct (get_keys t (key_of q ty c) B HB) as [? ?].
    rewrite Hlive in EA, LA. exists t, (lru_get t (key_of q ty c) B).2. split_and!; [lia|lia| |].
    + cbn [spec_op]. rewrite EA, <- EB. by destruct (lru_get t _ B).
    + apply (alike_later t); [lia|]. split; [congruence|done|done|cbn; lia].
  - apply (alike_later _ hi) in Hal; [|lia]. exists hi, (lru_prune hi B). split_and!; [lia|lia|done|].
    destruct (prune_alike lo nows hi n A B Ho Hl Hal) as [Hlive HA HB [HnA HnB]]. cbn [is_put].
    rewrite Nat.add_0_r. split; [by rewrite prune_later|done|by apply keys_filter|].
    split; [done|]. pose proof (length_filter (λ i, item_expired hi i = false) B). unfold lru_prune. lia.
Qed.

(** ** The runs of the specification *)

Definition puts (past : list (cache_op * answer)) : nat := sum_list_with (λ p, is_put p.1) past.

(** The puts a thread has begun, and the calls of it that have happened. *)
Definition begun {R} (t : thread R) : nat :=
  puts (history t) + match running t with Some (op, _) => is_put op | None => 0 end.
Definition happened (t : thread (option answer)) : list (cache_op * answer) :=
  history t ++ match running t with Some (op, Some r) => [(op, r)] | _ => [] end.

Lemma puts_snoc past op a : puts (past ++ [(op, a)]) = (puts past + is_put op)%nat.
Proof. unfold puts. rewrite sum_list_with_app. cbn. lia. Qed.

Lemma ordered_snoc lo nows t hi : ordered lo nows t → t ≤ hi → ordered lo (nows ++ [t]) hi.
Proof. revert lo. induction nows as [|n nows IH]; intros lo; cbn; [tauto|]. intros []. auto. Qed.

Lemma ordered_app lo nows nows' hi : ordered lo (nows ++ nows') hi → ordered lo nows hi.
Proof.
  revert lo. induction nows as [|n nows IH]; intros lo; cbn; [|naive_solver].
  revert lo. induction nows' as [|n nows' IH]; intros lo; cbn; [done|]. intros [? ?%IH]. lia.
Qed.

Lemma spec_ops_app cap ops ops' A :
  spec_ops cap (ops ++ ops') A =
    ((spec_ops cap ops A).1 ++ (spec_ops cap ops' (spec_ops cap ops A).2).1,
     (spec_ops cap ops' (spec_ops cap ops A).2).2).
Proof.
  revert A. induction ops as [|[t op] ops IH]; intros A; cbn; [by destruct (spec_ops _ _ _)|].
  destruct (spec_op t cap op A) as [a B]. rewrite IH. by destruct (spec_ops cap ops B).
Qed.

Lemma spec_ops_length cap ops A : length (spec_ops cap ops A).1 = length ops.
Proof.
  revert A. induction ops as [|[t op] ops IH]; intros A; cbn; [done|].
  destruct (spec_op t cap op A) as [a B]. specialize (IH B). destruct (spec_ops cap ops B). cbn in *. lia.
Qed.

(** The answers of a list of calls run one after another, and the items after. *)
Definition answers_alone (cap : nat) (nows : list Z) (past : list (cache_op * answer)) A B : Prop :=
  length nows = length past ∧ spec_ops cap (zip nows past.*1) A = (past.*2, B).

Lemma answers_snoc cap nows past A B t op r B' :
  answers_alone cap nows past A B → spec_op t cap op B = (r, B') →
  answers_alone cap (nows ++ [t]) (past ++ [(op, r)]) A B'.
Proof.
  intros [Hl E] Eop. split; [rewrite !length_app; cbn; lia|].
  rewrite !fmap_app, zip_with_app by (by rewrite length_fmap). rewrite spec_ops_app, E. cbn.
  by rewrite Eop.
Qed.

Lemma answers_before cap nows past past' A B :
  answers_alone cap nows (past ++ past') A B →
  ∃ nows1 nows2 B1, nows = nows1 ++ nows2 ∧ answers_alone cap nows1 past A B1.
Proof.
  intros [Hl E]. rewrite length_app in Hl. exists (take (length past) nows), (drop (length past) nows).
  rewrite <- (take_drop (length past) nows) in E.
  assert (Ht : length (take (length past) nows) = length past) by (rewrite length_take; lia).
  rewrite !fmap_app, zip_with_app, spec_ops_app in E by (by rewrite length_fmap).
  injection E as E _. apply app_inj_1 in E as [E _]; [|rewrite spec_ops_length, length_zip_with, !length_fmap; lia].
  eexists. split; [by rewrite take_drop|]. split; [done|]. rewrite <- E. apply surjective_pairing.
Qed.

(** What the steps of the specification keep: the thread [u] was answered as if
    it were alone, as long as its puts left room in the cache. *)
Definition as_if_alone cap (now : Z) (its : list item) (u : thread (option answer)) (hi : Z) A : Prop :=
  (length its + begun u ≤ cap)%nat →
  ∃ nows B, ordered now nows hi ∧ answers_alone cap nows (happened u) its B ∧
    alike hi (length its + puts (happened u)) A B.

Record unseen cap (now : Z) (its : list item) (a : spec) (u d : thread (option answer)) : Prop := {
  un_callers : callers a = [u; d];
  un_time : last a ≤ time a;
  un_asks : asks_ok (asks u);
  un_happened : Forall (λ p, op_ok p.1) (happened u);
  un_running op r : running u = Some (op, r) → op_ok op;
  un_daemon : asks d = daemon;
  un_pruning op r : running d = Some (op, r) → op = OpPrune;
  un_alone : as_if_alone cap now its u (last a) (items a);
}.

Ltac split_unseen := split; cbn [advance callers time last items asks]; try done.

(** Which of the two threads moves. *)
Lemma which {A} (i : nat) (t u d : A) :
  [u; d] !! i = Some t → (i = 0%nat ∧ t = u) ∨ (i = 1%nat ∧ t = d).
Proof. destruct i as [|[|i]]; cbn; intros [= <-]; auto. Qed.

Lemma unseen_call cap now its a u d i t op :
  unseen cap now its a u d → callers a !! i = Some t → running t = None →
  asks t (history t) = Some op → ∃ u' d', unseen cap now its (advance a i (at_work t op None)) u' d'.
Proof.
  intros [Hc Ht Hu Hh Hr Hd Hp Ha] Hi Hn Hop. rewrite Hc in Hi.
  destruct (which _ _ _ _ Hi) as [[-> ->]|[-> ->]].
  - assert (Ehap : happened (at_work u op None) = happened u) by (unfold happened; cbn; by rewrite Hn).
    exists (at_work u op None), d. split_unseen; [by rewrite Hc|by rewrite Ehap| |].
    + intros op' r [= <- _]. by eapply Hu.
    + unfold as_if_alone in *. rewrite Ehap. intros Hfit. apply Ha.
      unfold begun in *. rewrite Hn. cbn [history running at_work] in Hfit. lia.
  - exists u, (at_work d op None). split_unseen; [by rewrite Hc|].
    intros op' r [= <- _]. rewrite Hd in Hop. by injection Hop.
Qed.

Lemma unseen_happen cap now its a u d i t op r items' :
  unseen cap now its a u d → callers a !! i = Some t → running t = Some (op, None) →
  atomic (last a) (time a) cap (items a) op r items' →
  ∃ u' d', unseen cap now its
    (MkSpec (time a) (time a) items' (<[i := at_work t op (Some r)]> (callers a))) u' d'.
Proof.
  intros [Hc Ht Hu Hh Hr Hd Hp Ha] Hi Hn Hat. rewrite Hc in Hi |- *.
  destruct (which _ _ _ _ Hi) as [[-> ->]|[-> ->]].
  - assert (Ebef : happened u = history u) by (unfold happened; by rewrite Hn, app_nil_r).
    exists (at_work u op (Some r)), d. unfold as_if_alone in *. rewrite Ebef in *. split_unseen.
    + apply Forall_app. split; [done|]. constructor; [by eapply Hr|done].
    + intros op' r' [= <- _]. by eapply Hr.
    + intros Hfit. unfold begun in *. rewrite Hn in Ha. cbn [history running at_work] in Hfit.
      destruct (Ha Hfit) as (nows & B & Ho & Han & Hal).
      edestruct (happen_alike (last a) (time a) cap) as (t & B' & [? ?] & Eop & Hal'); [done..| |done|]; [lia|].
      exists (nows ++ [t]), B'. split_and!.
      * eapply ordered_snoc; [by eapply ordered_later|done].
      * by eapply answers_snoc.
      * unfold happened. cbn. by rewrite puts_snoc, Nat.add_assoc.
  - exists u, (at_work d op (Some r)). assert (op = OpPrune) as -> by (by eapply Hp).
    split_unseen; [naive_solver|].
    intros Hfit. destruct (Ha Hfit) as (nows & B & Ho & Han & Hal). exists nows, B.
    split_and!; [by eapply ordered_later|done|]. inversion Hat; subst.
    eapply prune_alike; [done..|]. by eapply alike_later.
Qed.

Lemma unseen_return cap now its a u d i t op r :
  unseen cap now its a u d → callers a !! i = Some t → running t = Some (op, Some r) →
  ∃ u' d', unseen cap now its (advance a i (answered t op r)) u' d'.
Proof.
  intros [Hc Ht Hu Hh Hr Hd Hp Ha] Hi Hn. rewrite Hc in Hi.
  destruct (which _ _ _ _ Hi) as [[-> ->]|[-> ->]].
  - assert (Ehap : happened (answered u op r) = happened u) by (unfold happened; cbn; by rewrite Hn, app_nil_r).
    assert (Ebeg : begun (answered u op r) = begun u)
      by (unfold begun; cbn; rewrite Hn, puts_snoc; lia).
    exists (answered u op r), d. unfold as_if_alone in *. split_unseen; [by rewrite Hc|by rewrite Ehap|].
    unfold as_if_alone. by rewrite Ehap, Ebeg.
  - exists u, (answered d op r). split_unseen. by rewrite Hc.
Qed.

Lemma unseen_steps cap now its a a' u d :
  unseen cap now its a u d → rtc (spec_step cap) a a' → ∃ u' d', unseen cap now its a' u' d'.
Proof.
  intros Hs Hr. revert u d Hs. induction Hr as [a|a a1 a' Hstep _ IH]; intros u d Hs; [by eauto|].
  assert (∃ u1 d1, unseen cap now its a1 u1 d1) as (u1 & d1 & Hs1); [|by eapply IH].
  destruct Hstep; [|by eapply unseen_call|by eapply unseen_happen|by eapply unseen_return].
  exists u, d. destruct Hs. split; cbn; try done. lia.
Qed.

Lemma alike_refl t A : NoDup (i_key <$> A) → alike t (length A) A A.
Proof. done. Qed.

Lemma unseen_start cap now its f :
  NoDup (i_key <$> its) → asks_ok f →
  unseen cap now its (MkSpec now now its (spawn <$> [f; daemon])) (spawn f) (spawn daemon).
Proof.
  intros Hnd Hf. split; cbn; try done. intros _. exists [], its. split_and!; [cbn; lia|done|].
  cbn. rewrite Nat.add_0_r. by apply alike_refl.
Qed.

(** What this says of a run of the program's threads. *)
Lemma reached_unseen {M : Type} `{!MapOps (list Z) loc M, !MapLaws (list Z) loc M}
    (cap : nat) (now : Z) (c : DnsCache M) (its : list item) (f : client) (g : config M)
    (t : thread (code (DnsCache M) answer)) :
  good cap c its → asks_ok f → rtc step (start now c [f; daemon]) g → threads g !! 0%nat = Some t →
  (length its + begun t ≤ cap)%nat →
  ∃ nows B, ordered now nows (clock g) ∧ answers_alone cap nows (history t) its B ∧
    Forall (λ p, op_ok p.1) (history t).
Proof.
  intros Hg Hf Hr Ht Hfit.
  assert (Forall asks_ok [f; daemon]) as Hcl.
  { repeat constructor; [done|]. by intros past op [= <-]. }
  destruct (sim_steps cap _ _ _ (sim_start cap now c its _ Hg Hcl) Hr) as (a & Ha & Hs).
  destruct (unseen_steps cap now its _ _ _ _ (unseen_start cap now its f (cache_rep_keys _ _ (proj1 Hg)) Hf) Ha)
    as (u & d & [Hc Htime _ Hok _ _ _ Hal]).
  pose proof (sm_threads _ _ _ Hs 0) as Hi. rewrite Ht, Hc in Hi. inversion Hi as [? ? [_ _ Hh Hrun] E1 E2|]; subst.
  assert (Ebeg : begun u = begun t).
  { unfold begun. rewrite Hh. f_equal. destruct (running t) as [[? ?]|], (running u) as [[? ?]|]; try done.
    by destruct Hrun as [-> _]. }
  destruct Hal as (nows & B & Ho & Han & _); [by rewrite Ebeg|]. rewrite (sm_time _ _ _ Hs) in Htime.
  unfold happened in *. rewrite Hh in *. apply Forall_app in Hok as [Hok _].
  apply answers_before in Han as (nows1 & nows2 & B1 & -> & Han).
  exists nows1, B1. split_and!; [|done..]. eapply ordered_later; [exact Htime|]. by eapply ordered_app.
Qed.

(** ** Property *)

(** C27. The pruning thread is invisible to the server's thread.  However the
    steps of the two threads interleave, the answers that the server's thread
    has got are those its calls get when [Cache.v] runs them one after another,
    without a pruning thread, at times that follow the clock, as long as its
    puts and what was in the cache before leave room in it. *)
Theorem daemon_unseen {M : Type} `{!MapOps (list Z) loc M, !MapLaws (list Z) loc M}
    (cap : nat) (now : Z) (c : DnsCache M) (its : list item) (f : client) (g : config M)
    (t : thread (code (DnsCache M) answer)) :
  good cap c its → asks_ok f → rtc step (start now c [f; daemon]) g → threads g !! 0%nat = Some t →
  (length its + begun t ≤ cap)%nat →
  ∃ nows c', length nows = length (history t) ∧ ordered now nows (clock g) ∧
    run_ops (zip nows (history t).*1) (Some c) = Ret ((history t).*2, Some c').
Proof.
  intros (Hc & Hok & <-) Hf Hr Ht Hfit.
  destruct (reached_unseen (Z.to_nat (capacity c)) now c its f g t) as (nows & B & Ho & Han & Hpast); [done..|].
  destruct Han as [Hl E].
  destruct (run_ops_spec (zip nows (history t).*1) c its) as (c' & Er & _); [|done..|].
  - apply Forall_forall. intros [n op] Hin%elem_of_zip_r. rewrite Forall_forall in Hpast.
    apply list_elem_of_fmap in Hin as (p & -> & Hp). by apply Hpast.
  - exists nows, c'. split_and!; [done..|]. by rewrite Er, E.
Qed.

Section witness.
#[local] Existing Instances Threads.demo_ops Threads.demo_laws.

Lemma daemon_unseen_witness :
  ∃ (c c' : DnsCache (HashMap.HashMap (list Z) loc)) nows,
    run_ops (zip nows demo_answers.*1) (Some c) = Ret (demo_answers.*2, Some c').
Proof.
  destruct (after_schedule_found (λ g, (λ t, (history t, begun t)) <$> threads g !! 0%nat)
    (Some (demo_answers, 1%nat))) as (c & g & Hg & Hr & Eh); [vm_compute; reflexivity|].
  apply fmap_Some in Eh as (t & Ht & Et). injection Et as Hh Eb.
  destruct (daemon_unseen 1024 0 c [] demo_client g t Hg (Forall_inv demo_asks) Hr Ht)
    as (nows & c' & _ & _ & E).
  { rewrite <- Eb. apply Nat.leb_le. vm_compute. reflexivity. }
  exists c, c', nows. rewrite Hh. exact E.
Defined.
End witness.
End Daemon.
