(* ===== verification/PacketLog.v ===== *)
(** * The text of a packet for the log: [packet_to_log_string]

    Both [pack_serialize] and [pack_deserialize] build this text for every
    packet, whatever the level of the log: it is the argument of [do_log].  It
    is written piece by piece into a static buffer of 4096 bytes; [packet_text]
    is the whole text. *)

From Stdlib Require String.
From S2P Require Import Prelude CString NameCodec Protocol MapInterface HashMap Cache.
Import Protocol Cache.
Import String.StringSyntax.

Module PacketLog.

Definition LOG_BUF_SIZE : Z := 4096.

(** [log_buf], and the two local variables that follow the writing. *)
Record log := MkLog { log_buf : list Z; cursor : Z; remaining : Z }.

(** [written = snprintf(cursor, remaining, ...)] where the format spells
    [text], then the two updates.  The size is converted to [size_t]. *)
Definition snprintf (text : list Z) (l : log) : Res log :=
  let size := wrap_u64 (remaining l) in
  let written := Z.of_nat (length text) in
  b ← (if size =? 0 then Ret (log_buf l)
       else blit (log_buf l) (cursor l)
              ((if written <? size then text else take (Z.to_nat (size - 1)) text) ++ [0]));
  Ret (MkLog b (cursor l + written) (remaining l - written)).

Definition newline : list Z := [10].

(** The remaining types of the enumeration [Qtype] the log has a name for. *)
Definition QTYPE_SOA : Z := 6.
Definition QTYPE_PTR : Z := 12.
Definition QTYPE_TXT : Z := 16.

Definition type_str (unknown : list Z) (t : Z) : list Z :=
  if t =? QTYPE_A then lit "A" else if t =? QTYPE_NS then lit "NS"
  else if t =? QTYPE_CNAME then lit "CNAME" else if t =? QTYPE_SOA then lit "SOA"
  else if t =? QTYPE_PTR then lit "PTR" else if t =? QTYPE_MX then lit "MX"
  else if t =? QTYPE_TXT then lit "TXT" else if t =? QTYPE_AAAA then lit "AAAA" else unknown.

Definition header_text (h : SectionHeader) : list Z :=
  lit "header: ID=" ++ print_u (id h) ++ lit " QR=" ++
  (if negb (IS_QUERY (flags h) =? 0) then lit "Query" else lit "Response") ++
  lit " Opcode=" ++ print_u (OPCODE_GET (flags h)) ++ lit " AA=" ++ print_u (AA_GET (flags h)) ++
  lit " TC=" ++ print_u (TC_GET (flags h)) ++ lit " RD=" ++ print_u (RD_GET (flags h)) ++
  lit " RA=" ++ print_u (RA_GET (flags h)) ++ lit " Z=" ++ print_u (Z_GET (flags h)) ++
  lit " RCODE=" ++ print_u (RCODE (flags h)) ++ lit " ".

Definition counts_text (h : SectionHeader) : list Z :=
  lit "Qdcnt=" ++ print_u (qcount h) ++ lit " Ans_RRs=" ++ print_u (answer_RRs h) ++
  lit " auth_RRs=" ++ print_u (authority_RRs h) ++ lit " Addition_RRs =" ++
  print_u (additional_RRs h) ++ lit " " ++ newline ++ lit " ".

(** The bytes of a name before its NUL, which [%s] prints. *)
Definition name_chars (name : list Z) : Res (list Z) :=
  n ← strlen name; Ret (take (Z.to_nat n) name).

Definition question_text (name : list Z) (q : SectionQuestion) : list Z :=
  lit "[" ++ name ++ lit " type=" ++ type_str (lit "UNKNOWN") (qtype q) ++ lit " class=" ++
  print_u (qclass q) ++ lit "]" ++ newline.

Definition rr_text (name : list Z) (rr : ResourceRecord) : list Z :=
  lit "[" ++ name ++ lit " type=" ++ type_str (lit "UNK") (rr_type rr) ++ lit " ttl=" ++
  print_u (rr_ttl rr) ++ lit " rdlen=" ++ print_u (rdata_length rr) ++ lit " ]" ++ newline.

(** [for (i = 0; i < vector_size(v) && remaining > 0; i++)] *)
Fixpoint items_loop {A} (name : A → list Z) (text : list Z → A → list Z) (xs : list A) (l : log) :
    Res log :=
  match xs with
  | [] => Ret l
  | x :: xs =>
      if remaining l >? 0 then
        n ← name_chars (name x);
        l ← snprintf (text n x) l;
        items_loop name text xs l
      else Ret l
  end.

Definition items {A} (title : list Z) (name : A → list Z) (text : list Z → A → list Z)
    (xs : list A) (l : log) : Res log :=
  match xs with
  | [] => Ret l
  | _ => l ← snprintf title l; items_loop name text xs l
  end.

Definition questions_title : list Z := lit "Questions:" ++ newline.
Definition rrs_title : list Z := lit "Resource Records :" ++ newline.

(** [buf] is what the previous call left in the static buffer.  The result is
    the buffer, of which the caller reads the string. *)
Definition packet_to_log_string (dns_pack : option DnsPacket) (buf : list Z) : Res (list Z) :=
  let l := MkLog buf 0 LOG_BUF_SIZE in
  match dns_pack with
  | None => l ← snprintf (lit "NULL packet") l; Ret (log_buf l)
  | Some p =>
      l ← snprintf (header_text (header p)) l;
      l ← snprintf (counts_text (header p)) l;
      l ← items questions_title qname question_text (questions p) l;
      l ← items rrs_title rr_name rr_text (rrs p) l;
      blit (log_buf l) (LOG_BUF_SIZE - 1) [0]
  end.

(** ** The whole text *)

(** The name without its NUL. *)
Definition bare (name : list Z) : list Z := removelast name.

Definition items_text {A} (title : list Z) (name : A → list Z) (text : list Z → A → list Z)
    (xs : list A) : list Z :=
  match xs with [] => [] | _ => title ++ concat ((λ x, text (bare (name x)) x) <$> xs) end.

Definition head_text (p : DnsPacket) : list Z := header_text (header p) ++ counts_text (header p).
Definition packet_text (p : DnsPacket) : list Z :=
  head_text p ++ items_text questions_title qname question_text (questions p) ++
  items_text rrs_title rr_name rr_text (rrs p).

(** The buffer holds as much of [text] as fits, closed by a NUL. *)
Definition shows (buf text : list Z) : Prop :=
  ∃ junk, buf = take (Z.to_nat (LOG_BUF_SIZE - 1)) text ++ 0 :: junk.

Record logged (l : log) (text : list Z) : Prop := {
  lg_size : Z.of_nat (length (log_buf l)) = LOG_BUF_SIZE;
  lg_cursor : cursor l = Z.of_nat (length text);
  lg_remaining : remaining l = LOG_BUF_SIZE - Z.of_nat (length text);
  lg_shows : text = [] ∨ shows (log_buf l) text;
}.

Lemma name_chars_cstring name : cstring name → name_chars name = Ret (bare name).
Proof.
  intros (s & -> & Hs). unfold name_chars, bare.
  rewrite (strlen_app s [] Hs). cbn [mbind Res_bind]. by rewrite Nat2Z.id, take_app_length, removelast_last.
Qed.

Lemma shows_app buf t u : LOG_BUF_SIZE - 1 ≤ Z.of_nat (length t) → shows buf t → shows buf (t ++ u).
Proof. intros Hl [junk ->]. exists junk. by rewrite take_app_le by (unfold LOG_BUF_SIZE in *; lia). Qed.

Lemma wrap_u64_small z : 0 ≤ z < 2 ^ 64 → wrap_u64 z = z.
Proof. apply Z.mod_small. Qed.

(** Writing while the earlier text is at most as long as the buffer. *)
Lemma snprintf_spec l t u :
  logged l t → Z.of_nat (length t) ≤ LOG_BUF_SIZE → u ≠ [] →
  ∃ l', snprintf u l = Ret l' ∧ logged l' (t ++ u).
Proof.
  intros [Hs Hc Hr Hsh] Ht Hu. unfold snprintf, LOG_BUF_SIZE in *.
  rewrite wrap_u64_small by lia. destruct (remaining l =? 0) eqn:E; bools.
  - cbn [mbind Res_bind]. eexists. split; [done|].
    split; cbn [log_buf cursor remaining]; unfold LOG_BUF_SIZE; rewrite ?length_app; try lia.
    right. destruct Hsh as [->|Hsh]; [simpl in *; lia|]. apply shows_app; [unfold LOG_BUF_SIZE; lia|done].
  - set (n := Z.to_nat (remaining l)).
    assert (Hpre : take (length t) (log_buf l) = t).
    { destruct Hsh as [->|[junk ->]]; [done|]. unfold LOG_BUF_SIZE.
      rewrite take_app_le by (rewrite length_take; lia). rewrite take_take. apply take_ge. lia. }
    assert (Hw : (if Z.of_nat (length u) <? remaining l then u
      else take (Z.to_nat (remaining l - 1)) u) = take (Z.to_nat (remaining l - 1)) u).
    { destruct (_ <? _) eqn:?; bools; [|done]. rewrite take_ge by lia. done. }
    rewrite Hw. rewrite blit_Ret by (rewrite ?length_app, ?length_take; simpl; lia).
    cbn [mbind Res_bind]. eexists. split; [done|]. rewrite Hc, Nat2Z.id, Hpre.
    split; cbn [log_buf cursor remaining]; unfold LOG_BUF_SIZE; rewrite ?length_app; try lia.
    + rewrite ?length_app, ?length_take, ?length_drop. simpl. lia.
    + right. eexists. rewrite <- !app_assoc. cbn [app]. unfold LOG_BUF_SIZE.
      rewrite take_app_ge by lia. rewrite <- app_assoc. f_equal. f_equal. f_equal. lia.
Qed.

(** Past the end of the buffer the size has wrapped, and the write is outside. *)
Lemma snprintf_over l t u :
  logged l t → LOG_BUF_SIZE < Z.of_nat (length t) < 2 ^ 32 → Z.of_nat (length u) < 2 ^ 32 →
  snprintf u l = UB.
Proof.
  intros [Hs Hc Hr _] Ht Hu. unfold snprintf, LOG_BUF_SIZE in *. rewrite Hr.
  assert (E : wrap_u64 (4096 - Z.of_nat (length t)) = 2 ^ 64 + (4096 - Z.of_nat (length t))).
  { unfold wrap_u64. rewrite <- (Z.mod_small (2 ^ 64 + _) (2 ^ 64)) by lia.
    rewrite Z.add_mod by lia. by rewrite Z.mod_same, Z.add_0_l, Z.mod_mod by lia. }
  rewrite E. rewrite (proj2 (Z.eqb_neq _ _)) by lia. rewrite (proj2 (Z.ltb_lt _ _)) by lia.
  unfold blit. rewrite (proj2 (Z.leb_gt (cursor l + _) _)) by (rewrite length_app; simpl; lia).
  by rewrite andb_false_r.
Qed.

(** The texts of the items of a list. *)
Definition listing {A} (name : A → list Z) (text : list Z → A → list Z) (xs : list A) : list Z :=
  concat ((λ x, text (bare (name x)) x) <$> xs).

(** The loop writes a prefix of the listing, which is all of it unless the
    buffer is full. *)
Lemma items_loop_spec {A} (name : A → list Z) text xs l t :
  (∀ n x, text n x ≠ []) → Forall (λ x, cstring (name x)) xs → logged l t →
  ∃ l' t1 t2, items_loop name text xs l = Ret l' ∧ logged l' t1 ∧
    t ++ listing name text xs = t1 ++ t2 ∧ (t2 = [] ∨ LOG_BUF_SIZE ≤ Z.of_nat (length t1)).
Proof.
  intros Hne Hxs. revert l t. induction Hxs as [|x xs Hx _ IH]; intros l t Hl; cbn [items_loop].
  { exists l, t, []. split_and!; [done|done|done|by left]. }
  pose proof (lg_remaining _ _ Hl) as Hr. rewrite Z.gtb_ltb. destruct (0 <? remaining l) eqn:E; bools.
  - rewrite (name_chars_cstring _ Hx). cbn [mbind Res_bind].
    destruct (snprintf_spec l t (text (bare (name x)) x) Hl ltac:(lia) (Hne _ _)) as (l1 & -> & Hl1).
    cbn [mbind Res_bind]. destruct (IH _ _ Hl1) as (l' & t1 & t2 & -> & Hl' & Et & Hend).
    exists l', t1, t2. split_and!; [done|done| |done]. rewrite <- Et. unfold listing. simpl.
    by rewrite app_assoc.
  - exists l, t, (listing name text (x :: xs)). split_and!; [done|done|done|right; lia].
Qed.

Lemma items_spec {A} title (name : A → list Z) text xs l t :
  title ≠ [] → (∀ n x, text n x ≠ []) → Forall (λ x, cstring (name x)) xs → logged l t →
  xs = [] ∨ Z.of_nat (length t) ≤ LOG_BUF_SIZE →
  ∃ l' t1 t2, items title name text xs l = Ret l' ∧ logged l' t1 ∧
    t ++ items_text title name text xs = t1 ++ t2 ∧
    (t2 = [] ∨ LOG_BUF_SIZE ≤ Z.of_nat (length t1)).
Proof.
  intros Ht Hne Hxs Hl Hlen. destruct xs as [|x xs].
  { exists l, t, []. split_and!; [done|done|done|by left]. }
  destruct Hlen as [|Hlen]; [done|]. cbn [items].
  destruct (snprintf_spec l t title Hl Hlen Ht) as (l1 & -> & Hl1). cbn [mbind Res_bind].
  destruct (items_loop_spec name text (x :: xs) l1 (t ++ title) Hne Hxs Hl1)
    as (l' & t1 & t2 & E & Hl' & Et & Hend).
  exists l', t1, t2. split_and!; [done|done| |done]. rewrite <- Et. cbn [items_text].
  by rewrite app_assoc.
Qed.

Lemma digits_length fuel n acc : (length (digits fuel n acc) ≤ fuel + length acc)%nat.
Proof.
  revert n acc. induction fuel as [|fuel IH]; intros n acc; simpl; [lia|].
  destruct (n / 10 =? 0); [simpl; lia|]. etransitivity; [apply IH|]. simpl. lia.
Qed.

Lemma print_u_short n : (length (print_u n) ≤ 10)%nat.
Proof. etransitivity; [apply digits_length|]. simpl. lia. Qed.

Lemma head_text_short p : Z.of_nat (length (head_text p)) ≤ 1000.
Proof.
  unfold head_text, header_text, counts_text. rewrite !length_app.
  pose proof print_u_short as Hu.
  repeat match goal with
  | |- context [length (print_u ?n)] =>
      pose proof (Hu n); generalize dependent (length (print_u n)); intros
  end.
  destruct (negb _); simpl; lia.
Qed.

Lemma logged_start buf : Z.of_nat (length buf) = LOG_BUF_SIZE → logged (MkLog buf 0 LOG_BUF_SIZE) [].
Proof. intros Hb. split; [done..|by left]. Qed.

(** After the first two lines. *)
Lemma head_spec p buf :
  Z.of_nat (length buf) = LOG_BUF_SIZE →
  ∃ l, (l ← snprintf (header_text (header p)) (MkLog buf 0 LOG_BUF_SIZE);
        snprintf (counts_text (header p)) l) = Ret l ∧ logged l (head_text p).
Proof.
  intros Hb. pose proof (head_text_short p) as Hs. unfold head_text in *. rewrite length_app in Hs.
  destruct (snprintf_spec _ [] (header_text (header p)) (logged_start _ Hb)) as (l & -> & Hl);
    [done|done|]. cbn [mbind Res_bind].
  destruct (snprintf_spec _ _ (counts_text (header p)) Hl) as (l2 & -> & Hl2);
    [unfold LOG_BUF_SIZE; cbn [app]; lia|done|]. eauto.
Qed.

Lemma question_text_nonempty n q : question_text n q ≠ [].
Proof. done. Qed.
Lemma rr_text_nonempty n r : rr_text n r ≠ [].
Proof. done. Qed.

Definition questions_text (p : DnsPacket) : list Z :=
  items_text questions_title qname question_text (questions p).

Lemma pack_names_ok p :
  pack_ok p → Forall (λ q, cstring (qname q)) (questions p) ∧ Forall (λ r, cstring (rr_name r)) (rrs p).
Proof.
  intros [Hq Hr]. split; [done|]. eapply Forall_impl; [exact Hr|]. by intros r [? _].
Qed.

Lemma shows_close l t t' :
  logged l t → t ≠ [] → (t' = [] ∨ LOG_BUF_SIZE ≤ Z.of_nat (length t)) →
  ∃ b, blit (log_buf l) (LOG_BUF_SIZE - 1) [0] = Ret b ∧ shows b (t ++ t').
Proof.
  intros [Hs _ _ [?|[junk Hj]]] Ht Hend; [done|]. rewrite blit_single by (unfold LOG_BUF_SIZE in *; lia).
  eexists. split; [done|].
  assert (Htk : take (Z.to_nat (LOG_BUF_SIZE - 1)) (t ++ t') = take (Z.to_nat (LOG_BUF_SIZE - 1)) t).
  { destruct Hend as [->|]; [by rewrite app_nil_r|]. apply take_app_le. unfold LOG_BUF_SIZE in *. lia. }
  unfold shows. rewrite Htk, Hj. set (a := take _ t).
  assert (length a ≤ Z.to_nat (LOG_BUF_SIZE - 1))%nat by (unfold a; rewrite length_take; lia).
  destruct (decide (length a = Z.to_nat (LOG_BUF_SIZE - 1))) as [<-|Hne].
  - exists junk. by rewrite Nat2Z.id || idtac; rewrite insert_app_r_alt, Nat.sub_diag by lia.
  - rewrite insert_app_r_alt by lia.
    destruct (Z.to_nat (LOG_BUF_SIZE - 1) - length a)%nat as [|k] eqn:Ek; [lia|]. simpl. by eexists.
Qed.

Lemma log_safe p buf :
  pack_ok p → Z.of_nat (length buf) = LOG_BUF_SIZE →
  rrs p = [] ∨ Z.of_nat (length (head_text p ++ questions_text p)) ≤ LOG_BUF_SIZE →
  ∃ b, packet_to_log_string (Some p) buf = Ret b ∧ shows b (packet_text p).
Proof.
  intros Hp Hb Hcase. destruct (pack_names_ok _ Hp) as [Hq Hr]. unfold packet_to_log_string.
  destruct (head_spec p buf Hb) as (l0 & E0 & Hl0). pose proof (head_text_short p) as Hshort.
  destruct (snprintf (header_text (header p)) _) as [l00| |]; [|done|done]. cbn [mbind Res_bind] in *.
  rewrite E0. cbn [mbind Res_bind].
  destruct (items_spec questions_title qname question_text (questions p) l0 (head_text p))
    as (l1 & t1 & t2 & -> & Hl1 & Et & Hend); [done|done|done|done|right; unfold LOG_BUF_SIZE; lia|].
  cbn [mbind Res_bind]. fold (questions_text p) in Et.
  assert (Hne : t1 ≠ []).
  { intros ->. destruct Hend as [->|Hend]; [|unfold LOG_BUF_SIZE in Hend; simpl in Hend; lia].
    by destruct (app_eq_nil _ _ Et) as [[=] _]. }
  destruct Hcase as [Hnil|Hlen].
  - rewrite Hnil. cbn [items mbind Res_bind].
    destruct (shows_close _ _ t2 Hl1 Hne Hend) as (b & -> & Hsh). exists b. split; [done|].
    unfold packet_text. rewrite Hnil. cbn [items_text]. fold (questions_text p).
    by rewrite app_nil_r, Et.
  - rewrite Et, length_app in Hlen.
    assert (t2 = []) as -> by (destruct Hend as [?|?]; [done|]; destruct t2; [done|simpl in Hlen; lia]).
    rewrite app_nil_r in Et. simpl in Hlen.
    destruct (items_spec rrs_title rr_name rr_text (rrs p) l1 t1)
      as (l2 & t3 & t4 & -> & Hl2 & Et2 & Hend2); [done|done|done|done|right; lia|].
    cbn [mbind Res_bind].
    assert (Hne3 : t3 ≠ []).
    { intros ->. destruct Hend2 as [->|Hend2]; [|unfold LOG_BUF_SIZE in Hend2; simpl in Hend2; lia].
      apply app_eq_nil in Et2 as [? _]. done. }
    destruct (shows_close _ _ t4 Hl2 Hne3 Hend2) as (b & -> & Hsh). exists b. split; [done|].
    unfold packet_text. fold (questions_text p). by rewrite app_assoc, Et, Et2.
Qed.

(** The loop stops behind the item that crosses the end of the buffer. *)
Lemma items_loop_crosses {A} (name : A → list Z) text a x b l t :
  (∀ n x, text n x ≠ []) → Forall (λ x, cstring (name x)) (a ++ x :: b) → logged l t →
  Z.of_nat (length (t ++ listing name text a)) < LOG_BUF_SIZE →
  LOG_BUF_SIZE ≤ Z.of_nat (length (t ++ listing name text (a ++ [x]))) →
  ∃ l', items_loop name text (a ++ x :: b) l = Ret l' ∧
    logged l' (t ++ listing name text (a ++ [x])).
Proof.
  intros Hne. revert l t. induction a as [|y a IH]; intros l t Hxs Hl Hlt Hge;
    cbn [app] in *; apply Forall_cons in Hxs as [Hx Hxs]; cbn [items_loop];
    pose proof (lg_remaining _ _ Hl) as Hr; rewrite length_app in Hlt;
    rewrite Z.gtb_ltb, (proj2 (Z.ltb_lt _ _)) by lia;
    rewrite (name_chars_cstring _ Hx); cbn [mbind Res_bind].
  - destruct (snprintf_spec l t (text (bare (name x)) x) Hl ltac:(lia) (Hne _ _)) as (l1 & -> & Hl1).
    cbn [mbind Res_bind]. unfold listing in *. simpl in *. rewrite app_nil_r in *.
    pose proof (lg_remaining _ _ Hl1) as Hr1. exists l1. split; [|done].
    destruct b as [|y b]; [done|]. cbn [items_loop].
    by rewrite Z.gtb_ltb, (proj2 (Z.ltb_ge _ _)) by lia.
  - destruct (snprintf_spec l t (text (bare (name y)) y) Hl ltac:(lia) (Hne _ _)) as (l1 & -> & Hl1).
    cbn [mbind Res_bind]. change (listing name text (y :: a ++ [x]))
      with (text (bare (name y)) y ++ listing name text (a ++ [x])) in *.
    change (listing name text (y :: a)) with (text (bare (name y)) y ++ listing name text a) in *.
    destruct (IH l1 _ Hxs Hl1) as (l' & -> & Hl').
    + rewrite !length_app in *. lia.
    + by rewrite <- app_assoc.
    + exists l'. by rewrite <- app_assoc in Hl'.
Qed.

Lemma log_overflows p buf a q b :
  pack_ok p → Z.of_nat (length buf) = LOG_BUF_SIZE → rrs p ≠ [] → questions p = a ++ q :: b →
  let upto qs := head_text p ++ questions_title ++ listing qname question_text qs in
  Z.of_nat (length (upto a)) < LOG_BUF_SIZE < Z.of_nat (length (upto (a ++ [q]))) →
  Z.of_nat (length (upto (a ++ [q]))) < 2 ^ 32 →
  packet_to_log_string (Some p) buf = UB.
Proof.
  intros Hp Hb Hrr Hqs upto Hlen Hbig. destruct (pack_names_ok _ Hp) as [Hq Hr].
  unfold packet_to_log_string.
  destruct (head_spec p buf Hb) as (l0 & E0 & Hl0). pose proof (head_text_short p) as Hshort.
  destruct (snprintf (header_text (header p)) _) as [l00| |]; [|done|done]. cbn [mbind Res_bind] in *.
  rewrite E0. cbn [mbind Res_bind]. rewrite Hqs in *.
  assert (Eit : items questions_title qname question_text (a ++ q :: b) l0 =
    (l ← snprintf questions_title l0; items_loop qname question_text (a ++ q :: b) l))
    by (by destruct a).
  rewrite Eit. unfold upto in *. rewrite app_assoc in Hlen, Hbig.
  rewrite (app_assoc (head_text p)) in Hlen.
  destruct (snprintf_spec l0 (head_text p) questions_title Hl0) as (l1 & -> & Hl1);
    [unfold LOG_BUF_SIZE; lia|done|]. cbn [mbind Res_bind].
  destruct (items_loop_crosses qname question_text a q b l1 _ question_text_nonempty Hq Hl1)
    as (l2 & -> & Hl2); [lia|lia|]. cbn [mbind Res_bind].
  destruct (rrs p) as [|r rs] eqn:Er; [done|]. cbn [items].
  rewrite (snprintf_over _ _ _ Hl2); [done| |simpl; lia]. lia.
Qed.

(** ** Properties *)

(** A packet with [n] questions for a name of [k] letters and one record. *)
Definition big_packet (n k : nat) : DnsPacket :=
  let name := replicate k 97 ++ [0] in
  MkPacket (MkHeader 7 0 1 1 0 0) (replicate n (MkQuestion name 1 1))
    [MkRR [0] 1 1 60 4 [1; 2; 3; 4]].

(** C36. The log text of a packet.  When the header and the questions fit in the
    buffer of 4096 bytes, or the packet has no records, the buffer holds the
    text of the packet, cut to 4095 bytes and closed by a NUL.  When a question
    crosses the end of the buffer and the packet has records, the size left,
    which is then negative, is passed to [snprintf] as a huge one, and the title
    of the records is written outside of the buffer. *)
Theorem packet_log_text (p : DnsPacket) (buf : list Z) :
  pack_ok p → Z.of_nat (length buf) = LOG_BUF_SIZE →
  (rrs p = [] ∨ Z.of_nat (length (head_text p ++ questions_text p)) ≤ LOG_BUF_SIZE →
   ∃ b, packet_to_log_string (Some p) buf = Ret b ∧ shows b (packet_text p)) ∧
  (∀ a q b, rrs p ≠ [] → questions p = a ++ q :: b →
   let upto qs := head_text p ++ questions_title ++ listing qname question_text qs in
   Z.of_nat (length (upto a)) < LOG_BUF_SIZE < Z.of_nat (length (upto (a ++ [q]))) →
   Z.of_nat (length (upto (a ++ [q]))) < 2 ^ 32 →
   packet_to_log_string (Some p) buf = UB) ∧
  (∃ b, packet_to_log_string None buf = Ret b ∧ shows b (lit "NULL packet")).
Proof.
  intros Hp Hb. split_and!.
  - by apply log_safe.
  - intros a q b Hr Hq upto Hl Hl'. by eapply (log_overflows p buf a q b).
  - destruct (snprintf_spec _ [] (lit "NULL packet") (logged_start _ Hb)) as (l & E & Hl); [done|done|].
    unfold packet_to_log_string. rewrite E. exists (log_buf l). split; [done|].
    by destruct (lg_shows _ _ Hl).
Qed.

Lemma big_packet_ok n k : pack_ok (big_packet n k).
Proof.
  split; cbn [questions rrs big_packet].
  - apply Forall_replicate. exists (replicate k 97). split; [done|]. by apply Forall_replicate.
  - apply Forall_singleton. split; [|done]. exists []. split; [done|constructor].
Qed.

Lemma packet_log_text_witness :
  let buf := replicate 4096 0 in
  (∃ b, packet_to_log_string (Some (big_packet 1 10)) buf = Ret b ∧
        shows b (packet_text (big_packet 1 10))) ∧
  packet_to_log_string (Some (big_packet 20 250)) buf = UB.
Proof.
  intros buf. split.
  - destruct (packet_log_text (big_packet 1 10) buf (big_packet_ok _ _) eq_refl) as (H & _).
    apply H. right. vm_compute. done.
  - destruct (packet_log_text (big_packet 20 250) buf (big_packet_ok _ _) eq_refl) as (_ & H & _).
    let q := constr:(MkQuestion (replicate 250 97 ++ [0]) 1 1) in
    apply (H (replicate 14 q) q (replicate 5 q)); [done|reflexivity|vm_compute; split; reflexivity|
      vm_compute; reflexivity].
Defined.

End PacketLog.
