(* ===== verification/Resolver.v ===== *)
(** * The resolver of [src/dns/dns_resolver.c]: answering from the cache

    The functions that decide what becomes of a query: the checks before and
    after the cache lookup, the local response, and the caching of what the
    upstream servers answer.  The cache is the global of [Cache.v] ([None] when
    it was never created).  The clock does not tick while one packet is handled. *)

From S2P Require Import Prelude CString NameCodec Protocol MapInterface HashMap Cache Wire.
Import NameCodec Protocol Cache Wire.

Module Resolver.

Section resolver.
Context {M : Type} `{!MapOps (list Z) loc M}.
Implicit Types (g : option (DnsCache M)).

(** The test both checks make of a record. *)
Definition rr_blocked (rr : ResourceRecord) : Res bool :=
  if (rr_type rr =? QTYPE_A) || (rr_type rr =? QTYPE_AAAA)
  then memallz (rdata rr) (rdata_length rr) else Ret false.

(** [for (i = 0; i < vector_size(parent_value.rrs); i++)] *)
Fixpoint any_blocked (rs : list ResourceRecord) : Res bool :=
  match rs with
  | [] => Ret false
  | rr :: rs => b ← rr_blocked rr; if (b : bool) then Ret true else any_blocked rs
  end.

(** [while (parent_qname)], from offset [parent_qname] of the name. *)
Fixpoint parents_loop (fuel : nat) (now : Z) g (q : SectionQuestion) (parent_qname : Z) :
    Res (Rcode * option (DnsCache M)) :=
  match fuel with
  | O => OutOfFuel
  | S fuel =>
      name ← ptr (qname q) parent_qname;
      '(parent_value, g) ← dns_cache_get now g name (qtype q) (qclass q);
      blocked ← match parent_value with
                | Some v => any_blocked (match v_rrs v with Some rs => rs | None => [] end)
                | None => Ret false
                end;
      if (blocked : bool) then Ret (RCODE_NXDOMAIN, g)
      else
        parent ← get_parent_qname (qname q) parent_qname;
        match parent with
        | Some parent_qname => parents_loop fuel now g q parent_qname
        | None => Ret (RCODE_NOERROR, g)
        end
  end.

Definition query_pre_validate (now : Z) g (pack : DnsPacket) : Res (Rcode * option (DnsCache M)) :=
  match head (questions pack) with
  | None => Ret (RCODE_NOERROR, g)
  | Some q => parents_loop (S (length (qname q))) now g q 0
  end.

(** The first [n] records; [vector_get] gives NULL past the end. *)
Fixpoint answers_blocked (n : nat) (ans : list ResourceRecord) : Res bool :=
  match n with
  | O => Ret false
  | S n =>
      rr ← nonnull (head ans);
      b ← rr_blocked rr;
      if (b : bool) then Ret true else answers_blocked n (tail ans)
  end.

Definition query_post_validate (response : DnsPacket) (rcode : Rcode) : Res Rcode :=
  b ← answers_blocked (Z.to_nat (answer_RRs (header response))) (rrs response);
  Ret (if (b : bool) then RCODE_NXDOMAIN else rcode).

Definition pack_make_response_relay (now use_cache : Z) g (recv : DnsPacket) (client_id : Z) :
    Res (DnsPacket * option (DnsCache M)) :=
  send ← packet_clone recv;
  let send := set_id send client_id in
  if use_cache =? 0 then Ret (send, g)
  else
    q ← nonnull (head (questions recv));
    let value := MkValue (answer_RRs (header send)) (authority_RRs (header send))
                   (additional_RRs (header send)) (Some (rrs recv)) in
    '(_, g) ← dns_cache_put now g (qname q) (qtype q) (qclass q) value;
    Ret (send, g).

Definition pack_make_std_response_local (query : DnsPacket) (cache : CacheValue) : Res DnsPacket :=
  pac ← make_response_empty query;
  let pac := set_counts pac (v_answer cache) (v_authority cache) (v_additional cache) in
  rs ← rrs_clone (match v_rrs cache with Some rs => rs | None => [] end);
  Ret (MkPacket (header pac) (questions pac) rs).

(** The direction, and the response when it is [CLIENT]. *)
Definition pack_try_response_local (now : Z) g (query : DnsPacket) :
    Res (PacketDirection * option DnsPacket * option (DnsCache M)) :=
  let opcode := OPCODE_GET (flags (header query)) in
  if opcode =? opcode_value QUERY then
    if qcount (header query) >? 1 then
      response ← make_response_fail query RCODE_NOTIMP; Ret (CLIENT, Some response, g)
    else if qcount (header query) =? 0 then
      response ← make_response_empty query; Ret (CLIENT, Some response, g)
    else
      '(code, g) ← query_pre_validate now g query;
      if negb (bool_decide (code = RCODE_NOERROR)) then
        response ← make_response_fail query code; Ret (CLIENT, Some response, g)
      else
        q ← nonnull (head (questions query));
        '(cache_value, g) ← dns_cache_get now g (qname q) (qtype q) (qclass q);
        match cache_value with
        | None =>
            if negb (RD_GET (flags (header query)) =? 0) then Ret (UPSTREAM, None, g)
            else response ← make_response_empty query; Ret (CLIENT, Some response, g)
        | Some cache_value =>
            response ← pack_make_std_response_local query cache_value;
            code ← query_post_validate response code;
            if negb (bool_decide (code = RCODE_NOERROR)) then
              response ← make_response_fail query code; Ret (CLIENT, Some response, g)
            else Ret (CLIENT, Some response, g)
        end
  else if opcode =? opcode_value IQUERY then
    response ← make_response_fail query RCODE_NOTIMP; Ret (CLIENT, Some response, g)
  else if opcode =? opcode_value STATUS then
    response ← make_response_status query; Ret (CLIENT, Some response, g)
  else
    response ← make_response_empty query; Ret (CLIENT, Some response, g).
End resolver.

(** ** The abstract resolver

    What a query is answered, given the items of the cache. *)

Definition value_rrs (v : CacheValue) : list ResourceRecord :=
  match v_rrs v with Some rs => rs | None => [] end.

Definition lookup_value (now : Z) (items : list item) (k : list Z) : option CacheValue :=
  (lru_get now k items).1.

(** An address record whose bytes are zero, the first one apart. *)
Definition blocking (rr : ResourceRecord) : bool :=
  ((rr_type rr =? QTYPE_A) || (rr_type rr =? QTYPE_AAAA)) &&
  bool_decide (Forall (λ c, c = 0) (tail (rdata rr))).

(** The name of labels [ls] and its parents, the root excepted unless it is the
    name itself. *)
Fixpoint ancestors (ls : list (list Z)) : list (list Z) :=
  match ls with
  | [] => []
  | l :: ls => wire_name (l :: ls) :: ancestors ls
  end.
Definition visited (ls : list (list Z)) : list (list Z) :=
  match ls with [] => [wire_name []] | _ => ancestors ls end.

Definition name_blocked (now : Z) (items : list item) (t c : Z) (name : list Z) : bool :=
  match lookup_value now items (key_of name t c) with
  | Some v => existsb blocking (value_rrs v)
  | None => false
  end.

(** The response [make_response_fail] builds. *)
Definition reply (query : DnsPacket) (rcode : Rcode) : DnsPacket :=
  MkPacket (MkHeader (id (header query)) (response_flags (flags (header query)) rcode)
              (qcount (header query)) 0 0 0) (questions query) [].
Definition reply_value (query : DnsPacket) (v : CacheValue) : DnsPacket :=
  MkPacket (MkHeader (id (header query)) (response_flags (flags (header query)) RCODE_NOERROR)
              (qcount (header query)) (v_answer v) (v_authority v) (v_additional v))
    (questions query) (value_rrs v).

(** [None]: the query goes upstream.  [ls] are the labels of the question. *)
Definition local_answer (now : Z) (items : list item) (query : DnsPacket) (ls : list (list Z)) :
    option DnsPacket :=
  let f := flags (header query) in
  if OPCODE_GET f =? 0 then
    match questions query with
    | [] => Some (reply query RCODE_NOERROR)
    | [q] =>
        if existsb (name_blocked now items (qtype q) (qclass q)) (visited ls)
        then Some (reply query RCODE_NXDOMAIN)
        else match lookup_value now items (key_of (qname q) (qtype q) (qclass q)) with
             | Some v => Some (reply_value query v)
             | None => if RD_GET f =? 0 then Some (reply query RCODE_NOERROR) else None
             end
    | _ => Some (reply query RCODE_NOTIMP)
    end
  else if (OPCODE_GET f =? 1) || (OPCODE_GET f =? 2) then Some (reply query RCODE_NOTIMP)
  else Some (reply query RCODE_NOERROR).

(** Values whose counts agree with their records. *)
Definition value_counted (v : CacheValue) : Prop :=
  0 ≤ v_answer v ∧ 0 ≤ v_authority v ∧ 0 ≤ v_additional v ∧
  v_answer v + v_authority v + v_additional v = Z.of_nat (length (value_rrs v)).
Definition items_good (items : list item) : Prop :=
  Forall (λ i, value_ok (i_value i) ∧ value_counted (i_value i)) items.

(** A query as the parser delivers it, with the labels of its question. *)
Record query_ok (query : DnsPacket) (ls : list (list Z)) : Prop := {
  qo_pack : pack_ok query;
  qo_count : qcount (header query) = Z.of_nat (length (questions query));
  qo_name : ∀ q, questions query = [q] → qname q = wire_name ls ∧ Forall label_wf ls;
}.

Section refinement.
Context {M : Type} `{!MapOps (list Z) loc M, !MapLaws (list Z) loc M}.
Implicit Types (g : option (DnsCache M)) (items : list item).

Definition g_rep g items : Prop :=
  match g with Some c => cache_rep c items | None => items = [] end.

(** [items'] answers every lookup as [items] does, with items of [items]. *)
Definition same_lookups (now : Z) items items' : Prop :=
  (∀ k, lookup_value now items' k = lookup_value now items k) ∧ items' ⊆ items.

Lemma same_lookups_refl now items : same_lookups now items items.
Proof. by split. Qed.
#[local] Hint Resolve same_lookups_refl : core.

Lemma find_item_cons_remove i k items :
  find_item k (i :: remove_key (i_key i) items) =
    if decide (i_key i = k) then Some i else find_item k items.
Proof.
  unfold find_item at 1. rewrite filter_cons. destruct (decide (i_key i = k)); [done|].
  by apply find_item_remove.
Qed.

Lemma lru_get_sub now k items : (lru_get now k items).2 ⊆ items.
Proof.
  unfold lru_get. destruct (find_item k items) as [i|] eqn:E; [|done].
  destruct (find_item_key _ _ _ E) as [_ Hin].
  assert (∀ k', remove_key k' items ⊆ items) as Hsub by (unfold remove_key; intros k' x Hx; by apply list_elem_of_filter in Hx as [_ Hx]).
  destruct (item_expired now i); cbn [snd]; [apply Hsub|].
  intros x [->|Hx]%elem_of_cons; [done|by eapply Hsub].
Qed.

(** At one instant a lookup changes no other lookup, and not itself. *)
Lemma lookup_stable now k items : same_lookups now items (lru_get now k items).2.
Proof.
  split; [|apply lru_get_sub].
  intros k'. unfold lookup_value, lru_get at 2. destruct (find_item k items) as [i|] eqn:E; [|done].
  destruct (find_item_key _ _ _ E) as [<- _]. destruct (item_expired now i) eqn:Ex; cbn [snd].
  - unfold lru_get. destruct (decide (i_key i = k')) as [<-|Hne].
    + by rewrite find_item_removed, E, Ex.
    + rewrite find_item_remove by done. repeat case_match; done.
  - unfold lru_get. rewrite find_item_cons_remove. case_decide as Hk; [subst k'|].
    + by rewrite E, Ex.
    + repeat case_match; done.
Qed.

Lemma same_lookups_trans now a b c : same_lookups now a b → same_lookups now b c → same_lookups now a c.
Proof.
  intros [Hab ?] [Hbc ?]. split; [intros k; by rewrite Hbc, Hab|by etrans].
Qed.

Lemma items_good_ok items : items_good items → items_ok items.
Proof. unfold items_good, items_ok. intros Hi. eapply Forall_impl; [exact Hi|]. by intros i [? _]. Qed.

Lemma items_good_get now k items : items_good items → items_good (lru_get now k items).2.
Proof.
  intros Hi. unfold lru_get, items_good in *. destruct (find_item k items) as [i|] eqn:E; [|done].
  destruct (find_item_key _ _ _ E) as [_ Hin].
  destruct (item_expired now i); cbn [snd]; [by apply filter_keeps|].
  constructor; [|by apply filter_keeps]. rewrite Forall_forall in Hi. by apply Hi.
Qed.

Lemma lookup_good now k items v :
  items_good items → lookup_value now items k = Some v → value_ok v ∧ value_counted v.
Proof.
  unfold lookup_value, lru_get. intros Hi. destruct (find_item k items) as [i|] eqn:E; [|done].
  destruct (find_item_key _ _ _ E) as [_ Hin]. destruct (item_expired now i); [done|].
  intros [= <-]. unfold items_good in Hi. rewrite Forall_forall in Hi. by apply Hi.
Qed.

Lemma cache_get_spec now g items name t c :
  g_rep g items → items_good items → cstring name →
  ∃ g', dns_cache_get now g name t c = Ret (lookup_value now items (key_of name t c), g') ∧
    g_rep g' (lru_get now (key_of name t c) items).2.
Proof.
  intros Hg Hi (s & -> & Hs). destruct g as [c0|]; simpl in Hg.
  - destruct (dns_cache_get_spec now c0 items (s ++ [0]) t c (key_of (s ++ [0]) t c) Hg)
      as (c' & E & Hc' & _).
    + apply key_of_spec. rewrite (strlen_app s [] Hs). by eexists.
    + exact (items_good_ok _ Hi).
    + exists (Some c'). split; [exact E|exact Hc'].
  - subst items. exists None. done.
Qed.

Lemma rr_blocked_spec rr : rr_ok rr → rr_blocked rr = Ret (blocking rr).
Proof.
  intros [_ Hd]. unfold rr_blocked, blocking. destruct (_ || _); [|done].
  rewrite Hd. apply memallz_spec.
Qed.

Lemma any_blocked_spec rs : Forall rr_ok rs → any_blocked rs = Ret (existsb blocking rs).
Proof.
  induction 1 as [|r rs Hr _ IH]; [done|]. cbn [any_blocked existsb].
  rewrite (rr_blocked_spec _ Hr). cbn [mbind Res_bind]. by destruct (blocking r).
Qed.

Lemma answers_blocked_spec n rs :
  Forall rr_ok rs → (n ≤ length rs)%nat → answers_blocked n rs = Ret (existsb blocking (take n rs)).
Proof.
  revert rs. induction n as [|n IH]; intros rs Hrs Hn; [done|].
  destruct Hrs as [|r rs Hr Hrs]; simpl in Hn; [lia|]. cbn [answers_blocked head tail take existsb].
  cbn [mbind Res_bind nonnull]. rewrite (rr_blocked_spec _ Hr). cbn [mbind Res_bind].
  destruct (blocking r); [done|]. apply IH; [done|lia].
Qed.

Lemma get_parent_spec pre l ls rest :
  Forall label_wf (l :: ls) →
  get_parent_qname (pre ++ wire (l :: ls) ++ 0 :: rest) (Z.of_nat (length pre)) =
    Ret (if decide (ls = []) then None else Some (Z.of_nat (length (pre ++ wire_label l)))).
Proof.
  intros [[_ Hl] Hls]%Forall_cons. unfold get_parent_qname. rewrite wire_cons. cbn [app].
  rewrite rd_app. cbn [mbind Res_bind]. destruct (label_top_bits (Z.of_nat (length l))) as [-> ->]; [lia|].
  cbn [orb]. replace (Z.of_nat (length pre) + 1 + Z.of_nat (length l))
    with (Z.of_nat (length (pre ++ wire_label l))) by (rewrite length_app; unfold wire_label; simpl; lia).
  replace (pre ++ Z.of_nat (length l) :: (l ++ wire ls) ++ 0 :: rest)
    with ((pre ++ wire_label l) ++ wire ls ++ 0 :: rest)
    by (unfold wire_label; by rewrite <- !app_assoc).
  destruct ls as [|l' ls].
  - change (wire [] ++ 0 :: rest) with (0 :: rest). by rewrite rd_app.
  - rewrite wire_cons. cbn [app]. rewrite rd_app. cbn [mbind Res_bind].
    apply Forall_cons in Hls as [[_ Hl'] _].
    by rewrite (proj2 (Z.eqb_neq _ _)) by lia.
Qed.

Lemma wire_name_cstring ls : Forall label_wf ls → cstring (wire_name ls).
Proof. intros Hls. apply name_wf_cstring. by exists ls. Qed.

(** One step of the walk: the lookup of one name and the test of its records. *)
Lemma walk_step now g items name t c :
  g_rep g items → items_good items → cstring name →
  ∃ v g' items', dns_cache_get now g name t c = Ret (v, g') ∧
    (match v with
     | Some v => any_blocked (match v_rrs v with Some rs => rs | None => [] end)
     | None => Ret false
     end) = Ret (name_blocked now items t c name) ∧
    g_rep g' items' ∧ items_good items' ∧ same_lookups now items items'.
Proof.
  intros Hg Hi Hn. destruct (cache_get_spec now g items name t c Hg Hi Hn) as (g' & E & Hg').
  eexists _, g', _. split; [exact E|]. split_and!; [|exact Hg'|by apply items_good_get|apply lookup_stable].
  unfold name_blocked, value_rrs. destruct (lookup_value now items _) as [v|] eqn:Ev; [|done].
  destruct (lookup_good _ _ _ _ Hi Ev) as [(rs & -> & Hrs) _]. by apply any_blocked_spec.
Qed.

Lemma name_blocked_same now items items' t c name :
  same_lookups now items items' → name_blocked now items' t c name = name_blocked now items t c name.
Proof. intros [Hs _]. unfold name_blocked. by rewrite Hs. Qed.

Lemma existsb_same now items items' t c ns :
  same_lookups now items items' →
  existsb (name_blocked now items' t c) ns = existsb (name_blocked now items t c) ns.
Proof. intros Hs. induction ns as [|n ns IH]; [done|]. simpl. by rewrite IH, (name_blocked_same _ _ _ _ _ _ Hs). Qed.

Lemma parents_loop_spec fuel now g items q pre l ls :
  qname q = pre ++ wire_name (l :: ls) → Forall label_wf (l :: ls) →
  (length ls < fuel)%nat → g_rep g items → items_good items →
  ∃ g' items', parents_loop fuel now g q (Z.of_nat (length pre)) =
      Ret (if existsb (name_blocked now items (qtype q) (qclass q)) (ancestors (l :: ls))
           then RCODE_NXDOMAIN else RCODE_NOERROR, g') ∧
    g_rep g' items' ∧ items_good items' ∧ same_lookups now items items'.
Proof.
  revert g items pre l ls. induction fuel as [|fuel IH]; [lia|]. intros g items pre l ls Hq Hls Hf Hg Hi.
  cbn [parents_loop ancestors existsb]. rewrite Hq, ptr_app. cbn [mbind Res_bind].
  destruct (walk_step now g items (wire_name (l :: ls)) (qtype q) (qclass q) Hg Hi)
    as (v & g1 & items1 & -> & E & Hg1 & Hi1 & Hs1); [by apply wire_name_cstring|].
  cbn [mbind Res_bind]. rewrite E. cbn [mbind Res_bind].
  destruct (name_blocked now items (qtype q) (qclass q) (wire_name (l :: ls))).
  { exists g1, items1. done. }
  unfold wire_name at 1. rewrite (get_parent_spec pre l ls [] Hls). cbn [mbind Res_bind orb].
  destruct ls as [|l' ls]; [by exists g1, items1|]. rewrite decide_False by done.
  destruct (IH g1 items1 (pre ++ wire_label l) l' ls) as (g2 & items2 & -> & Hg2 & Hi2 & Hs2).
  - rewrite Hq. unfold wire_name, wire_label. rewrite (wire_cons l), <- !app_assoc. cbn [app].
    by rewrite <- !app_assoc.
  - by apply Forall_cons in Hls as [_ ?].
  - simpl in Hf. lia.
  - done.
  - done.
  - rewrite (existsb_same _ _ _ _ _ _ Hs1). exists g2, items2.
    split_and!; [done..|]. by eapply same_lookups_trans.
Qed.

Lemma pre_validate_spec now g items query q ls :
  questions query = [q] → qname q = wire_name ls → Forall label_wf ls → g_rep g items → items_good items →
  ∃ g' items', query_pre_validate now g query =
      Ret (if existsb (name_blocked now items (qtype q) (qclass q)) (visited ls)
           then RCODE_NXDOMAIN else RCODE_NOERROR, g') ∧
    g_rep g' items' ∧ items_good items' ∧ same_lookups now items items'.
Proof.
  intros Hqs Hq Hls Hg Hi. unfold query_pre_validate. rewrite Hqs. cbn [head].
  destruct ls as [|l ls].
  - destruct q as [name t c]; cbn [qname qtype qclass] in *. subst name.
    destruct (walk_step now g items [0] t c Hg Hi) as (v & g1 & items1 & E1 & E & Hg1 & Hi1 & Hs1);
      [by apply (wire_name_cstring [])|].
    change (wire_name []) with [0]. cbn [length parents_loop qname qtype qclass].
    change (ptr [0] 0) with (Ret [0]). cbn [mbind Res_bind]. rewrite E1. cbn [mbind Res_bind].
    rewrite E. cbn [mbind Res_bind visited existsb]. change (wire_name []) with [0].
    exists g1, items1. by destruct (name_blocked now items t c [0]).
  - destruct (parents_loop_spec (S (length (qname q))) now g items q [] l ls Hq Hls)
      as (g' & items' & E & ?); [|done|done|by exists g', items'].
    rewrite Hq. unfold wire_name. rewrite wire_cons. simpl. rewrite !length_app.
    pose proof (wire_labels_length ls). lia.
Qed.
End refinement.

(** ** Responses *)

Lemma setRcode_flags p rcode :
  flags (header (setRcode p rcode)) =
    wrap_u16 (Z.lor (wrap_u16 (Z.land (flags (header p)) 0xfff0)) (Z.land 0x000f (rcode_value rcode))).
Proof. reflexivity. Qed.

Lemma setRcode_again f :
  wrap_u16 (Z.lor (wrap_u16 (Z.land (wrap_u16 (Z.lor (wrap_u16 (Z.land f 0xfff0)) 0)) 0xfff0)) 0) =
  wrap_u16 (Z.lor (wrap_u16 (Z.land f 0xfff0)) 0).
Proof.
  apply u16_ext; [apply wrap_u16_range..|]. intros i Hi.
  rewrite !Z.lor_0_r, !testbit_wrap_u16, !Z.land_spec by lia.
  rewrite !testbit_wrap_u16, !Z.land_spec by lia. by destruct (Z.testbit f i), (Z.testbit 0xfff0 i).
Qed.

Lemma make_response_fail_reply query rcode :
  pack_ok query → make_response_fail query rcode = Ret (reply query rcode).
Proof. intros Hq. by rewrite (make_response_fail_ok _ _ Hq). Qed.

Lemma make_response_empty_reply query :
  pack_ok query → make_response_empty query = Ret (reply query RCODE_NOERROR).
Proof.
  intros [Hq _]. unfold make_response_empty, reply, response_flags.
  rewrite (questions_clone_ok _ Hq). cbn [mbind Res_bind]. rewrite !setRcode_flags.
  change (Z.land 0x000f (rcode_value RCODE_NOERROR)) with 0. rewrite setRcode_again. reflexivity.
Qed.

Lemma std_response_spec query v :
  pack_ok query → value_ok v → pack_make_std_response_local query v = Ret (reply_value query v).
Proof.
  intros Hq (rs & Hrs & Hok). unfold pack_make_std_response_local.
  rewrite (make_response_empty_reply _ Hq). cbn [mbind Res_bind].
  unfold reply_value, value_rrs. rewrite Hrs, (rrs_clone_ok _ Hok). reflexivity.
Qed.

(** What passes the check before the lookup passes the check after it. *)
Lemma post_validate_spec query v :
  value_ok v → value_counted v → existsb blocking (value_rrs v) = false →
  query_post_validate (reply_value query v) RCODE_NOERROR = Ret RCODE_NOERROR.
Proof.
  intros (rs & Hrs & Hok) (Ha & Hu & Hd & Hn) Hb. unfold query_post_validate, reply_value, value_rrs in *.
  cbn [header answer_RRs rrs]. rewrite Hrs in *. rewrite answers_blocked_spec; [|done|lia].
  cbn [mbind Res_bind]. rewrite <- (take_drop (Z.to_nat (v_answer v)) rs) in Hb.
  rewrite existsb_app in Hb. by apply orb_false_elim in Hb as [-> _].
Qed.

Lemma own_name_visited ls : wire_name ls ∈ visited ls.
Proof. destruct ls; [by left|]. by left. Qed.

Section answers.
Context {M : Type} `{!MapOps (list Z) loc M, !MapLaws (list Z) loc M}.
Implicit Types (g : option (DnsCache M)) (items : list item).

Definition direction_of (r : option DnsPacket) : PacketDirection :=
  match r with Some _ => CLIENT | None => UPSTREAM end.

Lemma try_response_local_spec now g items query ls :
  g_rep g items → items_good items → query_ok query ls →
  ∃ g' items', pack_try_response_local now g query =
      Ret (direction_of (local_answer now items query ls), local_answer now items query ls, g') ∧
    g_rep g' items' ∧ items_good items' ∧ same_lookups now items items'.
Proof.
  intros Hg Hi [Hp Hc Hn]. unfold pack_try_response_local, local_answer.
  change (opcode_value QUERY) with 0. change (opcode_value IQUERY) with 1.
  change (opcode_value STATUS) with 2. unfold make_response_status.
  pose proof (make_response_fail_reply query) as Hfail. pose proof (make_response_empty_reply query Hp) as Hemp.
  destruct (OPCODE_GET _ =? 0); [|].
  2:{ rewrite Hemp. destruct (OPCODE_GET _ =? 1); cbn [orb];
        [|destruct (OPCODE_GET _ =? 2)]; rewrite ?Hfail by done; by exists g, items. }
  rewrite Hc. destruct (questions query) as [|q [|q' qs]] eqn:Hqs.
  - rewrite Hemp. by exists g, items.
  - change (Z.of_nat (length [q])) with 1. cbn [Z.gtb Z.compare Z.eqb].
    destruct (Hn q) as [Hname Hls]; [done|].
    destruct (pre_validate_spec now g items query q ls Hqs Hname Hls Hg Hi)
      as (g1 & items1 & E & Hg1 & Hi1 & Hs1).
    change (1 >? 1) with false. change (1 =? 0) with false. cbv iota.
    rewrite E. cbn [mbind Res_bind].
    destruct (existsb _ (visited ls)) eqn:Eb; cbn [bool_decide decide].
    { rewrite bool_decide_false by done. cbn [negb]. rewrite Hfail by done. by exists g1, items1. }
    rewrite bool_decide_true by done. cbn [negb nonnull head]. cbn [mbind Res_bind].
    destruct (cache_get_spec now g1 items1 (qname q) (qtype q) (qclass q) Hg1 Hi1)
      as (g2 & E2 & Hg2); [rewrite Hname; by apply wire_name_cstring|].
    rewrite E2. cbn [mbind Res_bind]. rewrite (proj1 Hs1).
    assert (Hrest : ∃ items', g_rep g2 items' ∧ items_good items' ∧ same_lookups now items items').
    { exists (lru_get now (key_of (qname q) (qtype q) (qclass q)) items1).2. split_and!; [done|by apply items_good_get|].
      eapply same_lookups_trans; [exact Hs1|apply lookup_stable]. }
    destruct Hrest as (items2 & ? & ? & ?).
    destruct (lookup_value now items _) as [v|] eqn:Ev.
    + destruct (lookup_good _ _ _ _ Hi Ev) as [Hv Hvc].
      rewrite (std_response_spec _ _ Hp Hv). cbn [mbind Res_bind].
      rewrite post_validate_spec; [|done|done|].
      { cbn [mbind Res_bind]. rewrite bool_decide_true by done. by exists g2, items2. }
      destruct (existsb blocking (value_rrs v)) eqn:Eblk; [|done].
      assert (Hx : existsb (name_blocked now items (qtype q) (qclass q)) (visited ls) = true); [|congruence].
      apply existsb_exists. exists (wire_name ls). split; [apply list_elem_of_In, own_name_visited|].
      unfold name_blocked. by rewrite <- Hname, Ev.
    + destruct (RD_GET _ =? 0); cbn [negb]; [rewrite Hemp|]; by exists g2, items2.
  - assert (Hgt : (Z.of_nat (length (q :: q' :: qs)) >? 1) = true)
      by (rewrite Z.gtb_ltb; apply Z.ltb_lt; cbn [length]; lia).
    rewrite Hgt, Hfail by done. by exists g, items.
Qed.

Lemma reply_ok query rcode : pack_ok query → pack_ok (reply query rcode).
Proof. intros [Hq _]. by split. Qed.

Lemma local_answer_cases now items query ls r :
  items_good items → local_answer now items query ls = Some r →
  (∃ rcode, r = reply query rcode) ∨
  (∃ v, r = reply_value query v ∧ value_ok v ∧ value_counted v).
Proof.
  intros Hi. unfold local_answer. destruct (OPCODE_GET _ =? 0).
  2:{ destruct (_ || _); intros [= <-]; left; eauto. }
  destruct (questions query) as [|q [|]]; [intros [= <-]; left; eauto| |intros [= <-]; left; eauto].
  destruct (existsb _ _); [intros [= <-]; left; eauto|].
  destruct (lookup_value now items _) as [v|] eqn:E.
  - intros [= <-]. right. exists v. split; [done|]. by eapply lookup_good.
  - destruct (RD_GET _ =? 0); [|done]. intros [= <-]; left; eauto.
Qed.

Lemma items_good_put now cap k v items :
  value_ok v → value_counted v → items_good items → items_good (lru_put now cap k v items).
Proof.
  intros Hv Hc Hi. by apply lru_put_Forall.
Qed.

(** The value [pack_make_response_relay] caches. *)
Definition value_of (recv : DnsPacket) : CacheValue :=
  MkValue (answer_RRs (header recv)) (authority_RRs (header recv)) (additional_RRs (header recv))
    (Some (rrs recv)).

Record response_ok (recv : DnsPacket) (q : SectionQuestion) (ls : list (list Z)) : Prop := {
  ro_pack : pack_ok recv;
  ro_question : head (questions recv) = Some q;
  ro_name : qname q = wire_name ls;
  ro_labels : Forall label_wf ls;
  ro_counted : value_counted (value_of recv);
}.

(** A response is found again as long as none of its records has expired. *)
Lemma lookup_relayed now now' cap k recv items :
  Forall (λ rr, rr_expired now' now rr = false) (rrs recv) →
  lookup_value now' (lru_put now cap k (value_of recv) items) k = Some (value_of recv).
Proof.
  intros Hlive. unfold lookup_value, lru_get. rewrite find_item_put_same.
  unfold item_expired, value_expired. cbn [i_created i_value value_of v_rrs].
  assert (existsb (rr_expired now' now) (rrs recv) = false) as ->; [|done].
  induction Hlive as [|rr rs Hrr _ IH]; [done|]. simpl. by rewrite Hrr.
Qed.

(** The cache once a response has been relayed: with the cache switched off it
    stays what it is. *)
Definition after_response (use_cache now : Z) (c : DnsCache M) (q : SectionQuestion) (recv : DnsPacket) items : list item :=
  if use_cache =? 0 then items
  else lru_put now (Z.to_nat (capacity c)) (key_of (qname q) (qtype q) (qclass q)) (value_of recv) items.

Lemma response_relay_spec now use_cache c items recv q ls client_id :
  response_ok recv q ls → cache_rep c items →
  ∃ c', pack_make_response_relay now use_cache (Some c) recv client_id =
      Ret (set_id recv client_id, Some c') ∧
    cache_rep c' (after_response use_cache now c q recv items).
Proof.
  intros [Hp Hh Hn Hls Hv] Hc. unfold pack_make_response_relay, after_response.
  rewrite (packet_clone_ok _ Hp). cbn [mbind Res_bind]. destruct (use_cache =? 0); [by exists c|].
  rewrite Hh. cbn [nonnull]. cbn [mbind Res_bind].
  destruct (dns_cache_put_spec now c items (qname q) (qtype q) (qclass q)
    (key_of (qname q) (qtype q) (qclass q)) (value_of recv) Hc) as (c' & E & Hc' & _).
  - apply key_of_spec. rewrite Hn. unfold wire_name. rewrite (strlen_app (wire ls) []); [by eexists|].
    by apply wire_no_nul.
  - exists (rrs recv). split; [done|apply Hp].
  - unfold value_of in E. cbn [header set_id answer_RRs authority_RRs additional_RRs].
    rewrite E. by exists c'.
Qed.

Lemma after_response_Forall (P : item → Prop) use_cache now c q recv items :
  P (MkItem (key_of (qname q) (qtype q) (qclass q)) (value_of recv) now) → Forall P items →
  Forall P (after_response use_cache now c q recv items).
Proof. intros Hq Hi. unfold after_response. destruct (_ =? 0); [done|by apply lru_put_Forall]. Qed.
End answers.

(** ** Properties *)

Section properties.
Context {M : Type} `{!MapOps (list Z) loc M, !MapLaws (list Z) loc M}.
Implicit Types (g : option (DnsCache M)) (items : list item).

(** C13. [pack_try_response_local] implements the abstract resolver: on every
    branch (opcode, number of questions, blocked names, cache hit and miss,
    recursion desired or not) the direction and the response are those of
    [local_answer], the walk over the parents of the name ends within its
    fuel, and the cache answers every later lookup of the same instant as
    before.  The check after the lookup never rejects what the check before it
    let through. *)
Theorem pack_try_response_local_refines (now : Z) g items (query : DnsPacket) (ls : list (list Z)) :
  g_rep g items → items_good items → query_ok query ls →
  ∃ g' items', pack_try_response_local now g query =
      Ret (direction_of (local_answer now items query ls), local_answer now items query ls, g') ∧
    g_rep g' items' ∧ items_good items' ∧ same_lookups now items items'.
Proof. apply try_response_local_spec. Qed.

(** C31. Every local response is a well-formed answer to its query: the id and
    the question of the query, QR set, RA set, the other flag bits above the
    response code as in the query, and section counts that agree with the
    records it carries.  A query goes upstream only when it asks for recursion. *)
Theorem local_response_wellformed (now : Z) g items (query : DnsPacket) (ls : list (list Z)) :
  g_rep g items → items_good items → query_ok query ls →
  ∃ d r g', pack_try_response_local now g query = Ret (d, r, g') ∧
    match r with
    | Some resp =>
        d = CLIENT ∧ pack_ok resp ∧ id (header resp) = id (header query) ∧
        questions resp = questions query ∧ qcount (header resp) = qcount (header query) ∧
        packet_is_query resp = false ∧ rr_count (header resp) = Z.of_nat (length (rrs resp)) ∧
        ∀ i, 4 ≤ i < 16 → Z.testbit (flags (header resp)) i =
          if (i =? 7) || (i =? 15) then true else Z.testbit (flags (header query)) i
    | None => d = UPSTREAM ∧ RD_GET (flags (header query)) ≠ 0
    end.
Proof.
  intros Hg Hi Hq. destruct (try_response_local_spec now g items query ls Hg Hi Hq)
    as (g' & items' & E & _).
  do 3 eexists. split; [exact E|]. destruct (local_answer now items query ls) as [r|] eqn:Er.
  - assert (Hbits : ∀ rc i, 4 ≤ i < 16 → Z.testbit (response_flags (flags (header query)) rc) i =
      if (i =? 7) || (i =? 15) then true else Z.testbit (flags (header query)) i).
    { intros rc i Hrange. rewrite response_flags_bits by lia. by rewrite (proj2 (Z.ltb_ge _ _)) by lia. }
    destruct (local_answer_cases _ _ _ _ _ Hi Er) as [[rc ->]|(v & -> & (rs & Hrs & Hok) & Hv)].
    + split_and!; try done; [by apply reply_ok, Hq| |apply Hbits].
      unfold packet_is_query, reply. cbn [header flags]. by rewrite response_qr.
    + split_and!; try done; [| | |apply Hbits].
      * split; [apply Hq|]. cbn [reply_value rrs]. unfold value_rrs. by rewrite Hrs.
      * unfold packet_is_query, reply_value. cbn [header flags]. by rewrite response_qr.
      * unfold value_counted in Hv. unfold rr_count, reply_value. cbn [header answer_RRs authority_RRs additional_RRs rrs].
        lia.
  - split; [done|]. revert Er. unfold local_answer. destruct (OPCODE_GET _ =? 0); [|by destruct (_ || _)].
    destruct (questions query) as [|q [|]]; [done| |done].
    destruct (existsb _ _); [done|]. destruct (lookup_value _ _ _); [done|].
    destruct (RD_GET _ =? 0) eqn:E0; [done|]. by bools.
Qed.

(** Blocking a domain blocks its subdomains: when some parent of the name
    (or the name itself) has a live entry with an address record recognised as
    unspecified, a standard query is answered NXDOMAIN without records,
    whatever else is cached and whether or not it asks for recursion. *)
Theorem blocked_subdomains (now : Z) g items (query : DnsPacket) (q : SectionQuestion)
    (pre ls : list (list Z)) (v : CacheValue) (rr : ResourceRecord) :
  g_rep g items → items_good items → query_ok query (pre ++ ls) → questions query = [q] →
  ls ≠ [] → OPCODE_GET (flags (header query)) = 0 →
  lookup_value now items (key_of (wire_name ls) (qtype q) (qclass q)) = Some v →
  rr ∈ value_rrs v → blocking rr = true →
  ∃ resp g', pack_try_response_local now g query = Ret (CLIENT, Some resp, g') ∧
    id (header resp) = id (header query) ∧ RCODE (flags (header resp)) = rcode_value RCODE_NXDOMAIN ∧
    rrs resp = [] ∧ rr_count (header resp) = 0.
Proof.
  intros Hg Hi Hq Hqs Hls Hop Hv Hrr Hb.
  destruct (try_response_local_spec now g items query (pre ++ ls) Hg Hi Hq) as (g' & items' & E & _).
  assert (Ha : local_answer now items query (pre ++ ls) = Some (reply query RCODE_NXDOMAIN)).
  { unfold local_answer. rewrite Hop, Hqs. change (0 =? 0) with true. cbv iota.
    assert (existsb (name_blocked now items (qtype q) (qclass q)) (visited (pre ++ ls)) = true) as ->; [|done].
    apply existsb_exists. exists (wire_name ls). split.
    - apply list_elem_of_In. clear -Hls. induction pre as [|l pre IH]; simpl.
      + destruct ls; [done|]. by left.
      + right. destruct (pre ++ ls) eqn:E; [|exact IH]. by apply app_eq_nil in E as [_ ->].
    - unfold name_blocked. rewrite Hv. apply existsb_exists. exists rr. by rewrite <- list_elem_of_In. }
  rewrite Ha in E. exists (reply query RCODE_NXDOMAIN), g'. split_and!; try done.
  apply response_rcode.
Qed.

(** What upstream answers is relayed and then served from the cache.  The
    client gets the upstream packet under its own id; a later standard query
    for the same question, before any of the records expires, is answered
    locally with exactly those records and counts (unless a name is blocked),
    whether or not it asks for recursion. *)
Theorem relayed_then_cached (now now' use_cache client_id : Z) (c : DnsCache M) items
    (recv query : DnsPacket) (q : SectionQuestion) (ls : list (list Z)) :
  cache_rep c items → items_good items → response_ok recv q ls → use_cache ≠ 0 →
  query_ok query ls → questions query = [q] → OPCODE_GET (flags (header query)) = 0 →
  Forall (λ rr, rr_expired now' now rr = false) (rrs recv) →
  ∃ g1 g2 resp, pack_make_response_relay now use_cache (Some c) recv client_id =
      Ret (set_id recv client_id, g1) ∧
    pack_try_response_local now' g1 query = Ret (CLIENT, Some resp, g2) ∧
    resp = if existsb (name_blocked now' (lru_put now (Z.to_nat (capacity c))
                (key_of (qname q) (qtype q) (qclass q)) (value_of recv) items) (qtype q) (qclass q)) (visited ls)
           then reply query RCODE_NXDOMAIN else reply_value query (value_of recv).
Proof.
  intros Hc Hi Hr Hu Hq Hqs Hop Hlive.
  destruct (response_relay_spec now use_cache c items recv q ls client_id Hr Hc) as (c' & E & Hc').
  unfold after_response in Hc'. rewrite (proj2 (Z.eqb_neq _ _) Hu) in Hc'.
  set (items' := lru_put _ _ _ _ _) in *.
  assert (Hi' : items_good items').
  { apply items_good_put; [|apply Hr|done]. exists (rrs recv). split; [done|apply Hr]. }
  destruct (try_response_local_spec now' (Some c') items' query ls Hc' Hi' Hq) as (g2 & items2 & E2 & _).
  assert (Hl : lookup_value now' items' (key_of (qname q) (qtype q) (qclass q)) = Some (value_of recv))
    by (by apply lookup_relayed).
  exists (Some c'), g2. eexists. split; [exact E|]. split; [|reflexivity].
  rewrite E2. unfold local_answer.
  rewrite Hop, Hqs, Hl. change (0 =? 0) with true. cbv iota. by destruct (existsb _ _).
Qed.
End properties.

(** ** Concrete runs *)

Abbreviation ctable := (HashMap.HashMap (list Z) loc).
#[local] Instance demo_ops : MapOps (list Z) loc ctable := @HashMap.str_table_ops always loc.
#[local] Instance demo_laws : MapLaws (list Z) loc ctable := @HashMap.str_table_laws always always_total loc.

(** [a.b], type A, class IN; a query asking for recursion *)
Definition demo_question : SectionQuestion := MkQuestion [1; 97; 1; 98; 0] 1 1.
Definition demo_labels : list (list Z) := [[97]; [98]].
Definition demo_ask : DnsPacket := MkPacket (MkHeader 7 0x0100 1 0 0 0) [demo_question] [].
Definition demo_reply : DnsPacket :=
  MkPacket (MkHeader 9 0x8180 1 1 0 0) [demo_question] [MkRR [1; 97; 1; 98; 0] 1 1 300 4 [10; 0; 0; 1]].
(** [b] is blocked for ever *)
Definition demo_block : item :=
  MkItem [49; 124; 49; 124; 1; 98] (MkValue 1 0 0 (Some [MkRR [1; 98; 0] 1 1 UINT32_MAX 4 [0; 0; 0; 0]])) 0.

Lemma demo_labels_wf : Forall label_wf demo_labels.
Proof. repeat constructor; by_compute. Qed.

Lemma demo_ask_ok : query_ok demo_ask demo_labels.
Proof.
  split; [|done|intros q [= <-]; split; [done|exact demo_labels_wf]].
  split; [|constructor]. apply Forall_singleton. by apply cstring_check.
Qed.

Lemma demo_reply_ok : response_ok demo_reply demo_question demo_labels.
Proof.
  split; [|done|done|exact demo_labels_wf|by_compute].
  split; apply Forall_singleton; [by apply cstring_check|]. split; [by apply cstring_check|done].
Qed.

(** A cache that holds the blocked name. *)
Lemma demo_cache :
  ∃ c : DnsCache ctable, cache_rep c [demo_block] ∧ items_good [demo_block] ∧ capacity c = 1024.
Proof.
  destruct (cache_create_spec (M := ctable)) as (c0 & _ & Hc0 & Hcap0).
  assert (Hv : value_ok (i_value demo_block)).
  { eexists. split; [reflexivity|]. apply Forall_singleton. split; [by apply cstring_check|done]. }
  destruct (dns_cache_put_spec 0 c0 [] [1; 98; 0] 1 1 (i_key demo_block) (i_value demo_block) Hc0)
    as (c & _ & Hc & Hcap); [reflexivity|exact Hv|].
  exists c. split_and!; [|apply Forall_singleton; split; [exact Hv|by_compute]|rewrite Hcap; exact Hcap0].
  unfold lru_put in Hc. rewrite Hcap0 in Hc. exact Hc.
Qed.

Lemma pack_try_response_local_refines_witness :
  ∃ g', pack_try_response_local (M := ctable) 5 None demo_ask = Ret (UPSTREAM, None, g').
Proof.
  destruct (pack_try_response_local_refines (M := ctable) 5 None [] demo_ask demo_labels)
    as (g' & _ & E & _); [done|constructor|exact demo_ask_ok|].
  exists g'. exact E.
Defined.

Lemma local_response_wellformed_witness :
  ∃ d r g', pack_try_response_local (M := ctable) 5 None demo_ask = Ret (d, r, g').
Proof.
  destruct (local_response_wellformed (M := ctable) 5 None [] demo_ask demo_labels)
    as (d & r & g' & E & _); [done|constructor|exact demo_ask_ok|].
  exists d, r, g'. exact E.
Defined.

Lemma blocked_subdomains_witness :
  ∃ (c : DnsCache ctable) resp g', pack_try_response_local 5 (Some c) demo_ask = Ret (CLIENT, Some resp, g') ∧
    RCODE (flags (header resp)) = 3.
Proof.
  destruct demo_cache as (c & Hc & Hi & _). exists c.
  destruct (blocked_subdomains 5 (Some c) [demo_block] demo_ask demo_question [[97]] [[98]]
    (i_value demo_block) (MkRR [1; 98; 0] 1 1 UINT32_MAX 4 [0; 0; 0; 0]) Hc Hi demo_ask_ok)
    as (resp & g' & E & _ & Hrc & _); [done|done|done|reflexivity|by left|reflexivity|].
  exists resp, g'. split; [exact E|exact Hrc].
Defined.

Lemma relayed_then_cached_witness :
  ∃ (c : DnsCache ctable) g1 g2 resp,
    pack_make_response_relay 5 1 (Some c) demo_reply 7 = Ret (set_id demo_reply 7, g1) ∧
    pack_try_response_local 6 g1 demo_ask = Ret (CLIENT, Some resp, g2).
Proof.
  destruct (cache_create_spec (M := ctable)) as (c & _ & Hc & _). exists c.
  destruct (relayed_then_cached 5 6 1 7 c [] demo_reply demo_ask demo_question demo_labels Hc)
    as (g1 & g2 & resp & E1 & E2 & _);
    [constructor|exact demo_reply_ok|done|exact demo_ask_ok|done|done|by_compute|].
  exists g1, g2, resp. split; [exact E1|exact E2].
Defined.

(** ** Names that announce more than they have

    The labels [ls], then a last label that announces [c] bytes and has only
    those of [rest].  The walk over the parents visits [overruns]. *)
Definition overrun (ls : list (list Z)) (c : Z) (rest : list Z) : list Z := wire ls ++ c :: rest ++ [0].
Fixpoint overruns (ls : list (list Z)) (c : Z) (rest : list Z) : list (list Z) :=
  overrun ls c rest :: match ls with [] => [] | _ :: ls => overruns ls c rest end.

(** No length a pointer mark (192 and up), and too few bytes behind it. *)
Definition too_short (c : Z) (rest : list Z) : Prop :=
  no_nul rest ∧ 0 < c < 0xC0 ∧ Z.of_nat (length rest) < c.

Section hostile.
Context {M : Type} `{!MapOps (list Z) loc M, !MapLaws (list Z) loc M}.
Implicit Types (g : option (DnsCache M)) (items : list item).

Lemma overrun_cstring ls c rest : Forall label_wf ls → too_short c rest → cstring (overrun ls c rest).
Proof using Type.
  intros Hls (Hr & Hc & _). exists (wire ls ++ c :: rest). unfold overrun. split; [by rewrite <- app_assoc|].
  unfold no_nul in *. apply Forall_app. split; [|constructor; [lia|done]].
  destruct (wire_name_cstring ls Hls) as (s & E & Hs). unfold wire_name in E. by simplify_list_eq.
Qed.

Lemma overrun_cons pre l ls c rest :
  pre ++ overrun (l :: ls) c rest = (pre ++ wire_label l) ++ overrun ls c rest.
Proof using Type.
  unfold overrun. rewrite wire_cons. unfold wire_label. rewrite <- !app_assoc. cbn [app].
  by rewrite <- !app_assoc.
Qed.

(** The bits of a pointer need 192 at least. *)
Lemma not_pointer c : 0 < c < 0xC0 → (Z.land c 0xC0 =? 0xC0) = false.
Proof using Type.
  intros Hc.
  assert (Hall : forallb (λ k, negb (Z.land (Z.of_nat k) 0xC0 =? 0xC0)) (seq 0 192) = true) by reflexivity.
  rewrite forallb_forall in Hall. specialize (Hall (Z.to_nat c)).
  rewrite Z2Nat.id in Hall by lia. apply negb_true_iff, Hall, in_seq. lia.
Qed.

(** Behind the last label the walk leaves the block. *)
Lemma get_parent_overrun pre c rest :
  too_short c rest → get_parent_qname (pre ++ overrun [] c rest) (Z.of_nat (length pre)) = UB.
Proof using Type.
  intros (_ & Hc & Hr). unfold get_parent_qname, overrun. cbn [wire fmap list_fmap concat app].
  rewrite rd_app. cbn [mbind Res_bind]. rewrite (proj2 (Z.eqb_neq _ _)), not_pointer by lia. cbn [orb].
  unfold rd. rewrite (proj2 (Z.leb_le _ _)) by lia.
  rewrite (lookup_ge_None_2 (pre ++ _)); [done|].
  rewrite length_app. cbn [length]. rewrite length_app. cbn [length]. lia.
Qed.

Lemma get_parent_inside pre l ls c rest :
  Forall label_wf (l :: ls) → too_short c rest →
  get_parent_qname (pre ++ overrun (l :: ls) c rest) (Z.of_nat (length pre)) =
    Ret (Some (Z.of_nat (length (pre ++ wire_label l)))).
Proof using Type.
  intros [[_ Hl] Hls]%Forall_cons (_ & Hc & _). rewrite overrun_cons.
  assert (Eb : ∃ b more, overrun ls c rest = b :: more ∧ 0 < b).
  { unfold overrun. destruct ls as [|l' ls]; [exists c; eexists; split; [done|lia]|].
    apply Forall_cons in Hls as [[_ Hl'] _]. rewrite wire_cons. eexists _, _. split; [done|lia]. }
  destruct Eb as (b & more & -> & Hb). unfold get_parent_qname.
  replace ((pre ++ wire_label l) ++ b :: more) with (pre ++ Z.of_nat (length l) :: l ++ b :: more)
    by (unfold wire_label; by rewrite <- !app_assoc).
  rewrite rd_app. cbn [mbind Res_bind]. destruct (label_top_bits (Z.of_nat (length l))) as [-> ->]; [lia|].
  cbn [orb]. replace (Z.of_nat (length pre) + 1 + Z.of_nat (length l))
    with (Z.of_nat (length (pre ++ wire_label l))) by (rewrite length_app; unfold wire_label; simpl; lia).
  replace (pre ++ Z.of_nat (length l) :: l ++ b :: more) with ((pre ++ wire_label l) ++ b :: more)
    by (unfold wire_label; by rewrite <- !app_assoc).
  rewrite rd_app. cbn [mbind Res_bind]. by rewrite (proj2 (Z.eqb_neq _ _)) by lia.
Qed.

Lemma parents_loop_overrun fuel now g items q pre ls c rest :
  qname q = pre ++ overrun ls c rest → Forall label_wf ls → too_short c rest →
  (length ls < fuel)%nat → g_rep g items → items_good items →
  if existsb (name_blocked now items (qtype q) (qclass q)) (overruns ls c rest)
  then ∃ g', parents_loop fuel now g q (Z.of_nat (length pre)) = Ret (RCODE_NXDOMAIN, g')
  else parents_loop fuel now g q (Z.of_nat (length pre)) = UB.
Proof using All.
  revert g items pre ls. induction fuel as [|fuel IH]; [lia|]. intros g items pre ls Hq Hls Hc Hf Hg Hi.
  cbn [parents_loop]. rewrite Hq, ptr_app. cbn [mbind Res_bind].
  destruct (walk_step now g items (overrun ls c rest) (qtype q) (qclass q) Hg Hi)
    as (v & g1 & items1 & -> & E & Hg1 & Hi1 & Hs1); [by apply overrun_cstring|].
  cbn [mbind Res_bind]. rewrite E. cbn [mbind Res_bind].
  destruct ls as [|l ls]; cbn [overruns existsb];
    (destruct (name_blocked now items (qtype q) (qclass q) _); cbn [orb]; [by exists g1|]).
  - by rewrite get_parent_overrun.
  - rewrite get_parent_inside by done. cbn [mbind Res_bind]. rewrite <- (existsb_same _ _ _ _ _ _ Hs1).
    apply (IH g1 items1); [by rewrite Hq, overrun_cons|by apply Forall_cons in Hls as [_ ?]|done|simpl in Hf; lia|done|done].
Qed.
End hostile.

(** C39. Packets from the network can make the resolver read where it should
    not, whatever the cache holds.  A standard query with one question, whose
    name has some labels (or none) and then one that announces more bytes than
    there are, is accepted by the parser; the walk over the parents of the name
    then leaves its block, for every such name, unless the name or one of its
    parents on the way is blocked.  And every response without a question makes
    the caching dereference NULL. *)
Theorem hostile_packets_undefined {M : Type} `{!MapOps (list Z) loc M, !MapLaws (list Z) loc M}
    (now : Z) (g : option (DnsCache M)) (items : list item) (query recv : DnsPacket) (q : SectionQuestion)
    (ls : list (list Z)) (c : Z) (rest : list Z) (use_cache client_id : Z) :
  g_rep g items → items_good items → wire_ok query → OPCODE_GET (flags (header query)) = 0 →
  questions query = [q] → qname q = overrun ls c rest → Forall label_wf ls → too_short c rest →
  pack_ok recv → questions recv = [] → use_cache ≠ 0 →
  (∀ fuel more, (length (pack_out query) ≤ 512)%nat →
     Forall (λ r, length (rr_name r) + 2 < fuel ∧ length (rdata r) + 2 < fuel)%nat (rrs query) →
     pack_deserialize fuel (pack_out query ++ more) (Z.of_nat (length (pack_out query))) = Ret (Some query)) ∧
  (if existsb (name_blocked now items (qtype q) (qclass q)) (overruns ls c rest)
   then ∃ g', pack_try_response_local now g query = Ret (CLIENT, Some (reply query RCODE_NXDOMAIN), g')
   else pack_try_response_local now g query = UB) ∧
  pack_make_response_relay now use_cache g recv client_id = UB.
Proof.
  intros Hg Hi Hw Ho Hqs Hq Hls Hc Hrecv Hno Huse. split_and!.
  - intros fuel more H512 Hf. pose proof (pack_out_header query). by apply pack_deserialize_spec; try lia.
  - assert (Hok : pack_ok query) by (by apply wire_pack_ok).
    pose proof (parents_loop_overrun (S (length (qname q))) now g items q [] ls c rest Hq Hls Hc) as Hp.
    unfold pack_try_response_local. rewrite Ho, (w_qcount _ Hw), Hqs.
    change (0 =? opcode_value QUERY) with true. change (Z.of_nat (length [q])) with 1. cbv iota.
    change (1 >? 1) with false. change (1 =? 0) with false. cbv iota.
    unfold query_pre_validate. rewrite Hqs. cbn [head].
    change (Z.of_nat (length [])) with 0 in Hp.
    destruct (existsb _ _).
    + destruct Hp as (g' & ->); [|done|done|].
      * rewrite Hq. unfold overrun. rewrite length_app. cbn [length]. pose proof (wire_labels_length ls). lia.
      * cbn [mbind Res_bind]. rewrite bool_decide_false by done. cbn [negb].
        rewrite (make_response_fail_reply _ _ Hok). by exists g'.
    + rewrite Hp; [done| |done|done].
      rewrite Hq. unfold overrun. rewrite length_app. cbn [length]. pose proof (wire_labels_length ls). lia.
  - unfold pack_make_response_relay. rewrite (packet_clone_ok _ Hrecv). cbn [mbind Res_bind].
    rewrite (proj2 (Z.eqb_neq _ _) Huse). by rewrite Hno.
Qed.

(** The name [\1a\5b]. *)
Definition demo_overrun : DnsPacket := MkPacket (MkHeader 7 0x0100 1 0 0 0) [MkQuestion [1; 97; 5; 98; 0] 1 1] [].

Lemma hostile_packets_undefined_witness :
  ∃ c : DnsCache ctable,
    pack_deserialize 9 (pack_out demo_overrun ++ []) (Z.of_nat (length (pack_out demo_overrun))) = Ret (Some demo_overrun) ∧
    pack_try_response_local 5 (Some c) demo_overrun = UB ∧
    pack_make_response_relay 5 1 (Some c) (MkPacket (MkHeader 7 0x8180 0 0 0 0) [] []) 3 = UB.
Proof.
  destruct (cache_create_spec (M := ctable)) as (c & _ & Hc & _). exists c.
  destruct (hostile_packets_undefined 5 (Some c) [] demo_overrun (MkPacket (MkHeader 7 0x8180 0 0 0 0) [] [])
    (MkQuestion [1; 97; 5; 98; 0] 1 1) [[97]] 5 [98] 1 3 Hc) as (Hd & Hq & Hr).
  - constructor.
  - split; [split; unfold is_u16; simpl; lia|done|done| |constructor].
    apply Forall_singleton. split_and!; [by apply cstring_check|unfold is_u16; simpl; lia..].
  - done.
  - done.
  - done.
  - by_compute.
  - split_and!; [by_compute|lia..|simpl; lia].
  - split; constructor.
  - done.
  - done.
  - split_and!; [|exact Hq|exact Hr]. apply Hd; [by_compute|constructor].
Defined.

(** The dispatch reads half of the opcode.  The field is bits 11 to 14 of
    the flags; [OPCODE_GET] shifts by 12, so an inverse query (1) is handled as
    a standard one, a status query (2) as an inverse query, and opcode 4 as a
    status query. *)
Theorem opcode_halved (f : Z) :
  0 ≤ f < 2 ^ 15 → OPCODE_GET f = (f / 2 ^ 11) mod 2 ^ 4 / 2.
Proof.
  intros Hf. unfold OPCODE_GET. change 0xf with (Z.ones 4). rewrite Z.land_ones by lia.
  rewrite Z.shiftr_div_pow2 by lia. change (2 ^ 4) with 16. change (2 ^ 12) with 4096 in *.
  change (2 ^ 11) with 2048. change (2 ^ 15) with 32768 in Hf.
  pose proof (Z.div_lt_upper_bound f 2048 16). pose proof (Z.div_pos f 2048).
  rewrite (Z.mod_small (f / 2048)) by lia. rewrite Z.div_div by lia. change (2048 * 2) with 4096.
  apply Z.mod_small. split; [apply Z.div_pos; lia|apply Z.div_lt_upper_bound; lia].
Qed.

Lemma opcode_halved_witness : 0 ≤ 0x1000 < 2 ^ 15 ∧ OPCODE_GET 0x1000 = opcode_value IQUERY.
Proof. split; [lia|]. rewrite (opcode_halved 0x1000); [reflexivity|lia]. Defined.
End Resolver.
