(* ===== verification/Socket.v ===== *)
(** * Addresses and the calls of [src/infra/sock_posix.c]

    The socket address a datagram is sent to, the end point a received one
    comes from, the timeout given to [select], the end point of a textual
    address, and the functions that make the system calls with them.  What the
    kernel answers is an argument.  Bytes are in memory order; [htons] is a
    swap. *)

From S2P Require Import Prelude Utils Protocol.
Import Utils Protocol.

Module Socket.

Inductive IpVersion := IPV4 | IPV6.
#[export] Instance IpVersion_eq_dec : EqDecision IpVersion.
Proof. solve_decision. Defined.

(** [addr] are the 16 bytes of the union, an IPv4 address in the first four. *)
Record NetEnd := MkEnd { addr : list Z; version : IpVersion; port : Z }.
#[export] Instance NetEnd_eq_dec : EqDecision NetEnd.
Proof. solve_decision. Defined.

(** The address given to [sendto] and filled by [recvfrom]; ports in network order. *)
Inductive sockaddr :=
| sockaddr_in (sin_addr : list Z) (sin_port : Z)
| sockaddr_in6 (sin6_addr : list Z) (sin6_port : Z).
#[export] Instance sockaddr_eq_dec : EqDecision sockaddr.
Proof. solve_decision. Defined.

(** What the kernel answers to [socket] (-1 when it refuses) and [bind]. *)
Class SocketCalls := { sys_socket : Z; sys_bind : Z → sockaddr → Z }.

Section sockets.
Context `{SocketCalls}.

(** The socket is stored unless -1 is returned; the outcome of [setsockopt] is
    not looked at. *)
Definition socket_create : Z * option Z := if sys_socket =? -1 then (-1, None) else (0, Some sys_socket).

(** [in6addr_any] is zero. *)
Definition socket_bind (socket port : Z) : Z := sys_bind socket (sockaddr_in6 (replicate 16 0) (htons port)).
End sockets.

(** The first half of [socket_send]. *)
Definition sockaddr_of (dest : NetEnd) : sockaddr :=
  match version dest with
  | IPV4 => sockaddr_in (take 4 (addr dest)) (wrap_u16 (port dest))
  | IPV6 => sockaddr_in6 (addr dest) (wrap_u16 (port dest))
  end.

(** [IN6_IS_ADDR_V4MAPPED] *)
Definition v4mapped_prefix : list Z := [0; 0; 0; 0; 0; 0; 0; 0; 0; 0; 255; 255].
Definition is_v4mapped (a : list Z) : bool := bool_decide (take 12 a = v4mapped_prefix).

(** The second half of [socket_recv_nowait]: [source] is only written where the
    code writes it. *)
Definition source_of (source : NetEnd) (sin6_addr : list Z) (sin6_port : Z) : NetEnd :=
  if is_v4mapped sin6_addr
  then MkEnd (take 4 (drop 12 sin6_addr) ++ drop 4 (addr source)) IPV4 sin6_port
  else MkEnd sin6_addr IPV6 sin6_port.

(** The [struct timeval] of [socket_sleep_on], [None] for no timeout: seconds
    and microseconds. *)
Definition timeval_of (timeout : Z) : option (Z * Z) :=
  if timeout <? 0 then None else Some (Z.quot timeout 1000, Z.rem timeout 1000 * 1000).

(** The end point of a text that is an address.  For another text the code means
    to return -1, but first formats the number [errno] with [%s]. *)
Definition ipstr2binary `{InetPton} (ip_str : list Z) : Res NetEnd :=
  let zero := replicate 16 0 in
  match inet_pton4 ip_str with
  | Some a => Ret (MkEnd (a ++ drop (length a) zero) IPV4 (htons 53))
  | None =>
      match inet_pton6 ip_str with
      | Some a => Ret (MkEnd (a ++ drop (length a) zero) IPV6 (htons 53))
      | None => UB
      end
  end.

(** ** The calls

    [sendto]: its result for a datagram, given the ones sent before. *)
Class Kernel := sendto : list (list Z * sockaddr) → list Z → sockaddr → Z.

(** What a call of [recvfrom] yields: the bytes, address and port; no data; an error. *)
Inductive recv := Received (bytes : list Z) (sin6_addr : list Z) (sin6_port : Z) | NoData | Failed.

(** The result, and the datagram the kernel was given after those of [sent]. *)
Definition socket_send `{Kernel} (sent : list (list Z * sockaddr)) (buf : list Z) (buf_len : Z)
    (dest : NetEnd) : Res (Z * (list Z * sockaddr)) :=
  data ← slice buf 0 buf_len;
  Ret (sendto sent data (sockaddr_of dest), (data, sockaddr_of dest)).

(** The result, the buffer and the source; the kernel cuts a datagram to
    [buf_len] bytes. *)
Definition socket_recv_nowait (r : recv) (buf : list Z) (buf_len : Z) (source : NetEnd) :
    Res (Z * list Z * NetEnd) :=
  match r with
  | NoData => Ret (0, buf, source)
  | Failed => Ret (-1, buf, source)
  | Received bytes a p =>
      let bytes := take (Z.to_nat buf_len) bytes in
      buf ← blit buf 0 bytes;
      Ret (Z.of_nat (length bytes), buf, source_of source a p)
  end.

(** [select] on the one socket: its result for the timeout it is given. *)
Definition socket_sleep_on (select : option (Z * Z) → Z) (timeout : Z) : Z :=
  select (timeval_of timeout).

(** ** Properties *)

(** The address [a] of a datagram and where the reply to it goes denote the
    same end point: an IPv4 address and its mapped form are the same. *)
Definition same_address (a : list Z) (s : sockaddr) : Prop :=
  match s with
  | sockaddr_in b _ => a = v4mapped_prefix ++ b
  | sockaddr_in6 b _ => a = b
  end.
Definition sockaddr_port (s : sockaddr) : Z :=
  match s with sockaddr_in _ p | sockaddr_in6 _ p => p end.

Lemma timeval_of_spec timeout :
  match timeval_of timeout with
  | None => timeout < 0
  | Some (sec, usec) => 0 ≤ sec ∧ 0 ≤ usec < 1000000 ∧ sec * 1000000 + usec = timeout * 1000
  end.
Proof.
  unfold timeval_of. destruct (timeout <? 0) eqn:E; bools; [done|].
  rewrite Z.quot_div_nonneg, Z.rem_mod_nonneg by lia.
  pose proof (Z.div_mod timeout 1000). pose proof (Z.mod_pos_bound timeout 1000).
  pose proof (Z.div_pos timeout 1000). lia.
Qed.

(** A reply goes back to where the packet came from, over IPv4 and IPv6:
    the address [socket_send] builds for the source of a received datagram
    denotes the sender, whatever the union held before.  The timeout given to
    [select] is the requested one to the millisecond, within the range of a
    [timeval]; a negative one waits without limit. *)
Theorem reply_reaches_sender (source : NetEnd) (a : list Z) (p timeout : Z) :
  length a = 16%nat → length (addr source) = 16%nat → is_u16 p →
  let s := sockaddr_of (source_of source a p) in
  same_address a s ∧ sockaddr_port s = p ∧
  match timeval_of timeout with
  | None => timeout < 0
  | Some (sec, usec) => 0 ≤ sec ∧ 0 ≤ usec < 1000000 ∧ sec * 1000000 + usec = timeout * 1000
  end.
Proof.
  intros Ha Hs Hp. cbv zeta. unfold source_of, is_v4mapped.
  case_bool_decide as Hm; unfold sockaddr_of; cbn [version addr port same_address sockaddr_port];
    rewrite (wrap_u16_small _ Hp); split_and!; try done; try apply timeval_of_spec.
  - rewrite take_app_length' by (rewrite length_take, length_drop; lia).
    rewrite <- (take_drop 12 a) at 1. rewrite Hm. f_equal.
    symmetry. apply take_ge. rewrite length_drop. lia.
Qed.

Lemma reply_reaches_sender_witness :
  same_address (v4mapped_prefix ++ [10; 0; 0; 1])
    (sockaddr_of (source_of (MkEnd (replicate 16 7) IPV6 0) (v4mapped_prefix ++ [10; 0; 0; 1]) 13568)).
Proof.
  apply (reply_reaches_sender (MkEnd (replicate 16 7) IPV6 0) (v4mapped_prefix ++ [10; 0; 0; 1]) 13568 0);
    [reflexivity|reflexivity|unfold is_u16; lia].
Defined.
End Socket.
