(* ===== verification/Memory.v ===== *)
(** * Who owns the memory of a packet

    [Protocol.v] takes packets for values.  Here they are what the program has:
    structures that point to vectors, which point to questions and records,
    which point to names and data, all of them objects of one heap that
    [src/dns/dns_resolver.c] and [src/dns/dns_cache.c] allocate and release.
    The assertions [pack_at], [rr_at], [value_at] say which objects make up a
    value; the logic of [Heap.v] is linear, so the specifications account for
    every object.  A vector and its array, which live and die together, are one
    object; the arithmetic of the vector is that of [Vector.v]. *)

From iris.proofmode Require Import proofmode.
From S2P Require Import Prelude Heap Vector CString Protocol Cache Resolver Socket.
Import Protocol.

Module Memory.

(** ** Objects *)

Record QuestionObj := MkQuestionObj { q_name : option loc; q_type : Z; q_class : Z }.
Record RecordObj := MkRecordObj {
  r_name : option loc; r_type : Z; r_class : Z; r_ttl : Z; r_length : Z; r_data : option loc;
}.
Record PacketObj := MkPacketObj {
  p_header : SectionHeader; p_questions : option loc; p_rrs : option loc;
}.
(** On the stack of its user; NULL for no vector. *)
Record ValueObj := MkValueObj {
  o_answer : Z; o_authority : Z; o_additional : Z; o_rrs : option loc;
}.

Record EntryObj := MkEntryObj {
  e_key : option loc; e_value : ValueObj; e_created : Z;
  e_hotter : option loc; e_colder : option loc;
}.

(** The session's address of the client, and the packet it may send again. *)
Record SessionObj := MkSessionObj {
  s_client : Z; s_end : Socket.NetEnd; s_stamp : Z; s_retries : Z; s_packet : option loc;
}.

Inductive object :=
| Bytes (b : list Z)
| OQuestion (q : QuestionObj)
| ORecord (r : RecordObj)
| OVector (v : Vector.Vector loc)
| OPacket (p : PacketObj)
| OEntry (e : EntryObj)
| OSession (s : SessionObj).

Abbreviation Mem := (Cmd object).

Definition sizeof_SectionQuestion : Z := 16.
Definition sizeof_ResourceRecord : Z := 32.
Definition sizeof_DnsPacket : Z := 32.

(** What a member holds before it is written. *)
Class Garbage := garbage : Z.

Section memory.
Context `{Allocator, Garbage}.
Implicit Types (p : option loc) (l : loc).

(** ** Access: of an object that is there and of the type of the pointer *)

Definition get_bytes p : Mem (list Z) :=
  l ← lift (nonnull p); o ← get l;
  match o with Bytes b => mret b | _ => lift UB end.
Definition get_question p : Mem QuestionObj :=
  l ← lift (nonnull p); o ← get l;
  match o with OQuestion q => mret q | _ => lift UB end.
Definition get_record p : Mem RecordObj :=
  l ← lift (nonnull p); o ← get l;
  match o with ORecord r => mret r | _ => lift UB end.
Definition get_vector l : Mem (Vector.Vector loc) :=
  o ← get l; match o with OVector v => mret v | _ => lift UB end.
Definition get_packet p : Mem PacketObj :=
  l ← lift (nonnull p); o ← get l;
  match o with OPacket q => mret q | _ => lift UB end.

Definition malloc (n : Z) (o : object) : Mem (option loc) :=
  if malloc_ok n then l ← new o; mret (Some l) else mret None.
Definition free p : Mem unit :=
  match p with Some l => release l | None => mret tt end.
Definition strdup p : Mem (option loc) :=
  b ← get_bytes p; s ← lift (CString.strdup b); malloc (Z.of_nat (length s)) (Bytes s).

(** ** Vectors *)

Definition vector_create (init_capacity : Z) : Mem (option loc) :=
  match Vector.vector_create init_capacity with
  | Some v => l ← new (OVector v); mret (Some l)
  | None => mret None
  end.
Definition vector_add p (x : loc) : Mem unit :=
  match p with
  | None => mret tt
  | Some l => v ← get_vector l; v ← lift (Vector.vector_add v x); set l (OVector v)
  end.
Definition vector_size p : Mem Z :=
  match p with None => mret 0 | Some l => v ← get_vector l; mret (Vector.vector_size v) end.
Definition vector_get p (index : Z) : Mem (option loc) :=
  match p with
  | None => mret None
  | Some l => v ← get_vector l; lift (Vector.vector_get v index)
  end.
Definition vector_free p : Mem unit :=
  match p with None => mret tt | Some l => get_vector l ≫= λ _, release l end.

(** [for (int i = 0; i < vector_size(v); i++) body(vector_get(v, i));] *)
Fixpoint for_loop (fuel : nat) (i : Z) p (body : option loc → Mem unit) : Mem unit :=
  n ← vector_size p;
  if i <? n then
    match fuel with
    | O => lift OutOfFuel
    | S fuel => x ← vector_get p i; body x ≫= λ _, for_loop fuel (i + 1) p body
    end
  else mret tt.
Definition for_each p (body : option loc → Mem unit) : Mem unit :=
  n ← vector_size p; for_loop (Z.to_nat n) 0 p body.

(** The same loop, left with [true] at the first element that passes a test. *)
Fixpoint any_loop (fuel : nat) (i : Z) p (test : option loc → Mem bool) : Mem bool :=
  n ← vector_size p;
  if i <? n then
    match fuel with
    | O => lift OutOfFuel
    | S fuel =>
        x ← vector_get p i; b ← test x;
        if b : bool then mret true else any_loop fuel (i + 1) p test
    end
  else mret false.
Definition any p (test : option loc → Mem bool) : Mem bool :=
  n ← vector_size p; any_loop (Z.to_nat n) 0 p test.

(** ** Records and questions *)

Definition rr_create : Mem loc :=
  p ← malloc sizeof_ResourceRecord
        (ORecord (MkRecordObj None garbage garbage garbage 0 None));
  lift (nonnull p).

Definition rr_free p : Mem unit :=
  rr ← get_record p;
  free (r_name rr) ≫= λ _, free (r_data rr) ≫= λ _, free p.

Definition question_create : Mem loc :=
  p ← malloc sizeof_SectionQuestion (OQuestion (MkQuestionObj None garbage garbage));
  lift (nonnull p).

Definition question_free p : Mem unit :=
  q ← get_question p; free (q_name q) ≫= λ _, free p.

Definition questions_free p : Mem unit := for_each p question_free ≫= λ _, vector_free p.
Definition free_rrs p : Mem unit := for_each p rr_free ≫= λ _, vector_free p.

Definition question_clone p : Mem loc :=
  q ← question_create;
  orig ← get_question p;
  name ← strdup (q_name orig);
  set q (OQuestion (MkQuestionObj name (q_type orig) (q_class orig))) ≫= λ _, mret q.

Definition questions_clone p : Mem (option loc) :=
  n ← vector_size p;
  dup ← vector_create n;
  for_each p (λ x, q ← question_clone x; vector_add dup q) ≫= λ _, mret dup.

(** The copy is released again when memory runs out under way. *)
Definition rr_clone p : Mem (option loc) :=
  match p with
  | None => mret None
  | Some _ =>
      copy_rr ← rr_create;
      record ← get_record p;
      name ← strdup (r_name record);
      let copy data := ORecord (MkRecordObj name (r_type record) (r_class record)
                                  (r_ttl record) (r_length record) data) in
      set copy_rr (copy None) ≫= λ _,
      match name with
      | None => rr_free (Some copy_rr) ≫= λ _, mret None
      | Some _ =>
          rdata ← malloc (r_length record) (Bytes []);
          set copy_rr (copy rdata) ≫= λ _,
          match rdata with
          | None => rr_free (Some copy_rr) ≫= λ _, mret None
          | Some d =>
              src ← get_bytes (r_data record);
              bytes ← lift (slice src 0 (r_length record));
              set d (Bytes bytes) ≫= λ _, mret (Some copy_rr)
          end
      end
  end.

(** The copy of one record in [rrs_clone], which tests no pointer. *)
Definition rrs_clone_item p : Mem loc :=
  item ← malloc sizeof_ResourceRecord (Bytes []);
  src ← get_record p;
  item ← lift (nonnull item);
  name ← strdup (r_name src);
  rdata ← malloc (r_length src) (Bytes []);
  bytes ← get_bytes (r_data src);
  bytes ← lift (slice bytes 0 (r_length src));
  d ← lift (nonnull rdata);
  set d (Bytes bytes) ≫= λ _,
  set item (ORecord (MkRecordObj name (r_type src) (r_class src) (r_ttl src) (r_length src) rdata))
    ≫= λ _, mret item.
Definition rrs_clone p : Mem (option loc) :=
  n ← vector_size p;
  clony ← vector_create n;
  for_each p (λ x, item ← rrs_clone_item x; vector_add clony item) ≫= λ _, mret clony.

(** ** Packets *)

Definition pack_free p : Mem unit :=
  dns_pack ← get_packet p;
  questions_free (p_questions dns_pack) ≫= λ _,
  free_rrs (p_rrs dns_pack) ≫= λ _, free p.

Definition set_packet l (f : PacketObj → PacketObj) : Mem unit :=
  o ← get_packet (Some l); set l (OPacket (f o)).

(** An operation of [Protocol.v] on the header alone. *)
Definition with_header (f : DnsPacket → DnsPacket) (o : PacketObj) : PacketObj :=
  MkPacketObj (header (f (MkPacket (p_header o) [] []))) (p_questions o) (p_rrs o).
Definition with_questions p (o : PacketObj) : PacketObj := MkPacketObj (p_header o) p (p_rrs o).
Definition with_rrs p (o : PacketObj) : PacketObj := MkPacketObj (p_header o) (p_questions o) p.

Definition pack_create : Mem loc :=
  pack ← malloc sizeof_DnsPacket (OPacket (MkPacketObj (MkHeader 0 0 0 0 0 0) None None));
  pack ← lift (nonnull pack);
  questions ← vector_create 5;
  set_packet pack (with_questions questions) ≫= λ _,
  rrs ← vector_create 5;
  set_packet pack (with_rrs rrs) ≫= λ _, mret pack.

Definition packet_clone (source : loc) : Mem loc :=
  packet ← pack_create;
  src ← get_packet (Some source);
  set_packet packet (with_header (λ _, MkPacket (p_header src) [] [])) ≫= λ _,
  questions ← questions_clone (p_questions src);
  set_packet packet (with_questions questions) ≫= λ _,
  rrs ← rrs_clone (p_rrs src);
  set_packet packet (with_rrs rrs) ≫= λ _, mret packet.

Definition make_response_empty (query : loc) : Mem loc :=
  response ← pack_create;
  src ← get_packet (Some query);
  set_packet response (with_header (λ _, MkPacket (p_header src) [] [])) ≫= λ _,
  set_packet response (with_header (λ r, set_flags r (RA_SET (flags (header r))))) ≫= λ _,
  set_packet response (with_header (λ r, set_flags r (QR_SET (flags (header r))))) ≫= λ _,
  set_packet response (with_header (λ r, setRcode r RCODE_NOERROR)) ≫= λ _,
  set_packet response (with_header (λ r, set_counts r 0 0 0)) ≫= λ _,
  questions ← questions_clone (p_questions src);
  set_packet response (with_questions questions) ≫= λ _, mret response.

Definition make_response_fail (query : loc) (rcode : Rcode) : Mem loc :=
  fail ← make_response_empty query;
  set_packet fail (with_header (λ r, setRcode r rcode)) ≫= λ _, mret fail.

Definition pack_make_inner_error (query : loc) : Mem loc :=
  make_response_fail query RCODE_SERVFAIL.

Definition pack_make_query_relay (query_pack : loc) (relay_id : Z) : Mem loc :=
  relay_pack ← packet_clone query_pack;
  set_packet relay_pack (with_header (λ r, set_id r relay_id)) ≫= λ _, mret relay_pack.

(** ** Cached values *)

Definition pack_make_std_response_local (query : loc) (cache : ValueObj) : Mem loc :=
  pac ← make_response_empty query;
  set_packet pac (with_header (λ r,
    set_counts r (o_answer cache) (o_authority cache) (o_additional cache))) ≫= λ _,
  rrs ← rrs_clone (o_rrs cache);
  set_packet pac (with_rrs rrs) ≫= λ _, mret pac.

Definition free_cache_value (value : ValueObj) : Mem ValueObj :=
  match o_rrs value with
  | None => mret value
  | Some _ =>
      (for_each (o_rrs value) rr_free ≫= λ _, vector_free (o_rrs value)) ≫= λ _,
      mret (MkValueObj 0 0 0 None)
  end.

(** The loop of [cache_value_clone] from index [i] on: whether it came to its
    end, and [dst]. *)
Fixpoint cache_value_loop (n : nat) (i : Z) (dst : ValueObj) (src : option loc) :
    Mem (bool * ValueObj) :=
  match n with
  | O => mret (true, dst)
  | S n =>
      r ← vector_get src i;
      copy ← rr_clone r;
      match copy with
      | None => dst ← free_cache_value dst; mret (false, dst)
      | Some c => vector_add (o_rrs dst) c ≫= λ _, cache_value_loop n (i + 1) dst src
      end
  end.
Definition cache_value_clone (src : ValueObj) : Mem (bool * ValueObj) :=
  src_size ← vector_size (o_rrs src);
  rrs ← vector_create (if src_size >? 0 then src_size else 4);
  let dst := MkValueObj (o_answer src) (o_authority src) (o_additional src) rrs in
  match rrs with
  | None => mret (false, dst)
  | Some _ => cache_value_loop (Z.to_nat src_size) 0 dst (o_rrs src)
  end.
End memory.

(** ** What objects make up a value *)

Abbreviation mprop := (hpropI object).

Definition bytes_at (p : option loc) (b : list Z) : mprop :=
  ∃ l, <affine> ⌜p = Some l⌝ ∗ l ↦ Bytes b.

Definition question_at (l : loc) (q : SectionQuestion) : mprop :=
  ∃ n, l ↦ OQuestion (MkQuestionObj n (qtype q) (qclass q)) ∗ bytes_at n (qname q).

Definition rr_at (l : loc) (r : ResourceRecord) : mprop :=
  ∃ n d, l ↦ ORecord (MkRecordObj n (rr_type r) (rr_class r) (rr_ttl r) (rdata_length r) d) ∗
    bytes_at n (rr_name r) ∗ bytes_at d (rdata r).

(** A vector of the pointers [ls] with room for [n] in all. *)
Definition array_at (p : option loc) (ls : list loc) (n : Z) : mprop :=
  ∃ l v, <affine> ⌜p = Some l ∧ Vector.vec_rep v ls ∧ n ≤ Vector.capacity v⌝ ∗ l ↦ OVector v.

Definition vector_at {V} (at_ : loc → V → mprop) (p : option loc) (xs : list V) : mprop :=
  ∃ ls, array_at p ls 0 ∗ [∗ list] l;x ∈ ls;xs, at_ l x.

Definition pack_at (l : loc) (p : DnsPacket) : mprop :=
  ∃ q r, l ↦ OPacket (MkPacketObj (header p) q r) ∗
    vector_at question_at q (questions p) ∗ vector_at rr_at r (rrs p).

Definition value_at (o : ValueObj) (v : Cache.CacheValue) : mprop :=
  <affine> ⌜o_answer o = Cache.v_answer v ∧ o_authority o = Cache.v_authority v ∧
            o_additional o = Cache.v_additional v⌝ ∗
  match Cache.v_rrs v with
  | Some rs => vector_at rr_at (o_rrs o) rs
  | None => <affine> ⌜o_rrs o = None⌝
  end.

(** A vector with nothing in it, to which nothing points any more. *)
Definition lost_vector : mprop := ∃ p, array_at p [] 0.

Definition lost_vectors (n : nat) : mprop := [∗] replicate n lost_vector.

Lemma lost_none : ⊢ lost_vectors 0.
Proof. unfold lost_vectors. by rewrite big_sepL_nil. Qed.

Lemma lost_add n m : lost_vectors n -∗ lost_vectors m -∗ lost_vectors (n + m).
Proof. unfold lost_vectors. rewrite replicate_add big_sepL_app. iIntros "$ $". Qed.

#[export] Instance bytes_at_weighs p b : Weighs (bytes_at p b) 1.
Proof. weigh bytes_at. Qed.
#[export] Instance question_at_weighs l q : Weighs (question_at l q) 2.
Proof. weigh question_at. Qed.
#[export] Instance rr_at_weighs l r : Weighs (rr_at l r) 3.
Proof. weigh rr_at. Qed.
#[export] Instance array_at_weighs p ls n : Weighs (array_at p ls n) 1.
Proof. weigh array_at. Qed.
#[export] Instance lost_weighs : Weighs lost_vector 1.
Proof. weigh lost_vector. Qed.
#[export] Instance lost_vectors_weigh n : Weighs (lost_vectors n) n.
Proof.
  unfold lost_vectors. induction n as [|n IH]; [by apply weighs_emp|].
  by apply (weighs_sep _ _ 1 n lost_weighs IH).
Qed.
#[export] Instance vector_at_weighs {V} (at_ : loc → V → mprop) p xs n :
  (∀ l x, Weighs (at_ l x) n) → Weighs (vector_at at_ p xs) (1 + length xs * n).
Proof. intros Hn. weigh vector_at. Qed.

(** A packet, its two vectors, two objects a question and three a record. *)
Definition pack_weight (p : DnsPacket) : nat :=
  3 + 2 * length (questions p) + 3 * length (rrs p).
#[export] Instance pack_at_weighs l p : Weighs (pack_at l p) (pack_weight p).
Proof. unfold pack_weight. weigh pack_at. Qed.

Definition value_weight (v : Cache.CacheValue) : nat :=
  match Cache.v_rrs v with Some rs => 1 + 3 * length rs | None => 0 end.
#[export] Instance value_at_weighs o v : Weighs (value_at o v) (value_weight v).
Proof. unfold value_weight, value_at. destruct (Cache.v_rrs v); eapply weighs_eq; by (apply _ || (cbn; lia)). Qed.

(** ** Rules *)

Section rules.
Context `{Allocator, Garbage}.
Implicit Types (p : option loc) (l : loc) (b : list Z).

Lemma wp_lift_ret {T} (r : Res T) (a : T) (Φ : T → mprop) : r = Ret a → Φ a -∗ wp (lift r) Φ.
Proof. intros E. by iApply wp_lift. Qed.

Lemma get_bytes_spec p b (Φ : list Z → mprop) :
  bytes_at p b -∗ (bytes_at p b -∗ Φ b) -∗ wp (get_bytes p) Φ.
Proof.
  iIntros "(%l & -> & Hl) HΦ". unfold get_bytes.
  wp_apply wp_lift_ret; [done|]. wp_apply (wp_get with "Hl"). iIntros "Hl".
  iApply wp_ret. iApply "HΦ". iExists l. by iFrame.
Qed.

Lemma get_question_spec l o (Φ : QuestionObj → mprop) :
  l ↦ OQuestion o -∗ (l ↦ OQuestion o -∗ Φ o) -∗ wp (get_question (Some l)) Φ.
Proof.
  iIntros "Hl HΦ". unfold get_question.
  wp_apply wp_lift_ret; [done|]. wp_apply (wp_get with "Hl"). iIntros "Hl".
  iApply wp_ret. by iApply "HΦ".
Qed.

Lemma get_record_spec l o (Φ : RecordObj → mprop) :
  l ↦ ORecord o -∗ (l ↦ ORecord o -∗ Φ o) -∗ wp (get_record (Some l)) Φ.
Proof.
  iIntros "Hl HΦ". unfold get_record.
  wp_apply wp_lift_ret; [done|]. wp_apply (wp_get with "Hl"). iIntros "Hl".
  iApply wp_ret. by iApply "HΦ".
Qed.

Lemma get_packet_spec l o (Φ : PacketObj → mprop) :
  l ↦ OPacket o -∗ (l ↦ OPacket o -∗ Φ o) -∗ wp (get_packet (Some l)) Φ.
Proof.
  iIntros "Hl HΦ". unfold get_packet.
  wp_apply wp_lift_ret; [done|]. wp_apply (wp_get with "Hl"). iIntros "Hl".
  iApply wp_ret. by iApply "HΦ".
Qed.

Lemma get_vector_spec l v (Φ : Vector.Vector loc → mprop) :
  l ↦ OVector v -∗ (l ↦ OVector v -∗ Φ v) -∗ wp (get_vector l) Φ.
Proof.
  iIntros "Hl HΦ". unfold get_vector. wp_apply (wp_get with "Hl"). iIntros "Hl".
  iApply wp_ret. by iApply "HΦ".
Qed.

Lemma free_bytes p b (Φ : unit → mprop) : bytes_at p b -∗ Φ tt -∗ wp (free p) Φ.
Proof. iIntros "(%l & -> & Hl) HΦ". iApply (wp_release with "Hl HΦ"). Qed.

(** What a request for memory gives: the bytes asked for, or NULL. *)
Definition granted (p : option loc) (b : list Z) : mprop :=
  <affine> ⌜p = None ∧ ¬ AllocTotal⌝ ∨ bytes_at p b.

Lemma granted_total `{!AllocTotal} p b : granted p b ⊢ bytes_at p b.
Proof. iIntros "[%Hno|$]". by destruct Hno as [_ []]. Qed.

(** What [free] takes: a block or NULL. *)
Definition held (p : option loc) : mprop := <affine> ⌜p = None⌝ ∨ ∃ b, bytes_at p b.

Lemma bytes_at_intro l b : l ↦ Bytes b ⊢ bytes_at (Some l) b.
Proof. iIntros "Hl". iExists l. by iFrame. Qed.
Lemma held_None : ⊢ held None.
Proof. by iLeft. Qed.
Lemma held_bytes p b : bytes_at p b ⊢ held p.
Proof. iIntros "Hp". iRight. by iExists b. Qed.
Lemma free_held p (Φ : unit → mprop) : held p -∗ Φ tt -∗ wp (free p) Φ.
Proof.
  iIntros "[->|(%b & Hb)] HΦ"; [by iApply wp_ret|iApply (free_bytes with "Hb HΦ")].
Qed.

Lemma malloc_spec n b (Φ : option loc → mprop) :
  (∀ p, granted p b -∗ Φ p) -∗ wp (malloc n (Bytes b)) Φ.
Proof.
  iIntros "HΦ". unfold malloc. destruct (malloc_ok n) eqn:E.
  - wp_apply wp_new. iIntros (l) "Hl". iApply wp_ret. iApply "HΦ". iRight. iExists l. by iFrame.
  - iApply wp_ret. iApply "HΦ". iLeft. iPureIntro. split; [done|].
    intros Ht. by rw malloc_total in E.
Qed.

Lemma malloc_granted n o (Φ : option loc → mprop) :
  malloc_ok n = true → (∀ l, l ↦ o -∗ Φ (Some l)) -∗ wp (malloc n o) Φ.
Proof.
  iIntros (E) "HΦ". unfold malloc. rw E.
  wp_apply wp_new. iIntros (l) "Hl". iApply wp_ret. by iApply "HΦ".
Qed.

Lemma malloc_over m n o (Φ : option loc → mprop) :
  malloc_ok n = true → (∀ l, <affine> ⌜(m ≤ l)%positive⌝ -∗ l ↦ o -∗ Φ (Some l)) -∗ wp_over m (malloc n o) Φ.
Proof.
  iIntros (E) "HΦ". unfold malloc. rw E. iApply wp_over_bind_first. iApply wp_over_new. iIntros (l Hl) "Hl".
  iApply wp_ret. by iApply "HΦ".
Qed.

Lemma strdup_spec p b (Φ : option loc → mprop) :
  cstring b → bytes_at p b -∗ (∀ p', bytes_at p b -∗ granted p' b -∗ Φ p') -∗ wp (strdup p) Φ.
Proof.
  iIntros (Hb) "Hp HΦ". unfold strdup. wp_apply (get_bytes_spec with "Hp"). iIntros "Hp".
  wp_apply wp_lift_ret; [by apply strdup_cstring|].
  iApply malloc_spec. iIntros (p') "Hp'". iApply ("HΦ" with "Hp Hp'").
Qed.

(** ** Vectors *)

Lemma array_at_weaken p ls n m : m ≤ n → array_at p ls n ⊢ array_at p ls m.
Proof.
  iIntros (Hle) "(%l & %v & %Hp & Hl)". destruct Hp as (-> & Hv & Hn). iExists l, v. iFrame. iPureIntro.
  split_and!; [done..|lia].
Qed.

Lemma wp_vector_create n (Φ : option loc → mprop) :
  (∀ p, (<affine> ⌜p = None ∧ ¬ AllocTotal⌝ ∨ array_at p [] n) -∗ Φ p) -∗
  wp (vector_create n) Φ.
Proof.
  iIntros "HΦ". unfold vector_create. destruct (Vector.vector_create n) as [v|] eqn:E.
  - wp_apply wp_new. iIntros (l) "Hl". iApply wp_ret. iApply "HΦ". iRight. iExists l, v. iFrame.
    iPureIntro. split_and!; [done|by eapply Vector.vector_create_spec|].
    by apply Vector.vector_create_capacity.
  - iApply wp_ret. iApply "HΦ". iLeft. iPureIntro. split; [done|].
    intros Ht. destruct (Vector.vector_create_total (A := loc) n Ht) as (v & E' & _). congruence.
Qed.

Lemma wp_vector_granted `{!AllocTotal} n (Φ : option loc → mprop) :
  (∀ p, array_at p [] n -∗ Φ p) -∗ wp (vector_create n) Φ.
Proof.
  iIntros "HΦ". iApply wp_vector_create. iIntros (p) "[%Hno|Hp]"; [by destruct Hno as [_ []]|].
  by iApply "HΦ".
Qed.

Lemma wp_vector_size p ls n (Φ : Z → mprop) :
  array_at p ls n -∗ (array_at p ls n -∗ Φ (Z.of_nat (length ls))) -∗ wp (vector_size p) Φ.
Proof.
  iIntros "(%l & %v & %Hp & Hl) HΦ". destruct Hp as (-> & Hv & Hn). unfold vector_size.
  wp_apply (get_vector_spec with "Hl"). iIntros "Hl". iApply wp_ret.
  unfold Vector.vector_size. rw (Vector.rep_size _ _ Hv). iApply "HΦ". iExists l, v. by iFrame.
Qed.

Lemma wp_vector_get p ls n (i : nat) (Φ : option loc → mprop) :
  array_at p ls n -∗ (array_at p ls n -∗ Φ (ls !! i)) -∗ wp (vector_get p (Z.of_nat i)) Φ.
Proof.
  iIntros "(%l & %v & %Hp & Hl) HΦ". destruct Hp as (-> & Hv & Hn). unfold vector_get.
  wp_apply (get_vector_spec with "Hl"). iIntros "Hl".
  iApply wp_lift_ret; [by apply Vector.vector_get_spec|].
  unfold znth. rw (proj2 (Z.leb_le 0 (Z.of_nat i)) ltac:(lia)) Nat2Z.id.
  iApply "HΦ". iExists l, v. by iFrame.
Qed.

Lemma wp_vector_add p ls n x (Φ : unit → mprop) :
  Z.of_nat (length ls) < n →
  array_at p ls n -∗ (array_at p (ls ++ [x]) n -∗ Φ tt) -∗ wp (vector_add p x) Φ.
Proof.
  iIntros (Hlt) "(%l & %v & %Hp & Hl) HΦ". destruct Hp as (-> & Hv & Hn). unfold vector_add.
  wp_apply (get_vector_spec with "Hl"). iIntros "Hl".
  destruct (Vector.vector_add_room v ls x Hv) as (v' & E & Hv' & Hc).
  { rw (Vector.rep_size _ _ Hv). lia. }
  wp_apply wp_lift_ret; [exact E|]. iApply (wp_set with "Hl"). iIntros "Hl".
  iApply "HΦ". iExists l, v'. iFrame. iPureIntro. by rw Hc.
Qed.

Lemma wp_vector_free p ls n (Φ : unit → mprop) :
  array_at p ls n -∗ Φ tt -∗ wp (vector_free p) Φ.
Proof.
  iIntros "(%l & %v & %Hp & Hl) HΦ". destruct Hp as (-> & Hv & Hn). unfold vector_free.
  wp_apply (get_vector_spec with "Hl"). iIntros "Hl". iApply (wp_release with "Hl HΦ").
Qed.

(** ** The loop over a vector: [I i] holds before the element [i] is visited. *)

Lemma for_loop_spec p ls n body (I : nat → mprop) k i (Φ : unit → mprop) :
  (∀ i l, ls !! i = Some l → I i ⊢ wp (body (Some l)) (λ _, I (S i))) →
  (i + k = length ls)%nat →
  array_at p ls n -∗ I i -∗ (array_at p ls n -∗ I (length ls) -∗ Φ tt) -∗
  wp (for_loop k (Z.of_nat i) p body) Φ.
Proof.
  intros Hbody. revert i. induction k as [|k IH]; intros i Hk; iIntros "Hp HI HΦ"; cbn [for_loop];
    wp_apply (wp_vector_size with "Hp"); iIntros "Hp".
  - rw (proj2 (Z.ltb_ge _ _)); [|lia]. iApply wp_ret.
    replace i with (length ls) by lia. iApply ("HΦ" with "Hp HI").
  - rw (proj2 (Z.ltb_lt _ _)); [|lia]. destruct (lookup_lt_is_Some_2 ls i) as [l Hl]; [lia|].
    wp_apply (wp_vector_get with "Hp"). iIntros "Hp". rw Hl.
    iApply wp_bind. iApply (wp_wand with "[HI]"); [by iApply Hbody|]. iIntros (_) "HI".
    replace (Z.of_nat i + 1) with (Z.of_nat (S i)) by lia.
    iApply (IH (S i) with "Hp HI HΦ"). lia.
Qed.

Lemma for_each_spec p ls n body (I : nat → mprop) (Φ : unit → mprop) :
  (∀ i l, ls !! i = Some l → I i ⊢ wp (body (Some l)) (λ _, I (S i))) →
  array_at p ls n -∗ I 0%nat -∗ (array_at p ls n -∗ I (length ls) -∗ Φ tt) -∗
  wp (for_each p body) Φ.
Proof.
  iIntros (Hbody) "Hp HI HΦ". unfold for_each. wp_apply (wp_vector_size with "Hp").
  iIntros "Hp". rw Nat2Z.id. by iApply (for_loop_spec _ _ _ _ _ _ 0 with "Hp HI HΦ").
Qed.

(** A test that gives [f] of each element and leaves it as it is. *)
Lemma any_loop_spec {V} (at_ : loc → V → mprop) (ok : V → Prop) (f : V → bool) p ls n test pre todo
    (Φ : bool → mprop) :
  (∀ l x Ψ, ok x → at_ l x -∗ (at_ l x -∗ Ψ (f x)) -∗ wp (test (Some l)) Ψ) → Forall ok todo →
  length ls = length (pre ++ todo) →
  array_at p ls n -∗ ([∗ list] l;x ∈ ls;(pre ++ todo), at_ l x) -∗
  (array_at p ls n -∗ ([∗ list] l;x ∈ ls;(pre ++ todo), at_ l x) -∗ Φ (existsb f todo)) -∗
  wp (any_loop (length todo) (Z.of_nat (length pre)) p test) Φ.
Proof.
  intros Htest Hok. revert pre. induction Hok as [|x todo Hx Hok IH]; intros pre Hl;
    iIntros "Hp Hx HΦ"; cbn [any_loop length]; wp_apply (wp_vector_size with "Hp"); iIntros "Hp".
  - rw app_nil_r in Hl. rw (proj2 (Z.ltb_ge _ _)); [|lia]. iApply wp_ret. iApply ("HΦ" with "Hp Hx").
  - rw length_app in Hl. cbn in Hl. rw (proj2 (Z.ltb_lt _ _)); [|lia].
    wp_apply (wp_vector_get with "Hp"). iIntros "Hp".
    destruct (lookup_lt_is_Some_2 ls (length pre)) as [l Hll]; [lia|]. rw Hll.
    iDestruct (big_sepL2_lookup_acc with "Hx") as "[Hl Hx]"; [exact Hll|by apply list_lookup_middle|].
    wp_apply (Htest with "Hl"); [exact Hx|]. iIntros "Hl". iSpecialize ("Hx" with "Hl").
    cbn [existsb]. destruct (f x); [iApply wp_ret; iApply ("HΦ" with "Hp Hx")|].
    replace (Z.of_nat (length pre) + 1) with (Z.of_nat (length (pre ++ [x]))) by (rw length_app; cbn; lia).
    rw (cons_middle x pre todo) (app_assoc pre [x] todo). iApply (IH (pre ++ [x]) with "Hp Hx HΦ"). rw !length_app. cbn. lia.
Qed.

Lemma any_spec {V} (at_ : loc → V → mprop) (ok : V → Prop) (f : V → bool) p xs test (Φ : bool → mprop) :
  (∀ l x Ψ, ok x → at_ l x -∗ (at_ l x -∗ Ψ (f x)) -∗ wp (test (Some l)) Ψ) → Forall ok xs →
  vector_at at_ p xs -∗ (vector_at at_ p xs -∗ Φ (existsb f xs)) -∗ wp (any p test) Φ.
Proof.
  iIntros (Htest Hok) "(%ls & Hp & Hx) HΦ". iDestruct (big_sepL2_length with "Hx") as %Hl. unfold any.
  wp_apply (wp_vector_size with "Hp"). iIntros "Hp". rw Nat2Z.id Hl.
  iApply (any_loop_spec at_ ok f p ls 0 test [] xs with "Hp Hx"); [done..|].
  iIntros "Hp Hx". iApply "HΦ". iExists ls. iFrame.
Qed.

(** ** Releasing *)

Lemma rr_free_held l o (Φ : unit → mprop) :
  l ↦ ORecord o -∗ held (r_name o) -∗ held (r_data o) -∗ Φ tt -∗ wp (rr_free (Some l)) Φ.
Proof.
  iIntros "Hl Hn Hd HΦ". unfold rr_free. wp_apply (get_record_spec with "Hl"). iIntros "Hl".
  wp_apply (free_held with "Hn"). wp_apply (free_held with "Hd").
  iApply (wp_release with "Hl HΦ").
Qed.

Lemma rr_free_spec l r (Φ : unit → mprop) : rr_at l r -∗ Φ tt -∗ wp (rr_free (Some l)) Φ.
Proof.
  iIntros "(%n & %d & Hl & Hn & Hd) HΦ". rw (held_bytes n) (held_bytes d).
  iApply (rr_free_held with "Hl Hn Hd HΦ").
Qed.

Lemma question_free_spec l q (Φ : unit → mprop) :
  question_at l q -∗ Φ tt -∗ wp (question_free (Some l)) Φ.
Proof.
  iIntros "(%n & Hl & Hn) HΦ". unfold question_free.
  wp_apply (get_question_spec with "Hl"). iIntros "Hl". cbn [q_name].
  wp_apply (free_bytes with "Hn"). iApply (wp_release with "Hl HΦ").
Qed.

(** Every element is released, then the vector. *)
Lemma vector_release_spec {V} (at_ : loc → V → mprop) (release : option loc → Mem unit) p xs
    (Φ : unit → mprop) :
  (∀ l x Ψ, at_ l x -∗ Ψ tt -∗ wp (release (Some l)) Ψ) →
  vector_at at_ p xs -∗ Φ tt -∗ wp (for_each p release ≫= λ _, vector_free p) Φ.
Proof.
  iIntros (Hrel) "(%ls & Hp & Hls) HΦ". iDestruct (big_sepL2_length with "Hls") as %Hlen.
  iApply wp_bind.
  iApply (for_each_spec _ _ _ _ (λ i, [∗ list] l;x ∈ drop i ls;drop i xs, at_ l x)%I
    with "Hp [Hls]"); [|done|].
  - intros i l Hl. destruct (lookup_lt_is_Some_2 xs i) as [x Hx].
    { rw -Hlen. by eapply lookup_lt_Some. }
    rw (drop_S _ _ _ Hl) (drop_S _ _ _ Hx). iIntros "[Hl Hls]". by iApply (Hrel with "Hl").
  - iIntros "Hp Hls". rw (drop_ge ls) // (drop_ge xs); [|lia]. iClear "Hls".
    iApply (wp_vector_free with "Hp HΦ").
Qed.

Lemma pack_free_spec l v (Φ : unit → mprop) : pack_at l v -∗ Φ tt -∗ wp (pack_free (Some l)) Φ.
Proof.
  iIntros "(%q & %r & Hl & Hq & Hr) HΦ". unfold pack_free, questions_free, free_rrs.
  wp_apply (get_packet_spec with "Hl"). iIntros "Hl". cbn [p_questions p_rrs].
  wp_apply (vector_release_spec with "Hq"); [apply question_free_spec|].
  wp_apply (vector_release_spec with "Hr"); [apply rr_free_spec|].
  iApply (wp_release with "Hl HΦ").
Qed.

(** ** Copying *)

(** A loop that copies the elements of a vector into another one. *)
Lemma vector_copy_spec {V} (at_ : loc → V → mprop) (ok : V → Prop)
    (clone : option loc → Mem loc) p xs `{!AllocTotal} (Φ : option loc → mprop) :
  (∀ l x Ψ, ok x → at_ l x -∗ (∀ l', at_ l x -∗ at_ l' x -∗ Ψ l') -∗ wp (clone (Some l)) Ψ) →
  Forall ok xs →
  vector_at at_ p xs -∗ (∀ p', vector_at at_ p xs -∗ vector_at at_ p' xs -∗ Φ p') -∗
  wp (n ← vector_size p; dup ← vector_create n;
      for_each p (λ x, y ← clone x; vector_add dup y) ≫= λ _, mret dup) Φ.
Proof.
  iIntros (Hclone Hok) "(%ls & Hp & Hls) HΦ". iDestruct (big_sepL2_length with "Hls") as %Hlen.
  wp_apply (wp_vector_size with "Hp"). iIntros "Hp".
  wp_apply wp_vector_granted. iIntros (p') "Hp'".
  set (I := (λ i, ([∗ list] l;x ∈ ls;xs, at_ l x) ∗ ∃ ls', <affine> ⌜length ls' = i⌝ ∗
    array_at p' ls' (length ls) ∗ [∗ list] l;x ∈ ls';take i xs, at_ l x)%I).
  iApply wp_bind. iApply (for_each_spec _ _ _ _ I with "Hp [Hls Hp']").
  - intros i l Hl. pose proof (lookup_lt_Some _ _ _ Hl) as Hi.
    destruct (lookup_lt_is_Some_2 xs i) as [x Hx]; [lia|].
    iIntros "(Hls & %ls' & %Hlen' & Hp' & Hls')".
    iDestruct (big_sepL2_lookup_acc with "Hls") as "[Hl Hls]"; [done..|].
    wp_apply (Hclone with "Hl"); [by eapply Forall_lookup_1|]. iIntros (l') "Hl Hl'".
    iApply (wp_vector_add with "Hp'"); [lia|]. iIntros "Hp'".
    iSplitL "Hls Hl"; [by iApply "Hls"|]. iExists (ls' ++ [l']). iFrame "Hp'". iSplit.
    + iPureIntro. rw length_app. simpl. lia.
    + rw (take_S_r _ _ _ Hx). iApply (big_sepL2_app with "Hls'"). by iFrame.
  - iFrame. by iSplit.
  - iIntros "Hp (Hls & %ls' & _ & Hp' & Hls')". iApply wp_ret.
    rw (take_ge xs); [|lia]. iApply ("HΦ" with "[Hp Hls] [Hp' Hls']").
    + iExists ls. by iFrame.
    + iExists ls'. iFrame. by iApply (array_at_weaken with "Hp'"); lia.
Qed.

Lemma question_clone_spec `{!AllocTotal} l q (Φ : loc → mprop) :
  cstring (qname q) →
  question_at l q -∗ (∀ l', question_at l q -∗ question_at l' q -∗ Φ l') -∗
  wp (question_clone (Some l)) Φ.
Proof.
  iIntros (Hq) "(%n & Hl & Hn) HΦ". unfold question_clone, question_create.
  iApply wp_bind. wp_apply malloc_granted; [apply malloc_total|]. iIntros (l') "Hl'".
  iApply wp_lift_ret; [done|]. wp_apply (get_question_spec with "Hl"). iIntros "Hl".
  wp_apply (strdup_spec with "Hn"); [done|]. iIntros (n') "Hn Hn'".
  wp_apply (wp_set with "Hl'"). iIntros "Hl'". iApply wp_ret. iApply ("HΦ" with "[Hl Hn]").
  - iExists n. by iFrame.
  - iExists n'. iFrame. by iApply granted_total.
Qed.

Lemma record_data (r : ResourceRecord) :
  rr_ok r → slice (rdata r) 0 (rdata_length r) = Ret (rdata r).
Proof. intros [_ Hd]. by apply slice_all. Qed.

Lemma rrs_clone_item_spec `{!AllocTotal} l r (Φ : loc → mprop) :
  rr_ok r →
  rr_at l r -∗ (∀ l', rr_at l r -∗ rr_at l' r -∗ Φ l') -∗ wp (rrs_clone_item (Some l)) Φ.
Proof.
  iIntros (Hr) "(%n & %d & Hl & Hn & Hd) HΦ". unfold rrs_clone_item.
  wp_apply malloc_granted; [apply malloc_total|]. iIntros (l') "Hl'".
  wp_apply (get_record_spec with "Hl"). iIntros "Hl". cbn [r_name r_data r_length].
  wp_apply wp_lift_ret; [done|].
  wp_apply (strdup_spec with "Hn"); [apply Hr|]. iIntros (n') "Hn Hn'".
  wp_apply malloc_spec. iIntros (d') "Hd'".
  wp_apply (get_bytes_spec with "Hd"). iIntros "Hd".
  wp_apply wp_lift_ret; [by apply record_data|].
  iDestruct (granted_total with "Hd'") as "(%e & -> & He)".
  wp_apply wp_lift_ret; [done|].
  wp_apply (wp_set with "He"). iIntros "He". wp_apply (wp_set with "Hl'"). iIntros "Hl'".
  iApply wp_ret. iApply ("HΦ" with "[Hl Hn Hd]").
  - iExists n, d. by iFrame.
  - iExists n', (Some e). iFrame "Hl'". iSplitL "Hn'"; [by iApply granted_total|]. by iApply bytes_at_intro.
Qed.

(** Whatever memory is refused, but for the record itself. *)
Lemma rr_clone_spec l r (Φ : option loc → mprop) :
  malloc_ok sizeof_ResourceRecord = true → rr_ok r →
  rr_at l r -∗
  (∀ p, rr_at l r -∗ match p with Some l' => rr_at l' r | None => <affine> ⌜¬ AllocTotal⌝ end -∗ Φ p) -∗
  wp (rr_clone (Some l)) Φ.
Proof.
  iIntros (Hm Hr) "(%n & %d & Hl & Hn & Hd) HΦ". unfold rr_clone, rr_create.
  iApply wp_bind. wp_apply malloc_granted; [done|]. iIntros (c) "Hc".
  iApply wp_lift_ret; [done|]. wp_apply (get_record_spec with "Hl"). iIntros "Hl".
  cbn [r_name r_data r_length r_type r_class r_ttl].
  wp_apply (strdup_spec with "Hn"); [apply Hr|]. iIntros (n') "Hn Hn'".
  wp_apply (wp_set with "Hc"). iIntros "Hc".
  iDestruct "Hn'" as "[%Hno|(%n1 & -> & Hn')]".
  { destruct Hno as [-> Hno]. iApply wp_bind.
    iApply (rr_free_held with "Hc"); [iApply held_None..|]. iApply wp_ret.
    iApply ("HΦ" with "[Hl Hn Hd]"); [|done]. iExists n, d. by iFrame. }
  wp_apply malloc_spec. iIntros (d') "Hd'". wp_apply (wp_set with "Hc"). iIntros "Hc".
  iDestruct "Hd'" as "[%Hno|(%d1 & -> & Hd')]".
  { destruct Hno as [-> Hno]. iApply wp_bind.
    iApply (rr_free_held with "Hc [Hn']");
      [by iApply held_bytes; iApply bytes_at_intro|iApply held_None|]. iApply wp_ret.
    iApply ("HΦ" with "[Hl Hn Hd]"); [|done]. iExists n, d. by iFrame. }
  wp_apply (get_bytes_spec with "Hd"). iIntros "Hd".
  wp_apply wp_lift_ret; [by apply record_data|].
  wp_apply (wp_set with "Hd'"). iIntros "Hd'". iApply wp_ret.
  iApply ("HΦ" with "[Hl Hn Hd]"); [iExists n, d; by iFrame|].
  iExists (Some n1), (Some d1). iFrame "Hc". iSplitL "Hn'"; by iApply bytes_at_intro.
Qed.

(** ** Packets *)

Lemma set_packet_spec l o f (Φ : unit → mprop) :
  l ↦ OPacket o -∗ (l ↦ OPacket (f o) -∗ Φ tt) -∗ wp (set_packet l f) Φ.
Proof.
  iIntros "Hl HΦ". unfold set_packet. wp_apply (get_packet_spec with "Hl"). iIntros "Hl".
  iApply (wp_set with "Hl HΦ").
Qed.

Lemma pack_create_spec `{!AllocTotal} (Φ : loc → mprop) :
  (∀ l q r, l ↦ OPacket (MkPacketObj (header Protocol.pack_create) q r) -∗
    array_at q [] 5 -∗ array_at r [] 5 -∗ Φ l) -∗
  wp pack_create Φ.
Proof.
  iIntros "HΦ". unfold pack_create. wp_apply malloc_granted; [apply malloc_total|].
  iIntros (l) "Hl". wp_apply wp_lift_ret; [done|].
  wp_apply wp_vector_granted. iIntros (q) "Hq".
  wp_apply (set_packet_spec with "Hl"). iIntros "Hl".
  wp_apply wp_vector_granted. iIntros (r) "Hr".
  wp_apply (set_packet_spec with "Hl"). iIntros "Hl".
  iApply wp_ret. iApply ("HΦ" with "Hl Hq Hr").
Qed.

Lemma questions_clone_spec `{!AllocTotal} p qs (Φ : option loc → mprop) :
  Forall (λ q, cstring (qname q)) qs →
  vector_at question_at p qs -∗
  (∀ p', vector_at question_at p qs -∗ vector_at question_at p' qs -∗ Φ p') -∗
  wp (questions_clone p) Φ.
Proof.
  intros Hqs. refine (vector_copy_spec _ (λ q, cstring (qname q)) question_clone _ _ _ _ Hqs).
  intros l x Ψ. apply question_clone_spec.
Qed.

Lemma rrs_clone_spec `{!AllocTotal} p rs (Φ : option loc → mprop) :
  Forall rr_ok rs →
  vector_at rr_at p rs -∗ (∀ p', vector_at rr_at p rs -∗ vector_at rr_at p' rs -∗ Φ p') -∗
  wp (rrs_clone p) Φ.
Proof.
  intros Hrs. refine (vector_copy_spec _ rr_ok rrs_clone_item _ _ _ _ Hrs).
  intros l x Ψ. apply rrs_clone_item_spec.
Qed.

Lemma array_empty {V} (at_ : loc → V → mprop) p n : 0 ≤ n → array_at p [] n ⊢ vector_at at_ p [].
Proof.
  iIntros (Hn) "Hp". iExists []. rw big_sepL2_nil right_id. by iApply array_at_weaken.
Qed.

Lemma lost p n : 0 ≤ n → array_at p [] n ⊢ lost_vector.
Proof. iIntros (Hn) "Hp". iExists p. by iApply (array_at_weaken with "Hp"). Qed.

Lemma packet_clone_spec `{!AllocTotal} l v (Φ : loc → mprop) :
  pack_ok v →
  pack_at l v -∗
  (∀ l', pack_at l v -∗ pack_at l' v -∗ lost_vector -∗ lost_vector -∗ Φ l') -∗
  wp (packet_clone l) Φ.
Proof.
  iIntros ([Hqs Hrs]) "(%q & %r & Hl & Hq & Hr) HΦ". unfold packet_clone.
  wp_apply pack_create_spec. iIntros (l' q0 r0) "Hl' Hq0 Hr0".
  wp_apply (get_packet_spec with "Hl"). iIntros "Hl".
  wp_apply (set_packet_spec with "Hl'"). iIntros "Hl'".
  wp_apply (questions_clone_spec with "Hq"); [done|]. iIntros (q') "Hq Hq'".
  wp_apply (set_packet_spec with "Hl'"). iIntros "Hl'".
  wp_apply (rrs_clone_spec with "Hr"); [done|]. iIntros (r') "Hr Hr'".
  wp_apply (set_packet_spec with "Hl'"). iIntros "Hl'".
  iApply wp_ret. iApply ("HΦ" with "[Hl Hq Hr] [Hl' Hq' Hr'] [Hq0] [Hr0]").
  - iExists q, r. by iFrame.
  - iExists q', r'. by iFrame.
  - by iApply (lost with "Hq0").
  - by iApply (lost with "Hr0").
Qed.

Lemma make_response_empty_spec `{!AllocTotal} l v (Φ : loc → mprop) :
  pack_ok v →
  pack_at l v -∗
  (∀ l' w, <affine> ⌜Protocol.make_response_empty v = Ret w⌝ -∗
    pack_at l v -∗ pack_at l' w -∗ lost_vector -∗ Φ l') -∗
  wp (make_response_empty l) Φ.
Proof.
  iIntros ([Hqs Hrs]) "(%q & %r & Hl & Hq & Hr) HΦ". unfold make_response_empty.
  wp_apply pack_create_spec. iIntros (l' q0 r0) "Hl' Hq0 Hr0".
  wp_apply (get_packet_spec with "Hl"). iIntros "Hl".
  do 5 (wp_apply (set_packet_spec with "Hl'"); iIntros "Hl'").
  wp_apply (questions_clone_spec with "Hq"); [done|]. iIntros (q') "Hq Hq'".
  wp_apply (set_packet_spec with "Hl'"). iIntros "Hl'".
  iApply wp_ret. iApply ("HΦ" with "[] [Hl Hq Hr] [Hl' Hq' Hr0] [Hq0]").
  - iPureIntro. unfold Protocol.make_response_empty. by rw (questions_clone_ok _ Hqs).
  - iExists q, r. by iFrame.
  - iExists q', r0. iFrame "Hl' Hq'". iApply (array_empty with "Hr0"). lia.
  - by iApply (lost with "Hq0").
Qed.

Lemma make_response_fail_spec `{!AllocTotal} l v rcode (Φ : loc → mprop) :
  pack_ok v →
  pack_at l v -∗
  (∀ l' w, <affine> ⌜Protocol.make_response_fail v rcode = Ret w⌝ -∗
    pack_at l v -∗ pack_at l' w -∗ lost_vector -∗ Φ l') -∗
  wp (make_response_fail l rcode) Φ.
Proof.
  iIntros (Hv) "Hl HΦ". unfold make_response_fail.
  wp_apply (make_response_empty_spec with "Hl"); [done|].
  iIntros (l' w) "%Hw Hl (%q & %r & Hl' & Hq & Hr) Hlost".
  wp_apply (set_packet_spec with "Hl'"). iIntros "Hl'".
  iApply wp_ret. iApply ("HΦ" with "[] Hl [Hl' Hq Hr] Hlost").
  - iPureIntro. unfold Protocol.make_response_fail. by rw Hw.
  - iExists q, r. iFrame.
Qed.

Lemma set_id_spec l v i (Φ : unit → mprop) :
  pack_at l v -∗ (pack_at l (set_id v i) -∗ Φ tt) -∗
  wp (set_packet l (with_header (λ r, set_id r i))) Φ.
Proof.
  iIntros "(%q & %r & Hl & Hq & Hr) HΦ". iApply (set_packet_spec with "Hl"). iIntros "Hl".
  iApply "HΦ". iExists q, r. iFrame.
Qed.

Lemma pack_ok_set_id v i : pack_ok v → pack_ok (set_id v i).
Proof. by intros []. Qed.

Lemma pack_make_query_relay_spec `{!AllocTotal} l v relay_id (Φ : loc → mprop) :
  pack_ok v →
  pack_at l v -∗
  (∀ l', pack_at l v -∗ pack_at l' (set_id v relay_id) -∗ lost_vector -∗ lost_vector -∗ Φ l') -∗
  wp (pack_make_query_relay l relay_id) Φ.
Proof.
  iIntros (Hv) "Hl HΦ". unfold pack_make_query_relay.
  wp_apply (packet_clone_spec with "Hl"); [done|]. iIntros (l') "Hl Hl' Hlost Hlost'".
  wp_apply (set_id_spec with "Hl'"). iIntros "Hl'".
  iApply wp_ret. iApply ("HΦ" with "Hl Hl' Hlost Hlost'").
Qed.

(** ** Cached values *)

Lemma vector_lost {V} (at_ : loc → V → mprop) p : vector_at at_ p [] ⊢ lost_vector.
Proof.
  iIntros "(%ls & Hp & Hls)". iDestruct (big_sepL2_nil_inv_r with "Hls") as %->.
  rw big_sepL2_nil. iClear "Hls". by iApply (lost with "Hp").
Qed.

Lemma pack_make_std_response_local_spec `{!AllocTotal} l v o c (Φ : loc → mprop) :
  pack_ok v → Cache.value_ok c →
  pack_at l v -∗ value_at o c -∗
  (∀ l' w, <affine> ⌜Resolver.pack_make_std_response_local v c = Ret w⌝ -∗
    pack_at l v -∗ value_at o c -∗ pack_at l' w -∗ lost_vector -∗ lost_vector -∗ Φ l') -∗
  wp (pack_make_std_response_local l o) Φ.
Proof.
  iIntros (Hv (rs & Hc & Hrs)) "Hl (%Ho & Hrr) HΦ". unfold pack_make_std_response_local.
  destruct Ho as (E1 & E2 & E3). rw Hc.
  wp_apply (make_response_empty_spec with "Hl"); [done|].
  iIntros (l' w) "%Hw Hl (%q & %r & Hl' & Hq & Hr) Hlost".
  wp_apply (set_packet_spec with "Hl'"). iIntros "Hl'".
  wp_apply (rrs_clone_spec with "Hrr"); [done|]. iIntros (r') "Hrr Hr'".
  wp_apply (set_packet_spec with "Hl'"). iIntros "Hl'". iApply wp_ret.
  iApply ("HΦ" $! l' (MkPacket _ (questions w) rs) with "[] Hl [Hrr] [Hl' Hq Hr'] Hlost [Hr]").
  - iPureIntro. unfold Resolver.pack_make_std_response_local. rw Hw Hc. cbn [mbind Res_bind].
    by rw (rrs_clone_ok _ Hrs) -E1 -E2 -E3.
  - unfold value_at. rw Hc. by iFrame.
  - iExists q, r'. by iFrame.
  - assert (E : rrs w = []); [|rw E; by iApply vector_lost].
    revert Hw. unfold Protocol.make_response_empty. rw (questions_clone_ok _ (ok_questions _ Hv)).
    by intros [= <-].
Qed.

Lemma free_cache_value_spec o rs (Φ : ValueObj → mprop) :
  vector_at rr_at (o_rrs o) rs -∗ Φ (MkValueObj 0 0 0 None) -∗ wp (free_cache_value o) Φ.
Proof.
  iIntros "(%ls & (%l & %v & %Hp & Hl) & Hls) HΦ". unfold free_cache_value.
  destruct Hp as (E & Hv & Hn). rw E. iApply wp_bind.
  iApply (vector_release_spec rr_at with "[Hl Hls]"); [apply rr_free_spec| |by iApply wp_ret].
  iExists ls. iFrame "Hls". iExists l, v. by iFrame.
Qed.

Lemma cache_value_loop_spec k i dst src ls m rs ls' (Φ : bool * ValueObj → mprop) :
  malloc_ok sizeof_ResourceRecord = true → Forall rr_ok rs →
  (i + k = length ls)%nat → length ls' = i →
  array_at src ls m -∗ ([∗ list] l;r ∈ ls;rs, rr_at l r) -∗
  array_at (o_rrs dst) ls' (length ls) -∗ ([∗ list] l;r ∈ ls';take i rs, rr_at l r) -∗
  (∀ (ok : bool) dst', array_at src ls m -∗ ([∗ list] l;r ∈ ls;rs, rr_at l r) -∗
    (if ok then <affine> ⌜dst' = dst⌝ ∗ vector_at rr_at (o_rrs dst) rs
     else <affine> ⌜o_rrs dst' = None ∧ ¬ AllocTotal⌝) -∗ Φ (ok, dst')) -∗
  wp (cache_value_loop k (Z.of_nat i) dst src) Φ.
Proof.
  intros Hm Hrs. revert i ls'. induction k as [|k IH]; intros i ls' Hk Hi;
    iIntros "Hsrc Hls Hdst Hls' HΦ"; iDestruct (big_sepL2_length with "Hls") as %Hlen;
    cbn [cache_value_loop].
  - iApply wp_ret. iApply ("HΦ" with "Hsrc Hls"). iSplit; [done|]. rw (take_ge rs); [|lia].
    iExists ls'. iFrame. by iApply (array_at_weaken with "Hdst"); lia.
  - destruct (lookup_lt_is_Some_2 ls i) as [l Hl]; [lia|].
    destruct (lookup_lt_is_Some_2 rs i) as [r Hr]; [lia|].
    wp_apply (wp_vector_get with "Hsrc"). iIntros "Hsrc". rw Hl.
    iDestruct (big_sepL2_lookup_acc with "Hls") as "[Hl Hls]"; [done..|].
    wp_apply (rr_clone_spec with "Hl"); [done|by eapply Forall_lookup_1|].
    iIntros (p) "Hl Hp". iDestruct ("Hls" with "Hl") as "Hls". destruct p as [l'|].
    + wp_apply (wp_vector_add with "Hdst"); [lia|]. iIntros "Hdst".
      replace (Z.of_nat i + 1) with (Z.of_nat (S i)) by lia.
      iApply (IH (S i) (ls' ++ [l']) with "Hsrc Hls Hdst [Hls' Hp] HΦ"); [lia|rw length_app; simpl; lia|].
      rw (take_S_r _ _ _ Hr). iApply (big_sepL2_app with "Hls'"). by iFrame.
    + iDestruct "Hp" as %Hno. wp_apply (free_cache_value_spec dst (take i rs) with "[Hdst Hls']").
      { iExists ls'. iFrame "Hls'". iApply (array_at_weaken with "Hdst"). lia. }
      iApply wp_ret. by iApply ("HΦ" with "Hsrc Hls").
Qed.

Lemma cache_value_clone_spec o v (Φ : bool * ValueObj → mprop) :
  malloc_ok sizeof_ResourceRecord = true → Forall rr_ok (default [] (Cache.v_rrs v)) →
  value_at o v -∗
  (∀ (ok : bool) o', value_at o v -∗
    (if ok then ∃ v', <affine> ⌜Cache.cache_value_clone v = Ret (Some v')⌝ ∗ value_at o' v'
     else <affine> ⌜o_rrs o' = None ∧ ¬ AllocTotal⌝) -∗ Φ (ok, o')) -∗
  wp (cache_value_clone o) Φ.
Proof.
  iIntros (Hm Hrs) "[%Ho Hv] HΦ". destruct Ho as (E1 & E2 & E3). unfold cache_value_clone.
  set (result := Cache.MkValue (Cache.v_answer v) (Cache.v_authority v) (Cache.v_additional v)
                   (Some (default [] (Cache.v_rrs v)))).
  assert (Hclone : Cache.cache_value_clone v = Ret (Some result)).
  { unfold Cache.cache_value_clone. change (match Cache.v_rrs v with Some rs => rs | None => [] end)
      with (default [] (Cache.v_rrs v)). by rw (Cache.clone_rrs_ok _ Hrs). }
  destruct (Cache.v_rrs v) as [rs|] eqn:Ers; cbn [default] in *.
  - iDestruct "Hv" as "(%ls & Hsrc & Hls)". iDestruct (big_sepL2_length with "Hls") as %Hlen.
    wp_apply (wp_vector_size with "Hsrc"). iIntros "Hsrc".
    wp_apply wp_vector_create. iIntros (p) "[%Hno|Hp]".
    { destruct Hno as [-> Hno]. iApply wp_ret. iApply ("HΦ" with "[Hsrc Hls]"); [|done].
      unfold value_at. rw Ers. iSplit; [done|]. iExists ls. iFrame. }
    destruct p as [l|]; [|iDestruct "Hp" as (? ?) "[%Hp Hl]"; by destruct Hp].
    rw Nat2Z.id.
    iApply (cache_value_loop_spec _ 0 _ _ ls _ rs [] with "Hsrc Hls [Hp]"); [done..| |done|].
    { iApply (array_at_weaken with "Hp"). destruct (_ >? 0) eqn:?; lia. }
    iIntros (ok dst') "Hsrc Hls Hdst".
    iApply ("HΦ" with "[Hsrc Hls]").
    { unfold value_at. rw Ers. iSplit; [done|]. iExists ls. iFrame. }
    destruct ok; [|done]. iDestruct "Hdst" as "[-> Hdst]". iExists result. by iFrame.
  - iDestruct "Hv" as %Hnull. rw Hnull. wp_apply wp_ret. cbn [Z.gtb Z.compare].
    wp_apply wp_vector_create. iIntros (p) "[%Hno|Hp]".
    { destruct Hno as [-> Hno]. iApply wp_ret. iApply "HΦ"; [|done]. unfold value_at. by rw Ers. }
    destruct p as [l|]; [|iDestruct "Hp" as (? ?) "[%Hp Hl]"; by destruct Hp].
    iApply wp_ret. iApply "HΦ"; [unfold value_at; by rw Ers|].
    iExists result. iSplit; [done|]. iSplit; [done|]. by iApply (array_empty with "Hp").
Qed.
(** ** Access to packets *)

(** A packet whose structure is in sight. *)
Definition parts_at l (o : PacketObj) (v : DnsPacket) : mprop :=
  <affine> ⌜p_header o = header v⌝ ∗ l ↦ OPacket o ∗
  vector_at question_at (p_questions o) (questions v) ∗ vector_at rr_at (p_rrs o) (rrs v).

Lemma pack_parts l v : pack_at l v ⊢ ∃ o, parts_at l o v.
Proof.
  iIntros "(%q & %r & Hl & Hq & Hr)". iExists (MkPacketObj (header v) q r). by iFrame.
Qed.
Lemma parts_pack l o v : parts_at l o v ⊢ pack_at l v.
Proof.
  iIntros "(%Ho & Hl & Hq & Hr)". iExists (p_questions o), (p_rrs o). rw -Ho. destruct o. iFrame.
Qed.

Lemma wp_get_pack l v (Φ : PacketObj → mprop) :
  pack_at l v -∗ (∀ o, <affine> ⌜p_header o = header v⌝ -∗ parts_at l o v -∗ Φ o) -∗
  wp (get_packet (Some l)) Φ.
Proof.
  iIntros "Hl HΦ". iDestruct (pack_parts with "Hl") as (o) "(%Ho & Hl & Hv)".
  iApply (get_packet_spec with "Hl"). iIntros "Hl". iApply "HΦ"; [done|]. by iFrame.
Qed.

Lemma wp_vector_at {V} (at_ : loc → V → mprop) p xs i x (Φ : option loc → mprop) :
  xs !! i = Some x →
  vector_at at_ p xs -∗ (∀ l, at_ l x -∗ (at_ l x -∗ vector_at at_ p xs) -∗ Φ (Some l)) -∗
  wp (vector_get p (Z.of_nat i)) Φ.
Proof.
  iIntros (Hx) "(%ls & Hp & Hls) HΦ". iDestruct (big_sepL2_length with "Hls") as %Hlen.
  destruct (lookup_lt_is_Some_2 ls i) as [l Hl]; [rw Hlen; by eapply lookup_lt_Some|].
  iApply (wp_vector_get with "Hp"). iIntros "Hp". rw Hl.
  iDestruct (big_sepL2_lookup_acc with "Hls") as "[Hl Hls]"; [done..|].
  iApply ("HΦ" with "Hl"). iIntros "Hl". iExists ls. iFrame. by iApply "Hls".
Qed.

Lemma wp_get_question l q (Φ : QuestionObj → mprop) :
  question_at l q -∗
  (∀ n, bytes_at n (qname q) -∗ (bytes_at n (qname q) -∗ question_at l q) -∗
    Φ (MkQuestionObj n (qtype q) (qclass q))) -∗
  wp (get_question (Some l)) Φ.
Proof.
  iIntros "(%n & Hl & Hn) HΦ". iApply (get_question_spec with "Hl"). iIntros "Hl".
  iApply ("HΦ" with "Hn"). iIntros "Hn". iExists n. iFrame.
Qed.

End rules.

Lemma clone_has_rrs v v' :
  Cache.cache_value_clone v = Ret (Some v') → ∃ rs, Cache.v_rrs v' = Some rs.
Proof.
  unfold Cache.cache_value_clone. destruct (Cache.clone_rrs _) as [[rs|]| |]; [|done..].
  intros [= <-]. by exists rs.
Qed.

(** ** Properties *)

(** What becomes of the packets of a relayed query: the packet for the upstream
    is made from the query and sent, the session keeps a copy of it, the packet
    is released; the response is copied for the client and sent, the session is
    closed, the copy is released. *)
Definition relay_packets `{Allocator, Garbage} (query response : loc) (relay_id client_id : Z) :
    Mem unit :=
  packet_out ← pack_make_query_relay query relay_id;
  relay_packet ← packet_clone packet_out;
  pack_free (Some packet_out) ≫= λ _,
  send ← packet_clone response;
  set_packet send (with_header (λ r, set_id r client_id)) ≫= λ _,
  pack_free (Some relay_packet) ≫= λ _,
  pack_free (Some send).

(** What becomes of a value found in the cache: it is copied, the response is
    made from the copy, the copy is released, the response is sent and
    released. *)
Definition answer_from_cache `{Allocator, Garbage} (query : loc) (value : ValueObj) : Mem unit :=
  found ← cache_value_clone value;
  packet_out ← pack_make_std_response_local query (snd found);
  free_rrs (o_rrs (snd found)) ≫= λ _,
  pack_free (Some packet_out).

Section properties.
#[local] Set Default Proof Using "Type*".
Context `{AllocTotal, Garbage}.

(** C19. [packet_clone] makes a packet of objects of its own with the value of
    the original, which is untouched, and [pack_free] gives back every one of
    them: never one twice, never one of another packet.  But the clone leaves
    behind the two vectors its constructor made: a clone that is released has
    made memory two vectors smaller. *)
Theorem packet_clone_leaks (l : loc) (v : DnsPacket) (s : Store object) (rest : gmap loc object) :
  pack_ok v → owns s (pack_at l v) rest →
  ∃ l' s1 s2, packet_clone l s = Ret (l', s1) ∧ Protocol.packet_clone v = Ret v ∧
    owns s1 (pack_at l v ∗ pack_at l' v ∗ lost_vector ∗ lost_vector) rest ∧
    pack_free (Some l') s1 = Ret (tt, s2) ∧
    owns s2 (pack_at l v ∗ lost_vector ∗ lost_vector) rest ∧
    size (cells s2) = (size (cells s) + 2)%nat.
Proof.
  intros Hv Hs.
  edestruct (wp_run (packet_clone l) (pack_at l v) (λ l', pack_at l v ∗ pack_at l' v ∗
    lost_vector ∗ lost_vector)%I) as (l' & s1 & E1 & Hs1); [|exact Hs|].
  { iIntros "Hl". iApply (packet_clone_spec with "Hl"); [done|]. iIntros (l') "H1 H2 H3 H4". iFrame. }
  edestruct (wp_run (pack_free (Some l')) (pack_at l v ∗ pack_at l' v ∗ lost_vector ∗ lost_vector)%I
    (λ _, pack_at l v ∗ lost_vector ∗ lost_vector)%I) as ([] & s2 & E2 & Hs2); [|exact Hs1|].
  { iIntros "(H1 & Hl' & H2 & H3)". iApply (pack_free_spec with "Hl'"). iFrame. }
  exists l', s1, s2. split_and!; [done|by apply packet_clone_ok|done..|].
  rw (owns_size _ _ _ _ _ Hs) (owns_size _ _ _ _ _ Hs2). lia.
Qed.

(** A query that is relayed and answered costs six vectors that nothing
    points to any more. *)
Theorem relay_leaks (query response : loc) (q r : DnsPacket) (relay_id client_id : Z)
    (s : Store object) (rest : gmap loc object) :
  pack_ok q → pack_ok r → owns s (pack_at query q ∗ pack_at response r) rest →
  ∃ s', relay_packets query response relay_id client_id s = Ret (tt, s') ∧
    owns s' (pack_at query q ∗ pack_at response r ∗ lost_vectors 6) rest ∧
    size (cells s') = (size (cells s) + 6)%nat.
Proof.
  intros Hq Hr Hs.
  edestruct (wp_run (relay_packets query response relay_id client_id)
    (pack_at query q ∗ pack_at response r) (λ _, pack_at query q ∗ pack_at response r ∗
      lost_vectors 6)%I) as ([] & s' & E & Hs'); [|exact Hs|].
  - iIntros "[Hq Hr]". unfold relay_packets.
    wp_apply (pack_make_query_relay_spec with "Hq"); [done|]. iIntros (out) "Hq Hout L1 L2".
    wp_apply (packet_clone_spec with "Hout"); [by apply pack_ok_set_id|].
    iIntros (kept) "Hout Hkept L3 L4". wp_apply (pack_free_spec with "Hout").
    wp_apply (packet_clone_spec with "Hr"); [done|]. iIntros (send) "Hr Hsend L5 L6".
    wp_apply (set_id_spec with "Hsend"). iIntros "Hsend".
    wp_apply (pack_free_spec with "Hkept"). iApply (pack_free_spec with "Hsend"). 
    unfold lost_vectors. by iFrame.
  - exists s'. split_and!; [done..|].
    rw (owns_size _ _ _ _ _ Hs) (owns_size _ _ _ _ _ Hs'). lia.
Qed.

(** Answering from the cache costs two. *)
Theorem cached_answer_leaks (query : loc) (q : DnsPacket) (o : ValueObj) (v : Cache.CacheValue)
    (s : Store object) (rest : gmap loc object) :
  pack_ok q → Cache.value_ok v → owns s (pack_at query q ∗ value_at o v) rest →
  ∃ s', answer_from_cache query o s = Ret (tt, s') ∧
    owns s' (pack_at query q ∗ value_at o v ∗ lost_vectors 2) rest ∧
    size (cells s') = (size (cells s) + 2)%nat.
Proof.
  intros Hq Hv Hs.
  edestruct (wp_run (answer_from_cache query o) (pack_at query q ∗ value_at o v)
    (λ _, pack_at query q ∗ value_at o v ∗ lost_vectors 2)%I) as ([] & s' & E & Hs'); [|exact Hs|].
  - iIntros "[Hq Hv]". unfold answer_from_cache.
    pose proof Hv as (rs & Hrs & Hok).
    wp_apply (cache_value_clone_spec with "Hv"); [apply malloc_total|by rw Hrs|].
    iIntros (ok found) "Hv Hfound". destruct ok; [|by iDestruct "Hfound" as %[_ []]].
    iDestruct "Hfound" as "(%v' & %Ev & Hfound)". rw (Cache.cache_value_clone_ok _ Hv) in Ev.
    injection Ev as <-. cbn [snd].
    wp_apply (pack_make_std_response_local_spec with "Hq Hfound"); [done..|].
    iIntros (out w) "%Hw Hq Hfound Hout L1 L2".
    iDestruct "Hfound" as "[_ Hfound]". rw Hrs.
    wp_apply (vector_release_spec with "Hfound"); [apply rr_free_spec|].
    iApply (pack_free_spec with "Hout"). unfold lost_vectors. by iFrame.
  - exists s'. split_and!; [done..|].
    rw (owns_size _ _ _ _ _ Hs) (owns_size _ _ _ _ _ Hs'). lia.
Qed.
End properties.

(** Copying a value of the cache gives all or nothing, whatever memory is
    refused on the way (but for the structure of a record, which the code does
    not test): either a copy of its own objects with the value
    [Cache.cache_value_clone] computes, that [free_cache_value] gives back, or
    no copy and the memory as it was. *)
Theorem cache_value_clone_all_or_nothing `{Allocator, Garbage} (o : ValueObj)
    (v : Cache.CacheValue) (s : Store object) (rest : gmap loc object) :
  malloc_ok sizeof_ResourceRecord = true → Forall rr_ok (default [] (Cache.v_rrs v)) →
  owns s (value_at o v) rest →
  ∃ ok o' s', cache_value_clone o s = Ret ((ok, o'), s') ∧
    if ok : bool then
      ∃ v' s'', Cache.cache_value_clone v = Ret (Some v') ∧
        owns s' (value_at o v ∗ value_at o' v') rest ∧
        free_cache_value o' s' = Ret (MkValueObj 0 0 0 None, s'') ∧ owns s'' (value_at o v) rest
    else o_rrs o' = None ∧ ¬ AllocTotal ∧ owns s' (value_at o v) rest.
Proof.
  intros Hm Hok Hs.
  edestruct (wp_run (cache_value_clone o) (value_at o v) (λ '(ok, o'), if ok : bool then
      ∃ v', <affine> ⌜Cache.cache_value_clone v = Ret (Some v')⌝ ∗ value_at o v ∗ value_at o' v'
    else <affine> ⌜o_rrs o' = None ∧ ¬ AllocTotal⌝ ∗ value_at o v)%I)
    as ([ok o'] & s' & E & Hs'); [|exact Hs|].
  { iIntros "Hv". iApply (cache_value_clone_spec with "Hv"); [done..|].
    iIntros ([] o') "Hv Ho"; [|by iFrame]. iDestruct "Ho" as "(%v' & %Ev & Ho)".
    iExists v'. by iFrame. }
  exists ok, o', s'. split; [done|]. destruct ok.
  - apply owns_exist in Hs' as [v' [Ev Hs']%owns_pure].
    destruct (clone_has_rrs _ _ Ev) as [rs Hrs].
    edestruct (wp_run (free_cache_value o') (value_at o v ∗ value_at o' v')
      (λ r, <affine> ⌜r = MkValueObj 0 0 0 None⌝ ∗ value_at o v)%I) as (r & s'' & E' & Hs'');
      [|exact Hs'|].
    + iIntros "[Hv [_ Ho]]". rw Hrs. iApply (free_cache_value_spec with "Ho"). by iFrame.
    + apply owns_pure in Hs'' as [-> Hs'']. by exists v', s''.
  - by apply owns_pure in Hs' as [[] Hs'].
Qed.

(** ** A concrete memory *)

(** The address of [a.]: 1.2.3.4. *)
Definition demo_record : ResourceRecord := MkRR [1; 97; 0] QTYPE_A QCLASS_IN 60 4 [1; 2; 3; 4].
Definition demo_response : DnsPacket :=
  MkPacket (MkHeader 9 0x8180 0 1 0 0) [] [demo_record].
Definition demo_value : Cache.CacheValue := Cache.MkValue 1 0 0 (Some [demo_record]).
Definition demo_value_obj : ValueObj := MkValueObj 1 0 0 (Some 8%positive).

Definition demo_vector (ls : list loc) : object :=
  OVector (Vector.MkVector (Some <$> ls) (Z.of_nat (length ls)) (Z.of_nat (length ls))).

Definition demo_empty : object := OVector (Vector.MkVector [None] 0 1).
Definition demo_record_obj : object :=
  ORecord (MkRecordObj (Some 10%positive) QTYPE_A QCLASS_IN 60 4 (Some 11%positive)).

(** [demo_query] at 1, the response at 6, its records at 8; of a list of cells
    the assertion and the heap. *)
Definition query_cells : list (loc * object) :=
  [(1%positive, OPacket (MkPacketObj (header demo_query) (Some 2%positive) (Some 3%positive)));
   (2%positive, demo_vector [4%positive]);
   (4%positive, OQuestion (MkQuestionObj (Some 5%positive) 1 1));
   (5%positive, Bytes [1; 97; 0]); (3%positive, demo_empty)].
Definition record_cells : list (loc * object) :=
  [(8%positive, demo_vector [9%positive]); (9%positive, demo_record_obj);
   (10%positive, Bytes [1; 97; 0]); (11%positive, Bytes [1; 2; 3; 4])].
Definition response_cells : list (loc * object) :=
  (6%positive, OPacket (MkPacketObj (header demo_response) (Some 7%positive) (Some 8%positive))) ::
  (7%positive, demo_empty) :: record_cells.

Definition demo_store (cs : list (loc * object)) : Store object := MkStore (list_to_map cs) 12.
Definition cells_at (cs : list (loc * object)) : mprop := [∗ list] c ∈ cs, c.1 ↦ c.2.

Lemma cells_owned (cs : list (loc * object)) :
  NoDup cs.*1 → Forall (λ l, (l < 12)%positive) cs.*1 → owns (demo_store cs) (cells_at cs) ∅.
Proof.
  intros Hnd Hlt. split.
  - intros l [o Hl]. apply elem_of_list_to_map_2 in Hl.
    by apply (Forall_forall _ _) with (x := l) in Hlt; [|apply list_elem_of_fmap; exists (l, o)].
  - exists (list_to_map cs). rw right_id_L. split_and!; [done|apply map_disjoint_empty_r|].
    clear Hlt. induction cs as [|[l o] cs IH]; [done|]. apply NoDup_cons in Hnd as [Hl Hnd].
    apply (holds_pt l o (cells_at cs)); [by apply not_elem_of_list_to_map_1|by apply IH].
Qed.

Lemma array_at_intro l v ls n :
  Vector.vec_rep v ls → n ≤ Vector.capacity v → l ↦ OVector v ⊢ array_at (Some l) ls n.
Proof. iIntros (??) "Hl". iExists l, v. by iFrame. Qed.

Lemma records_at : cells_at record_cells ⊢ vector_at rr_at (Some 8%positive) [demo_record].
Proof.
  iIntros "(H8 & H9 & H10 & H11 & _)". iExists [9%positive]. iSplitL "H8".
  { by iApply (array_at_intro with "H8"). }
  rw big_sepL2_singleton. iExists _, _. iFrame "H9".
  iSplitL "H10"; by iApply bytes_at_intro.
Qed.

Lemma empty_at {V} (at_ : loc → V → mprop) l : l ↦ demo_empty ⊢ vector_at at_ (Some l) [].
Proof. iIntros "Hl". iApply (array_empty _ _ 0); [done|]. by iApply (array_at_intro with "Hl"). Qed.

Lemma query_at : cells_at query_cells ⊢ pack_at 1 demo_query.
Proof.
  iIntros "(H1 & H2 & H4 & H5 & H3 & _)". iExists _, _. iFrame "H1".
  iSplitR "H3"; [|by iApply empty_at]. iExists [4%positive]. iSplitL "H2".
  { by iApply (array_at_intro with "H2"). }
  rw big_sepL2_singleton. iExists _. iFrame "H4". by iApply bytes_at_intro.
Qed.

Lemma response_at : cells_at response_cells ⊢ pack_at 6 demo_response.
Proof.
  iIntros "(H6 & H7 & Hr)". iExists _, _. iFrame "H6".
  iSplitL "H7"; [by iApply empty_at|by iApply records_at].
Qed.

Lemma value_at_demo : cells_at record_cells ⊢ value_at demo_value_obj demo_value.
Proof. iIntros "Hr". iSplit; [done|]. by iApply records_at. Qed.

Section witnesses.
#[local] Existing Instance always.
#[local] Existing Instance always_total.
#[local] Instance demo_garbage : Garbage := 0xDEAD.

Lemma demo_answer_ok : pack_ok demo_response.
Proof.
  split; [constructor|]. apply Forall_singleton. split; [apply cstring_check|]; reflexivity.
Qed.

Lemma demo_cached_ok : Cache.value_ok demo_value.
Proof. eexists. split; [reflexivity|]. apply demo_answer_ok. Qed.

Lemma packet_clone_leaks_witness :
  ∃ l' s1 s2, packet_clone 1 (demo_store query_cells) = Ret (l', s1) ∧
    pack_free (Some l') s1 = Ret (tt, s2) ∧ size (cells s2) = 7%nat.
Proof.
  destruct (packet_clone_leaks 1 demo_query (demo_store query_cells) ∅ demo_query_ok)
    as (l' & s1 & s2 & E1 & _ & _ & E2 & _ & Hsize).
  { apply (owns_mono _ _ _ _ query_at), cells_owned; by_compute. }
  exists l', s1, s2. split; [exact E1|]. split; [exact E2|exact Hsize].
Defined.

Lemma relay_leaks_witness :
  ∃ s', relay_packets 1 6 9 7 (demo_store (query_cells ++ response_cells)) = Ret (tt, s') ∧
    size (cells s') = 17%nat.
Proof.
  destruct (relay_leaks 1 6 demo_query demo_response 9 7
    (demo_store (query_cells ++ response_cells)) ∅ demo_query_ok demo_answer_ok)
    as (s' & E & _ & Hsize).
  { eapply owns_mono; [|apply cells_owned; by_compute].
    unfold cells_at. rw big_sepL_app. exact (bi.sep_mono _ _ _ _ query_at response_at). }
  exists s'. split; [exact E|exact Hsize].
Defined.

Lemma cached_answer_leaks_witness :
  ∃ s', answer_from_cache 1 demo_value_obj (demo_store (query_cells ++ record_cells)) = Ret (tt, s') ∧
    size (cells s') = 11%nat.
Proof.
  destruct (cached_answer_leaks 1 demo_query demo_value_obj demo_value
    (demo_store (query_cells ++ record_cells)) ∅ demo_query_ok demo_cached_ok)
    as (s' & E & _ & Hsize).
  { eapply owns_mono; [|apply cells_owned; by_compute].
    unfold cells_at. rw big_sepL_app. exact (bi.sep_mono _ _ _ _ query_at value_at_demo). }
  exists s'. split; [exact E|exact Hsize].
Defined.

(** With no room for four bytes of data the copy fails half way. *)
Lemma cache_value_clone_all_or_nothing_witness :
  ∃ o' s', @cache_value_clone (λ n, negb (n =? 4)) demo_garbage demo_value_obj
             (demo_store record_cells) = Ret ((false, o'), s') ∧
    owns s' (value_at demo_value_obj demo_value) ∅.
Proof.
  destruct (@cache_value_clone_all_or_nothing (λ n, negb (n =? 4)) demo_garbage
    demo_value_obj demo_value (demo_store record_cells) ∅)
    as (ok & o' & s' & E & Hok); [reflexivity|apply demo_answer_ok| |].
  { apply (owns_mono _ _ _ _ value_at_demo), cells_owned; by_compute. }
  exists o', s'. destruct ok; [|split; [exact E|apply Hok]].
  exfalso. vm_compute in E. discriminate E.
Defined.
End witnesses.
End Memory.
