(* ===== verification/WireHeap.v ===== *)
(** * Reading and writing packets in memory

    The serializer and the parser of [src/dns/dns_resolver.c] where packets are
    objects of the heap of [Memory.v]: [pack_serialize] follows the pointers of
    the packet to its questions and records; [pack_deserialize] makes the packet,
    each question and record and the blocks of their names and data, and
    releases the names it only needs on the way.  The bytes are those of
    [Wire.v]; the buffers are values, as there. *)

From iris.proofmode Require Import proofmode.
From S2P Require Import Prelude Heap Vector CString NameCodec Utils Protocol Wire Memory.
Import Protocol Memory.

Module WireHeap.

Section operations.
Context `{Allocator, Garbage}.
Implicit Types (p : option loc) (l : loc) (buf : list Z).

(** ** Serialization *)

(** What the serializer reads through the pointer to a question, to a record. *)
Definition read_question p : Mem SectionQuestion :=
  question ← get_question p;
  name ← get_bytes (q_name question);
  mret (MkQuestion name (q_type question) (q_class question)).
Definition read_record p : Mem ResourceRecord :=
  rr ← get_record p;
  name ← get_bytes (r_name rr);
  data ← get_bytes (r_data rr);
  mret (MkRR name (r_type rr) (r_class rr) (r_ttl rr) (r_length rr) data).

(** [n] questions from index [i] on. *)
Fixpoint questions_serialize (n : nat) (i : Z) (questions : option loc) buf (cursor : Z) : Mem (list Z * Z) :=
  match n with
  | O => mret (buf, cursor)
  | S n =>
      x ← vector_get questions i;
      q ← read_question x;
      '(buf, k) ← lift (Wire.question_serialize q buf cursor);
      questions_serialize n (i + 1) questions buf (cursor + k)
  end.

Fixpoint rrs_serialize (cnt : nat) (i : Z) (rrs : option loc) buf (cursor buff_size : Z) : Mem (list Z * Z) :=
  match cnt with
  | O => mret (buf, cursor)
  | S cnt =>
      x ← vector_get rrs i;
      r ← read_record x;
      '(buf, k) ← lift (Wire.rr_serialize r buf cursor);
      let cursor := cursor + k in
      if cursor >? buff_size then mret (buf, cursor)
      else rrs_serialize cnt (i + 1) rrs buf cursor buff_size
  end.

Definition pack_serialize (dns_pack : loc) (packet_buf : list Z) (buf_size : Z) : Mem (list Z * Z) :=
  pack ← get_packet (Some dns_pack);
  let h := p_header pack in
  buf ← lift (blit packet_buf 0 (Wire.header_memory h));
  buf ← lift (Wire.header_endian_2n buf);
  let cursor := sizeof_SectionHeader in
  if cursor >? buf_size then mret (buf, -1)
  else
    '(buf, cursor) ← questions_serialize (Z.to_nat (qcount h)) 0 (p_questions pack) buf cursor;
    if cursor >? buf_size then mret (buf, -1)
    else
      let rrs_c := answer_RRs h + authority_RRs h + additional_RRs h in
      rrs_serialize (Z.to_nat rrs_c) 0 (p_rrs pack) buf cursor buf_size.

(** ** Parsing *)

(** A copy of the string at the start of [m]. *)
Definition strdup_at (m : list Z) : Mem (option loc) :=
  s ← lift (CString.strdup m); malloc (Z.of_nat (length s)) (Bytes s).

(** The name behind a compression pointer is released once it is copied. *)
Fixpoint name_deserialize (fuel : nat) buf (cur_p : Z) : Mem (Z * option loc) :=
  match fuel with
  | O => lift OutOfFuel
  | S fuel =>
      i ← lift (Wire.skip_labels fuel buf cur_p 0);
      c ← lift (rd buf (cur_p + i));
      if c =? 0 then
        m ← lift (ptr buf cur_p);
        res ← strdup_at m;
        n ← lift (strlen m);
        mret (n + 1, res)
      else
        offset ← lift (Wire.get_u16 buf (cur_p + i));
        let offset := Z.lxor offset 0xC000 in
        '(_, suffix) ← name_deserialize fuel buf offset;
        s ← get_bytes suffix;
        n ← lift (strlen s);
        res ← malloc (i + n + 1) (Bytes []);
        prefix ← lift (slice buf cur_p i);
        tail ← lift (slice s 0 (n + 1));
        l ← lift (nonnull res);
        set l (Bytes (prefix ++ tail)) ≫= λ _,
        free suffix ≫= λ _, mret (i + 2, res)
  end.

Definition set_question l (f : QuestionObj → QuestionObj) : Mem unit :=
  q ← get_question (Some l); set l (OQuestion (f q)).
Definition set_record l (f : RecordObj → RecordObj) : Mem unit :=
  r ← get_record (Some l); set l (ORecord (f r)).

Definition question_deserialize buf (cur_p : Z) (question : loc) : Mem Z :=
  m ← lift (ptr buf cur_p);
  qname ← strdup_at m;
  set_question question (λ q, MkQuestionObj qname (q_type q) (q_class q)) ≫= λ _,
  s ← get_bytes qname;
  n ← lift (strlen s);
  let cursor := cur_p + (n + 1) in
  qtype ← lift (Wire.get_u16 buf cursor);
  set_question question (λ q, MkQuestionObj (q_name q) qtype (q_class q)) ≫= λ _,
  qclass ← lift (Wire.get_u16 buf (cursor + 2));
  set_question question (λ q, MkQuestionObj (q_name q) (q_type q) qclass) ≫= λ _,
  mret (cursor + 2 + 2 - cur_p).

Fixpoint questions_deserialize (qc : nat) buf (cursor : Z) (segment : option loc) : Mem Z :=
  match qc with
  | O => mret cursor
  | S qc =>
      question ← question_create;
      n ← question_deserialize buf cursor question;
      vector_add segment question ≫= λ _,
      questions_deserialize qc buf (cursor + n) segment
  end.

Definition rdata_deserialize (fuel : nat) buf (cur_p : Z) (rr : loc) : Mem unit :=
  r ← get_record (Some rr);
  let with_data d n r := MkRecordObj (r_name r) (r_type r) (r_class r) (r_ttl r) n d in
  if (r_type r =? QTYPE_CNAME) || (r_type r =? QTYPE_NS) then
    '(_, rdata) ← name_deserialize fuel buf cur_p;
    set_record rr (with_data rdata (r_length r)) ≫= λ _,
    s ← get_bytes rdata;
    n ← lift (strlen s);
    set_record rr (with_data rdata (wrap_u16 (n + 1)))
  else if r_type r =? QTYPE_MX then
    _ ← lift (slice buf cur_p 2);
    '(_, name) ← name_deserialize fuel buf (cur_p + 2);
    s ← get_bytes name;
    _ ← lift (strlen s);
    (* the preference is copied over the pointer, see [Wire.rdata_deserialize] *)
    lift UB
  else
    rdata ← malloc (r_length r) (Bytes []);
    set_record rr (with_data rdata (r_length r)) ≫= λ _,
    b ← lift (slice buf cur_p (r_length r));
    d ← lift (nonnull rdata);
    set d (Bytes b).

Definition rr_deserialize (fuel : nat) buf (cur_p : Z) (rr : loc) : Mem Z :=
  '(n, name) ← name_deserialize fuel buf cur_p;
  let cursor := cur_p + n in
  type ← lift (Wire.get_u16 buf cursor);
  let cursor := cursor + 2 in
  class ← lift (Wire.get_u16 buf cursor);
  let cursor := cursor + 2 in
  ttl ← lift (Wire.get_u32 buf cursor);
  let cursor := cursor + 4 in
  rlen ← lift (Wire.get_u16 buf cursor);
  let cursor := cursor + 2 in
  set_record rr (λ r, MkRecordObj name type class ttl rlen (r_data r)) ≫= λ _,
  rdata_deserialize fuel buf cursor rr ≫= λ _,
  let cursor := cursor + rlen in
  mret (cursor - cur_p).

Fixpoint rrs_deserialize (cnt : nat) (fuel : nat) buf (cursor : Z) (rrs : option loc) : Mem Z :=
  match cnt with
  | O => mret cursor
  | S cnt =>
      rr ← rr_create;
      n ← rr_deserialize fuel buf cursor rr;
      vector_add rrs rr ≫= λ _,
      rrs_deserialize cnt fuel buf (cursor + n) rrs
  end.

(** [None] is the return code -1. *)
Definition pack_deserialize (fuel : nat) (raw_pack : list Z) (len : Z) : Mem (option loc) :=
  if (len >? 512) || (len <? 12) then mret None
  else
    pac ← pack_create;
    h ← lift (Wire.header_deserialize raw_pack);
    set_packet pac (with_header (λ _, MkPacket h [] [])) ≫= λ _,
    pack ← get_packet (Some pac);
    cursor ← questions_deserialize (Z.to_nat (qcount h)) raw_pack sizeof_SectionHeader (p_questions pack);
    let rr_c := additional_RRs h + answer_RRs h + authority_RRs h in
    rrs_deserialize (Z.to_nat rr_c) fuel raw_pack cursor (p_rrs pack) ≫= λ _,
    mret (Some pac).
End operations.

(** ** The serializer reads the packet and leaves it *)

Section serialization.
Context `{Allocator, Garbage}.
Implicit Types (p : option loc) (l : loc) (buf : list Z).

Lemma read_question_spec l q (Φ : SectionQuestion → mprop) :
  question_at l q -∗ (question_at l q -∗ Φ q) -∗ wp (read_question (Some l)) Φ.
Proof.
  iIntros "(%n & Hl & Hn) HΦ". unfold read_question. wp_apply (get_question_spec with "Hl"). iIntros "Hl".
  wp_apply (get_bytes_spec with "Hn"). iIntros "Hn". iApply wp_ret. destruct q. iApply "HΦ". iExists n. iFrame.
Qed.

Lemma read_record_spec l r (Φ : ResourceRecord → mprop) :
  rr_at l r -∗ (rr_at l r -∗ Φ r) -∗ wp (read_record (Some l)) Φ.
Proof.
  iIntros "(%n & %d & Hl & Hn & Hd) HΦ". unfold read_record. wp_apply (get_record_spec with "Hl"). iIntros "Hl".
  wp_apply (get_bytes_spec with "Hn"). iIntros "Hn". wp_apply (get_bytes_spec with "Hd"). iIntros "Hd".
  iApply wp_ret. destruct r. iApply "HΦ". iExists n, d. iFrame.
Qed.

Lemma questions_serialize_sim n i qs p buf cursor r (Φ : list Z * Z → mprop) :
  Wire.questions_serialize n (drop i qs) buf cursor = Ret r →
  vector_at question_at p qs -∗ (vector_at question_at p qs -∗ Φ r) -∗
  wp (questions_serialize n (Z.of_nat i) p buf cursor) Φ.
Proof.
  revert i buf cursor. induction n as [|n IH]; intros i buf cursor E; cbn [questions_serialize]; iIntros "Hp HΦ".
  { injection E as <-. iApply wp_ret. by iApply "HΦ". }
  cbn [Wire.questions_serialize] in E. apply bind_Ret_inv in E as (q & Eq & ([buf' k] & Es & E)%bind_Ret_inv).
  assert (Hq : qs !! i = Some q) by (rw -(Nat.add_0_r i) -lookup_drop; destruct (drop i qs); [done|by injection Eq as ->]).
  wp_apply (wp_vector_at with "Hp"); [exact Hq|]. iIntros (l) "Hl Hp".
  wp_apply (read_question_spec with "Hl"). iIntros "Hl". iSpecialize ("Hp" with "Hl").
  wp_apply wp_lift_ret; [exact Es|]. replace (Z.of_nat i + 1) with (Z.of_nat (S i)) by lia.
  iApply (IH with "Hp HΦ"). rw (drop_S _ _ _ Hq) in E. exact E.
Qed.

Lemma rrs_serialize_sim n i rs p buf cursor size r (Φ : list Z * Z → mprop) :
  Wire.rrs_serialize n (drop i rs) buf cursor size = Ret r →
  vector_at rr_at p rs -∗ (vector_at rr_at p rs -∗ Φ r) -∗
  wp (rrs_serialize n (Z.of_nat i) p buf cursor size) Φ.
Proof.
  revert i buf cursor. induction n as [|n IH]; intros i buf cursor E; cbn [rrs_serialize]; iIntros "Hp HΦ".
  { injection E as <-. iApply wp_ret. by iApply "HΦ". }
  cbn [Wire.rrs_serialize] in E. apply bind_Ret_inv in E as (x & Ex & ([buf' k] & Es & E)%bind_Ret_inv).
  assert (Hx : rs !! i = Some x) by (rw -(Nat.add_0_r i) -lookup_drop; destruct (drop i rs); [done|by injection Ex as ->]).
  wp_apply (wp_vector_at with "Hp"); [exact Hx|]. iIntros (l) "Hl Hp".
  wp_apply (read_record_spec with "Hl"). iIntros "Hl". iSpecialize ("Hp" with "Hl").
  wp_apply wp_lift_ret; [exact Es|]. simpl in E |- *. destruct (cursor + k >? size); [injection E as <-; iApply wp_ret; by iApply "HΦ"|].
  replace (Z.of_nat i + 1) with (Z.of_nat (S i)) by lia.
  iApply (IH with "Hp HΦ"). rw (drop_S _ _ _ Hx) in E. exact E.
Qed.

Lemma pack_serialize_sim l v buf size r (Φ : list Z * Z → mprop) :
  Wire.pack_serialize v buf size = Ret r →
  pack_at l v -∗ (pack_at l v -∗ Φ r) -∗ wp (pack_serialize l buf size) Φ.
Proof.
  iIntros (E) "Hl HΦ". unfold pack_serialize, Wire.pack_serialize in *.
  apply bind_Ret_inv in E as (b1 & E1 & (b2 & E2 & E)%bind_Ret_inv).
  wp_apply (wp_get_pack with "Hl"). iIntros (o) "%Ho (_ & Hl & Hq & Hr)". rw Ho.
  wp_apply wp_lift_ret; [exact E1|]. wp_apply wp_lift_ret; [exact E2|].
  iAssert (vector_at question_at (p_questions o) (questions v) -∗ vector_at rr_at (p_rrs o) (rrs v) -∗ Φ r)%I
    with "[HΦ Hl]" as "HΦ".
  { iIntros "Hq Hr". iApply "HΦ". iApply (parts_pack _ o). by iFrame. }
  simpl in E |- *.
  destruct (sizeof_SectionHeader >? size); [injection E as <-; iApply wp_ret; iApply ("HΦ" with "Hq Hr")|].
  apply bind_Ret_inv in E as ([b3 cursor] & E3 & E).
  wp_apply (questions_serialize_sim _ 0 with "Hq"); [exact E3|]. iIntros "Hq".
  destruct (cursor >? size); [injection E as <-; iApply wp_ret; iApply ("HΦ" with "Hq Hr")|].
  iApply (rrs_serialize_sim _ 0 with "Hr"); [exact E|]. iApply ("HΦ" with "Hq").
Qed.
End serialization.

(** ** The parser makes the packet [Wire.v] parses *)

Section parsing.
Context `{Allocator, Garbage}.
Implicit Types (p : option loc) (l : loc) (buf : list Z).

(** A vector that makes room for one element more. *)
Lemma wp_vector_grow `{!AllocTotal} {V} (at_ : loc → V → mprop) p xs l x (Φ : unit → mprop) :
  Z.of_nat (length xs) < 2 ^ 30 →
  vector_at at_ p xs -∗ at_ l x -∗ (vector_at at_ p (xs ++ [x]) -∗ Φ tt) -∗ wp (vector_add p l) Φ.
Proof.
  iIntros (Hlt) "(%ls & (%lv & %v & %Hp & Hl) & Hls) Hx HΦ". destruct Hp as (-> & Hv & Hn).
  iDestruct (big_sepL2_length with "Hls") as %Hlen. unfold vector_add.
  wp_apply (get_vector_spec with "Hl"). iIntros "Hl".
  destruct (Vector.vector_add_spec v ls l Hv) as (v' & E & [Hv'|[_ Hno]]); [lia| |done].
  wp_apply wp_lift_ret; [exact E|]. iApply (wp_set with "Hl"). iIntros "Hl". iApply "HΦ".
  iExists (ls ++ [l]). iSplitL "Hl".
  - iExists lv, v'. iFrame. iPureIntro. split_and!; [done..|]. pose proof (Vector.rep_pos _ _ Hv'). lia.
  - iApply (big_sepL2_app with "Hls"). by iFrame.
Qed.

Lemma strdup_at_spec `{!AllocTotal} m s (Φ : option loc → mprop) :
  CString.strdup m = Ret s → (∀ p, bytes_at p s -∗ Φ p) -∗ wp (strdup_at m) Φ.
Proof.
  iIntros (E) "HΦ". unfold strdup_at. wp_apply wp_lift_ret; [exact E|].
  wp_apply malloc_spec. iIntros (p) "Hp". iApply "HΦ". by iApply granted_total.
Qed.

Lemma name_deserialize_sim `{!AllocTotal} fuel buf cur n b (Φ : Z * option loc → mprop) :
  Wire.name_deserialize fuel buf cur = Ret (n, b) →
  (∀ p, bytes_at p b -∗ Φ (n, p)) -∗ wp (name_deserialize fuel buf cur) Φ.
Proof.
  revert cur n b Φ. induction fuel as [|fuel IH]; intros cur n b Φ E; [done|]. cbn [name_deserialize Wire.name_deserialize] in *.
  apply bind_Ret_inv in E as (i & Ei & (c & Ec & E)%bind_Ret_inv). iIntros "HΦ".
  wp_apply wp_lift_ret; [exact Ei|]. wp_apply wp_lift_ret; [exact Ec|]. destruct (c =? 0).
  - apply bind_Ret_inv in E as (m & Em & (s & Es & (k & Ek & E)%bind_Ret_inv)%bind_Ret_inv). injection E as <- <-.
    wp_apply wp_lift_ret; [exact Em|]. wp_apply strdup_at_spec; [exact Es|]. iIntros (p) "Hp".
    wp_apply wp_lift_ret; [exact Ek|]. iApply wp_ret. by iApply "HΦ".
  - apply bind_Ret_inv in E as (off & Eo & ([k suffix] & Es & (m & Em & (pre & Epre & (tl & Etl & E)%bind_Ret_inv)%bind_Ret_inv)%bind_Ret_inv)%bind_Ret_inv).
    injection E as <- <-. wp_apply wp_lift_ret; [exact Eo|]. wp_apply IH; [exact Es|]. iIntros (p) "Hp".
    wp_apply (get_bytes_spec with "Hp"). iIntros "Hp". wp_apply wp_lift_ret; [exact Em|].
    wp_apply malloc_granted; [apply malloc_total|]. iIntros (l) "Hl".
    wp_apply wp_lift_ret; [exact Epre|]. wp_apply wp_lift_ret; [exact Etl|]. wp_apply wp_lift_ret; [done|].
    wp_apply (wp_set with "Hl"). iIntros "Hl". wp_apply (free_bytes with "Hp"). iApply wp_ret.
    iApply "HΦ". by iApply bytes_at_intro.
Qed.

Lemma set_question_spec l o f (Φ : unit → mprop) :
  l ↦ OQuestion o -∗ (l ↦ OQuestion (f o) -∗ Φ tt) -∗ wp (set_question l f) Φ.
Proof.
  iIntros "Hl HΦ". unfold set_question. wp_apply (get_question_spec with "Hl"). iIntros "Hl". iApply (wp_set with "Hl HΦ").
Qed.
Lemma set_record_spec l o f (Φ : unit → mprop) :
  l ↦ ORecord o -∗ (l ↦ ORecord (f o) -∗ Φ tt) -∗ wp (set_record l f) Φ.
Proof.
  iIntros "Hl HΦ". unfold set_record. wp_apply (get_record_spec with "Hl"). iIntros "Hl". iApply (wp_set with "Hl HΦ").
Qed.

Lemma question_deserialize_sim `{!AllocTotal} buf cur l o n q (Φ : Z → mprop) :
  Wire.question_deserialize buf cur = Ret (n, q) →
  l ↦ OQuestion o -∗ (question_at l q -∗ Φ n) -∗ wp (question_deserialize buf cur l) Φ.
Proof.
  intros (m & Em & (s & Es & (k & Ek & (t & Et & (c & Ec & E)%bind_Ret_inv)%bind_Ret_inv)%bind_Ret_inv)%bind_Ret_inv)%bind_Ret_inv.
  injection E as <- <-. iIntros "Hl HΦ". unfold question_deserialize.
  wp_apply wp_lift_ret; [exact Em|]. wp_apply strdup_at_spec; [exact Es|]. iIntros (p) "Hp".
  wp_apply (set_question_spec with "Hl"). iIntros "Hl".
  wp_apply (get_bytes_spec with "Hp"). iIntros "Hp". wp_apply wp_lift_ret; [exact Ek|]. cbv zeta.
  wp_apply wp_lift_ret; [exact Et|]. wp_apply (set_question_spec with "Hl"). iIntros "Hl".
  wp_apply wp_lift_ret; [exact Ec|]. wp_apply (set_question_spec with "Hl"). iIntros "Hl".
  iApply wp_ret. iApply "HΦ". iExists p. iFrame.
Qed.

Lemma questions_length qc buf cursor qs c qs' :
  Wire.questions_deserialize qc buf cursor qs = Ret (c, qs') → length qs' = (length qs + qc)%nat.
Proof.
  revert cursor qs. induction qc as [|qc IH]; intros cursor qs; cbn [Wire.questions_deserialize].
  - intros [= _ <-]. lia.
  - intros ([n q] & _ & E)%bind_Ret_inv. apply IH in E. rw length_app in E. cbn in E. lia.
Qed.

Lemma questions_deserialize_sim `{!AllocTotal} qc buf cursor p qs c qs' (Φ : Z → mprop) :
  Wire.questions_deserialize qc buf cursor qs = Ret (c, qs') → Z.of_nat (length qs') < 2 ^ 30 →
  vector_at question_at p qs -∗ (vector_at question_at p qs' -∗ Φ c) -∗ wp (questions_deserialize qc buf cursor p) Φ.
Proof.
  revert cursor qs. induction qc as [|qc IH]; intros cursor qs E Hlen; cbn [questions_deserialize]; iIntros "Hp HΦ".
  { injection E as <- <-. iApply wp_ret. by iApply "HΦ". }
  pose proof (questions_length _ _ _ _ _ _ E). cbn [Wire.questions_deserialize] in E. apply bind_Ret_inv in E as ([n q] & Eq & E).
  unfold question_create. iApply wp_bind. wp_apply malloc_granted; [apply malloc_total|]. iIntros (l) "Hl".
  iApply wp_lift_ret; [done|]. wp_apply (question_deserialize_sim with "Hl"); [exact Eq|]. iIntros "Hl".
  wp_apply (wp_vector_grow with "Hp Hl"); [lia|]. iIntros "Hp". by iApply (IH with "Hp HΦ").
Qed.

Lemma rdata_deserialize_sim `{!AllocTotal} fuel buf cur l o n d (Φ : unit → mprop) :
  Wire.rdata_deserialize fuel buf cur (r_type o) (r_length o) = Ret (n, d) →
  l ↦ ORecord o -∗
  (∀ p, l ↦ ORecord (MkRecordObj (r_name o) (r_type o) (r_class o) (r_ttl o) n p) -∗ bytes_at p d -∗ Φ tt) -∗
  wp (rdata_deserialize fuel buf cur l) Φ.
Proof.
  iIntros (E) "Hl HΦ". unfold rdata_deserialize, Wire.rdata_deserialize in *.
  wp_apply (get_record_spec with "Hl"). iIntros "Hl". cbv zeta.
  destruct ((r_type o =? QTYPE_CNAME) || (r_type o =? QTYPE_NS)).
  { apply bind_Ret_inv in E as ([k b] & Eb & (m & Em & E)%bind_Ret_inv). injection E as <- <-.
    wp_apply name_deserialize_sim; [exact Eb|]. iIntros (p) "Hp".
    wp_apply (set_record_spec with "Hl"). iIntros "Hl". wp_apply (get_bytes_spec with "Hp"). iIntros "Hp".
    wp_apply wp_lift_ret; [exact Em|]. iApply (set_record_spec with "Hl"). iIntros "Hl". iApply ("HΦ" with "Hl Hp"). }
  destruct (r_type o =? QTYPE_MX).
  { by apply bind_Ret_inv in E as (? & _ & ([k b] & _ & (? & _ & E)%bind_Ret_inv)%bind_Ret_inv). }
  apply bind_Ret_inv in E as (b & Eb & E). injection E as <- <-.
  wp_apply malloc_granted; [apply malloc_total|]. iIntros (ld) "Hd".
  wp_apply (set_record_spec with "Hl"). iIntros "Hl". wp_apply wp_lift_ret; [exact Eb|].
  wp_apply wp_lift_ret; [done|]. iApply (wp_set with "Hd"). iIntros "Hd".
  iApply ("HΦ" with "Hl"). by iApply bytes_at_intro.
Qed.

Lemma rr_deserialize_sim `{!AllocTotal} fuel buf cur l o n r (Φ : Z → mprop) :
  Wire.rr_deserialize fuel buf cur = Ret (n, r) →
  l ↦ ORecord o -∗ (rr_at l r -∗ Φ n) -∗ wp (rr_deserialize fuel buf cur l) Φ.
Proof.
  intros ([k name] & En & (ty & Ety & (cl & Ecl & (ttl & Ettl & (len & Elen & ([m d] & Ed & E)
    %bind_Ret_inv)%bind_Ret_inv)%bind_Ret_inv)%bind_Ret_inv)%bind_Ret_inv)%bind_Ret_inv.
  injection E as <- <-. iIntros "Hl HΦ". unfold rr_deserialize.
  wp_apply name_deserialize_sim; [exact En|]. iIntros (p) "Hp". cbv zeta.
  wp_apply wp_lift_ret; [exact Ety|]. wp_apply wp_lift_ret; [exact Ecl|].
  wp_apply wp_lift_ret; [exact Ettl|]. wp_apply wp_lift_ret; [exact Elen|].
  wp_apply (set_record_spec with "Hl"). iIntros "Hl".
  wp_apply (rdata_deserialize_sim with "Hl"); [exact Ed|]. iIntros (pd) "Hl Hd".
  iApply wp_ret. iApply "HΦ". iExists p, pd. iFrame.
Qed.

Lemma rrs_length cnt fuel buf cursor rs c rs' :
  Wire.rrs_deserialize cnt fuel buf cursor rs = Ret (c, rs') → length rs' = (length rs + cnt)%nat.
Proof.
  revert cursor rs. induction cnt as [|cnt IH]; intros cursor rs; cbn [Wire.rrs_deserialize].
  - intros [= _ <-]. lia.
  - intros ([n r] & _ & E)%bind_Ret_inv. apply IH in E. rw length_app in E. cbn in E. lia.
Qed.

Lemma rrs_deserialize_sim `{!AllocTotal} cnt fuel buf cursor p rs c rs' (Φ : Z → mprop) :
  Wire.rrs_deserialize cnt fuel buf cursor rs = Ret (c, rs') → Z.of_nat (length rs') < 2 ^ 30 →
  vector_at rr_at p rs -∗ (vector_at rr_at p rs' -∗ Φ c) -∗ wp (rrs_deserialize cnt fuel buf cursor p) Φ.
Proof.
  revert cursor rs. induction cnt as [|cnt IH]; intros cursor rs E Hlen; cbn [rrs_deserialize]; iIntros "Hp HΦ".
  { injection E as <- <-. iApply wp_ret. by iApply "HΦ". }
  pose proof (rrs_length _ _ _ _ _ _ _ E). cbn [Wire.rrs_deserialize] in E. apply bind_Ret_inv in E as ([n r] & Er & E).
  unfold rr_create. iApply wp_bind. wp_apply malloc_granted; [apply malloc_total|]. iIntros (l) "Hl".
  iApply wp_lift_ret; [done|]. wp_apply (rr_deserialize_sim with "Hl"); [exact Er|]. iIntros "Hl".
  wp_apply (wp_vector_grow with "Hp Hl"); [lia|]. iIntros "Hp". by iApply (IH with "Hp HΦ").
Qed.

(** A packet that is parsed is there with all its objects; nothing is lost. *)
Lemma pack_deserialize_sim `{!AllocTotal} fuel raw len v (Φ : option loc → mprop) :
  Wire.pack_deserialize fuel raw len = Ret v →
  (∀ w, v = Some w → Z.of_nat (length (questions w)) < 2 ^ 30 ∧ Z.of_nat (length (rrs w)) < 2 ^ 30) →
  (∀ r, match r, v with Some l, Some w => pack_at l w | None, None => emp | _, _ => False end -∗ Φ r) -∗
  wp (pack_deserialize fuel raw len) Φ.
Proof.
  iIntros (E Hsz) "HΦ". unfold pack_deserialize, Wire.pack_deserialize in *.
  destruct ((len >? 512) || (len <? 12)); [injection E as <-; iApply wp_ret; by iApply "HΦ"|].
  apply bind_Ret_inv in E as (h & Eh & ([c qs] & Eq & ([c' rs] & Er & E)%bind_Ret_inv)%bind_Ret_inv). injection E as <-.
  destruct (Hsz _ eq_refl) as [Hqs Hrs]. cbn [questions rrs] in Hqs, Hrs.
  wp_apply pack_create_spec. iIntros (l q r) "Hl Hq Hr". wp_apply wp_lift_ret; [exact Eh|].
  wp_apply (set_packet_spec with "Hl"). iIntros "Hl". wp_apply (get_packet_spec with "Hl"). iIntros "Hl".
  iDestruct (array_empty question_at with "Hq") as "Hq"; [done|]. iDestruct (array_empty rr_at with "Hr") as "Hr"; [done|].
  wp_apply (questions_deserialize_sim with "Hq"); [exact Eq|exact Hqs|]. iIntros "Hq". cbv zeta.
  wp_apply (rrs_deserialize_sim with "Hr"); [exact Er|exact Hrs|]. iIntros "Hr".
  iApply wp_ret. iApply "HΦ". iExists q, r. iFrame.
Qed.
End parsing.

(** ** Property *)

(** C21. Packets, bytes and memory.  On the heap, where the questions and records
    of a packet, their names and their data are objects of their own, the
    serializer and the parser compute what [Wire.v] says, for any bytes on
    which that is defined.  Writing a packet leaves it as it is and makes no
    object.  A datagram that is refused leaves no object behind; one that is
    parsed leaves exactly those of the packet ([pack_weight]).  A packet that is
    written and read back is there twice, with the same contents. *)
Theorem wire_owns_its_memory `{AllocTotal, Garbage} (fuel : nat) (raw : list Z) (len : Z) (v : option DnsPacket)
    (l : loc) (p : DnsPacket) (buf : list Z) (size : Z) :
  Wire.pack_deserialize fuel raw len = Ret v →
  (∀ w, v = Some w → Z.of_nat (length (questions w)) < 2 ^ 30 ∧ Z.of_nat (length (rrs w)) < 2 ^ 30) →
  Wire.wire_ok p → Wire.fits p buf size → Wire.pack_clean buf p → (length (Wire.pack_out p) ≤ 512)%nat →
  Forall (λ r, length (rr_name r) + 2 < fuel ∧ length (rdata r) + 2 < fuel)%nat (rrs p) →
  takes_to (pack_deserialize fuel raw len) emp%I
    (λ r, match r, v with Some l, Some w => pack_at l w | None, None => emp | _, _ => False end)%I ∧
  takes_to (pack_serialize l buf size) (pack_at l p)
    (λ r, <affine> ⌜Wire.pack_serialize p buf size = Ret r⌝ ∗ pack_at l p)%I ∧
  takes_to ('(out, n) ← pack_serialize l buf size; pack_deserialize fuel out n) (pack_at l p)
    (λ r, ∃ l', <affine> ⌜r = Some l'⌝ ∗ pack_at l p ∗ pack_at l' p)%I ∧
  ∀ s rest w, owns s (pack_at l w) rest → base.size (cells s) = (pack_weight w + base.size rest)%nat.
Proof.
  intros Hv Hsz Hp Hfit Hclean H512 Hf. pose proof (Wire.pack_serialize_spec p buf size Hp Hfit Hclean) as Es.
  split_and!; try apply takes_to_wp.
  - iIntros "_". iApply pack_deserialize_sim; [exact Hv|exact Hsz|]. by iIntros (r) "Hr".
  - iIntros "Hl". iApply (pack_serialize_sim with "Hl"); [exact Es|]. iIntros "Hl". by iFrame.
  - iIntros "Hl". wp_apply (pack_serialize_sim with "Hl"); [exact Es|]. iIntros "Hl".
    iApply pack_deserialize_sim; [apply Wire.pack_deserialize_spec|intros w [= <-]; by apply Wire.wire_lengths|].
    all: try done. 3: { iIntros ([l'|]) "Hl'"; [|iDestruct "Hl'" as %[]]. iExists l'. by iFrame. }
    + apply Hfit.
    + pose proof (Wire.pack_out_header p). lia.
  - intros s rest w. apply owns_size, _.
Qed.
(** ** A response written and read back *)

Section witness.
#[local] Existing Instance always.
#[local] Existing Instance always_total.
#[local] Existing Instance Wire.pack_clean_dec.
#[local] Instance demo_garbage : Garbage := 0xDEAD.

Lemma demo_response_wire : Wire.wire_ok demo_response.
Proof.
  split; try done. apply Forall_singleton.
  split; unfold is_u16, is_u32; simpl; try lia; try done; [by apply (Wire.name_wf_check [[97]])|by intros [?|?]].
Qed.

Lemma wire_owns_its_memory_witness :
  ∃ l' s', ('(out, n) ← pack_serialize 6 (replicate 64 0) 64; pack_deserialize 9 out n)
      (demo_store response_cells) = Ret (Some l', s') ∧ base.size (cells s') = 12%nat.
Proof.
  destruct (wire_owns_its_memory 9 [] 0 None 6 demo_response (replicate 64 0) 64) as (_ & _ & Hrun & _);
    [reflexivity|discriminate|exact demo_response_wire|unfold Wire.fits; split_and!; by_compute|by_compute|by_compute|by_compute|].
  destruct (Hrun (demo_store response_cells) ∅) as (r & s' & E & [l' Hs']%owns_exist).
  { apply (owns_mono _ _ _ _ response_at), cells_owned; by_compute. }
  apply owns_pure in Hs' as [-> Hs']. exists l', s'. split; [exact E|exact (owns_size _ _ _ _ _ Hs')].
Defined.
End witness.
End WireHeap.
