(* ===== verification/CacheMemory.v ===== *)
(** * Who owns the memory of a cache entry

    [Cache.v] keeps the entries of the cache as values in a store.  Here an
    entry is the object the program allocates, with the block of its key and
    the vector and records of its value, in the heap of [Memory.v]: how
    [cache_entry_create] makes it, how [dns_cache_get] copies its value out,
    how [dns_cache_put] puts a new value into it, and how [cache_entry_free]
    releases it, with memory refused at any point.  [CacheHeap.v] has the
    operations of the cache on these entries. *)

From iris.proofmode Require Import proofmode.
From S2P Require Import Prelude Heap Vector CString Protocol Cache Memory.
Import Protocol Memory.

Module CacheMemory.

Definition sizeof_CacheEntry : Z := 48.

Section entries.
Context `{Allocator, Garbage}.
Implicit Types (p : option loc) (l : loc).

Definition get_entry p : Mem EntryObj :=
  l ← lift (nonnull p); o ← get l;
  match o with OEntry e => mret e | _ => lift UB end.

(** The name begins at offset [off] of its block. *)
Definition cache_key_create (qname : option loc) (off qtype qclass : Z) : Mem (option loc) :=
  q ← get_bytes qname;
  q ← lift (ptr q off);
  key ← lift (Cache.cache_key_create q qtype qclass);
  malloc (Z.of_nat (length key) + 1) (Bytes (key ++ [0])).

Definition with_key p (e : EntryObj) : EntryObj :=
  MkEntryObj p (e_value e) (e_created e) (e_hotter e) (e_colder e).
Definition with_value (v : ValueObj) (e : EntryObj) : EntryObj :=
  MkEntryObj (e_key e) v (e_created e) (e_hotter e) (e_colder e).
Definition with_created (now : Z) (e : EntryObj) : EntryObj :=
  MkEntryObj (e_key e) (e_value e) now (e_hotter e) (e_colder e).
Definition set_entry l (f : EntryObj → EntryObj) : Mem unit :=
  e ← get_entry (Some l); set l (OEntry (f e)).

(** The result of [malloc] is handed to [memset] without a test. *)
Definition cache_entry_create (now : Z) (qname : option loc) (qtype qclass : Z)
    (cache_value : ValueObj) : Mem (option loc) :=
  p ← malloc sizeof_CacheEntry (OEntry (MkEntryObj None (MkValueObj 0 0 0 None) 0 None None));
  entry ← lift (nonnull p);
  key ← cache_key_create qname 0 qtype qclass;
  set_entry entry (with_key key) ≫= λ _,
  match key with
  | None => free (Some entry) ≫= λ _, mret None
  | Some _ =>
      '(ok, v) ← cache_value_clone cache_value;
      set_entry entry (with_value v) ≫= λ _,
      if ok : bool then set_entry entry (with_created now) ≫= λ _, mret (Some entry)
      else free key ≫= λ _, free (Some entry) ≫= λ _, mret None
  end.

Definition cache_entry_free p : Mem unit :=
  match p with
  | None => mret tt
  | Some l =>
      e ← get_entry p;
      free (e_key e) ≫= λ _,
      v ← free_cache_value (e_value e);
      set_entry l (with_value v) ≫= λ _, free p
  end.

(** The branch of [dns_cache_put] for a key that is there, but for the LRU list. *)
Definition put_existing (now : Z) (entry : loc) (cache_value : ValueObj) : Mem Z :=
  '(ok, new_value) ← cache_value_clone cache_value;
  if ok : bool then
    e ← get_entry (Some entry);
    v ← free_cache_value (e_value e);
    set_entry entry (with_value v) ≫= λ _,
    set_entry entry (with_value new_value) ≫= λ _,
    set_entry entry (with_created now) ≫= λ _, mret 0
  else mret 1.

(** The copy [dns_cache_get] hands out. *)
Definition get_copy (entry : loc) : Mem (bool * ValueObj) :=
  e ← get_entry (Some entry); cache_value_clone (e_value e).
End entries.

(** ** What objects make up an entry *)

Definition entry_at (l : loc) (e : Cache.CacheEntry) : mprop :=
  ∃ k o, l ↦ OEntry (MkEntryObj k o (Cache.created_at e) (Cache.hotter e) (Cache.colder e)) ∗
    bytes_at k (Cache.key e ++ [0]) ∗ value_at o (Cache.value e) ∗
    <affine> ⌜is_Some (Cache.v_rrs (Cache.value e))⌝.

(** The entry, its key, its vector and three objects a record. *)
Definition entry_weight (e : Cache.CacheEntry) : nat := 2 + value_weight (Cache.value e).
#[export] Instance entry_at_weighs l e : Weighs (entry_at l e) (entry_weight e).
Proof. unfold entry_weight. weigh entry_at. Qed.

Definition renewed (e : Cache.CacheEntry) (v : Cache.CacheValue) (now : Z) : Cache.CacheEntry :=
  Cache.MkEntry (Cache.key e) v now (Cache.hotter e) (Cache.colder e).

Section rules.
Context `{Allocator, Garbage}.

Lemma get_entry_spec l o (Φ : EntryObj → mprop) :
  l ↦ OEntry o -∗ (l ↦ OEntry o -∗ Φ o) -∗ wp (get_entry (Some l)) Φ.
Proof.
  iIntros "Hl HΦ". unfold get_entry.
  wp_apply wp_lift_ret; [done|]. wp_apply (wp_get with "Hl"). iIntros "Hl".
  iApply wp_ret. by iApply "HΦ".
Qed.

Lemma set_entry_spec l o f (Φ : unit → mprop) :
  l ↦ OEntry o -∗ (l ↦ OEntry (f o) -∗ Φ tt) -∗ wp (set_entry l f) Φ.
Proof.
  iIntros "Hl HΦ". unfold set_entry. wp_apply (get_entry_spec with "Hl"). iIntros "Hl".
  iApply (wp_set with "Hl HΦ").
Qed.

Lemma ptr_0 (q : list Z) : ptr q 0 = Ret q.
Proof. unfold ptr. by rw (proj2 (Z.leb_le 0 (Z.of_nat (length q)))); [|lia]. Qed.

Lemma cache_key_create_spec p q q' off t c k (Φ : option loc → mprop) :
  ptr q off = Ret q' → Cache.cache_key_create q' t c = Ret k →
  bytes_at p q -∗ (∀ p', bytes_at p q -∗ granted p' (k ++ [0]) -∗ Φ p') -∗
  wp (cache_key_create p off t c) Φ.
Proof.
  iIntros (Hq Hk) "Hp HΦ". unfold cache_key_create. wp_apply (get_bytes_spec with "Hp"). iIntros "Hp".
  do 2 (wp_apply wp_lift_ret; [done|]). iApply malloc_spec. iIntros (p') "Hp'". iApply ("HΦ" with "Hp Hp'").
Qed.

(** A value that has records or a vector for them. *)
Lemma free_value_spec o v (Φ : ValueObj → mprop) :
  is_Some (Cache.v_rrs v) → value_at o v -∗ Φ (MkValueObj 0 0 0 None) -∗ wp (free_cache_value o) Φ.
Proof. iIntros ([rs Hrs]) "[_ Hv]". rw Hrs. iApply (free_cache_value_spec with "Hv"). Qed.

Lemma cache_entry_free_spec l e (Φ : unit → mprop) :
  entry_at l e -∗ Φ tt -∗ wp (cache_entry_free (Some l)) Φ.
Proof.
  iIntros "(%k & %o & Hl & Hk & Hv & %Hs) HΦ". unfold cache_entry_free.
  wp_apply (get_entry_spec with "Hl"). iIntros "Hl". cbn [e_key e_value].
  wp_apply (free_bytes with "Hk"). wp_apply (free_value_spec with "Hv"); [done|].
  wp_apply (set_entry_spec with "Hl"). iIntros "Hl". iApply (wp_release with "Hl HΦ").
Qed.

(** What is asked of memory: the structures whose [malloc] is not tested. *)
Definition structures : Prop :=
  malloc_ok sizeof_CacheEntry = true ∧ malloc_ok sizeof_ResourceRecord = true.

Definition records_ok (v : Cache.CacheValue) : Prop := Forall rr_ok (default [] (Cache.v_rrs v)).

(** The address of the new entry is not below [n] when those are taken. *)
Lemma cache_entry_create_over n now p q t c k o v (Φ : option loc → mprop) :
  structures → records_ok v → Cache.cache_key_create q t c = Ret k →
  bytes_at p q -∗ value_at o v -∗
  (∀ r, bytes_at p q -∗ value_at o v -∗
    match r with
    | Some l => <affine> ⌜(n ≤ l)%positive⌝ ∗
        ∃ e, <affine> ⌜Cache.cache_entry_create now q t c v = Ret (Some e)⌝ ∗ entry_at l e
    | None => <affine> ⌜¬ AllocTotal⌝
    end -∗ Φ r) -∗
  wp_over n (cache_entry_create now p t c o) Φ.
Proof.
  iIntros ([Hme Hmr] Hv Hk) "Hp Ho HΦ". unfold cache_entry_create.
  iApply wp_over_bind_first. iApply malloc_over; [exact Hme|]. iIntros (l Hl) "Hl".
  wp_apply wp_lift_ret; [done|].
  wp_apply (cache_key_create_spec with "Hp"); [apply ptr_0|done|]. iIntros (p') "Hp Hp'".
  wp_apply (set_entry_spec with "Hl"). iIntros "Hl".
  iDestruct "Hp'" as "[%Hno|(%lk & -> & Hp')]".
  { destruct Hno as [-> Hno]. wp_apply (wp_release with "Hl"). iApply wp_ret.
    by iApply ("HΦ" with "Hp Ho"). }
  wp_apply (cache_value_clone_spec with "Ho"); [done..|]. iIntros (ok o') "Ho Hok".
  wp_apply (set_entry_spec with "Hl"). iIntros "Hl". destruct ok.
  - iDestruct "Hok" as "(%v' & %Ev & Ho')". wp_apply (set_entry_spec with "Hl"). iIntros "Hl".
    iApply wp_ret. iApply ("HΦ" with "Hp Ho"). iSplit; [done|].
    iExists (Cache.MkEntry k v' now None None). iSplit.
    { iPureIntro. unfold Cache.cache_entry_create. rw Hk. cbn [mbind Res_bind]. by rw Ev. }
    iExists (Some lk), o'. cbn [Cache.key Cache.value]. iFrame "Hl Ho'". iSplitL "Hp'"; [by iApply bytes_at_intro|].
    iPureIntro. destruct (clone_has_rrs _ _ Ev) as [rs Hrs]. by exists rs.
  - iDestruct "Hok" as %[_ Hno]. wp_apply (wp_release with "Hp'").
    wp_apply (wp_release with "Hl"). iApply wp_ret. by iApply ("HΦ" with "Hp Ho").
Qed.

Lemma cache_entry_create_spec now p q t c k o v (Φ : option loc → mprop) :
  structures → records_ok v → Cache.cache_key_create q t c = Ret k →
  bytes_at p q -∗ value_at o v -∗
  (∀ r, bytes_at p q -∗ value_at o v -∗
    match r with
    | Some l => ∃ e, <affine> ⌜Cache.cache_entry_create now q t c v = Ret (Some e)⌝ ∗ entry_at l e
    | None => <affine> ⌜¬ AllocTotal⌝
    end -∗ Φ r) -∗
  wp (cache_entry_create now p t c o) Φ.
Proof.
  iIntros (???) "Hp Ho HΦ". iApply (wp_over_start emp%I 1); [intros; lia|done|]. iIntros "_".
  iApply (cache_entry_create_over with "Hp Ho"); [done..|]. iIntros (r) "Hp Ho Hr". iApply ("HΦ" with "Hp Ho"). destruct r; [|done]. by iDestruct "Hr" as "[_ $]".
Qed.

Lemma put_existing_spec now l e o v (Φ : Z → mprop) :
  structures → records_ok v →
  entry_at l e -∗ value_at o v -∗
  (∀ r, value_at o v -∗
    (<affine> ⌜r = 1 ∧ ¬ AllocTotal⌝ ∗ entry_at l e ∨
     ∃ v', <affine> ⌜r = 0 ∧ Cache.cache_value_clone v = Ret (Some v')⌝ ∗ entry_at l (renewed e v' now)) -∗ Φ r) -∗
  wp (put_existing now l o) Φ.
Proof.
  iIntros ([_ Hmr] Hv) "Hl Ho HΦ". unfold put_existing.
  wp_apply (cache_value_clone_spec with "Ho"); [done..|]. iIntros (ok o') "Ho Hok". destruct ok.
  - iDestruct "Hok" as "(%v' & %Ev & Ho')". iDestruct "Hl" as "(%k & %ov & Hl & Hk & Hv & %Hs)".
    wp_apply (get_entry_spec with "Hl"). iIntros "Hl". cbn [e_value].
    wp_apply (free_value_spec with "Hv"); [done|].
    do 3 (wp_apply (set_entry_spec with "Hl"); iIntros "Hl"). iApply wp_ret.
    iApply ("HΦ" with "Ho"). iRight. iExists v'. iSplit; [done|]. iExists k, o'. cbn. iFrame.
    iPureIntro. destruct (clone_has_rrs _ _ Ev) as [rs Hrs]. by exists rs.
  - iDestruct "Hok" as %[_ Hno]. iApply wp_ret. iApply ("HΦ" with "Ho"). iLeft. by iFrame.
Qed.

Lemma get_copy_spec l e (Φ : bool * ValueObj → mprop) :
  structures → records_ok (Cache.value e) →
  entry_at l e -∗
  (∀ (ok : bool) o', entry_at l e -∗
    (if ok then ∃ v', <affine> ⌜Cache.cache_value_clone (Cache.value e) = Ret (Some v')⌝ ∗ value_at o' v'
     else <affine> ⌜o_rrs o' = None ∧ ¬ AllocTotal⌝) -∗ Φ (ok, o')) -∗
  wp (get_copy l) Φ.
Proof.
  iIntros ([_ Hmr] Hv) "(%k & %o & Hl & Hk & Hv & %Hs) HΦ". unfold get_copy.
  wp_apply (get_entry_spec with "Hl"). iIntros "Hl". cbn [e_value].
  iApply (cache_value_clone_spec with "Hv"); [done..|]. iIntros (ok o') "Hv Hok".
  iApply ("HΦ" with "[Hl Hk Hv] Hok"). iExists k, o. by iFrame.
Qed.
End rules.

(** ** Properties *)

(** C29. The memory of an entry of the cache, whatever memory is refused on the
    way (but for the structures the code does not test).  Making an entry gives
    all or nothing: an entry of objects of its own with the key and value
    [Cache.v] computes, or NULL and the memory as it was.  A copy of its value
    is handed out, or nothing, and the entry stays.  A new value takes the
    place of the old one, of which every object is released, or the old one
    stays and the result is 1.  [cache_entry_free] releases every object of the
    entry, none twice and none of the others. *)
Theorem cache_entry_all_or_nothing `{Allocator, Garbage} (now : Z) (l : loc) (e : Cache.CacheEntry)
    (p : option loc) (q : list Z) (t c : Z) (k : list Z) (o : ValueObj) (v : Cache.CacheValue) :
  structures → records_ok v → records_ok (Cache.value e) → Cache.cache_key_create q t c = Ret k →
  takes_to (cache_entry_create now p t c o) (bytes_at p q ∗ value_at o v)%I
    (λ r, (bytes_at p q ∗ value_at o v ∗
      match r with
      | Some l' => ∃ e', <affine> ⌜Cache.cache_entry_create now q t c v = Ret (Some e')⌝ ∗ entry_at l' e'
      | None => <affine> ⌜¬ AllocTotal⌝
      end)%I) ∧
  takes_to (get_copy l) (entry_at l e)
    (λ '(ok, o'), (entry_at l e ∗
      if ok : bool then
        ∃ v', <affine> ⌜Cache.cache_value_clone (Cache.value e) = Ret (Some v')⌝ ∗ value_at o' v'
      else <affine> ⌜o_rrs o' = None ∧ ¬ AllocTotal⌝)%I) ∧
  takes_to (put_existing now l o) (entry_at l e ∗ value_at o v)%I
    (λ r, (value_at o v ∗
      (<affine> ⌜r = 1 ∧ ¬ AllocTotal⌝ ∗ entry_at l e ∨
       ∃ v', <affine> ⌜r = 0 ∧ Cache.cache_value_clone v = Ret (Some v')⌝ ∗
         entry_at l (renewed e v' now)))%I) ∧
  takes_to (cache_entry_free (Some l)) (entry_at l e) (λ _, emp%I).
Proof.
  intros Hs Hv He Hk. split_and!; apply takes_to_wp.
  - iIntros "[Hp Ho]". iApply (cache_entry_create_spec with "Hp Ho"); [done..|].
    iIntros (r) "Hp Ho Hr". iFrame.
  - iIntros "Hl". iApply (get_copy_spec with "Hl"); [done..|]. iIntros (ok o') "Hl Ho". iFrame.
  - iIntros "[Hl Ho]". iApply (put_existing_spec with "Hl Ho"); [done..|]. iIntros (r) "Ho Hr". iFrame.
  - iIntros "Hl". by iApply (cache_entry_free_spec with "Hl").
Qed.

(** ** A concrete memory: no room for four bytes of data *)

Definition demo_entry : Cache.CacheEntry :=
  Cache.MkEntry [49; 124; 49; 124; 1; 97] demo_value 0 None None.
Definition name_cells : list (loc * object) := [(1%positive, Bytes [1; 97; 0])].

Lemma name_at : cells_at name_cells ⊢ bytes_at (Some 1%positive) [1; 97; 0].
Proof. iIntros "[Hn _]". by iApply bytes_at_intro. Qed.

Lemma cache_entry_all_or_nothing_witness :
  ∃ s', @cache_entry_create (λ n, negb (n =? 4)) 0xDEAD 0 (Some 1%positive) 1 1 demo_value_obj
          (demo_store (name_cells ++ record_cells)) = Ret (None, s') ∧
    owns s' (bytes_at (Some 1%positive) [1; 97; 0] ∗ value_at demo_value_obj demo_value) ∅.
Proof.
  destruct (@cache_entry_all_or_nothing (λ n, negb (n =? 4)) 0xDEAD 0 1%positive demo_entry
    (Some 1%positive) [1; 97; 0] 1 1 [49; 124; 49; 124; 1; 97] demo_value_obj demo_value)
    as (Hcreate & _ & _ & _); [split; reflexivity|apply demo_answer_ok|apply demo_answer_ok|reflexivity|].
  destruct (Hcreate (demo_store (name_cells ++ record_cells)) ∅) as (r & s' & E & Hs').
  { eapply owns_mono; [|apply cells_owned; by_compute].
    unfold cells_at. rw big_sepL_app. exact (bi.sep_mono _ _ _ _ name_at value_at_demo). }
  exists s'. destruct r as [l|]; [exfalso; vm_compute in E; discriminate E|]. split; [exact E|].
  eapply owns_mono; [|exact Hs']. by iIntros "($ & $ & %)".
Defined.
End CacheMemory.
