(* ===== verification/CacheHeap.v ===== *)
(** * The cache with all its memory

    The functions of [src/dns/dns_cache.c] on the heap of [Memory.v]: entries
    that are linked by their own members, with the blocks of their keys and the
    records of their values, copied, replaced and released where the program
    does it.  The members of the structure [DnsCache] are those of
    [Cache.DnsCache], whose store of entries is not used: the heap takes its
    place ([bare]).  Every function simulates the one of [Cache.v] of the same
    name, so that what [Cache.v] proves holds of the cache in memory, and not
    one object is lost.  The copies of the keys that the table keeps are in the
    table. *)

From iris.proofmode Require Import proofmode.
From S2P Require Import Prelude Heap Vector CString MapInterface DoublyLinked Protocol Cache Memory CacheMemory.
Import Protocol Memory CacheMemory.

Module CacheHeap.

Section operations.
Context `{Allocator, Garbage} {M : Type} `{!MapOps (list Z) loc M}.
Implicit Types (p : option loc) (l : loc) (c : Cache.DnsCache M).

Definition get_string p : Mem (list Z) :=
  b ← get_bytes p; n ← lift (strlen b); mret (take (Z.to_nat n) b).

(** ** Expiry *)

(** NULL and records that never expire are passed over. *)
Definition rr_expired (now created : Z) p : Mem bool :=
  match p with
  | None => mret false
  | Some _ =>
      rr ← get_record p;
      mret (if r_ttl rr =? UINT32_MAX then false else Z.quot (now - created) 1000 >=? r_ttl rr)
  end.
Definition is_entry_expired (now : Z) p : Mem bool :=
  match p with
  | None => mret true
  | Some _ =>
      e ← get_entry p;
      match o_rrs (e_value e) with
      | None => mret true
      | Some _ => any (o_rrs (e_value e)) (rr_expired now (e_created e))
      end
  end.

(** ** The LRU list *)

Definition with_hotter p (e : EntryObj) : EntryObj :=
  MkEntryObj (e_key e) (e_value e) (e_created e) p (e_colder e).
Definition with_colder p (e : EntryObj) : EntryObj :=
  MkEntryObj (e_key e) (e_value e) (e_created e) (e_hotter e) p.

Definition lru_remove l : Mem unit :=
  e ← get_entry (Some l);
  match e_hotter e, e_colder e with
  | Some h, Some c =>
      set_entry h (with_colder (Some c)) ≫= λ _,
      set_entry c (with_hotter (Some h)) ≫= λ _,
      set_entry l (with_hotter None) ≫= λ _,
      set_entry l (with_colder None)
  | _, _ => mret tt
  end.

Definition lru_push (head l : loc) : Mem unit :=
  hd ← get_entry (Some head);
  set_entry l (with_colder (e_colder hd)) ≫= λ _,
  set_entry l (with_hotter (Some head)) ≫= λ _,
  hd ← get_entry (Some head);
  c ← lift (nonnull (e_colder hd));
  set_entry c (with_hotter (Some l)) ≫= λ _,
  set_entry head (with_colder (Some l)).

Definition lru_touch (head l : loc) : Mem unit :=
  e ← get_entry (Some l);
  match e_hotter e, e_colder e with
  | Some _, Some _ => lru_remove l
  | _, _ => mret tt
  end ≫= λ _,
  lru_push head l.

(** ** The cache *)

Definition set_table c (t : M) : Cache.DnsCache M :=
  Cache.MkCache t (Cache.lru_head c) (Cache.lru_tail c) (Cache.lock c) (Cache.size c)
    (Cache.capacity c) (Cache.entries c).
Definition set_size c (n : Z) : Cache.DnsCache M :=
  Cache.MkCache (Cache.table c) (Cache.lru_head c) (Cache.lru_tail c) (Cache.lock c) n
    (Cache.capacity c) (Cache.entries c).

Definition cache_remove_entry c l : Mem (Cache.DnsCache M) :=
  lru_remove l ≫= λ _,
  e ← get_entry (Some l);
  key ← get_string (e_key e);
  t ← lift (map_remove (Cache.table c) key);
  cache_entry_free (Some l) ≫= λ _,
  mret (set_size (set_table c t) (if Cache.size c >? 0 then Cache.size c - 1 else Cache.size c)).

Fixpoint prune_loop (fuel : nat) (now : Z) c (entry : option loc) : Mem (Cache.DnsCache M) :=
  l ← lift (nonnull entry);
  if decide (l = Cache.lru_tail c) then mret c
  else
    match fuel with
    | O => lift OutOfFuel
    | S fuel =>
        e ← get_entry entry;
        let next := e_colder e in
        expired ← is_entry_expired now entry;
        c ← (if expired : bool then cache_remove_entry c l else mret c);
        prune_loop fuel now c next
    end.

(** The fuel is one step for each entry. *)
Definition dns_cache_prune_locked (now : Z) c : Mem (Cache.DnsCache M) :=
  hd ← get_entry (Some (Cache.lru_head c));
  prune_loop (Z.to_nat (Cache.size c)) now c (e_colder hd).

Definition dns_cache_prune (now : Z) (g_cache : option (Cache.DnsCache M)) :
    Mem (Z * option (Cache.DnsCache M)) :=
  match g_cache with
  | None => mret (-1, None)
  | Some c =>
      c ← lift (Cache.mtx_lock c);
      c ← dns_cache_prune_locked now c;
      c ← lift (Cache.mtx_unlock c);
      mret (0, Some c)
  end.

(** The last steps of every path of a call: the mutex, then the key. *)
Definition leave {T} (r : T) c (key : option loc) : Mem (T * option (Cache.DnsCache M)) :=
  c ← lift (Cache.mtx_unlock c); free key ≫= λ _, mret (r, Some c).

(** [dns_cache_get] once it has the entry; [None] stands for the return code 1. *)
Definition get_found (now : Z) c (key : option loc) (entry : loc) :
    Mem (option ValueObj * option (Cache.DnsCache M)) :=
  expired ← is_entry_expired now (Some entry);
  if expired : bool then c ← cache_remove_entry c entry; leave None c key
  else
    '(ok, result) ← get_copy entry;
    if ok : bool then lru_touch (Cache.lru_head c) entry ≫= λ _, leave (Some result) c key
    else leave None c key.

(** The name begins at offset [off]. *)
Definition dns_cache_get (now : Z) (g_cache : option (Cache.DnsCache M)) (qname : option loc)
    (off type qclass : Z) : Mem (option ValueObj * option (Cache.DnsCache M)) :=
  match g_cache, qname with
  | Some c, Some _ =>
      key ← cache_key_create qname off type qclass;
      match key with
      | None => mret (None, Some c)
      | Some _ =>
          c ← lift (Cache.mtx_lock c);
          k ← get_string key;
          found ← lift (map_get (Cache.table c) k);
          match found with
          | None => leave None c key
          | Some entry => get_found now c key entry
          end
      end
  | _, _ => mret (None, g_cache)
  end.

(** The coldest entry makes room. *)
Definition evict c : Mem (Cache.DnsCache M) :=
  if Cache.size c >=? Cache.capacity c then
    tl ← get_entry (Some (Cache.lru_tail c));
    victim ← lift (nonnull (e_hotter tl));
    if decide (victim = Cache.lru_head c) then mret c else cache_remove_entry c victim
  else mret c.

(** The two branches of [dns_cache_put].  The new entry is not tested for NULL;
    the copy of its key that [strdup] makes is the table's. *)
Definition put_found (now : Z) c (key : option loc) (entry : loc) (cache_value : ValueObj) :
    Mem (Z * option (Cache.DnsCache M)) :=
  r ← put_existing now entry cache_value;
  if r =? 0 then lru_touch (Cache.lru_head c) entry ≫= λ _, leave 0 c key
  else leave 1 c key.

Definition put_new (now : Z) c (key qname : option loc) (type qclass : Z) (cache_value : ValueObj) :
    Mem (Z * option (Cache.DnsCache M)) :=
  c ← evict c;
  entry ← cache_entry_create now qname type qclass cache_value;
  l ← lift (nonnull entry);
  e ← get_entry entry;
  map_key ← get_string (e_key e);
  '(_, t) ← lift (map_put (Cache.table c) map_key l);
  lru_touch (Cache.lru_head c) l ≫= λ _,
  leave 0 (set_size (set_table c t) (Cache.size c + 1)) key.

Definition dns_cache_put (now : Z) (g_cache : option (Cache.DnsCache M)) (qname : option loc)
    (type qclass : Z) (cache_value : ValueObj) : Mem (Z * option (Cache.DnsCache M)) :=
  match g_cache, qname, o_rrs cache_value with
  | Some c, Some _, Some _ =>
      key ← cache_key_create qname 0 type qclass;
      c ← lift (Cache.mtx_lock c);
      k ← get_string key;
      found ← lift (map_get (Cache.table c) k);
      match found with
      | Some entry => put_found now c key entry cache_value
      | None => put_new now c key qname type qclass cache_value
      end
  | _, _, _ => mret (1, g_cache)
  end.

(** ** Creation and release *)

Definition sentinel : object := OEntry (MkEntryObj None (MkValueObj 0 0 0 None) 0 None None).

(** [dns_cache_init] up to the ip table; [None] is the return code 1.  The
    sentinels are zeroed, and linked, once both are there. *)
Definition cache_create : Mem (option (Cache.DnsCache M)) :=
  table ← lift map_create;
  match table with
  | None => mret None
  | Some t =>
      head ← malloc sizeof_CacheEntry (Bytes []);
      tail ← malloc sizeof_CacheEntry (Bytes []);
      match head, tail with
      | Some hd, Some tl =>
          set hd sentinel ≫= λ _,
          set tl sentinel ≫= λ _,
          set_entry hd (with_colder tail) ≫= λ _,
          set_entry tl (with_hotter head) ≫= λ _,
          mret (Some (Cache.MkCache t hd tl false 0 Cache.DNS_CACHE_DEFAULT_CAPACITY empty_store))
      | _, _ =>
          free head ≫= λ _, free tail ≫= λ _, lift (map_free t) ≫= λ _, mret None
      end
  end.

Fixpoint free_loop (fuel : nat) c (entry : option loc) : Mem (Cache.DnsCache M) :=
  l ← lift (nonnull entry);
  if decide (l = Cache.lru_tail c) then mret c
  else
    match fuel with
    | O => lift OutOfFuel
    | S fuel =>
        e ← get_entry entry;
        let next := e_colder e in
        key ← get_string (e_key e);
        t ← lift (map_remove (Cache.table c) key);
        cache_entry_free entry ≫= λ _,
        free_loop fuel (set_table c t) next
    end.

Definition dns_cache_free (g_cache : option (Cache.DnsCache M)) :
    Mem (Z * option (Cache.DnsCache M)) :=
  match g_cache with
  | None => mret (0, None)
  | Some c =>
      c ← lift (Cache.mtx_lock c);
      hd ← get_entry (Some (Cache.lru_head c));
      c ← free_loop (Z.to_nat (Cache.size c)) c (e_colder hd);
      c ← lift (Cache.mtx_unlock c);
      lift (map_free (Cache.table c)) ≫= λ _,
      free (Some (Cache.lru_head c)) ≫= λ _,
      free (Some (Cache.lru_tail c)) ≫= λ _,
      mret (0, None)
  end.
End operations.

(** ** What the heap has to do with the store of [Cache.v] *)

Definition sentinel_at l (e : Cache.CacheEntry) : mprop :=
  l ↦ OEntry (MkEntryObj None (MkValueObj 0 0 0 None) 0 (Cache.hotter e) (Cache.colder e)).
Definition cell_at (hd tl l : loc) (e : Cache.CacheEntry) : mprop :=
  if decide (l = hd ∨ l = tl) then sentinel_at l e
  else (entry_at l e ∗ <affine> ⌜no_nul (Cache.key e)⌝)%I.
Definition lru_mem (hd tl : loc) (es : Store Cache.CacheEntry) : mprop :=
  [∗ map] l ↦ e ∈ cells es, cell_at hd tl l e.

(** The program has the cache without its store, the heap has the store. *)
Definition bare {M} (c : Cache.DnsCache M) : Cache.DnsCache M := Cache.set_entries c empty_store.
Definition cache_mem {M} (c : Cache.DnsCache M) : mprop :=
  lru_mem (Cache.lru_head c) (Cache.lru_tail c) (Cache.entries c).

Section links.
Context `{Allocator, Garbage} (hd tl : loc).
Implicit Types (es : Store Cache.CacheEntry) (l : loc) (e : Cache.CacheEntry) (p : option loc).

Lemma cell_links l e :
  cell_at hd tl l e ⊢ ∃ o, <affine> ⌜e_hotter o = Cache.hotter e ∧ e_colder o = Cache.colder e⌝ ∗
    l ↦ OEntry o ∗
    ∀ h c, l ↦ OEntry (MkEntryObj (e_key o) (e_value o) (e_created o) h c) -∗
      cell_at hd tl l (Cache.MkEntry (Cache.key e) (Cache.value e) (Cache.created_at e) h c).
Proof.
  unfold cell_at. case_decide.
  - iIntros "Hl". iExists _. iFrame. iSplit; [done|]. by iIntros (h c) "Hl".
  - iIntros "[(%k & %o & Hl & Hk & Hv & %Hs) %Hn]". iExists _. iFrame. iSplit; [done|].
    iIntros (h c) "Hl". iSplit; [|done]. iExists k, o. by iFrame.
Qed.

Lemma lru_mem_lookup es l e :
  cells es !! l = Some e → lru_mem hd tl es ⊢ cell_at hd tl l e ∗
    ∀ e', cell_at hd tl l e' -∗ lru_mem hd tl (MkStore (<[l := e']> (cells es)) (brk es)).
Proof. intros Hl. by apply big_sepM_insert_acc. Qed.

Lemma cell_read l e :
  cell_at hd tl l e ⊢ ∃ o, <affine> ⌜e_hotter o = Cache.hotter e ∧ e_colder o = Cache.colder e⌝ ∗
    l ↦ OEntry o ∗ (l ↦ OEntry o -∗ cell_at hd tl l e).
Proof.
  iIntros "Hc". iDestruct (cell_links with "Hc") as (o) "(%Hl & Hl & Hc)". iExists o. iFrame. iSplit; [done|].
  iIntros "Hl". iSpecialize ("Hc" $! (e_hotter o) (e_colder o)). destruct o, e. cbn in Hl. destruct Hl as [-> ->]. by iApply "Hc".
Qed.

Lemma wp_get_cell es l e (Φ : EntryObj → mprop) :
  cells es !! l = Some e → lru_mem hd tl es -∗
  (∀ o, <affine> ⌜e_hotter o = Cache.hotter e ∧ e_colder o = Cache.colder e⌝ -∗
    lru_mem hd tl es -∗ Φ o) -∗
  wp (get_entry (Some l)) Φ.
Proof.
  iIntros (Hl) "Hm HΦ". unfold lru_mem. iDestruct (big_sepM_lookup_acc with "Hm") as "[Hc Hm]"; [exact Hl|].
  iDestruct (cell_read with "Hc") as (o) "(Ho & Hl & Hc)".
  iApply (get_entry_spec with "Hl"). iIntros "Hl". iApply ("HΦ" with "Ho"). iApply "Hm". by iApply "Hc".
Qed.

Lemma wp_write_hotter es l p es' (Φ : unit → mprop) :
  Cache.write_hotter es l p = Ret es' → lru_mem hd tl es -∗ (lru_mem hd tl es' -∗ Φ tt) -∗
  wp (set_entry l (with_hotter p)) Φ.
Proof.
  intros (e & He%load_Ret & E)%bind_Ret_inv. rw (store_Some _ _ _ _ He) in E. injection E as <-.
  iIntros "Hm HΦ". iDestruct (lru_mem_lookup with "Hm") as "[Hc Hm]"; [exact He|].
  iDestruct (cell_links with "Hc") as (o) "([_ %Ec] & Hl & Hc)".
  iApply (set_entry_spec with "Hl"). iIntros "Hl". iApply "HΦ". iApply "Hm".
  unfold with_hotter. rw Ec. by iApply "Hc".
Qed.

Lemma wp_write_colder es l p es' (Φ : unit → mprop) :
  Cache.write_colder es l p = Ret es' → lru_mem hd tl es -∗ (lru_mem hd tl es' -∗ Φ tt) -∗
  wp (set_entry l (with_colder p)) Φ.
Proof.
  intros (e & He%load_Ret & E)%bind_Ret_inv. rw (store_Some _ _ _ _ He) in E. injection E as <-.
  iIntros "Hm HΦ". iDestruct (lru_mem_lookup with "Hm") as "[Hc Hm]"; [exact He|].
  iDestruct (cell_links with "Hc") as (o) "([%Eh _] & Hl & Hc)".
  iApply (set_entry_spec with "Hl"). iIntros "Hl". iApply "HΦ". iApply "Hm".
  unfold with_colder. rw Eh. by iApply "Hc".
Qed.

Lemma lru_remove_sim es l es' (Φ : unit → mprop) :
  Cache.lru_remove es l = Ret es' → lru_mem hd tl es -∗ (lru_mem hd tl es' -∗ Φ tt) -∗
  wp (lru_remove l) Φ.
Proof.
  intros (e & He%load_Ret & E)%bind_Ret_inv. iIntros "Hm HΦ". unfold lru_remove.
  wp_apply (wp_get_cell with "Hm"); [exact He|]. iIntros (o [-> ->]) "Hm".
  destruct (Cache.hotter e) as [h|], (Cache.colder e) as [c|]; [|injection E as <-; iApply wp_ret; by iApply "HΦ"..].
  apply bind_Ret_inv in E as (es1 & E1 & (es2 & E2 & (es3 & E3 & E4)%bind_Ret_inv)%bind_Ret_inv).
  wp_apply (wp_write_colder with "Hm"); [exact E1|]. iIntros "Hm".
  wp_apply (wp_write_hotter with "Hm"); [exact E2|]. iIntros "Hm".
  wp_apply (wp_write_hotter with "Hm"); [exact E3|]. iIntros "Hm".
  by iApply (wp_write_colder with "Hm").
Qed.

Lemma lru_push_sim es l es' (Φ : unit → mprop) :
  Cache.lru_push es hd l = Ret es' → lru_mem hd tl es -∗ (lru_mem hd tl es' -∗ Φ tt) -∗
  wp (lru_push hd l) Φ.
Proof.
  intros (e & He%load_Ret & (es1 & E1 & (es2 & E2 & (e2 & He2%load_Ret & (c & Ec &
    (es3 & E3 & E4)%bind_Ret_inv)%bind_Ret_inv)%bind_Ret_inv)%bind_Ret_inv)%bind_Ret_inv)%bind_Ret_inv.
  iIntros "Hm HΦ". unfold lru_push. wp_apply (wp_get_cell with "Hm"); [exact He|]. iIntros (o [_ ->]) "Hm".
  wp_apply (wp_write_colder with "Hm"); [exact E1|]. iIntros "Hm".
  wp_apply (wp_write_hotter with "Hm"); [exact E2|]. iIntros "Hm".
  wp_apply (wp_get_cell with "Hm"); [exact He2|]. iIntros (o2 [_ ->]) "Hm".
  wp_apply wp_lift_ret; [exact Ec|]. wp_apply (wp_write_hotter with "Hm"); [exact E3|]. iIntros "Hm".
  by iApply (wp_write_colder with "Hm").
Qed.

Lemma lru_touch_sim es l es' (Φ : unit → mprop) :
  Cache.lru_touch es hd l = Ret es' → lru_mem hd tl es -∗ (lru_mem hd tl es' -∗ Φ tt) -∗
  wp (lru_touch hd l) Φ.
Proof.
  intros (e & He%load_Ret & (es1 & E1 & E2)%bind_Ret_inv)%bind_Ret_inv. iIntros "Hm HΦ". unfold lru_touch.
  wp_apply (wp_get_cell with "Hm"); [exact He|]. iIntros (o [-> ->]) "Hm".
  destruct (Cache.hotter e) as [h|], (Cache.colder e) as [c|].
  { wp_apply (lru_remove_sim with "Hm"); [exact E1|]. iIntros "Hm". by iApply (lru_push_sim with "Hm"). }
  all: injection E1 as <-; wp_apply wp_ret; by iApply (lru_push_sim with "Hm").
Qed.
End links.

(** ** Entries that are not sentinels *)

Section entries.
Context `{Allocator, Garbage} (hd tl : loc).
Implicit Types (es : Store Cache.CacheEntry) (l : loc) (e : Cache.CacheEntry) (p : option loc).

Lemma cell_entry l e :
  l ≠ hd → l ≠ tl → cell_at hd tl l e = (entry_at l e ∗ <affine> ⌜no_nul (Cache.key e)⌝)%I.
Proof. intros ??. unfold cell_at. by rw decide_False; [|intros []]. Qed.

Lemma lru_mem_delete es l e :
  cells es !! l = Some e → l ≠ hd → l ≠ tl →
  lru_mem hd tl es ⊢ entry_at l e ∗ lru_mem hd tl (MkStore (delete l (cells es)) (brk es)).
Proof.
  iIntros (Hl ??) "Hm". unfold lru_mem. iDestruct (big_sepM_delete with "Hm") as "[Hc $]"; [exact Hl|].
  rw cell_entry; [|done..]. by iDestruct "Hc" as "[$ _]".
Qed.

Lemma lru_mem_insert es l e b :
  cells es !! l = None → l ≠ hd → l ≠ tl → no_nul (Cache.key e) →
  lru_mem hd tl es -∗ entry_at l e -∗ lru_mem hd tl (MkStore (<[l := e]> (cells es)) b).
Proof.
  iIntros (Hl ?? Hk) "Hm He". unfold lru_mem. cbn [cells]. rw big_sepM_insert; [|done]. iFrame "Hm".
  rw cell_entry; [|done..]. by iFrame.
Qed.

Lemma lru_mem_entry es l e :
  cells es !! l = Some e → l ≠ hd → l ≠ tl →
  lru_mem hd tl es ⊢ entry_at l e ∗ <affine> ⌜no_nul (Cache.key e)⌝ ∗
    ∀ e', entry_at l e' -∗ <affine> ⌜no_nul (Cache.key e')⌝ -∗
      lru_mem hd tl (MkStore (<[l := e']> (cells es)) (brk es)).
Proof.
  iIntros (Hl ??) "Hm". iDestruct (lru_mem_lookup with "Hm") as "[Hc Hm]"; [exact Hl|].
  rw cell_entry; [|done..]. iDestruct "Hc" as "[$ $]". iIntros (e') "He Hk". iApply "Hm".
  rw cell_entry; [|done..]. iFrame.
Qed.

Lemma same_entry es l e : cells es !! l = Some e → MkStore (<[l := e]> (cells es)) (brk es) = es.
Proof. intros Hl. rw insert_id //. by destruct es. Qed.

(** What reads an entry and leaves it as it is. *)
Lemma lru_mem_read es l e :
  cells es !! l = Some e → l ≠ hd → l ≠ tl →
  lru_mem hd tl es ⊢ entry_at l e ∗ <affine> ⌜no_nul (Cache.key e)⌝ ∗ (entry_at l e -∗ lru_mem hd tl es).
Proof.
  iIntros (Hl ??) "Hm". iDestruct (lru_mem_entry with "Hm") as "($ & %Hk & Hm)"; [done..|].
  iSplit; [done|]. iIntros "He". iSpecialize ("Hm" with "He [//]"). by rw same_entry.
Qed.

Lemma get_string_spec p k (Φ : list Z → mprop) :
  no_nul k → bytes_at p (k ++ [0]) -∗ (bytes_at p (k ++ [0]) -∗ Φ k) -∗ wp (get_string p) Φ.
Proof.
  iIntros (Hk) "Hp HΦ". unfold get_string. wp_apply (get_bytes_spec with "Hp"). iIntros "Hp".
  wp_apply wp_lift_ret; [by apply (strlen_app _ [])|]. rw Nat2Z.id take_app_length. iApply wp_ret. by iApply "HΦ".
Qed.

Lemma rr_expired_spec now created l r (Φ : bool → mprop) :
  rr_at l r -∗ (rr_at l r -∗ Φ (Cache.rr_expired now created r)) -∗
  wp (rr_expired now created (Some l)) Φ.
Proof.
  iIntros "(%n & %d & Hl & Hr) HΦ". unfold rr_expired. wp_apply (get_record_spec with "Hl"). iIntros "Hl".
  iApply wp_ret. iApply "HΦ". iExists n, d. iFrame.
Qed.

Lemma is_entry_expired_spec now l e (Φ : bool → mprop) :
  entry_at l e -∗ (entry_at l e -∗ Φ (Cache.is_entry_expired now e)) -∗
  wp (is_entry_expired now (Some l)) Φ.
Proof.
  iIntros "(%k & %o & Hl & Hk & [Ho Hv] & %Hs) HΦ". destruct Hs as [rs Hrs]. unfold is_entry_expired.
  wp_apply (get_entry_spec with "Hl"). iIntros "Hl". cbn [e_value e_created].
  unfold Cache.is_entry_expired, Cache.value_expired. rw Hrs.
  iAssert (<affine> ⌜is_Some (o_rrs o)⌝ ∗ vector_at rr_at (o_rrs o) rs)%I with "[Hv]" as "[%Hp Hv]".
  { iDestruct "Hv" as "(%ls & (%lv & %v & %Hv & Hlv) & Hr)". destruct Hv as (-> & ? & ?).
    iSplit; [done|]. iExists ls. by iFrame. }
  destruct Hp as [lv Hp]. rw Hp.
  iApply (any_spec rr_at (λ _, True) with "Hv"); [intros; by apply rr_expired_spec|by apply Forall_true|].
  iIntros "Hv". iApply "HΦ". iExists k, o. iFrame "Hl Hk".
  unfold value_at. rw Hrs Hp. iFrame. iPureIntro. by exists rs.
Qed.
End entries.

(** ** Calls *)

(** The result of a lookup. *)
Definition found_at (o : option ValueObj) (r : option Cache.CacheValue) : mprop :=
  match o, r with
  | Some o, Some v => value_at o v
  | None, None => emp
  | _, _ => False
  end%I.

Section calls.
Context `{Allocator, Garbage} {M : Type} `{!MapOps (list Z) loc M, !MapLaws (list Z) loc M}.
Implicit Types (c : Cache.DnsCache M) (cs : list (loc * Cache.item)) (l : loc) (p : option loc).

Lemma listed b c cs l i :
  Cache.cache_at b c cs → (l, i) ∈ cs →
  l ≠ Cache.lru_head c ∧ l ≠ Cache.lru_tail c ∧
  ∃ e, cells (Cache.entries c) !! l = Some e ∧ Cache.item_of e = i.
Proof.
  intros Hc (pre & post & ->)%list_elem_of_split. split_and!.
  - intros ->. pose proof (Cache.lru_nodup _ _ _ _ (Cache.cr_lru _ _ _ Hc)) as Hn.
    apply NoDup_cons in Hn as [Hn _]. apply Hn. rw fmap_app fmap_cons. apply elem_of_app. left.
    apply elem_of_app. right. by left.
  - by eapply Cache.lru_not_tail.
  - destruct (Cache.lru_mid _ _ _ _ _ _ _ (Cache.cr_lru _ _ _ Hc)) as (e & ? & ? & _). by exists e.
Qed.

Lemma found_listed b c cs k l :
  Cache.cache_at b c cs → map_get (Cache.table c) k = Ret (Some l) → ∃ i, (l, i) ∈ cs.
Proof.
  intros Hc E. destruct (Cache.cache_find _ _ _ k Hc) as [(E' & _)|(pre & l' & i & post & -> & _ & E')].
  - congruence.
  - rw E in E'. injection E' as <-. exists i. apply elem_of_app. right. by left.
Qed.

(** The entry to evict is one of the list. *)
Lemma coldest_listed b c cs e l :
  Cache.cache_at b c cs → load (Cache.entries c) (Cache.lru_tail c) = Ret e → Cache.hotter e = Some l →
  l ≠ Cache.lru_head c → ∃ i, (l, i) ∈ cs.
Proof.
  intros Hc He%load_Ret Hl Hne. pose proof (Cache.lru_seg _ _ _ _ (Cache.cr_lru _ _ _ Hc)) as Hs.
  rw app_comm_cons in Hs. destruct (seg_mid _ _ _ _ _ _ Hs) as (tl & Htl & Hh & _).
  rw He in Htl. injection Htl as <-. rw Hl in Hh. symmetry in Hh.
  apply last_Some_elem_of, elem_of_cons in Hh as [|Hin]; [done|].
  apply list_elem_of_fmap in Hin as ([l' i] & -> & Hin). by exists i.
Qed.

Lemma remove_sim c l c' (Φ : Cache.DnsCache M → mprop) :
  Cache.cache_remove_entry c l = Ret c' → l ≠ Cache.lru_head c → l ≠ Cache.lru_tail c →
  cache_mem c -∗ (cache_mem c' -∗ Φ (bare c')) -∗ wp (cache_remove_entry (bare c) l) Φ.
Proof.
  intros (es1 & E1 & (e & He%load_Ret & (t & Et & (es2 & E2 & E3)%bind_Ret_inv)%bind_Ret_inv)%bind_Ret_inv)%bind_Ret_inv Hh Ht.
  rw (free_Some _ _ _ He) in E2. injection E2 as <-. injection E3 as <-.
  iIntros "Hm HΦ". unfold cache_remove_entry. wp_apply (lru_remove_sim with "Hm"); [exact E1|]. iIntros "Hm".
  iDestruct (lru_mem_read with "Hm") as "(He & %Hk & Hm)"; [done..|]. iDestruct "He" as "(%k & %o & Hl & Hk & He)".
  wp_apply (get_entry_spec with "Hl"). iIntros "Hl". cbn [e_key].
  wp_apply (get_string_spec with "Hk"); [done|]. iIntros "Hk". wp_apply wp_lift_ret; [exact Et|].
  iDestruct ("Hm" with "[Hl Hk He]") as "Hm"; [iExists k, o; iFrame|].
  iDestruct (lru_mem_delete with "Hm") as "[He Hm]"; [done..|].
  wp_apply (cache_entry_free_spec with "He"). iApply wp_ret. by iApply "HΦ".
Qed.

Lemma leave_sim {T} (r : T) c c' p k (Φ : T * option (Cache.DnsCache M) → mprop) :
  Cache.mtx_unlock c = Ret c' → bytes_at p k -∗ cache_mem c -∗
  (cache_mem c' -∗ Φ (r, Some (bare c'))) -∗ wp (leave r (bare c) p) Φ.
Proof.
  unfold Cache.mtx_unlock. destruct (Cache.lock c) eqn:E; [|done]. intros [= <-]. iIntros "Hp Hm HΦ". unfold leave.
  wp_apply wp_lift_ret; [unfold Cache.mtx_unlock; cbn; by rw E|]. wp_apply (free_bytes with "Hp").
  iApply wp_ret. by iApply "HΦ".
Qed.

Lemma lock_bare c c' : Cache.mtx_lock c = Ret c' → Cache.mtx_lock (bare c) = Ret (bare c') ∧ cache_mem c' = cache_mem c.
Proof. unfold Cache.mtx_lock. cbn. destruct (Cache.lock c); [done|]. by intros [= <-]. Qed.

Lemma digits_no_nul fuel n acc : no_nul acc → no_nul (Cache.digits fuel n acc).
Proof.
  revert n acc. induction fuel as [|fuel IH]; intros n acc Ha; [done|]. cbn [Cache.digits].
  assert (no_nul (48 + n mod 10 :: acc)).
  { constructor; [|done]. pose proof (Z.mod_pos_bound n 10). lia. }
  destruct (n / 10 =? 0); [done|by apply IH].
Qed.

Lemma key_no_nul q t cl k : Cache.cache_key_create q t cl = Ret k → no_nul k.
Proof.
  intros (n & (s & r & -> & Hs & ->)%strlen_inv & [= <-])%bind_Ret_inv. rw Nat2Z.id take_app_length.
  unfold Cache.print_u. apply no_nul_app. split; [by apply digits_no_nul, Forall_nil_2|].
  constructor; [done|]. apply no_nul_app. split; [by apply digits_no_nul, Forall_nil_2|by constructor].
Qed.

Lemma ok_records v : Cache.value_ok v → records_ok v.
Proof. intros (rs & Hrs & Hok). unfold records_ok. by rw Hrs. Qed.

Lemma total_structures : AllocTotal → structures.
Proof. intros. split; apply malloc_total. Qed.

(** The value of a listed entry can be copied. *)
Lemma listed_ok cs l i e : Cache.items_ok cs.*2 → (l, i) ∈ cs → Cache.item_of e = i → Cache.value_ok (Cache.value e).
Proof.
  intros Hok Hin <-. unfold Cache.items_ok in Hok. rw Forall_forall in Hok. apply (Hok (Cache.item_of e)).
  apply list_elem_of_fmap. by exists (l, Cache.item_of e).
Qed.

(** The rest of [Cache.dns_cache_get] once it has the entry. *)
Definition answer_found (now : Z) c l : Res (option Cache.CacheValue * option (Cache.DnsCache M)) :=
  e ← load (Cache.entries c) l;
  if Cache.is_entry_expired now e then
    c ← Cache.cache_remove_entry c l; c ← Cache.mtx_unlock c; Ret (None, Some c)
  else
    result ← Cache.cache_value_clone (Cache.value e);
    match result with
    | None => c ← Cache.mtx_unlock c; Ret (None, Some c)
    | Some v =>
        es ← Cache.lru_touch (Cache.entries c) (Cache.lru_head c) l;
        c ← Cache.mtx_unlock (Cache.set_entries c es); Ret (Some v, Some c)
    end.

Lemma get_found_sim `{!AllocTotal} now c cs l i r c' p k
    (Φ : option ValueObj * option (Cache.DnsCache M) → mprop) :
  Cache.cache_at true c cs → Cache.items_ok cs.*2 → (l, i) ∈ cs →
  answer_found now c l = Ret (r, Some c') →
  bytes_at p k -∗ cache_mem c -∗
  (∀ o, cache_mem c' -∗ found_at o r -∗ Φ (o, Some (bare c'))) -∗
  wp (get_found now (bare c) p l) Φ.
Proof.
  intros Hc Hok Hin. destruct (listed _ _ _ _ _ Hc Hin) as (Hh & Ht & e & He & Hi). unfold answer_found.
  rw (load_Some _ _ _ He). cbn [mbind Res_bind]. intros E. iIntros "Hkey Hm HΦ". unfold get_found.
  iDestruct (lru_mem_read with "Hm") as "(He & %Hnul & Hm)"; [done..|].
  wp_apply (is_entry_expired_spec with "He"). iIntros "He". destruct (Cache.is_entry_expired now e).
  - iDestruct ("Hm" with "He") as "Hm". apply bind_Ret_inv in E as (c2 & Er & (c3 & Eu & [= <- <-])%bind_Ret_inv).
    wp_apply (remove_sim with "Hm"); [done..|]. iIntros "Hm". iApply (leave_sim with "Hkey Hm"); [exact Eu|].
    iIntros "Hm". by iApply ("HΦ" $! None with "Hm").
  - pose proof (listed_ok _ _ _ _ Hok Hin Hi) as Hv. rw Cache.cache_value_clone_ok // in E.
    cbn [mbind Res_bind] in E. apply bind_Ret_inv in E as (es & Et & (c2 & Eu & [= <- <-])%bind_Ret_inv).
    wp_apply (get_copy_spec with "He"); [by apply total_structures|by apply ok_records|].
    iIntros (ok o) "He Ho". iDestruct ("Hm" with "He") as "Hm". destruct ok; [|by iDestruct "Ho" as %[_ []]].
    iDestruct "Ho" as "(%v & %Ev & Ho)". rw Cache.cache_value_clone_ok // in Ev. injection Ev as <-.
    wp_apply (lru_touch_sim with "Hm"); [exact Et|]. iIntros "Hm".
    iApply (leave_sim _ (Cache.set_entries c es) with "Hkey Hm"); [exact Eu|].
    iIntros "Hm". iApply ("HΦ" $! (Some o) with "Hm Ho").
Qed.

Lemma dns_cache_get_sim `{!AllocTotal} now c items p q off q' t cl r c'
    (Φ : option ValueObj * option (Cache.DnsCache M) → mprop) :
  Cache.cache_rep c items → Cache.items_ok items → ptr q off = Ret q' →
  Cache.dns_cache_get now (Some c) q' t cl = Ret (r, Some c') →
  bytes_at p q -∗ cache_mem c -∗
  (∀ o, bytes_at p q -∗ cache_mem c' -∗ found_at o r -∗ Φ (o, Some (bare c'))) -∗
  wp (dns_cache_get now (Some (bare c)) p off t cl) Φ.
Proof.
  intros (cs & Hc & <-) Hok Hq (k & Hk & (c1 & Hlock & (found & Hfound & E)%bind_Ret_inv)%bind_Ret_inv)%bind_Ret_inv.
  destruct (Cache.cache_lock _ _ Hc) as [El Hc1]. rw Hlock in El. injection El as ->.
  destruct (lock_bare _ _ Hlock) as [Eb <-]. set (c1 := Cache.set_lock c true) in *.
  iIntros "Hp Hm HΦ". iDestruct "Hp" as (lp) "[-> Hlp]". iDestruct (bytes_at_intro with "Hlp") as "Hp".
  unfold dns_cache_get. wp_apply (cache_key_create_spec with "Hp"); [done..|]. iIntros (key) "Hp Hkey".
  iDestruct (granted_total with "Hkey") as (lk) "[-> Hlk]". iDestruct (bytes_at_intro with "Hlk") as "Hkey".
  wp_apply wp_lift_ret; [exact Eb|]. wp_apply (get_string_spec with "Hkey"); [by eapply key_no_nul|]. iIntros "Hkey".
  wp_apply wp_lift_ret; [exact Hfound|]. destruct found as [l|].
  - destruct (found_listed _ _ _ _ _ Hc1 Hfound) as [i Hin].
    iApply (get_found_sim with "Hkey Hm"); [done..|exact E|]. iIntros (o) "Hm Ho". iApply ("HΦ" with "Hp Hm Ho").
  - apply bind_Ret_inv in E as (c2 & Eu & [= <- <-]). iApply (leave_sim with "Hkey Hm"); [exact Eu|].
    iIntros "Hm". by iApply ("HΦ" $! None with "Hp Hm").
Qed.

(** ** Storing

    The store of [Cache.v] hands out addresses of its own.  A call that makes an
    entry simulates the one of [Cache.v] run where the store hands out the
    address that the heap gave. *)

Definition at_brk (b : loc) c : Cache.DnsCache M :=
  Cache.set_entries c (MkStore (cells (Cache.entries c)) b).

Lemma at_brk_at b b' c cs :
  Cache.cache_at b c cs → store_wf (MkStore (cells (Cache.entries c)) b') → Cache.cache_at b (at_brk b' c) cs.
Proof. by intros [] ?. Qed.

Lemma write_hotter_brk b es l p es' :
  Cache.write_hotter es l p = Ret es' →
  Cache.write_hotter (MkStore (cells es) b) l p = Ret (MkStore (cells es') b).
Proof.
  unfold Cache.write_hotter, load, store. cbn [cells]. destruct (cells es !! l); [|done].
  by intros [= <-].
Qed.

Lemma write_colder_brk b es l p es' :
  Cache.write_colder es l p = Ret es' →
  Cache.write_colder (MkStore (cells es) b) l p = Ret (MkStore (cells es') b).
Proof.
  unfold Cache.write_colder, load, store. cbn [cells]. destruct (cells es !! l); [|done].
  by intros [= <-].
Qed.

Lemma lru_remove_brk b es l es' :
  Cache.lru_remove es l = Ret es' → Cache.lru_remove (MkStore (cells es) b) l = Ret (MkStore (cells es') b).
Proof.
  intros (e & He%load_Ret & E)%bind_Ret_inv. unfold Cache.lru_remove. rw (load_Some _ _ e) //.
  cbn [mbind Res_bind]. destruct (Cache.hotter e), (Cache.colder e); [|by injection E as <-..].
  apply bind_Ret_inv in E as (es1 & E1 & (es2 & E2 & (es3 & E3 & E4)%bind_Ret_inv)%bind_Ret_inv).
  rw (write_colder_brk b _ _ _ _ E1). cbn [mbind Res_bind]. rw (write_hotter_brk b _ _ _ _ E2).
  cbn [mbind Res_bind]. rw (write_hotter_brk b _ _ _ _ E3). cbn [mbind Res_bind].
  by apply write_colder_brk.
Qed.

Lemma remove_brk b c l c' :
  Cache.cache_remove_entry c l = Ret c' → Cache.cache_remove_entry (at_brk b c) l = Ret (at_brk b c').
Proof.
  intros (es1 & E1 & (e & He%load_Ret & (t & Et & (es2 & E2 & [= <-])%bind_Ret_inv)%bind_Ret_inv)%bind_Ret_inv)%bind_Ret_inv.
  rw (free_Some _ _ _ He) in E2. injection E2 as <-. unfold Cache.cache_remove_entry. cbn [at_brk Cache.set_entries Cache.entries].
  rw (lru_remove_brk b _ _ _ E1). cbn [mbind Res_bind]. rw (load_Some _ _ e) //. cbn [mbind Res_bind Cache.table].
  rw Et. cbn [mbind Res_bind]. by rw (free_Some _ _ e).
Qed.

(** The eviction of [Cache.dns_cache_put]. *)
Definition make_room c : Res (Cache.DnsCache M) :=
  if Cache.size c >=? Cache.capacity c then
    tl ← load (Cache.entries c) (Cache.lru_tail c);
    victim ← nonnull (Cache.hotter tl);
    if decide (victim = Cache.lru_head c) then Ret c else Cache.cache_remove_entry c victim
  else Ret c.

Lemma make_room_brk b c c' : make_room c = Ret c' → make_room (at_brk b c) = Ret (at_brk b c').
Proof.
  unfold make_room. cbn [at_brk Cache.set_entries Cache.size Cache.capacity Cache.lru_tail Cache.lru_head Cache.entries].
  destruct (_ >=? _); [|by intros [= <-]]. intros (tl & Htl%load_Ret & (v & Ev & E)%bind_Ret_inv)%bind_Ret_inv.
  rw (load_Some _ _ tl) //. cbn [mbind Res_bind]. rw Ev. cbn [mbind Res_bind].
  case_decide; [by injection E as <-|]. by apply remove_brk.
Qed.

Lemma evict_sim c cs c' (Φ : Cache.DnsCache M → mprop) :
  Cache.cache_at true c cs → make_room c = Ret c' →
  cache_mem c -∗ (cache_mem c' -∗ Φ (bare c')) -∗ wp (evict (bare c)) Φ.
Proof.
  intros Hc. unfold make_room, evict. cbn [bare Cache.set_entries Cache.size Cache.capacity Cache.lru_tail Cache.lru_head].
  destruct (_ >=? _); [|intros [= <-]; iIntros "Hm HΦ"; iApply wp_ret; by iApply "HΦ"].
  intros (tl & Htl & (v & Ev & E)%bind_Ret_inv)%bind_Ret_inv. iIntros "Hm HΦ".
  wp_apply (wp_get_cell with "Hm"); [by apply load_Ret|]. iIntros (o [-> _]) "Hm". wp_apply wp_lift_ret; [exact Ev|].
  case_decide; [injection E as <-; iApply wp_ret; by iApply "HΦ"|].
  destruct (Cache.hotter tl) as [v'|] eqn:Eh; [injection Ev as ->|done].
  destruct (coldest_listed _ _ _ _ _ Hc Htl Eh) as [i Hin]; [done|].
  destruct (listed _ _ _ _ _ Hc Hin) as (? & ? & _). by iApply (remove_sim with "Hm").
Qed.

Lemma cache_mem_over {T} c (m : Mem T) :
  ∃ n, (∀ l, is_Some (cells (Cache.entries c) !! l) → (l < n)%positive) ∧
    ∀ Φ, cache_mem c -∗ (cache_mem c -∗ wp_over n m Φ) -∗ wp m Φ.
Proof.
  apply wp_over_map. intros h l' Hh [e He].
  eapply (holds_has (cache_mem c) (λ o, (l' ↦ OEntry o -∗ cache_mem c)%I) OEntry); [|exact Hh].
  iIntros "Hm". unfold cache_mem, lru_mem. iDestruct (big_sepM_lookup_acc with "Hm") as "[Hc Hm]"; [exact He|].
  iDestruct (cell_read with "Hc") as (o) "(_ & Hl & Hc)". iExists o. iFrame "Hl". iIntros "Hl".
  iApply "Hm". by iApply "Hc".
Qed.

(** The two branches of [Cache.dns_cache_put]. *)
Definition store_found (now : Z) c l (v : Cache.CacheValue) : Res (Z * option (Cache.DnsCache M)) :=
  new_value ← Cache.cache_value_clone v;
  match new_value with
  | None => c ← Cache.mtx_unlock c; Ret (1, Some c)
  | Some v =>
      e ← load (Cache.entries c) l;
      es ← store (Cache.entries c) l (Cache.MkEntry (Cache.key e) v now (Cache.hotter e) (Cache.colder e));
      es ← Cache.lru_touch es (Cache.lru_head c) l;
      c ← Cache.mtx_unlock (Cache.set_entries c es);
      Ret (0, Some c)
  end.

Definition store_new (now : Z) c (q : list Z) (t cl : Z) (v : Cache.CacheValue) :
    Res (Z * option (Cache.DnsCache M)) :=
  c ← make_room c;
  e ← Cache.cache_entry_create now q t cl v;
  e ← nonnull e;
  let '(l, es) := alloc e (Cache.entries c) in
  '(_, t) ← map_put (Cache.table c) (Cache.key e) l;
  es ← Cache.lru_touch es (Cache.lru_head c) l;
  c ← Cache.mtx_unlock (Cache.MkCache t (Cache.lru_head c) (Cache.lru_tail c) (Cache.lock c)
                          (Cache.size c + 1) (Cache.capacity c) es);
  Ret (0, Some c).

Lemma put_found_sim `{!AllocTotal} now c cs l i o v p k r c'
    (Φ : Z * option (Cache.DnsCache M) → mprop) :
  Cache.cache_at true c cs → (l, i) ∈ cs → Cache.value_ok v →
  store_found now c l v = Ret (r, Some c') →
  bytes_at p k -∗ value_at o v -∗ cache_mem c -∗
  (value_at o v -∗ cache_mem c' -∗ Φ (r, Some (bare c'))) -∗
  wp (put_found now (bare c) p l o) Φ.
Proof.
  intros Hc Hin Hv. destruct (listed _ _ _ _ _ Hc Hin) as (Hh & Ht & e & He & Hi). unfold store_found.
  rw Cache.cache_value_clone_ok // (load_Some _ _ _ He). cbn [mbind Res_bind].
  rw (store_Some _ _ _ _ He). cbn [mbind Res_bind].
  intros (es & Et & (c2 & Eu & [= <- <-])%bind_Ret_inv)%bind_Ret_inv. iIntros "Hkey Ho Hm HΦ". unfold put_found.
  iDestruct (lru_mem_entry with "Hm") as "(He & %Hnul & Hm)"; [done..|].
  wp_apply (put_existing_spec with "He Ho"); [by apply total_structures|by apply ok_records|].
  iIntros (r) "Ho [[%Hno He]|(%v' & %Ev & He)]"; [by destruct Hno as [_ []]|]. destruct Ev as [-> Ev].
  rw Cache.cache_value_clone_ok // in Ev. injection Ev as <-.
  iDestruct ("Hm" with "He [//]") as "Hm". cbn [Z.eqb].
  wp_apply (lru_touch_sim with "Hm"); [exact Et|]. iIntros "Hm".
  iApply (leave_sim _ (Cache.set_entries c es) with "Hkey Hm"); [exact Eu|].
  iIntros "Hm". iApply ("HΦ" with "Ho Hm").
Qed.

(** [store_new] step by step, where the store hands out [l]. *)
Lemma store_new_steps now c cs c2 q t cl k v e l :
  Cache.cache_at true c cs → (∀ x, x ∈ cs → Cache.i_key x.2 ≠ k) →
  Cache.cache_key_create q t cl = Ret k → Cache.cache_entry_create now q t cl v = Ret (Some e) →
  make_room c = Ret c2 → store_wf (MkStore (cells (Cache.entries c)) l) →
  ∃ r tb es c', map_put (Cache.table c2) (Cache.key e) l = Ret (r, tb) ∧
    Cache.lru_touch (MkStore (<[l := e]> (cells (Cache.entries c2))) (Pos.succ l)) (Cache.lru_head c2) l = Ret es ∧
    Cache.mtx_unlock (Cache.MkCache tb (Cache.lru_head c2) (Cache.lru_tail c2) (Cache.lock c2)
      (Cache.size c2 + 1) (Cache.capacity c2) es) = Ret c' ∧
    store_new now (at_brk l c) q t cl v = Ret (0, Some c') ∧
    cells (Cache.entries c2) !! l = None ∧ l ≠ Cache.lru_head c2 ∧ l ≠ Cache.lru_tail c2 ∧ Cache.key e = k.
Proof.
  intros Hc Hne Hk He E2 Hwf. pose proof (at_brk_at _ l _ _ Hc Hwf) as Hcl.
  destruct (Cache.evict_spec _ _ Hcl) as (c2' & cs2 & E2' & Hc2 & Hsz & _ & _ & _ & Hcs2).
  pose proof (make_room_brk l _ _ E2) as E. unfold make_room in E at 1. rw E in E2'. injection E2' as <-.
  assert (Hn2 : ∀ x, x ∈ cs2 → Cache.i_key x.2 ≠ k).
  { rw Hcs2. intros x Hx. apply Hne. case_decide; [by apply Cache.removelast_sub|done]. }
  assert (He' : Cache.key e = k ∧ Cache.hotter e = None).
  { unfold Cache.cache_entry_create in He. rw Hk in He. cbn [mbind Res_bind] in He.
    apply bind_Ret_inv in He as ([v'|] & _ & E'); [by injection E' as <-|done]. }
  destruct He' as [Hke Hhe].
  destruct (Cache.cache_new_spec _ cs2 e k Hc2 Hsz Hn2 Hke Hhe) as (r & tb & es & c' & Em & Et & Eu & _).
  exists r, tb, es, c'. pose proof (Cache.fresh_not_in _ _ _ Hc2) as Hf. cbn in Hf.
  split_and!; [by rw Hke|exact Et|exact Eu| |exact (store_wf_fresh _ (Cache.cr_wf _ _ _ Hc2))| | |done].
  - unfold store_new. rw (make_room_brk l _ _ E2). cbn [mbind Res_bind]. rw He. cbn [mbind Res_bind nonnull].
    unfold alloc in Et |- *. cbn [at_brk Cache.set_entries Cache.entries Cache.table Cache.lru_head Cache.lru_tail brk cells snd] in *.
    rw Hke Em. cbn [mbind Res_bind]. rw Et. cbn [mbind Res_bind]. by rw Eu.
  - intros ->. apply Hf. by left.
  - intros ->. apply Hf. right. apply elem_of_app. right. by left.
Qed.

Lemma put_new_sim `{!AllocTotal} now c cs p q t cl k o v pk (Φ : Z * option (Cache.DnsCache M) → mprop) :
  Cache.cache_at true c cs → (∀ x, x ∈ cs → Cache.i_key x.2 ≠ k) → Cache.value_ok v →
  Cache.cache_key_create q t cl = Ret k →
  bytes_at pk (k ++ [0]) -∗ bytes_at p q -∗ value_at o v -∗ cache_mem c -∗
  (∀ b c', <affine> ⌜store_wf (MkStore (cells (Cache.entries c)) b) ∧
      store_new now (at_brk b c) q t cl v = Ret (0, Some c')⌝ -∗
    bytes_at p q -∗ value_at o v -∗ cache_mem c' -∗ Φ (0, Some (bare c'))) -∗
  wp (put_new now (bare c) pk p t cl o) Φ.
Proof.
  iIntros (Hc Hne Hv Hk) "Hkey Hp Ho Hm HΦ". destruct (cache_mem_over c (put_new now (bare c) pk p t cl o)) as (n & Hn & Hover).
  iApply (Hover with "Hm"). iIntros "Hm". unfold put_new.
  destruct (Cache.evict_spec _ _ Hc) as (c2 & cs2 & E2 & _).
  iApply wp_over_bind. iApply (evict_sim with "Hm"); [exact Hc|exact E2|]. iIntros "Hm".
  iApply wp_over_bind_first. iApply (cache_entry_create_over with "Hp Ho"); [by apply total_structures|by apply ok_records|done|].
  iIntros (r) "Hp Ho Hr". destruct r as [l|]; [|by iDestruct "Hr" as %[]].
  iDestruct "Hr" as (Hnl e) "[%Ee He]".
  assert (Hwf : store_wf (MkStore (cells (Cache.entries c)) l)) by (intros l' Hl'; specialize (Hn l' Hl'); cbn; lia).
  destruct (store_new_steps now c cs c2 q t cl k v e l Hc Hne Hk Ee E2 Hwf)
    as (r & tb & es & c' & Em & Et & Eu & En & Hfresh & Hh & Ht & Hke).
  wp_apply wp_lift_ret; [done|]. iDestruct "He" as "(%ke & %oe & Hl & Hek & He)".
  wp_apply (get_entry_spec with "Hl"). iIntros "Hl". cbn [e_key]. rw Hke.
  wp_apply (get_string_spec with "Hek"); [by eapply key_no_nul|]. iIntros "Hek".
  wp_apply wp_lift_ret; [by rw -Hke|].
  iDestruct (lru_mem_insert _ _ _ l e (Pos.succ l) with "Hm [Hl Hek He]") as "Hm";
    [done..|rw Hke; by eapply key_no_nul|iExists ke, oe; rw Hke; iFrame|].
  wp_apply (lru_touch_sim with "Hm"); [exact Et|]. iIntros "Hm".
  iApply (leave_sim _ (Cache.MkCache tb _ _ _ _ _ es) with "Hkey Hm"); [exact Eu|].
  iIntros "Hm". iApply ("HΦ" with "[] Hp Ho Hm"). by iPureIntro.
Qed.

Lemma value_vector o v : Cache.value_ok v → value_at o v ⊢ <affine> ⌜is_Some (o_rrs o)⌝ ∗ value_at o v.
Proof.
  iIntros ((rs & Hrs & _)) "[%Ho Hv]". unfold value_at. rw Hrs.
  iDestruct "Hv" as "(%ls & (%lv & %v' & %Hv & Hlv) & Hr)". destruct Hv as (-> & ? & ?).
  iSplit; [done|]. iSplit; [done|]. iExists ls. by iFrame.
Qed.

Lemma at_brk_same c : at_brk (brk (Cache.entries c)) c = c.
Proof. by destruct c as [? ? ? ? ? ? []]. Qed.

Lemma dns_cache_put_sim `{!AllocTotal} now c items p q t cl k o v (Φ : Z * option (Cache.DnsCache M) → mprop) :
  Cache.cache_rep c items → Cache.value_ok v → Cache.cache_key_create q t cl = Ret k →
  bytes_at p q -∗ value_at o v -∗ cache_mem c -∗
  (∀ b c', <affine> ⌜store_wf (MkStore (cells (Cache.entries c)) b) ∧
      Cache.dns_cache_put now (Some (at_brk b c)) q t cl v = Ret (0, Some c')⌝ -∗
    bytes_at p q -∗ value_at o v -∗ cache_mem c' -∗ Φ (0, Some (bare c'))) -∗
  wp (dns_cache_put now (Some (bare c)) p t cl o) Φ.
Proof.
  intros (cs & Hc & <-) Hv Hk. destruct (Cache.cache_lock _ _ Hc) as [Hlock Hc1].
  destruct (lock_bare _ _ Hlock) as [Eb <-].
  iIntros "Hp Ho Hm HΦ". iDestruct (value_vector with "Ho") as "[%Hvec Ho]"; [done|]. destruct Hvec as [lv Hvec].
  iDestruct "Hp" as (lp) "[-> Hlp]". iDestruct (bytes_at_intro with "Hlp") as "Hp".
  unfold dns_cache_put. rw Hvec. wp_apply (cache_key_create_spec with "Hp"); [apply ptr_0|exact Hk|].
  iIntros (key) "Hp Hkey". iDestruct (granted_total with "Hkey") as "Hkey".
  wp_apply wp_lift_ret; [exact Eb|]. wp_apply (get_string_spec with "Hkey"); [by eapply key_no_nul|]. iIntros "Hkey".
  destruct (Cache.cache_find _ _ _ k Hc1) as [(E & Hne & _)|(pre & l & i & post & -> & Hik & E)].
  - wp_apply wp_lift_ret; [exact E|].
    iApply (put_new_sim with "Hkey Hp Ho Hm"); [exact Hc1|exact Hne|exact Hv|exact Hk|].
    iIntros (b c' [Hwf Eb']) "Hp Ho Hm". iApply ("HΦ" $! b with "[] Hp Ho Hm"). iPureIntro. split; [done|].
    destruct Hv as (rs & Hrs & _). unfold Cache.dns_cache_put. rw Hrs Hk. cbn [mbind Res_bind].
    unfold Cache.mtx_lock. cbn [at_brk Cache.set_entries Cache.lock]. rw (Cache.cr_lock _ _ _ Hc). cbn [mbind Res_bind].
    cbn [Cache.table Cache.set_lock Cache.set_entries at_brk] in E |- *. by rw E.
  - wp_apply wp_lift_ret; [exact E|].
    assert (Hst : ∃ c', store_found now (Cache.set_lock c true) l v = Ret (0, Some c') ∧
      Cache.dns_cache_put now (Some c) q t cl v = Ret (0, Some c')).
    { destruct (Cache.dns_cache_put_spec now c _ q t cl k v (ex_intro _ _ (conj Hc eq_refl)) Hk Hv) as (c' & Ep & _).
      exists c'. split; [|done]. destruct Hv as (rs & Hrs & _). unfold Cache.dns_cache_put in Ep. rw Hrs Hk in Ep.
      cbn [mbind Res_bind] in Ep. rw Hlock in Ep. cbn [mbind Res_bind] in Ep. rw E in Ep. exact Ep. }
    destruct Hst as (c' & Est & Ep). iApply (put_found_sim with "Hkey Ho Hm");
      [exact Hc1|apply elem_of_app; right; by left|exact Hv|exact Est|].
    iIntros "Ho Hm". iApply ("HΦ" $! (brk (Cache.entries c)) with "[] Hp Ho Hm"). iPureIntro.
    rw at_brk_same. split; [|done]. pose proof (Cache.cr_wf _ _ _ Hc). by destruct (Cache.entries c).
Qed.

(** ** Pruning *)

Lemma prune_loop_sim fuel now b c pre todo c' (Φ : Cache.DnsCache M → mprop) :
  Cache.cache_at b c (pre ++ todo) →
  Cache.prune_loop fuel now c (head (todo.*1 ++ [Cache.lru_tail c])) = Ret c' →
  cache_mem c -∗ (cache_mem c' -∗ Φ (bare c')) -∗
  wp (prune_loop fuel now (bare c) (head (todo.*1 ++ [Cache.lru_tail c]))) Φ.
Proof.
  revert fuel c pre. induction todo as [|[l i] todo IH]; intros fuel c pre Hc E; iIntros "Hm HΦ".
  { destruct fuel; cbn in E |- *; rw decide_True // in E; injection E as <-;
      wp_apply wp_lift_ret; [done| |done|]; (rw decide_True; [|done]); iApply wp_ret; by iApply "HΦ". }
  destruct (Cache.lru_mid _ _ _ _ _ _ _ (Cache.cr_lru _ _ _ Hc)) as (e & He & Hi & _ & Hcold).
  destruct (listed _ _ _ l i Hc) as (Hh & Ht & _); [apply elem_of_app; right; by left|].
  destruct fuel as [|fuel]; cbn [fmap list_fmap fst app head Cache.prune_loop] in E; rw decide_False // in E.
  rw (load_Some _ _ _ He) in E. cbn [mbind Res_bind] in E. rw Hcold in E.
  cbn [fmap list_fmap fst app head prune_loop]. wp_apply wp_lift_ret; [done|]. rw decide_False; [|done].
  wp_apply (wp_get_cell with "Hm"); [exact He|]. iIntros (o [_ ->]) "Hm". rw Hcold.
  iDestruct (lru_mem_read with "Hm") as "(He & %Hnul & Hm)"; [done..|].
  wp_apply (is_entry_expired_spec with "He"). iIntros "He". iDestruct ("Hm" with "He") as "Hm".
  destruct (Cache.is_entry_expired now e).
  - apply bind_Ret_inv in E as (c1 & Er & E).
    destruct (Cache.cache_remove_spec _ _ _ _ _ _ Hc) as (c1' & Er' & Hc1 & _ & _ & Htl & _).
    rw Er in Er'. injection Er' as <-. wp_apply (remove_sim with "Hm"); [done..|]. iIntros "Hm".
    rw -Htl. rw -Htl in E. iApply (IH with "Hm HΦ"); [exact Hc1|exact E].
  - wp_apply wp_ret. cbn [mbind Res_bind] in E. rw (cons_middle (l, i)) app_assoc in Hc.
    iApply (IH with "Hm HΦ"); [exact Hc|exact E].
Qed.

Lemma prune_loop_more fuel fuel' now c p c' :
  Cache.prune_loop fuel now c p = Ret c' → (fuel ≤ fuel')%nat → Cache.prune_loop fuel' now c p = Ret c'.
Proof.
  revert fuel' c p. induction fuel as [|fuel IH]; intros fuel' c [l|] E Hle; try done.
  - destruct fuel'; cbn in *; by case_decide.
  - destruct fuel' as [|fuel']; [lia|]. cbn in E |- *. case_decide; [done|].
    apply bind_Ret_inv in E as (e & -> & (c1 & E1 & E)%bind_Ret_inv). cbn [mbind Res_bind]. rw E1.
    cbn [mbind Res_bind]. apply IH; [done|lia].
Qed.

Lemma dns_cache_prune_sim now c items (Φ : Z * option (Cache.DnsCache M) → mprop) :
  Cache.cache_rep c items →
  cache_mem c -∗
  (∀ c', <affine> ⌜Cache.dns_cache_prune now (Some c) = Ret (0, Some c')⌝ -∗ cache_mem c' -∗ Φ (0, Some (bare c'))) -∗
  wp (dns_cache_prune now (Some (bare c))) Φ.
Proof.
  intros (cs & Hc & <-). destruct (Cache.cache_lock _ _ Hc) as [Hlock Hc1]. destruct (lock_bare _ _ Hlock) as [Eb <-].
  destruct (Cache.lru_first _ _ _ _ (Cache.cr_lru _ _ _ Hc1)) as (e & He & Hcold).
  assert (Ef : Z.to_nat (Cache.size c) = length cs) by (rw (Cache.cr_size _ _ _ Hc); lia).
  destruct (Cache.prune_loop_spec (length cs) now true _ [] cs Hc1) as (c2 & E2 & Hc2 & _); [done|].
  destruct (Cache.cache_unlock _ _ Hc2) as [Eu _].
  iIntros "Hm HΦ". unfold dns_cache_prune. wp_apply wp_lift_ret; [exact Eb|]. unfold dns_cache_prune_locked.
  do 2 iApply wp_bind. iApply (wp_get_cell with "Hm"); [exact He|]. iIntros (o [_ ->]) "Hm". rw Hcold.
  cbn [bare Cache.set_entries Cache.set_lock Cache.size]. rw Ef.
  iApply (prune_loop_sim with "Hm"); [by apply (Hc1 : Cache.cache_at _ _ ([] ++ cs))|exact E2|]. iIntros "Hm".
  wp_apply wp_lift_ret; [unfold Cache.mtx_unlock; cbn; by rw (Cache.cr_lock _ _ _ Hc2)|]. iApply wp_ret.
  iApply ("HΦ" $! (Cache.set_lock c2 false) with "[] Hm"). iPureIntro. unfold Cache.dns_cache_prune. rw Hlock.
  cbn [mbind Res_bind]. unfold Cache.dns_cache_prune_locked. rw (load_Some _ _ _ He). cbn [mbind Res_bind].
  rw Hcold (prune_loop_more _ _ _ _ _ _ E2); [|pose proof (Cache.lru_fuel _ _ _ Hc1); lia].
  cbn [mbind Res_bind]. by rw Eu.
Qed.
End calls.
End CacheHeap.
