(* ===== verification/CacheItems.v ===== *)
(** * What the memory of the cache holds

    The cache of [CacheHeap.v] in terms of its items: the objects it is made of
    are its two sentinels and, for each item, an entry with its key, its vector
    and its records, and there are no others.  So the cache cannot leak: what a
    lookup or a store leaves behind is known to the last object, and
    [dns_cache_free] leaves nothing. *)

From iris.proofmode Require Import proofmode.
From S2P Require Import Prelude Heap Vector CString MapInterface HashMap DoublyLinked Protocol Cache Memory CacheMemory CacheHeap.
Import Protocol Memory CacheMemory CacheHeap.

Module CacheItems.

(** ** No entry is forgotten

    The store has two sentinels, and an entry for each item. *)

Section tidy.
Context {M : Type} `{!MapOps (list Z) loc M, !MapLaws (list Z) loc M}.
Implicit Types (c : Cache.DnsCache M) (es : Store Cache.CacheEntry) (l : loc).

Definition tidy c : Prop := size (cells (Cache.entries c)) = (2 + Z.to_nat (Cache.size c))%nat.

Lemma same_dom_size es es' : dom (cells es') = dom (cells es) → size (cells es') = size (cells es).
Proof. intros E. by rw -!size_dom E. Qed.

Lemma store_dom es l e es' : store es l e = Ret es' → dom (cells es') = dom (cells es).
Proof.
  unfold store. destruct (cells es !! l) eqn:E; [|done]. intros [= <-]. cbn [cells]. rw dom_insert_lookup_L //.
Qed.

Lemma write_hotter_dom es l p es' : Cache.write_hotter es l p = Ret es' → dom (cells es') = dom (cells es).
Proof. intros (e & _ & E)%bind_Ret_inv. by eapply store_dom. Qed.
Lemma write_colder_dom es l p es' : Cache.write_colder es l p = Ret es' → dom (cells es') = dom (cells es).
Proof. intros (e & _ & E)%bind_Ret_inv. by eapply store_dom. Qed.

Lemma lru_remove_dom es l es' : Cache.lru_remove es l = Ret es' → dom (cells es') = dom (cells es).
Proof.
  intros (e & _ & E)%bind_Ret_inv. destruct (Cache.hotter e), (Cache.colder e); [|by injection E as <-..].
  apply bind_Ret_inv in E as (es1 & E1 & (es2 & E2 & (es3 & E3 & E4)%bind_Ret_inv)%bind_Ret_inv).
  apply write_colder_dom in E1, E4. apply write_hotter_dom in E2, E3. congruence.
Qed.

Lemma lru_touch_dom es hd l es' : Cache.lru_touch es hd l = Ret es' → dom (cells es') = dom (cells es).
Proof.
  intros (e & _ & (es1 & E1 & E)%bind_Ret_inv)%bind_Ret_inv.
  assert (dom (cells es1) = dom (cells es)) as <-.
  { destruct (Cache.hotter e), (Cache.colder e); [by eapply lru_remove_dom|by injection E1 as <-..]. }
  apply bind_Ret_inv in E as (? & _ & (? & E2 & (? & E3 & (? & _ & (? & _ &
    (? & E4 & E5)%bind_Ret_inv)%bind_Ret_inv)%bind_Ret_inv)%bind_Ret_inv)%bind_Ret_inv).
  apply write_colder_dom in E2, E5. apply write_hotter_dom in E3, E4. congruence.
Qed.

Lemma lock_tidy c c' : Cache.mtx_lock c = Ret c' → tidy c → tidy c'.
Proof. unfold Cache.mtx_lock. destruct (Cache.lock c); [done|]. by intros [= <-]. Qed.
Lemma unlock_tidy c c' : Cache.mtx_unlock c = Ret c' → tidy c → tidy c'.
Proof. unfold Cache.mtx_unlock. destruct (Cache.lock c); [|done]. by intros [= <-]. Qed.

Lemma remove_tidy c l c' : Cache.cache_remove_entry c l = Ret c' → 0 < Cache.size c → tidy c → tidy c'.
Proof.
  intros (es1 & E1 & (e & He%load_Ret & (t & Et & (es2 & E2 & [= <-])%bind_Ret_inv)%bind_Ret_inv)%bind_Ret_inv)%bind_Ret_inv Hs.
  rw (free_Some _ _ _ He) in E2. injection E2 as <-. apply lru_remove_dom, same_dom_size in E1. unfold tidy.
  cbn [Cache.entries Cache.size cells]. rw map_size_delete_Some; [|by exists e]. rw E1. rw Z.gtb_ltb.
  destruct (Z.ltb_spec 0 (Cache.size c)); lia.
Qed.

Lemma touch_tidy c es l es' c' :
  Cache.lru_touch es (Cache.lru_head c) l = Ret es' → dom (cells es) = dom (cells (Cache.entries c)) →
  Cache.mtx_unlock (Cache.set_entries c es') = Ret c' → tidy c → tidy c'.
Proof.
  intros E%lru_touch_dom Ed Eu Ht. eapply unlock_tidy; [exact Eu|]. unfold tidy in *.
  cbn [Cache.set_entries Cache.entries Cache.size]. rw (same_dom_size (Cache.entries c)); [done|congruence].
Qed.

(** There are entries when one is found. *)
Lemma found_size b c cs k l : Cache.cache_at b c cs → map_get (Cache.table c) k = Ret (Some l) → 0 < Cache.size c.
Proof.
  intros Hc E. destruct (found_listed _ _ _ _ _ Hc E) as [i Hin]. rw (Cache.cr_size _ _ _ Hc).
  destruct cs; [by apply elem_of_nil in Hin|cbn; lia].
Qed.

Lemma get_tidy now c items q t cl r c' :
  Cache.cache_rep c items → Cache.dns_cache_get now (Some c) q t cl = Ret (r, Some c') → tidy c → tidy c'.
Proof.
  intros (cs & Hc & _) (k & _ & (c1 & El & (found & Ef & E)%bind_Ret_inv)%bind_Ret_inv)%bind_Ret_inv Ht.
  pose proof (lock_tidy _ _ El Ht) as Ht1. destruct (Cache.cache_lock _ _ Hc) as [El' Hc1].
  rw El in El'. injection El' as ->. destruct found as [l|].
  - apply bind_Ret_inv in E as (e & _ & E). destruct (Cache.is_entry_expired now e).
    + apply bind_Ret_inv in E as (c2 & Er & (c3 & Eu & [= _ <-])%bind_Ret_inv).
      eapply unlock_tidy; [exact Eu|]. eapply remove_tidy; [exact Er| |done]. by eapply found_size.
    + apply bind_Ret_inv in E as ([v|] & _ & E).
      * apply bind_Ret_inv in E as (es & Et & (c3 & Eu & [= _ <-])%bind_Ret_inv). by eapply touch_tidy.
      * apply bind_Ret_inv in E as (c3 & Eu & [= _ <-]). by eapply unlock_tidy.
  - apply bind_Ret_inv in E as (c2 & Eu & [= _ <-]). by eapply unlock_tidy.
Qed.

Lemma make_room_tidy c cs c' : Cache.cache_at true c cs → make_room c = Ret c' → tidy c → tidy c'.
Proof.
  intros Hc. pose proof (Cache.cr_cap _ _ _ Hc). unfold make_room. rw Z.geb_leb.
  destruct (Z.leb_spec (Cache.capacity c) (Cache.size c)); [|by intros [= <-]].
  intros (tl & _ & (v & _ & E)%bind_Ret_inv)%bind_Ret_inv Ht. case_decide; [by injection E as <-|].
  eapply remove_tidy; [exact E|lia|done].
Qed.

Lemma put_tidy now c items q t cl v r c' :
  Cache.cache_rep c items → Cache.dns_cache_put now (Some c) q t cl v = Ret (r, Some c') → tidy c → tidy c'.
Proof.
  intros (cs & Hc & _) E Ht. unfold Cache.dns_cache_put in E. destruct (Cache.v_rrs v) as [rs|]; [|by injection E as _ <-].
  apply bind_Ret_inv in E as (k & Hk & (c1 & El & (found & Ef & E)%bind_Ret_inv)%bind_Ret_inv).
  pose proof (lock_tidy _ _ El Ht) as Ht1. destruct (Cache.cache_lock _ _ Hc) as [El' Hc1].
  rw El in El'. injection El' as ->. destruct found as [l|].
  - apply bind_Ret_inv in E as ([v'|] & _ & E); [|apply bind_Ret_inv in E as (c2 & Eu & [= _ <-]); by eapply unlock_tidy].
    apply bind_Ret_inv in E as (e & _ & (es & Es & (es' & Et & (c2 & Eu & [= _ <-])%bind_Ret_inv)%bind_Ret_inv)%bind_Ret_inv).
    eapply touch_tidy; [exact Et|by eapply store_dom|exact Eu|done].
  - apply bind_Ret_inv in E as (c2 & Er & E). pose proof (make_room_tidy _ _ _ Hc1 Er Ht1) as Ht2.
    destruct (Cache.evict_spec _ _ Hc1) as (c2' & cs2 & Er' & Hc2 & _). unfold make_room in Er. rw Er in Er'. injection Er' as <-.
    apply bind_Ret_inv in E as (e & _ & (e' & _ & E)%bind_Ret_inv). unfold alloc in E.
    apply bind_Ret_inv in E as ([? tb] & _ & (es & Et & (c3 & Eu & [= _ <-])%bind_Ret_inv)%bind_Ret_inv).
    eapply unlock_tidy; [exact Eu|]. apply lru_touch_dom, same_dom_size in Et. unfold tidy in *.
    cbn [Cache.entries Cache.size cells] in *. rw Et. pose proof (Cache.cr_size _ _ _ Hc2).
    rw map_size_insert_None; [lia|]. apply store_wf_fresh, (Cache.cr_wf _ _ _ Hc2).
Qed.

Lemma prune_loop_tidy fuel now c p c' b pre todo :
  Cache.cache_at b c (pre ++ todo) → p = head (todo.*1 ++ [Cache.lru_tail c]) →
  Cache.prune_loop fuel now c p = Ret c' → tidy c → tidy c'.
Proof.
  revert fuel c p pre. induction todo as [|[l i] todo IH]; intros fuel c p pre Hc -> E Ht.
  { destruct fuel; cbn in E; rw decide_True // in E; by injection E as <-. }
  destruct (Cache.lru_mid _ _ _ _ _ _ _ (Cache.cr_lru _ _ _ Hc)) as (e & He & Hi & _ & Hcold).
  destruct (listed _ _ _ l i Hc) as (Hh & Htl & _); [apply elem_of_app; right; by left|].
  destruct fuel as [|fuel]; cbn [fmap list_fmap fst app head Cache.prune_loop] in E; rw decide_False // in E.
  rw (load_Some _ _ _ He) in E. cbn [mbind Res_bind] in E. rw Hcold in E. destruct (Cache.is_entry_expired now e).
  - apply bind_Ret_inv in E as (c1 & Er & E).
    destruct (Cache.cache_remove_spec _ _ _ _ _ _ Hc) as (c1' & Er' & Hc1 & _ & _ & Htail & _).
    rw Er in Er'. injection Er' as <-. eapply (IH fuel c1 (head (todo.*1 ++ [Cache.lru_tail c])) pre); [exact Hc1|by rw Htail|exact E|].
    eapply remove_tidy; [exact Er| |done]. rw (Cache.cr_size _ _ _ Hc) length_app. cbn. lia.
  - cbn [mbind Res_bind] in E. rw (cons_middle (l, i)) app_assoc in Hc. by eapply (IH fuel c (head (todo.*1 ++ [Cache.lru_tail c])) (pre ++ [(l, i)])).
Qed.

Lemma prune_tidy now c items r c' :
  Cache.cache_rep c items → Cache.dns_cache_prune now (Some c) = Ret (r, Some c') → tidy c → tidy c'.
Proof.
  intros (cs & Hc & _) (c1 & El & (c2 & E & (c3 & Eu & [= _ <-])%bind_Ret_inv)%bind_Ret_inv)%bind_Ret_inv Ht.
  pose proof (lock_tidy _ _ El Ht) as Ht1. destruct (Cache.cache_lock _ _ Hc) as [El' Hc1].
  rw El in El'. injection El' as ->. eapply unlock_tidy; [exact Eu|].
  apply bind_Ret_inv in E as (e & He%load_Ret & E).
  destruct (Cache.lru_first _ _ _ _ (Cache.cr_lru _ _ _ Hc1)) as (e' & He' & Hcold). rw He in He'. injection He' as <-.
  by eapply (prune_loop_tidy _ _ _ _ _ _ [] cs).
Qed.
End tidy.

(** ** The objects, item by item *)

Definition item_weight (i : Cache.item) : nat := 2 + value_weight (Cache.i_value i).

(** The entry at [x.1] holds the item [x.2]. *)
Definition item_at (x : loc * Cache.item) : mprop :=
  ∃ e, <affine> ⌜Cache.item_of e = x.2 ∧ no_nul (Cache.key e)⌝ ∗ entry_at x.1 e.
#[export] Instance item_at_weighs x : Weighs (item_at x) (item_weight x.2).
Proof.
  intros h (e & h1 & h2 & -> & _ & [-> [<- _]] & He). rw left_id_L. exact (entry_at_weighs _ e _ He).
Qed.

Section items.
Context {M : Type} `{!MapOps (list Z) loc M, !MapLaws (list Z) loc M}.
Implicit Types (c : Cache.DnsCache M) (cs : list (loc * Cache.item)).

(** The cache the program has, with all its memory. *)
Definition cache_items (cap : nat) (g : option (Cache.DnsCache M)) (items : list Cache.item) : mprop :=
  ∃ c, <affine> ⌜g = Some (bare c) ∧ Cache.cache_rep c items ∧ tidy c ∧ Z.to_nat (Cache.capacity c) = cap⌝ ∗
    cache_mem c.

Lemma cache_dom b c cs :
  Cache.cache_at b c cs → tidy c →
  dom (cells (Cache.entries c)) = list_to_set (Cache.lru_head c :: cs.*1 ++ [Cache.lru_tail c]).
Proof.
  intros Hc Ht. symmetry. pose proof (Cache.lru_nodup _ _ _ _ (Cache.cr_lru _ _ _ Hc)) as Hn.
  apply set_subseteq_size_eq.
  - intros l. rw elem_of_list_to_set elem_of_dom. apply Cache.lru_locs_some, Hc.
  - rw size_dom size_list_to_set // Ht (Cache.cr_size _ _ _ Hc). cbn. rw length_app length_fmap. cbn. lia.
Qed.

(** The entry at [l] is the one [Cache.v] has there. *)
Definition entry_in c (l : loc) : mprop :=
  ∃ e, <affine> ⌜cells (Cache.entries c) !! l = Some e ∧ no_nul (Cache.key e)⌝ ∗ entry_at l e.

Lemma cache_mem_entries b c cs :
  Cache.cache_at b c cs → tidy c → cache_mem c ⊢
    (∃ e, sentinel_at (Cache.lru_head c) e) ∗ ([∗ list] l ∈ cs.*1, entry_in c l) ∗
    (∃ e, sentinel_at (Cache.lru_tail c) e).
Proof.
  intros Hc Ht. pose proof (Cache.lru_nodup _ _ _ _ (Cache.cr_lru _ _ _ Hc)) as Hn.
  iIntros "Hm". iDestruct (big_sepM_listed _ _ _ Hn (cache_dom _ _ _ Hc Ht) with "Hm") as "Hm".
  rw big_sepL_cons big_sepL_app big_sepL_singleton.
  iDestruct "Hm" as "((%eh & _ & Hh) & Hm & (%et & _ & Ht))". unfold cell_at at 1 3.
  rw !decide_True; [|by right|by left]. iSplitL "Hh"; [by iExists eh|]. iSplitR "Ht"; [|by iExists et].
  iApply (big_sepL_mono with "Hm"). iIntros (k l Hl) "(%e & %He & He)".
  apply list_elem_of_lookup_2, list_elem_of_fmap in Hl as ([l' i] & -> & Hin). cbn [fst].
  destruct (listed _ _ _ _ _ Hc Hin) as (Hlh & Hlt & _). rw cell_entry; [|done..].
  iDestruct "He" as "[He %Hk]". iExists e. by iFrame.
Qed.

Lemma entries_items b c cs :
  Cache.cache_at b c cs → ([∗ list] l ∈ cs.*1, entry_in c l) ⊢ [∗ list] x ∈ cs, item_at x.
Proof.
  intros Hc. rw big_sepL_fmap. apply big_sepL_mono. intros k [l i] Hin%list_elem_of_lookup_2.
  iIntros "(%e & %He & He)". destruct He as [He Hk]. iExists e. iFrame. iPureIntro. split; [|done].
  destruct (listed _ _ _ _ _ Hc Hin) as (_ & _ & e' & He' & Hi). cbn in He |- *. rw He in He'. by injection He' as ->.
Qed.

(** Two sentinels, and what the items weigh. *)
Definition cache_weight (items : list Cache.item) : nat := 2 + sum_list_with item_weight items.

#[export] Instance sentinel_weighs l e : Weighs (sentinel_at l e) 1.
Proof. weigh sentinel_at. Qed.

#[export] Instance cache_items_weighs cap g items : Weighs (cache_items cap g items) (cache_weight items).
Proof.
  unfold cache_items, cache_weight. apply weighs_exist. intros c h (h1 & h2 & -> & _ & [-> (_ & Hr & Ht & _)] & Hm).
  rw left_id_L. destruct Hr as (cs & Hc & <-). revert h2 Hm. change (Weighs (cache_mem c) (2 + sum_list_with item_weight cs.*2)).
  apply (weighs_mono _ ((∃ e, sentinel_at (Cache.lru_head c) e) ∗ ([∗ list] x ∈ cs, item_at x) ∗
    (∃ e, sentinel_at (Cache.lru_tail c) e))).
  { iIntros "Hm". iDestruct (cache_mem_entries with "Hm") as "($ & Hm & $)"; [done..|].
    by iApply entries_items. }
  pose proof (weighs_sum item_at (λ x, item_weight x.2) cs (λ x, item_at_weighs x)).
  eapply weighs_eq; [apply _|]. clear.
  enough (sum_list_with (λ x : loc * Cache.item, item_weight x.2) cs = sum_list_with item_weight cs.*2) by lia.
  induction cs as [|x cs IH]; cbn in *; lia.
Qed.
End items.

(** ** Creation and release *)

Section life.
Context `{Allocator, Garbage} {M : Type} `{!MapOps (list Z) loc M, !MapLaws (list Z) loc M}.
Implicit Types (c : Cache.DnsCache M).

Definition sentinel_entry (h c : option loc) : Cache.CacheEntry :=
  Cache.MkEntry [] (Cache.MkValue 0 0 0 None) 0 h c.

(** The new cache, in the terms of [Cache.v]. *)
Definition new_cache (t : M) (hd tl : loc) : Cache.DnsCache M :=
  Cache.MkCache t hd tl false 0 Cache.DNS_CACHE_DEFAULT_CAPACITY
    (MkStore {[hd := sentinel_entry None (Some tl); tl := sentinel_entry (Some hd) None]}
       (Pos.succ (Pos.max hd tl))).

Lemma new_cache_rep t hd tl :
  map_rep t ∅ → hd ≠ tl → Cache.cache_rep (new_cache t hd tl) [] ∧ tidy (new_cache t hd tl).
Proof.
  intros Ht Hne. assert (Htl : ({[hd := sentinel_entry None (Some tl); tl := sentinel_entry (Some hd) None]}
    : gmap loc Cache.CacheEntry) !! tl = Some (sentinel_entry (Some hd) None))
    by (rw lookup_insert_ne //; apply lookup_insert_eq).
  split; [exists []; split; [|done]; split; cbn; try done|].
  - split; [|apply NoDup_cons; split; [by intros ->%list_elem_of_singleton|apply NoDup_singleton]|constructor].
    cbn. split; [eexists; split; [apply lookup_insert_eq|done]|]. split; [|done]. eexists. by split.
  - intros l [e Hl]. cbn in *. destruct (decide (l = hd)) as [->|]; [lia|]. rw lookup_insert_ne // in Hl.
    destruct (decide (l = tl)) as [->|]; [lia|]. rw lookup_insert_ne // in Hl.
  - apply NoDup_nil_2.
  - exists ∅. split; [done|]. intros k l. rw lookup_empty. split; [done|]. by intros (i & ?%elem_of_nil & _).
  - unfold tidy. cbn. rw map_size_insert_None; [|by rw lookup_singleton_ne]. by rw map_size_singleton.
Qed.

Lemma create_items (Φ : option (Cache.DnsCache M) → mprop) :
  (∀ r, match r with
        | Some _ => cache_items (Z.to_nat Cache.DNS_CACHE_DEFAULT_CAPACITY) r []
        | None => <affine> ⌜¬ AllocTotal⌝
        end -∗ Φ r) -∗
  wp cache_create Φ.
Proof.
  iIntros "HΦ". unfold cache_create. destruct map_create_spec as (t & Et & Ht). wp_apply wp_lift_ret; [exact Et|].
  wp_apply malloc_spec. iIntros (ph) "Hh". wp_apply malloc_spec. iIntros (pt) "Ht".
  iDestruct "Hh" as "[%Hno|(%hd & -> & Hh)]".
  { destruct Hno as [-> Hno]. wp_apply wp_ret. iDestruct "Ht" as "[%Hno'|(%tl & -> & Ht)]".
    - destruct Hno' as [-> _]. wp_apply wp_ret. wp_apply wp_lift_ret; [by eapply map_free_spec|].
      iApply wp_ret. by iApply ("HΦ" $! None).
    - wp_apply (wp_release with "Ht"). wp_apply wp_lift_ret; [by eapply map_free_spec|].
      iApply wp_ret. by iApply ("HΦ" $! None). }
  iDestruct "Ht" as "[%Hno|(%tl & -> & Ht)]".
  { destruct Hno as [-> Hno]. wp_apply (wp_release with "Hh"). wp_apply wp_ret.
    wp_apply wp_lift_ret; [by eapply map_free_spec|]. iApply wp_ret. by iApply ("HΦ" $! None). }
  wp_apply (wp_set with "Hh"). iIntros "Hh". wp_apply (wp_set with "Ht"). iIntros "Ht".
  wp_apply (set_entry_spec with "Hh"). iIntros "Hh". wp_apply (set_entry_spec with "Ht"). iIntros "Ht".
  iApply wp_ret. iDestruct (pt_ne with "[$Hh $Ht]") as "(%Hne & Hh & Ht)".
  destruct (new_cache_rep t hd tl Ht Hne) as [Hr Htd]. iApply ("HΦ" $! (Some _)). iExists (new_cache t hd tl).
  iSplit; [done|]. unfold cache_mem, lru_mem. cbn [new_cache Cache.entries cells Cache.lru_head Cache.lru_tail].
  rw big_sepM_insert; [|by rw lookup_singleton_ne]. rw big_sepM_singleton. unfold cell_at.
  rw !decide_True; [|by right|by left]. iFrame.
Qed.

(** The entries from [todo] on are still linked. *)
Lemma free_loop_items c (h : gmap loc Cache.CacheEntry) prev todo tm (Φ : Cache.DnsCache M → mprop) :
  seg Cache.hotter Cache.colder h prev (todo ++ [Cache.lru_tail c]) None →
  NoDup (todo ++ [Cache.lru_tail c]) → map_rep (Cache.table c) tm →
  ([∗ list] l ∈ todo, ∃ e, <affine> ⌜h !! l = Some e ∧ no_nul (Cache.key e)⌝ ∗ entry_at l e) -∗
  (∀ t tm', <affine> ⌜map_rep t tm'⌝ -∗ Φ (set_table c t)) -∗
  wp (free_loop (length todo) c (head (todo ++ [Cache.lru_tail c]))) Φ.
Proof.
  revert c prev tm. induction todo as [|l todo IH]; intros c prev tm Hs Hn Ht; iIntros "Hm HΦ".
  { cbn. wp_apply wp_lift_ret; [done|]. rw decide_True; [|done]. iApply wp_ret.
    iSpecialize ("HΦ" $! (Cache.table c) tm with "[//]"). by destruct c. }
  cbn [app] in Hs, Hn. apply NoDup_cons in Hn as [Hl Hn]. destruct Hs as [(e & He & _ & Hc) Hs].
  iDestruct "Hm" as "[(%e' & %He' & Hl) Hm]". destruct He' as [He' Hk]. rw He in He'. injection He' as <-.
  cbn [length app head free_loop]. wp_apply wp_lift_ret; [done|]. rw decide_False.
  2: { intros ->. apply Hl, elem_of_app. right. by left. }
  iDestruct "Hl" as "(%ke & %oe & Hl & Hek & Ho)". wp_apply (get_entry_spec with "Hl"). iIntros "Hl".
  cbn [e_key e_colder]. wp_apply (get_string_spec with "Hek"); [done|]. iIntros "Hek".
  destruct (map_remove_spec _ _ (Cache.key e) Ht) as (t & Et & Ht'). wp_apply wp_lift_ret; [exact Et|].
  wp_apply (cache_entry_free_spec l e with "[Hl Hek Ho]"); [iExists ke, oe; iFrame|].
  rw Hc first_of_None. iApply (IH (set_table c t) with "Hm"); [exact Hs|exact Hn|exact Ht'|].
  iIntros (t' tm') "Htm". iApply ("HΦ" with "Htm").
Qed.

Lemma free_items cap g items (Φ : Z * option (Cache.DnsCache M) → mprop) :
  cache_items cap g items -∗ Φ (0, None) -∗ wp (dns_cache_free g) Φ.
Proof.
  iIntros "(%c & %Hc & Hm) HΦ". destruct Hc as (-> & (cs & Hc & _) & Htd & _).
  destruct (Cache.cache_lock _ _ Hc) as [Hlock Hc1]. destruct (lock_bare _ _ Hlock) as [Eb _].
  destruct (Cache.lru_first _ _ _ _ (Cache.cr_lru _ _ _ Hc)) as (e & He & Hcold).
  pose proof (Cache.lru_nodup _ _ _ _ (Cache.cr_lru _ _ _ Hc)) as Hn. apply NoDup_cons in Hn as [_ Hn].
  destruct (Cache.cr_table _ _ _ Hc) as (tm & Ht & _). destruct (Cache.cr_lru _ _ _ Hc) as [[_ Hs] _ _].
  assert (Ef : Z.to_nat (Cache.size c) = length cs.*1) by (rw (Cache.cr_size _ _ _ Hc) length_fmap; lia).
  unfold dns_cache_free. wp_apply wp_lift_ret; [exact Eb|].
  wp_apply (wp_get_cell with "Hm"); [exact He|]. iIntros (o [_ ->]) "Hm". rw Hcold.
  iDestruct (cache_mem_entries with "Hm") as "((%eh & Hh) & Hm & (%et & Ht))"; [done..|].
  cbn [bare Cache.set_entries Cache.set_lock Cache.size Cache.lru_head]. rw Ef.
  wp_apply (free_loop_items (bare (Cache.set_lock c true)) with "Hm"); [exact Hs|exact Hn|exact Ht|].
  iIntros (t tm' Ht'). wp_apply wp_lift_ret; [done|]. wp_apply wp_lift_ret; [by eapply map_free_spec|].
  wp_apply (wp_release with "Hh"). wp_apply (wp_release with "Ht"). by iApply wp_ret.
Qed.
End life.

(** ** Calls, in terms of the items *)

Section calls.
Context `{Allocator, Garbage} {M : Type} `{!MapOps (list Z) loc M, !MapLaws (list Z) loc M}.
Implicit Types (c : Cache.DnsCache M) (items : list Cache.item).

Lemma get_items `{!AllocTotal} now cap g items p q off q' t cl k (Φ : option ValueObj * option (Cache.DnsCache M) → mprop) :
  Cache.items_ok items → ptr q off = Ret q' → Cache.cache_key_create q' t cl = Ret k →
  bytes_at p q -∗ cache_items cap g items -∗
  (∀ o g', bytes_at p q -∗ cache_items cap g' (Cache.lru_get now k items).2 -∗
    found_at o (Cache.lru_get now k items).1 -∗ Φ (o, g')) -∗
  wp (dns_cache_get now g p off t cl) Φ.
Proof.
  iIntros (Hok Hq Hk) "Hp (%c & %Hc & Hm) HΦ". destruct Hc as (-> & Hr & Ht & Hcap).
  destruct (Cache.dns_cache_get_spec now c items q' t cl k Hr Hk Hok) as (c' & E & Hr' & Hcap').
  iApply (dns_cache_get_sim with "Hp Hm"); [done..|exact E|]. iIntros (o) "Hp Hm Ho". iApply ("HΦ" with "Hp [Hm] Ho").
  iExists c'. iFrame. iPureIntro. split_and!; [done..|exact (get_tidy _ _ _ _ _ _ _ _ Hr E Ht)|by rw Hcap'].
Qed.

Lemma put_items `{!AllocTotal} now cap g items p q t cl k o v (Φ : Z * option (Cache.DnsCache M) → mprop) :
  Cache.value_ok v → Cache.cache_key_create q t cl = Ret k →
  bytes_at p q -∗ value_at o v -∗ cache_items cap g items -∗
  (∀ g', bytes_at p q -∗ value_at o v -∗ cache_items cap g' (Cache.lru_put now cap k v items) -∗ Φ (0, g')) -∗
  wp (dns_cache_put now g p t cl o) Φ.
Proof.
  iIntros (Hv Hk) "Hp Ho (%c & %Hc & Hm) HΦ". destruct Hc as (-> & Hr & Ht & <-).
  iApply (dns_cache_put_sim with "Hp Ho Hm"); [exact Hr|exact Hv|exact Hk|].
  iIntros (b c' [Hwf E]) "Hp Ho Hm". iApply ("HΦ" with "Hp Ho"). iExists c'. iFrame. iPureIntro.
  assert (Hrb : Cache.cache_rep (at_brk b c) items).
  { destruct Hr as (cs & Hc & <-). exists cs. split; [by apply at_brk_at|done]. }
  destruct (Cache.dns_cache_put_spec now _ items q t cl k v Hrb Hk Hv) as (c2 & E2 & Hr' & Hcap').
  rw E in E2. injection E2 as <-. split_and!; [done|exact Hr'|exact (put_tidy _ _ _ _ _ _ _ _ _ Hrb E Ht)|by rw Hcap'].
Qed.

Lemma prune_items now cap g items (Φ : Z * option (Cache.DnsCache M) → mprop) :
  cache_items cap g items -∗ (∀ g', cache_items cap g' (Cache.lru_prune now items) -∗ Φ (0, g')) -∗
  wp (dns_cache_prune now g) Φ.
Proof.
  iIntros "(%c & %Hc & Hm) HΦ". destruct Hc as (-> & Hr & Ht & Hcap).
  iApply (dns_cache_prune_sim with "Hm"); [exact Hr|]. iIntros (c' E) "Hm". iApply "HΦ". iExists c'. iFrame. iPureIntro.
  destruct (Cache.dns_cache_prune_spec now c items Hr) as (c2 & E2 & Hr' & Hcap'). rw E in E2. injection E2 as <-.
  split_and!; [done|exact Hr'|exact (prune_tidy _ _ _ _ _ Hr E Ht)|by rw Hcap'].
Qed.

(** ** Property *)

(** C18. The cache and its memory.  Run on one heap, with the links of the LRU
    list in the entries, the functions of [dns_cache.c] keep a list of items as
    the least-recently-used list says, and the objects of the cache are exactly
    two sentinels and, for each item, an entry, its key, its vector and its
    records with their names and data: [cache_weight] counts them.  A lookup
    hands out a copy of its own and gives back every other block it made; a
    store copies what it is given; what is evicted, replaced, expired or pruned
    is released, nothing twice; [dns_cache_free] leaves not one object. *)
Theorem cache_owns_its_memory `{!AllocTotal} (now : Z) (cap : nat) (g : option (Cache.DnsCache M)) (items : list Cache.item)
    (p : option loc) (q q' : list Z) (off t cl : Z) (k k' : list Z) (o : ValueObj) (v : Cache.CacheValue) :
  Cache.items_ok items → Cache.value_ok v → ptr q off = Ret q' →
  Cache.cache_key_create q t cl = Ret k → Cache.cache_key_create q' t cl = Ret k' →
  takes_to (dns_cache_get now g p off t cl) (bytes_at p q ∗ cache_items cap g items)%I
    (λ '(o, g'), (bytes_at p q ∗ cache_items cap g' (Cache.lru_get now k' items).2 ∗
      found_at o (Cache.lru_get now k' items).1)%I) ∧
  takes_to (dns_cache_put now g p t cl o) (bytes_at p q ∗ value_at o v ∗ cache_items cap g items)%I
    (λ '(r, g'), (<affine> ⌜r = 0⌝ ∗ bytes_at p q ∗ value_at o v ∗
      cache_items cap g' (Cache.lru_put now cap k v items))%I) ∧
  takes_to (dns_cache_prune now g) (cache_items cap g items)
    (λ '(r, g'), (<affine> ⌜r = 0⌝ ∗ cache_items cap g' (Cache.lru_prune now items))%I) ∧
  takes_to (dns_cache_free g) (cache_items cap g items) (λ '(r, g'), (<affine> ⌜r = 0 ∧ g' = None⌝)%I) ∧
  ∀ s rest, owns s (cache_items cap g items) rest →
    size (cells s) = (cache_weight items + size rest)%nat.
Proof.
  intros Hok Hv Hq Hk Hk'. split_and!; try apply takes_to_wp.
  - iIntros "[Hp Hg]". iApply (get_items with "Hp Hg"); [done..|]. iIntros (o' g') "Hp Hg Ho". iFrame.
  - iIntros "(Hp & Ho & Hg)". iApply (put_items with "Hp Ho Hg"); [done..|]. iIntros (g') "Hp Ho Hg". by iFrame.
  - iIntros "Hg". iApply (prune_items with "Hg"). iIntros (g') "Hg". by iFrame.
  - iIntros "Hg". by iApply (free_items with "Hg").
  - intros s rest. apply owns_size, _.
Qed.
End calls.

(** ** A concrete memory: a new cache, and a record put into it *)

Section witness.
#[local] Existing Instance always.
#[local] Existing Instance always_total.
#[local] Instance demo_garbage : Garbage := 0xDEAD.
Abbreviation ctable := (HashMap.HashMap (list Z) loc).
#[local] Instance demo_ops : MapOps (list Z) loc ctable := @HashMap.str_table_ops always loc.
#[local] Instance demo_laws : MapLaws (list Z) loc ctable := @HashMap.str_table_laws always always_total loc.

Definition demo_key : list Z := [49; 124; 49; 124; 1; 97].

Lemma cache_owns_its_memory_witness :
  ∃ (g g' : option (Cache.DnsCache ctable)) s s',
    cache_create (demo_store (name_cells ++ record_cells)) = Ret (g, s) ∧ size (cells s) = 7%nat ∧
    dns_cache_put 0 g (Some 1%positive) 1 1 demo_value_obj s = Ret ((0, g'), s') ∧ size (cells s') = 13%nat.
Proof.
  destruct (wp_run (cache_create (M := ctable)) (bytes_at (Some 1%positive) [1; 97; 0] ∗ value_at demo_value_obj demo_value)
    (λ r, bytes_at (Some 1%positive) [1; 97; 0] ∗ value_at demo_value_obj demo_value ∗ cache_items 1024 r [])%I
    (demo_store (name_cells ++ record_cells)) ∅) as (g & s & E & Hs).
  { iIntros "[Hn Hv]". iApply create_items. iIntros ([c|]) "Hc"; [by iFrame|]. iDestruct "Hc" as %Hno. by destruct Hno. }
  { eapply owns_mono; [|apply cells_owned; by_compute].
    unfold cells_at. rw big_sepL_app. exact (bi.sep_mono _ _ _ _ name_at value_at_demo). }
  destruct (cache_owns_its_memory (M := ctable) 0 1024 g [] (Some 1%positive) [1; 97; 0] [1; 97; 0] 0 1 1
    demo_key demo_key demo_value_obj demo_value) as (_ & Hput & _);
    [constructor|apply demo_cached_ok|reflexivity|reflexivity|reflexivity|].
  destruct (Hput s ∅ Hs) as ([r g'] & s' & E' & Hs'). apply owns_pure in Hs' as [-> Hs'].
  exists g, g', s, s'. split; [exact E|]. split; [exact (owns_size _ _ _ _ _ Hs)|]. split; [exact E'|].
  exact (owns_size _ _ _ _ _ Hs').
Defined.
End witness.
End CacheItems.
