(* ===== verification/ResolverHeap.v ===== *)
(** * The resolver with all its memory

    [pack_try_response_local] and [pack_make_response_relay] of
    [src/dns/dns_resolver.c] on the heap of [Memory.v], with the cache of
    [CacheHeap.v]: the query, the copies of cached values that the checks and the
    answer take out, the responses that are made and those that are given up
    again.  The answers are those of [Resolver.v]; every copy is released on
    every path, and the vectors the constructors lose are counted. *)

From iris.proofmode Require Import proofmode.
From S2P Require Import Prelude Heap Vector CString NameCodec MapInterface HashMap Protocol.
From S2P Require Import Wire Cache Resolver Memory CacheMemory CacheHeap CacheItems.
Import NameCodec Protocol Wire Memory CacheMemory CacheHeap CacheItems.

Module ResolverHeap.

Section operations.
Context `{Allocator, Garbage} {M : Type} `{!MapOps (list Z) loc M}.
Implicit Types (p : option loc) (l : loc) (g : option (Cache.DnsCache M)).

Definition rr_blocked p : Mem bool :=
  rr ← get_record p;
  if (r_type rr =? QTYPE_A) || (r_type rr =? QTYPE_AAAA) then
    mem ← get_bytes (r_data rr); lift (memallz mem (r_length rr))
  else mret false.

(** The records of [parent_value] are released whether or not one of them
    blocks the name. *)
Fixpoint parents_loop (fuel : nat) (now : Z) g (question : option loc) (parent_qname : Z) :
    Mem (Rcode * option (Cache.DnsCache M)) :=
  match fuel with
  | O => lift OutOfFuel
  | S fuel =>
      q ← get_question question;
      '(parent_value, g) ← dns_cache_get now g (q_name q) parent_qname (q_type q) (q_class q);
      blocked ← match parent_value with
                | Some v => b ← any (o_rrs v) rr_blocked; free_rrs (o_rrs v) ≫= λ _, mret b
                | None => mret false
                end;
      if blocked : bool then mret (RCODE_NXDOMAIN, g)
      else
        name ← get_bytes (q_name q);
        parent ← lift (get_parent_qname name parent_qname);
        match parent with
        | Some parent_qname => parents_loop fuel now g question parent_qname
        | None => mret (RCODE_NOERROR, g)
        end
  end.

(** The fuel is the length of the name. *)
Definition query_pre_validate (now : Z) g (pack : loc) : Mem (Rcode * option (Cache.DnsCache M)) :=
  pack ← get_packet (Some pack);
  question ← vector_get (p_questions pack) 0;
  match question with
  | None => mret (RCODE_NOERROR, g)
  | Some _ =>
      q ← get_question question;
      match q_name q with
      | None => mret (RCODE_NOERROR, g)
      | Some _ => name ← get_bytes (q_name q); parents_loop (S (length name)) now g question 0
      end
  end.

(** [for (i = 0; i < response->header.answer_RRs; i++)] *)
Fixpoint answers_loop (n : nat) (i : Z) (ans : option loc) : Mem bool :=
  match n with
  | O => mret false
  | S n =>
      rr ← vector_get ans i;
      b ← rr_blocked rr;
      if b : bool then mret true else answers_loop n (i + 1) ans
  end.
Definition query_post_validate (response : loc) (rcode : Rcode) : Mem Rcode :=
  response ← get_packet (Some response);
  b ← answers_loop (Z.to_nat (answer_RRs (p_header response))) 0 (p_rrs response);
  mret (if b : bool then RCODE_NXDOMAIN else rcode).

(** The records of the value are those of [recv] itself: [dns_cache_put] copies
    them. *)
Definition pack_make_response_relay (now use_cache : Z) g (recv : loc) (client_id : Z) :
    Mem (loc * option (Cache.DnsCache M)) :=
  send ← packet_clone recv;
  set_packet send (with_header (λ r, set_id r client_id)) ≫= λ _,
  if use_cache =? 0 then mret (send, g)
  else
    src ← get_packet (Some recv);
    question ← vector_get (p_questions src) 0;
    out ← get_packet (Some send);
    let value := MkValueObj (answer_RRs (p_header out)) (authority_RRs (p_header out))
                   (additional_RRs (p_header out)) (p_rrs src) in
    q ← get_question question;
    '(_, g) ← dns_cache_put now g (q_name q) (q_type q) (q_class q) value;
    mret (send, g).

Definition make_response_status (query : loc) : Mem loc := make_response_fail query RCODE_NOTIMP.

(** The answer from the value found, which is released as soon as it has been
    copied into the response; a response that does not pass is released too. *)
Definition answer_with (query : loc) (cache_value : ValueObj) (code : Rcode) : Mem loc :=
  response ← pack_make_std_response_local query cache_value;
  free_rrs (o_rrs cache_value) ≫= λ _,
  code ← query_post_validate response code;
  if negb (bool_decide (code = RCODE_NOERROR)) then
    pack_free (Some response) ≫= λ _, make_response_fail query code
  else mret response.

Definition answer_query (now : Z) g (query : loc) :
    Mem (PacketDirection * option loc * option (Cache.DnsCache M)) :=
  '(code, g) ← query_pre_validate now g query;
  if negb (bool_decide (code = RCODE_NOERROR)) then
    response ← make_response_fail query code; mret (CLIENT, Some response, g)
  else
    pack ← get_packet (Some query);
    question ← vector_get (p_questions pack) 0;
    q ← get_question question;
    '(cache_value, g) ← dns_cache_get now g (q_name q) 0 (q_type q) (q_class q);
    match cache_value with
    | None =>
        if negb (RD_GET (flags (p_header pack)) =? 0) then mret (UPSTREAM, None, g)
        else response ← make_response_empty query; mret (CLIENT, Some response, g)
    | Some cache_value =>
        response ← answer_with query cache_value code; mret (CLIENT, Some response, g)
    end.

(** The direction, and the response when it is [CLIENT]. *)
Definition pack_try_response_local (now : Z) g (query : loc) :
    Mem (PacketDirection * option loc * option (Cache.DnsCache M)) :=
  pack ← get_packet (Some query);
  let opcode := OPCODE_GET (flags (p_header pack)) in
  if opcode =? opcode_value QUERY then
    if qcount (p_header pack) >? 1 then
      response ← make_response_fail query RCODE_NOTIMP; mret (CLIENT, Some response, g)
    else if qcount (p_header pack) =? 0 then
      response ← make_response_empty query; mret (CLIENT, Some response, g)
    else answer_query now g query
  else if opcode =? opcode_value IQUERY then
    response ← make_response_fail query RCODE_NOTIMP; mret (CLIENT, Some response, g)
  else if opcode =? opcode_value STATUS then
    response ← make_response_status query; mret (CLIENT, Some response, g)
  else response ← make_response_empty query; mret (CLIENT, Some response, g).
End operations.

(** ** The tests of records *)

Section access.
Context `{Allocator, Garbage}.
Implicit Types (p : option loc) (l : loc).

Lemma rr_blocked_at l r (Φ : bool → mprop) :
  rr_ok r → rr_at l r -∗ (rr_at l r -∗ Φ (Resolver.blocking r)) -∗ wp (rr_blocked (Some l)) Φ.
Proof.
  iIntros (Hr) "(%n & %d & Hl & Hn & Hd) HΦ". unfold rr_blocked.
  wp_apply (get_record_spec with "Hl"). iIntros "Hl". cbn [r_type r_data r_length].
  pose proof (Resolver.rr_blocked_spec r Hr) as E. unfold Resolver.rr_blocked in E.
  destruct (_ || _).
  - wp_apply (get_bytes_spec with "Hd"). iIntros "Hd". iApply wp_lift_ret; [exact E|].
    iApply "HΦ". iExists n, d. iFrame.
  - destruct (Resolver.blocking r); [done|]. iApply wp_ret. iApply "HΦ". iExists n, d. iFrame.
Qed.

Lemma answers_loop_at n i p rs (Φ : bool → mprop) :
  Forall rr_ok rs → (i + n ≤ length rs)%nat →
  vector_at rr_at p rs -∗ (vector_at rr_at p rs -∗ Φ (existsb Resolver.blocking (take n (drop i rs)))) -∗
  wp (answers_loop n (Z.of_nat i) p) Φ.
Proof.
  intros Hrs. revert i. induction n as [|n IH]; iIntros (i Hi) "Hp HΦ"; cbn [answers_loop].
  { iApply wp_ret. by iApply "HΦ". }
  destruct (lookup_lt_is_Some_2 rs i) as [r Hr]; [lia|]. rw (drop_S _ _ _ Hr). cbn [take existsb].
  wp_apply (wp_vector_at with "Hp"); [exact Hr|]. iIntros (l) "Hl Hp".
  wp_apply (rr_blocked_at with "Hl"); [by eapply Forall_lookup_1|]. iIntros "Hl". iSpecialize ("Hp" with "Hl").
  destruct (Resolver.blocking r); [iApply wp_ret; by iApply "HΦ"|].
  replace (Z.of_nat i + 1) with (Z.of_nat (S i)) by lia. iApply (IH with "Hp HΦ"). lia.
Qed.

Lemma post_validate_at l v rcode (Φ : Rcode → mprop) :
  pack_ok v → answer_RRs (header v) ≤ Z.of_nat (length (rrs v)) →
  pack_at l v -∗
  (pack_at l v -∗ Φ (if existsb Resolver.blocking (take (Z.to_nat (answer_RRs (header v))) (rrs v))
                     then RCODE_NXDOMAIN else rcode)) -∗
  wp (query_post_validate l rcode) Φ.
Proof.
  iIntros ([_ Hrs] Hn) "Hl HΦ". unfold query_post_validate.
  wp_apply (wp_get_pack with "Hl"). iIntros (o) "%Ho (_ & Hl & Hq & Hr)". rw Ho.
  wp_apply (answers_loop_at _ 0 with "Hr"); [done|lia|]. iIntros "Hr". iApply wp_ret. rw drop_0. iApply "HΦ".
  iApply parts_pack. by iFrame.
Qed.

(** The copy of a cached value, tested and released. *)
Lemma blocked_value o r (Φ : bool → mprop) :
  (∀ v, r = Some v → Cache.value_ok v) →
  found_at o r -∗ Φ (match r with Some v => existsb Resolver.blocking (Resolver.value_rrs v) | None => false end) -∗
  wp (match o with
      | Some v => b ← any (o_rrs v) rr_blocked; free_rrs (o_rrs v) ≫= λ _, mret b
      | None => mret false
      end) Φ.
Proof.
  iIntros (Hr) "Ho HΦ". unfold found_at. destruct o as [o|], r as [v|]; [|iDestruct "Ho" as "[]"..|by iApply wp_ret].
  destruct (Hr v eq_refl) as (rs & Hrs & Hok). unfold value_at, Resolver.value_rrs. rw Hrs.
  iDestruct "Ho" as "[_ Ho]".
  wp_apply (any_spec rr_at rr_ok Resolver.blocking with "Ho"); [intros; by apply rr_blocked_at|done|].
  iIntros "Ho". wp_apply (vector_release_spec with "Ho"); [apply rr_free_spec|]. by iApply wp_ret.
Qed.
End access.

(** ** The walk over the parents of a name *)

Section walk.
Context `{Allocator, Garbage} {M : Type} `{!MapOps (list Z) loc M, !MapLaws (list Z) loc M}.
Implicit Types (p : option loc) (g : option (Cache.DnsCache M)) (items : list Cache.item).

(** A lookup, which changes no other one of the same moment. *)
Lemma lookup_items `{!AllocTotal} now cap g items p q off name t cl
    (Φ : option ValueObj * option (Cache.DnsCache M) → mprop) :
  Resolver.items_good items → ptr q off = Ret name → cstring name →
  bytes_at p q -∗ cache_items cap g items -∗
  (∀ o g' items', <affine> ⌜Resolver.items_good items' ∧ Resolver.same_lookups now items items'⌝ -∗
    bytes_at p q -∗ cache_items cap g' items' -∗
    found_at o (Resolver.lookup_value now items (Cache.key_of name t cl)) -∗ Φ (o, g')) -∗
  wp (dns_cache_get now g p off t cl) Φ.
Proof.
  iIntros (Hi Hq (s & -> & Hs)) "Hp Hg HΦ".
  iApply (get_items with "Hp Hg"); [by apply Resolver.items_good_ok|exact Hq| |].
  { apply Cache.key_of_spec. rw (strlen_app s [] Hs). by eexists. }
  iIntros (o g') "Hp Hg Ho". iApply ("HΦ" with "[] Hp Hg Ho"). iPureIntro.
  split; [by apply Resolver.items_good_get|apply Resolver.lookup_stable].
Qed.

Lemma found_ok now items k v :
  Resolver.items_good items → Resolver.lookup_value now items k = Some v → Cache.value_ok v.
Proof. intros Hi Hv. by eapply Resolver.lookup_good. Qed.

(** What one name adds to the walk. *)
Lemma parents_step `{!AllocTotal} fuel now cap g items lq q off name parent
    (Φ : Rcode * option (Cache.DnsCache M) → mprop) :
  ptr (qname q) off = Ret name → cstring name → get_parent_qname (qname q) off = Ret parent →
  Resolver.items_good items → question_at lq q -∗ cache_items cap g items -∗
  (∀ g' items', <affine> ⌜Resolver.items_good items' ∧ Resolver.same_lookups now items items'⌝ -∗
    question_at lq q -∗ cache_items cap g' items' -∗
    if Resolver.name_blocked now items (qtype q) (qclass q) name then Φ (RCODE_NXDOMAIN, g')
    else match parent with
         | Some off => wp (parents_loop fuel now g' (Some lq) off) Φ
         | None => Φ (RCODE_NOERROR, g')
         end) -∗
  wp (parents_loop (S fuel) now g (Some lq) off) Φ.
Proof.
  iIntros (Hq Hname Hparent Hi) "Hl Hg HΦ". cbn [parents_loop].
  wp_apply (wp_get_question with "Hl"). iIntros (n) "Hn Hl". cbn [q_name q_type q_class].
  wp_apply (lookup_items with "Hn Hg"); [done..|].
  iIntros (o g1 items1) "%H1' Hn Hg Ho". iSpecialize ("HΦ" with "[//]").
  wp_apply (blocked_value with "Ho"); [intros v; by apply found_ok|].
  change (match Resolver.lookup_value now items (Cache.key_of name (qtype q) (qclass q)) with
          | Some v => existsb Resolver.blocking (Resolver.value_rrs v) | None => false end)
    with (Resolver.name_blocked now items (qtype q) (qclass q) name).
  destruct (Resolver.name_blocked now items (qtype q) (qclass q) name).
  { iApply wp_ret. iApply ("HΦ" with "[Hn Hl] Hg"). by iApply "Hl". }
  wp_apply (get_bytes_spec with "Hn"). iIntros "Hn". wp_apply wp_lift_ret; [exact Hparent|].
  iSpecialize ("HΦ" with "[Hn Hl] Hg"); [by iApply "Hl"|]. destruct parent; [done|by iApply wp_ret].
Qed.

Lemma parents_loop_at `{!AllocTotal} fuel now cap g items lq q pre l ls
    (Φ : Rcode * option (Cache.DnsCache M) → mprop) :
  qname q = pre ++ wire_name (l :: ls) → Forall label_wf (l :: ls) →
  (length ls < fuel)%nat → Resolver.items_good items →
  question_at lq q -∗ cache_items cap g items -∗
  (∀ g' items', <affine> ⌜Resolver.items_good items' ∧ Resolver.same_lookups now items items'⌝ -∗
    question_at lq q -∗ cache_items cap g' items' -∗
    Φ (if existsb (Resolver.name_blocked now items (qtype q) (qclass q)) (Resolver.ancestors (l :: ls))
       then RCODE_NXDOMAIN else RCODE_NOERROR, g')) -∗
  wp (parents_loop fuel now g (Some lq) (Z.of_nat (length pre))) Φ.
Proof.
  revert g items pre l ls. induction fuel as [|fuel IH]; [lia|]. intros g items pre l ls Hq Hls Hf Hi.
  iIntros "Hl Hg HΦ". cbn [Resolver.ancestors existsb].
  iApply (parents_step with "Hl Hg"); [by rw Hq ptr_app|by apply Resolver.wire_name_cstring|
    rw Hq; exact (Resolver.get_parent_spec pre l ls [] Hls)|done|].
  iIntros (g1 items1 [Hi1 Hs1]) "Hl Hg".
  destruct (Resolver.name_blocked now items (qtype q) (qclass q) (wire_name (l :: ls))); cbn [orb].
  { iApply ("HΦ" with "[//] Hl Hg"). }
  destruct ls as [|l' ls]; [iApply ("HΦ" with "[//] Hl Hg")|].
  iApply (IH g1 items1 (pre ++ wire_label l) l' ls with "Hl Hg").
  - rw Hq. unfold wire_name, wire_label. rw (wire_cons l) -!app_assoc. cbn [app]. by rw -!app_assoc.
  - by apply Forall_cons in Hls as [_ ?].
  - cbn in Hf. lia.
  - done.
  - iIntros (g2 items2 [Hi2 Hs2]) "Hl Hg". rw (Resolver.existsb_same _ _ _ _ _ _ Hs1).
    iApply ("HΦ" with "[] Hl Hg"). iPureIntro. split; [done|]. by eapply Resolver.same_lookups_trans.
Qed.

Lemma labels_short ls : (length ls ≤ length (wire ls))%nat.
Proof. induction ls as [|l ls IH]; [done|]. rw wire_cons. cbn. rw length_app. lia. Qed.

Lemma pre_validate_at `{!AllocTotal} now cap g items lp query q ls
    (Φ : Rcode * option (Cache.DnsCache M) → mprop) :
  questions query = [q] → qname q = wire_name ls → Forall label_wf ls → Resolver.items_good items →
  pack_at lp query -∗ cache_items cap g items -∗
  (∀ g' items', <affine> ⌜Resolver.items_good items' ∧ Resolver.same_lookups now items items'⌝ -∗
    pack_at lp query -∗ cache_items cap g' items' -∗
    Φ (if existsb (Resolver.name_blocked now items (qtype q) (qclass q)) (Resolver.visited ls)
       then RCODE_NXDOMAIN else RCODE_NOERROR, g')) -∗
  wp (query_pre_validate now g lp) Φ.
Proof.
  iIntros (Hqs Hq Hls Hi) "Hp Hg HΦ". unfold query_pre_validate.
  wp_apply (wp_get_pack with "Hp"). iIntros (o) "%Ho (_ & Hp & Hqs & Hr)". rw Hqs.
  wp_apply (wp_vector_at _ _ _ 0 q with "Hqs"); [done|]. iIntros (lq) "Hl Hqs".
  wp_apply (wp_get_question with "Hl"). iIntros (n) "(%nl & -> & Hn) Hl". cbn [q_name].
  wp_apply (get_bytes_spec (Some nl) with "[Hn]"); [iExists nl; by iFrame|]. iIntros "Hn". iSpecialize ("Hl" with "Hn").
  iAssert (∀ g' items', <affine> ⌜Resolver.items_good items' ∧ Resolver.same_lookups now items items'⌝ -∗
    question_at lq q -∗ cache_items cap g' items' -∗
    Φ (if existsb (Resolver.name_blocked now items (qtype q) (qclass q)) (Resolver.visited ls)
       then RCODE_NXDOMAIN else RCODE_NOERROR, g'))%I with "[HΦ Hp Hqs Hr]" as "HΦ".
  { iIntros (g' items' Hs) "Hl Hg". iApply ("HΦ" with "[//] [-Hg] Hg"). iApply (parts_pack _ o).
    unfold parts_at. rw Hqs. iSplit; [done|]. iFrame. by iApply "Hqs". }
  destruct ls as [|l ls].
  - iApply (parents_step _ _ _ _ _ _ _ _ [0] None with "Hl Hg");
      [by rw Hq|by apply (Resolver.wire_name_cstring [])|by rw Hq|done|].
    iIntros (g' items' Hs) "Hl Hg". iSpecialize ("HΦ" with "[//] Hl Hg").
    cbn [Resolver.visited existsb]. change (wire_name []) with [0].
    by destruct (Resolver.name_blocked now items (qtype q) (qclass q) [0]).
  - iApply (parents_loop_at _ _ _ _ _ _ _ [] with "Hl Hg HΦ"); [exact Hq|done| |done].
    rw Hq. unfold wire_name. rw wire_cons. cbn. rw !length_app. pose proof (labels_short ls). lia.
Qed.
End walk.

(** ** Answers *)

(** The value an answer is taken from, if it is taken from one. *)
Definition answering_value (now : Z) (items : list Cache.item) (query : DnsPacket) (ls : list (list Z)) :
    option Cache.CacheValue :=
  match questions query with
  | [q] =>
      if (OPCODE_GET (flags (header query)) =? 0) &&
         negb (existsb (Resolver.name_blocked now items (qtype q) (qclass q)) (Resolver.visited ls))
      then Resolver.lookup_value now items (Cache.key_of (qname q) (qtype q) (qclass q))
      else None
  | _ => None
  end.

(** The vectors a local response costs. *)
Definition response_cost (now : Z) (items : list Cache.item) (query : DnsPacket) (ls : list (list Z)) : nat :=
  match answering_value now items query ls with Some _ => 2%nat | None => 1%nat end.

(** The response made, and what making it has lost. *)
Definition answer_at (cost : nat) (response : option loc) (answer : option DnsPacket) : mprop :=
  match response, answer with
  | Some l, Some v => pack_at l v ∗ lost_vectors cost
  | None, None => emp
  | _, _ => False
  end%I.

Section answers.
Context `{Allocator, Garbage} {M : Type} `{!MapOps (list Z) loc M, !MapLaws (list Z) loc M}.
Implicit Types (p : option loc) (l : loc) (g : option (Cache.DnsCache M)) (items : list Cache.item).

Lemma one_lost : lost_vector ⊢ lost_vectors 1.
Proof. unfold lost_vectors. by iIntros "$". Qed.
Lemma two_lost : lost_vector -∗ lost_vector -∗ lost_vectors 2.
Proof. unfold lost_vectors. iIntros "$ $". by iFrame. Qed.

Lemma fail_at `{!AllocTotal} l query rcode (Φ : loc → mprop) :
  pack_ok query → pack_at l query -∗
  (∀ l', pack_at l query -∗ answer_at 1 (Some l') (Some (Resolver.reply query rcode)) -∗ Φ l') -∗
  wp (make_response_fail l rcode) Φ.
Proof.
  iIntros (Hq) "Hl HΦ". iApply (make_response_fail_spec with "Hl"); [done|].
  iIntros (l' w) "%Hw Hl Hl' Hlost". rw (Resolver.make_response_fail_reply _ _ Hq) in Hw. injection Hw as <-.
  iApply ("HΦ" with "Hl"). iSplitL "Hl'"; [done|by iApply one_lost].
Qed.

Lemma empty_answer_at `{!AllocTotal} l query (Φ : loc → mprop) :
  pack_ok query → pack_at l query -∗
  (∀ l', pack_at l query -∗ answer_at 1 (Some l') (Some (Resolver.reply query RCODE_NOERROR)) -∗ Φ l') -∗
  wp (make_response_empty l) Φ.
Proof.
  iIntros (Hq) "Hl HΦ". iApply (make_response_empty_spec with "Hl"); [done|].
  iIntros (l' w) "%Hw Hl Hl' Hlost". rw (Resolver.make_response_empty_reply _ Hq) in Hw. injection Hw as <-.
  iApply ("HΦ" with "Hl"). iSplitL "Hl'"; [done|by iApply one_lost].
Qed.

Lemma answer_with_at `{!AllocTotal} l query o v (Φ : loc → mprop) :
  pack_ok query → Cache.value_ok v → Resolver.value_counted v →
  existsb Resolver.blocking (Resolver.value_rrs v) = false →
  pack_at l query -∗ value_at o v -∗
  (∀ l', pack_at l query -∗ answer_at 2 (Some l') (Some (Resolver.reply_value query v)) -∗ Φ l') -∗
  wp (answer_with l o RCODE_NOERROR) Φ.
Proof.
  iIntros (Hq Hv (Ha & Hu & Hd & Hn) Hb) "Hl Ho HΦ". unfold answer_with.
  wp_apply (pack_make_std_response_local_spec with "Hl Ho"); [done..|].
  iIntros (l' w) "%Hw Hl Ho Hl' L1 L2". rw (Resolver.std_response_spec _ _ Hq Hv) in Hw. injection Hw as <-.
  pose proof Hv as (rs & Hrs & Hok). unfold value_at. rw Hrs. iDestruct "Ho" as "[_ Ho]".
  wp_apply (vector_release_spec with "Ho"); [apply rr_free_spec|].
  assert (Hw : pack_ok (Resolver.reply_value query v)) by (split; [apply Hq|unfold Resolver.reply_value, Resolver.value_rrs; cbn [rrs]; by rw Hrs]).
  wp_apply (post_validate_at with "Hl'"); [done|cbn; lia|]. iIntros "Hl'". cbn [rrs header answer_RRs].
  rw -(take_drop (Z.to_nat (Cache.v_answer v)) (Resolver.value_rrs v)) existsb_app in Hb.
  apply orb_false_elim in Hb as [Hb _]. unfold Resolver.reply_value. cbn [rrs header answer_RRs]. rw Hb.
  rw bool_decide_true //. iApply wp_ret. iApply ("HΦ" with "Hl"). iSplitL "Hl'"; [done|]. iApply (two_lost with "L1 L2").
Qed.

Lemma answer_query_at `{!AllocTotal} now cap g items l query q ls
    (Φ : PacketDirection * option loc * option (Cache.DnsCache M) → mprop) :
  Resolver.items_good items → Resolver.query_ok query ls → questions query = [q] →
  OPCODE_GET (flags (header query)) = 0 →
  pack_at l query -∗ cache_items cap g items -∗
  (∀ r g' items', <affine> ⌜Resolver.items_good items' ∧ Resolver.same_lookups now items items'⌝ -∗
    pack_at l query -∗ cache_items cap g' items' -∗
    answer_at (response_cost now items query ls) r (Resolver.local_answer now items query ls) -∗
    Φ (Resolver.direction_of (Resolver.local_answer now items query ls), r, g')) -∗
  wp (answer_query now g l) Φ.
Proof.
  iIntros (Hi [Hp Hc Hn] Hqs Hop) "Hl Hg HΦ". destruct (Hn q Hqs) as [Hname Hls]. unfold answer_query.
  wp_apply (pre_validate_at with "Hl Hg"); [done..|]. iIntros (g1 items1 [Hi1 Hs1]) "Hl Hg".
  unfold response_cost, answering_value, Resolver.local_answer. rw Hqs Hop !Z.eqb_refl. cbn [andb].
  destruct (existsb _ (Resolver.visited ls)) eqn:Eb; cbn [negb].
  { rw (bool_decide_false (RCODE_NXDOMAIN = RCODE_NOERROR)) //. cbn [negb].
    wp_apply (fail_at with "Hl"); [done|]. iIntros (l') "Hl Hl'". iApply wp_ret. by iApply ("HΦ" with "[] Hl Hg Hl'"). }
  rw (bool_decide_true (RCODE_NOERROR = RCODE_NOERROR)) //. cbn [negb].
  wp_apply (wp_get_pack with "Hl"). iIntros (o) "%Ho (_ & Hl & Hqs & Hr)". rw Hqs.
  wp_apply (wp_vector_at _ _ _ 0 q with "Hqs"); [done|]. iIntros (lq) "Hlq Hqs".
  wp_apply (wp_get_question with "Hlq"). iIntros (n) "Hnq Hlq". cbn [q_name q_type q_class].
  wp_apply (lookup_items with "Hnq Hg"); [done|exact (ptr_app [] (qname q))|rw Hname; by apply Resolver.wire_name_cstring|].
  iIntros (r g2 items2 [Hi2 Hs2]) "Hnq Hg Hr2". rw (proj1 Hs1).
  iAssert (pack_at l query) with "[Hl Hqs Hr Hlq Hnq]" as "Hl".
  { iApply (parts_pack _ o). unfold parts_at. rw Hqs. iSplit; [done|]. iFrame. iApply "Hqs". by iApply "Hlq". }
  assert (Hs : Resolver.items_good items2 ∧ Resolver.same_lookups now items items2)
    by (split; [exact Hi2|by eapply Resolver.same_lookups_trans]).
  destruct (Resolver.lookup_value now items _) as [v|] eqn:Ev, r as [o'|]; [|iDestruct "Hr2" as "[]"..|].
  - destruct (Resolver.lookup_good _ _ _ _ Hi Ev) as [Hv Hvc].
    wp_apply (answer_with_at with "Hl Hr2"); [done..| |].
    { apply not_true_is_false. intros Hx. apply not_true_iff_false in Eb. apply Eb, existsb_exists.
      exists (wire_name ls). split; [apply list_elem_of_In, Resolver.own_name_visited|].
      unfold Resolver.name_blocked. by rw -Hname Ev. }
    iIntros (l') "Hl Hl'". iApply wp_ret. iApply ("HΦ" with "[//] Hl Hg Hl'").
  - rw Ho. destruct (RD_GET _ =? 0); cbn [negb].
    + wp_apply (empty_answer_at with "Hl"); [done|]. iIntros (l') "Hl Hl'". iApply wp_ret. iApply ("HΦ" with "[//] Hl Hg Hl'").
    + iApply wp_ret. by iApply ("HΦ" with "[//] Hl Hg").
Qed.

Lemma try_response_at `{!AllocTotal} now cap g items l query ls
    (Φ : PacketDirection * option loc * option (Cache.DnsCache M) → mprop) :
  Resolver.items_good items → Resolver.query_ok query ls →
  pack_at l query -∗ cache_items cap g items -∗
  (∀ r g' items', <affine> ⌜Resolver.items_good items' ∧ Resolver.same_lookups now items items'⌝ -∗
    pack_at l query -∗ cache_items cap g' items' -∗
    answer_at (response_cost now items query ls) r (Resolver.local_answer now items query ls) -∗
    Φ (Resolver.direction_of (Resolver.local_answer now items query ls), r, g')) -∗
  wp (pack_try_response_local now g l) Φ.
Proof.
  iIntros (Hi Hq) "Hl Hg HΦ". pose proof Hq as [Hp Hc _]. unfold pack_try_response_local, make_response_status.
  wp_apply (wp_get_pack with "Hl"). iIntros (o) "%Ho Hl". iDestruct (parts_pack with "Hl") as "Hl". rw Ho.
  change (opcode_value QUERY) with 0. change (opcode_value IQUERY) with 1. change (opcode_value STATUS) with 2.
  assert (Hs : Resolver.items_good items ∧ Resolver.same_lookups now items items)
    by (split; [exact Hi|apply Resolver.same_lookups_refl]).
  rw Hc. destruct (Z.eqb_spec (OPCODE_GET (flags (header query))) 0) as [Hop|Hop].
  - destruct (questions query) as [|q [|q' qs]] eqn:Hqs.
    2:{ change (Z.of_nat (length [q]) >? 1) with false. change (Z.of_nat (length [q]) =? 0) with false.
        by iApply (answer_query_at with "Hl Hg HΦ"). }
    all: unfold Resolver.local_answer, response_cost, answering_value; rw Hqs Hop Z.eqb_refl.
    + wp_apply (empty_answer_at with "Hl"); [done|]. iIntros (l') "Hl Hl'". iApply wp_ret. iApply ("HΦ" with "[//] Hl Hg Hl'").
    + rw (proj2 (Z.gtb_lt _ _)); [|cbn [length]; lia].
      wp_apply (fail_at with "Hl"); [done|]. iIntros (l') "Hl Hl'". iApply wp_ret. iApply ("HΦ" with "[//] Hl Hg Hl'").
  - assert (Hcost : response_cost now items query ls = 1%nat).
    { unfold response_cost, answering_value. rw (proj2 (Z.eqb_neq _ _) Hop). by destruct (questions query) as [|? []]. }
    rw Hcost. unfold Resolver.local_answer. rw (proj2 (Z.eqb_neq _ _) Hop).
    destruct (_ =? 1); [|destruct (_ =? 2)]; cbn [orb];
      (wp_apply (fail_at with "Hl") || wp_apply (empty_answer_at with "Hl")); [done| |done| |done|];
      iIntros (l') "Hl Hl'"; iApply wp_ret; iApply ("HΦ" with "[//] Hl Hg Hl'").
Qed.

(** The cache once a response has been relayed. *)
Definition items_after (use_cache now : Z) (cap : nat) (q : SectionQuestion) (recv : DnsPacket) items : list Cache.item :=
  if use_cache =? 0 then items
  else Cache.lru_put now cap (Cache.key_of (qname q) (qtype q) (qclass q)) (Resolver.value_of recv) items.

Lemma response_relay_at `{!AllocTotal} now use_cache cap g items l recv q ls client_id
    (Φ : loc * option (Cache.DnsCache M) → mprop) :
  Resolver.response_ok recv q ls →
  pack_at l recv -∗ cache_items cap g items -∗
  (∀ send g', pack_at l recv -∗ cache_items cap g' (items_after use_cache now cap q recv items) -∗
    pack_at send (set_id recv client_id) -∗ lost_vectors 2 -∗ Φ (send, g')) -∗
  wp (pack_make_response_relay now use_cache g l client_id) Φ.
Proof.
  iIntros ([Hp Hh Hn Hls Hv]) "Hl Hg HΦ". unfold pack_make_response_relay, items_after.
  wp_apply (packet_clone_spec with "Hl"); [done|]. iIntros (send) "Hl Hsend L1 L2".
  wp_apply (set_id_spec with "Hsend"). iIntros "Hsend". iDestruct (two_lost with "L1 L2") as "L".
  destruct (use_cache =? 0); [iApply wp_ret; iApply ("HΦ" with "Hl Hg Hsend L")|].
  wp_apply (wp_get_pack with "Hl"). iIntros (o) "%Ho (_ & Hl & Hqs & Hr)".
  assert (Hq : questions recv !! 0%nat = Some q) by (by destruct (questions recv)).
  wp_apply (wp_vector_at _ _ _ 0 q with "Hqs"); [done|]. iIntros (lq) "Hlq Hqs".
  wp_apply (wp_get_pack with "Hsend"). iIntros (o') "%Ho' Hsend". rw Ho'. iDestruct (parts_pack with "Hsend") as "Hsend".
  wp_apply (wp_get_question with "Hlq"). iIntros (n) "Hnq Hlq". cbn [q_name q_type q_class].
  wp_apply (put_items _ _ _ _ _ _ _ _ _ _ (Resolver.value_of recv) with "Hnq [Hr] Hg").
  - exists (rrs recv). split; [done|apply Hp].
  - apply Cache.key_of_spec. rw Hn. unfold wire_name. rw (strlen_app (wire ls) []); [by eexists|]. by apply wire_no_nul.
  - iSplit; [done|]. iFrame.
  - iIntros (g') "Hnq [_ Hr] Hg". iApply wp_ret. iApply ("HΦ" with "[-Hg Hsend L] Hg Hsend L").
    iApply (parts_pack _ o). iSplit; [done|]. iFrame. iApply "Hqs". by iApply "Hlq".
Qed.

(** ** Property *)

(** C14. The resolver and its memory.  On the heap, with the cache of
    [dns_cache.c] and its entries, the answer the resolver gives to a query is
    the one of [local_answer], as a packet of its own, and nothing else is left:
    the copies of the cache's records that the checks of the name and its
    parents make are released, but for one vector of the answer (two when its
    records come from the cache).  The query is as it was; of the cache, only
    expired entries may be gone.  A response of an upstream server becomes a
    copy with the id of the client, and the cache a copy of its records, when
    caching is on. *)
Theorem resolver_owns_its_memory `{!AllocTotal} (now use_cache : Z) (cap : nat) g items l (query : DnsPacket) ls
    lr (recv : DnsPacket) (q : SectionQuestion) ls' (client_id : Z) :
  Resolver.items_good items → Resolver.query_ok query ls → Resolver.response_ok recv q ls' →
  takes_to (pack_try_response_local now g l) (pack_at l query ∗ cache_items cap g items)%I
    (λ '(d, r, g'), ∃ items', <affine> ⌜d = Resolver.direction_of (Resolver.local_answer now items query ls) ∧
        Resolver.items_good items' ∧ Resolver.same_lookups now items items'⌝ ∗
      pack_at l query ∗ cache_items cap g' items' ∗
      answer_at (response_cost now items query ls) r (Resolver.local_answer now items query ls))%I ∧
  takes_to (pack_make_response_relay now use_cache g lr client_id) (pack_at lr recv ∗ cache_items cap g items)%I
    (λ '(send, g'), pack_at lr recv ∗ cache_items cap g' (items_after use_cache now cap q recv items) ∗
      pack_at send (set_id recv client_id) ∗ lost_vectors 2)%I.
Proof.
  intros Hi Hq Hr. split; apply takes_to_wp; iIntros "[Hl Hg]".
  - iApply (try_response_at with "Hl Hg"); [done..|]. iIntros (r g' items' [? ?]) "Hl Hg Ha".
    iExists items'. by iFrame.
  - iApply (response_relay_at with "Hl Hg"); [done|]. iIntros (send g') "Hl Hg Hs L". iFrame.
Qed.
End answers.

(** ** A query that goes upstream, with the cache empty *)

Section witness.
#[local] Existing Instance always.
#[local] Existing Instance always_total.
#[local] Instance demo_garbage : Garbage := 0xDEAD.
Abbreviation ctable := (HashMap.HashMap (list Z) loc).
#[local] Instance demo_ops : MapOps (list Z) loc ctable := @HashMap.str_table_ops always loc.
#[local] Instance demo_laws : MapLaws (list Z) loc ctable := @HashMap.str_table_laws always always_total loc.

Lemma demo_query_named : Resolver.query_ok demo_query [[97]].
Proof.
  split; [exact demo_query_ok|done|]. intros q [= <-]. split; [done|]. apply Forall_singleton. by_compute.
Qed.

Lemma resolver_owns_its_memory_witness :
  ∃ (g g' : option (Cache.DnsCache ctable)) s s',
    cache_create (demo_store query_cells) = Ret (g, s) ∧
    pack_try_response_local 5 g 1 s = Ret ((UPSTREAM, None, g'), s').
Proof.
  destruct (wp_run (cache_create (M := ctable)) (pack_at 1 demo_query)
    (λ r, pack_at 1 demo_query ∗ cache_items 1024 r [])%I (demo_store query_cells) ∅) as (g & s & E & Hs).
  { iIntros "Hp". iApply create_items. iIntros ([c|]) "Hc"; [by iFrame|]. iDestruct "Hc" as %Hno. by destruct Hno. }
  { apply (owns_mono _ _ _ _ query_at), cells_owned; by_compute. }
  destruct (resolver_owns_its_memory (M := ctable) 5 1 1024 g [] 1 demo_query [[97]] 6 Resolver.demo_reply
    Resolver.demo_question Resolver.demo_labels 7) as [Htry _];
    [constructor|exact demo_query_named|exact Resolver.demo_reply_ok|].
  destruct (Htry s ∅ Hs) as ([[d r] g'] & s' & E' & [items' Hs']%owns_exist).
  apply owns_pure in Hs' as [(-> & _) Hs']. change (Resolver.local_answer 5 [] demo_query [[97]]) with (@None DnsPacket) in Hs', E'.
  exists g, g', s, s'. split; [exact E|]. destruct r; [|exact E'].
  exfalso. destruct Hs' as (_ & h & _ & _ & h1 & h2 & _ & _ & _ & h3 & h4 & _ & _ & _ & []).
Defined.
End witness.
End ResolverHeap.
