(* ===== verification/Settings.v ===== *)
(** * What the modules read from the configuration

    The parsers of [src/infra/logger.c], [src/dns/dns_resolver.c] and
    [src/server/server.c], the reading of the settings when the modules are
    initialised, and the command line of [src/main.c]. *)

From Stdlib Require String.
From S2P Require Import Prelude LinkedList CString TextFile MapInterface HashMap Config Utils Protocol Socket.
Import Config Utils Protocol Socket.
Import String.StringSyntax.

Module Settings.

(** ** Strings *)

Definition tolower (c : Z) : Z := if (65 <=? c) && (c <=? 90) then c + 32 else c.
(** [strcmp(a, b) == 0] and [strcasecmp(a, b) == 0] *)
Definition same (a b : list Z) : bool := bool_decide (a = b).
Definition same_case (a b : list Z) : bool := bool_decide (tolower <$> a = tolower <$> b).

(** ** Values *)

Inductive stream := Stdout | Stderr | File (path : list Z).

(** What the parsers put in a [T]: a number, a list of servers, a stream. *)
Inductive setting :=
| Num (z : Z)
| Servers (l : option (LinkedList.LinkedList NetEnd))
| Channel (s : stream).

(** [fopen] with mode ["w"], and with mode ["a+"] *)
Class Files := { can_write : list Z → bool; can_append : list Z → bool }.

(** ** [logger.c] *)

Definition TRACE : Z := 0.
Definition DEBUG : Z := 1.
Definition INFO : Z := 2.
Definition WARN : Z := 3.
Definition ERROR : Z := 4.
Definition LEVEL_STR : list (list Z) :=
  [lit "TRACE"; lit "DEBUG"; lit "INFO"; lit "WARN"; lit "ERROR"].
Definition LEVEL_NUM : Z := 5.
Definition LOG_SECTION : list Z := lit "log".
Definition KEY_LOG_LEVEL : list Z := lit "log_level".

(** The static variables; a channel [None] is NULL. *)
Record logger := MkLogger { logging_level : Z; output_channels : list (option stream) }.
Definition logger_start : logger := MkLogger INFO (replicate 5 None).

(** [while (level < LEVEL_NUM && strcasecmp(LEVEL_STR[level], value) != 0) level++] *)
Fixpoint find_level (names : list (list Z)) (value : list Z) (level : Z) : Z :=
  match names with
  | [] => level
  | n :: names => if same_case n value then level else find_level names value (level + 1)
  end.

Definition open_channel `{Files} (value : list Z) : Res stream :=
  if same_case value (lit "stdout") then Ret Stdout
  else if same_case value (lit "stderr") then Ret Stderr
  else if negb (can_write value) then UB (* fclose(NULL) *)
  else Ret (if can_append value then File value else Stdout).

(** The loop over the levels; every level with the name [key] opens the channel. *)
Fixpoint open_channels `{Files} (names : list (list Z)) (key value : list Z)
    (result : option setting) : Res (option setting) :=
  match names with
  | [] => Ret result
  | n :: names =>
      result ← (if same_case n key then s ← open_channel value; Ret (Some (Channel s))
                else Ret result);
      open_channels names key value result
  end.

Definition log_config_parser `{Files} : ConfigParser setting := λ key value,
  if same key KEY_LOG_LEVEL then
    let level := find_level LEVEL_STR value TRACE in
    Ret (0, Some (Num (if level <? LEVEL_NUM then level else INFO)))
  else
    result ← open_channels LEVEL_STR key value None;
    Ret (0, result).

(** What a line of the log goes to; nothing below the level of the logger. *)
Definition do_log (lg : logger) (level : Z) (line : list Z) : Res (option (stream * list Z)) :=
  if level <? logging_level lg then Ret None
  else channel ← rd (output_channels lg) level; s ← nonnull channel; Ret (Some (s, line)).

(** ** [dns_resolver.c] *)

Definition SECTION_DNS_RESOLVER : list Z := lit "dnsresolver".
Definition KEY_USE_CACHE : list Z := lit "usecache".
Definition VALUE_DEFAULT_USE_CACHE : Z := 1.

(** [strcasecmp] is not 0 when the key is another one. *)
Definition dns_resolver_config_parser : ConfigParser setting := λ key value,
  if negb (same_case key KEY_USE_CACHE) then
    n ← atoi value;
    if negb (n =? 0) && negb (n =? 1) then Ret (1, Some (Num 1)) else Ret (0, Some (Num n))
  else Ret (0, None).

(** ** [server.c] *)

Definition SERV_SECTION : list Z := lit "server".
Definition KEY_PACKET_TIMEOUT : list Z := lit "dns_packet_timeout".
Definition KEY_MAX_RETRY_TIME : list Z := lit "max_retry_time".
Definition KEY_UPSTREAMS : list Z := lit "server_upstream".
Definition VALUE_DEFAULT_REQUEST_TIMEOUT : Z := 3000.
Definition VALUE_DEFAULT_MAX_RETRY_TIME : Z := 2.
Definition SERVER_PORT : Z := 53.
Definition ITEM_SIZE : Z := 64.
Definition comma : Z := 44.

Definition validate_ipstr (ipstr : list Z) : Z :=
  if same_case ipstr (lit "localhost") || same_case ipstr (lit "127.0.0.1") ||
     same_case ipstr (lit "::1") then 1 else 0.

Section server_parser.
Context `{Allocator, InetPton}.

Definition with_port (e : NetEnd) (p : Z) : NetEnd := MkEnd (addr e) (version e) p.

(** The body of the [if]: [item] is [value[i..j)], copied into an array of 64
    bytes.  [None]: return -1. *)
Definition add_server (item : list Z) (ups : option (LinkedList.LinkedList NetEnd)) :
    Res (option (option (LinkedList.LinkedList NetEnd))) :=
  if Z.of_nat (length item) <? ITEM_SIZE then
    if negb (validate_ipstr item =? 0) then Ret None
    else
      e ← ipstr2binary item;
      ups ← match ups with
            | Some l =>
                l ← LinkedList.linked_list_addFirst l (with_port e (h2n_2 SERVER_PORT));
                Ret (Some l)
            | None => Ret None
            end;
      Ret (Some ups)
  else UB.

(** [for (; j < vl; ++j)]; [rest] is [value] from [j] on, without its NUL, and
    [item] what lies between [i] and [j]. *)
Fixpoint servers_loop (rest item : list Z) (ups : option (LinkedList.LinkedList NetEnd)) :
    Res (option (option (LinkedList.LinkedList NetEnd))) :=
  match rest with
  | [] => add_server item ups
  | c :: rest =>
      if c =? comma then
        added ← add_server item ups;
        match added with
        | None => Ret None
        | Some ups => servers_loop rest [] ups
        end
      else servers_loop rest (item ++ [c]) ups
  end.

Definition server_config_parser : ConfigParser setting := λ key value,
  if same key KEY_UPSTREAMS then
    match value with
    | [] => Ret (0, None)
    | c :: rest =>
        ups ← servers_loop (if c =? comma then rest else value) []
                LinkedList.linked_list_create;
        match ups with
        | None => Ret (-1, None)
        | Some ups => Ret (0, Some (Servers ups))
        end
    end
  else if same key KEY_MAX_RETRY_TIME then n ← atol value; Ret (0, Some (Num n))
  else if same key KEY_PACKET_TIMEOUT then n ← atol value; Ret (0, Some (Num n))
  else Ret (-1, None).

(** The end points are freed, the list stays. *)
Definition server_config_cleaner : ConfigCleaner setting := λ key value,
  if same key KEY_UPSTREAMS then
    match value with
    | Parsed (Servers (Some l)) => LinkedList.linked_list_foreach l (λ _ u, Ret u) tt
    | Parsed (Servers None) | Parsed (Num 0) => Ret tt
    | _ => UB
    end
  else Ret tt.
End server_parser.

(** ** Reading the settings *)

Section init.
Context `{Allocator, Platform, Files, InetPton} {MS ME : Type}.
Context `{!MapOps (list Z) loc MS, !MapOps (list Z) loc ME}.
Abbreviation center := (config setting MS ME).
Implicit Types (st : center).

(** [config_get(section, key, &x)]: [x] changes when there is a value. *)
Definition ask {X} (section key : list Z) (convert : T setting → Res X) (x : X) st :
    Res (X * center) :=
  '(_, v, st) ← config_get section key true st;
  x ← match v with Some v => convert v | None => Ret x end;
  Ret (x, st).

(** The stored pointer read as a number, an [int], a stream, a list: another
    kind of value is used as what it is not. *)
Definition as_num (v : T setting) : Res Z :=
  match v with Parsed (Num z) => Ret z | _ => UB end.
Definition as_int (v : T setting) : Res Z := z ← as_num v; wide_store z.
Definition as_stream (v : T setting) : Res (option stream) :=
  match v with Parsed (Channel s) => Ret (Some s) | _ => UB end.
Definition as_servers (v : T setting) : Res (option (LinkedList.LinkedList NetEnd)) :=
  match v with Parsed (Servers l) => Ret l | _ => UB end.
(** The text itself, which [config_get] gives when no parser is registered. *)
Definition as_text (v : T setting) : Res (list Z) :=
  match v with Text s => Ret s | _ => UB end.

(** [for (i = logging_level; i < LEVEL_NUM; i++)] *)
Fixpoint channels_loop (n : nat) (i : Z) (channels : list (option stream)) st :
    Res (list (option stream) * center) :=
  match n with
  | O => Ret (channels, st)
  | S n =>
      channels ← blit channels i [Some Stdout];
      name ← rd LEVEL_STR i;
      '(c, st) ← ask LOG_SECTION name as_stream (Some Stdout) st;
      channels ← blit channels i [c];
      channels_loop n (i + 1) channels st
  end.

Definition logger_init (lg : logger) st : Res (Z * logger * center) :=
  st ← config_register_parser LOG_SECTION log_config_parser st;
  '(level, st) ← ask LOG_SECTION KEY_LOG_LEVEL as_int (logging_level lg) st;
  '(channels, st) ← channels_loop (Z.to_nat (LEVEL_NUM - level)) level (output_channels lg) st;
  Ret (0, MkLogger level channels, st).

(** The return code says whether the value was refused. *)
Definition dns_resolver_init (use_cache : Z) st : Res (Z * Z * center) :=
  st ← config_register_parser SECTION_DNS_RESOLVER dns_resolver_config_parser st;
  '(rc, v, st) ← config_get SECTION_DNS_RESOLVER KEY_USE_CACHE true st;
  use_cache ← match v with Some v => as_int v | None => Ret use_cache end;
  Ret (if rc =? -1 then 1 else 0, use_cache, st).

(** The first part of [server_start]: the timeout, the number of retries, the
    upstream servers. *)
Definition server_settings (timeout retries : Z) (ups : option (LinkedList.LinkedList NetEnd)) st :
    Res (Z * Z * option (LinkedList.LinkedList NetEnd) * center) :=
  st ← config_register_parser SERV_SECTION server_config_parser st;
  st ← config_register_cleaner SERV_SECTION server_config_cleaner st;
  '(timeout, st) ← ask SERV_SECTION KEY_PACKET_TIMEOUT as_num timeout st;
  '(retries, st) ← ask SERV_SECTION KEY_MAX_RETRY_TIME as_int retries st;
  '(ups, st) ← ask SERV_SECTION KEY_UPSTREAMS as_servers ups st;
  Ret (timeout, retries, ups, st).

(** ** The command line *)

Definition option_config : list Z := lit "-c".
Definition option_debug : list Z := lit "-d".
Definition option_trace : list Z := lit "-dd".
Definition IPS_SIZE : Z := 1024.

(** The arguments without the name of the program.  The return code, and the
    name of the file when it is given. *)
Fixpoint param_get_config_file (argv : list (list Z)) (config_file : list Z) : Z * list Z :=
  match argv with
  | [] => (1, config_file)
  | a :: argv =>
      if same a option_config then
        match argv with [] => (1, config_file) | f :: _ => (0, f) end
      else param_get_config_file argv config_file
  end.

(** [strcat], into the array of 1024 bytes *)
Definition strcat (dst s : list Z) : Res (list Z) :=
  if Z.of_nat (length (dst ++ s)) <? IPS_SIZE then Ret (dst ++ s) else UB.

(** [skip] is set by an option that takes the next argument. *)
Fixpoint params_loop (argv : list (list Z)) (skip : bool) (ips : list Z) st :
    Res (list Z * center) :=
  match argv with
  | [] => Ret (ips, st)
  | a :: argv =>
      if skip then params_loop argv false ips st
      else if same a option_debug then
        '(_, st) ← config_set LOG_SECTION KEY_LOG_LEVEL (Parsed (Num DEBUG)) st;
        params_loop argv false ips st
      else if same a option_trace then
        '(_, st) ← config_set LOG_SECTION KEY_LOG_LEVEL (Parsed (Num TRACE)) st;
        params_loop argv false ips st
      else if same a option_config then params_loop argv true ips st
      else
        ips ← strcat ips [comma];
        ips ← strcat ips a;
        params_loop argv false ips st
  end.

Definition param_inject_config (argv : list (list Z)) st : Res (Z * center) :=
  '(ips, st) ← params_loop argv false [] st;
  match ips with
  | [] => Ret (0, st)
  | _ => '(_, st) ← config_inject SERV_SECTION KEY_UPSTREAMS ips st; Ret (0, st)
  end.
End init.

(** ** The list of upstream servers *)

(** The text of a server of a list, and the end point it stands for. *)
Record server_ok `{InetPton} (item : list Z) (e : NetEnd) : Prop := {
  so_plain : Forall (λ c, c ≠ comma) item;
  so_short : Z.of_nat (length item) < ITEM_SIZE;
  so_remote : validate_ipstr item = 0;
  so_end : ipstr2binary item = Ret e;
}.

(** The servers as the command line gives them: each behind a comma. *)
Definition server_text (items : list (list Z)) : list Z := concat ((λ i, comma :: i) <$> items).
Definition on_port_53 (e : NetEnd) : NetEnd := with_port e (h2n_2 SERVER_PORT).

Section servers.
Context `{AllocTotal, InetPton}.

Lemma servers_loop_scan s rest item ups :
  Forall (λ c, c ≠ comma) s → servers_loop (s ++ rest) item ups = servers_loop rest (item ++ s) ups.
Proof.
  intros Hs. revert item. induction Hs as [|c s Hc _ IH]; intros item; [by rewrite app_nil_r|].
  simpl. rewrite (proj2 (Z.eqb_neq _ _)) by done. rewrite IH. by rewrite <- app_assoc.
Qed.

Lemma add_server_spec item e (l : LinkedList.LinkedList NetEnd) cs :
  server_ok item e → LinkedList.ll_rep l cs →
  ∃ l' p, add_server item (Some l) = Ret (Some (Some l')) ∧
    LinkedList.ll_rep l' ((p, on_port_53 e) :: cs).
Proof using All.
  intros [_ Hs Hr He] Hl. unfold add_server. rewrite (proj2 (Z.ltb_lt _ _)) by done.
  rewrite Hr, He. cbn [negb Z.eqb mbind Res_bind].
  destruct (LinkedList.linked_list_addFirst_spec _ _ (on_port_53 e) Hl (malloc_total _))
    as (l' & p & E & Hl').
  exists l', p. unfold on_port_53 in E. rewrite E. done.
Qed.

(** A text that is not taken: the address of this host, or no address at all. *)
Record server_bad (item : list Z) (r : Res (option (option (LinkedList.LinkedList NetEnd)))) : Prop := {
  sb_plain : Forall (λ c, c ≠ comma) item;
  sb_short : Z.of_nat (length item) < ITEM_SIZE;
  sb_refused : validate_ipstr item ≠ 0 ∧ r = Ret None ∨
               validate_ipstr item = 0 ∧ inet_pton4 item = None ∧ inet_pton6 item = None ∧ r = UB;
}.

Lemma servers_loop_bad bad r more (l : LinkedList.LinkedList NetEnd) :
  server_bad bad r → servers_loop (bad ++ concat ((λ i, comma :: i) <$> more)) [] (Some l) = r.
Proof using All.
  intros [Hc Hs Hv]. rewrite servers_loop_scan by done. cbn [app].
  assert (E : add_server bad (Some l) = r).
  { unfold add_server, ipstr2binary. rewrite (proj2 (Z.ltb_lt _ _)) by done.
    destruct Hv as [[Hv ->]|(Hv & E4 & E6 & ->)]; [by rewrite (proj2 (Z.eqb_neq _ _) Hv)|].
    by rewrite Hv, E4, E6. }
  assert (Hr : r = Ret None ∨ r = UB) by (destruct Hv as [[? ->]|(? & ? & ? & ->)]; auto).
  destruct more as [|m more]; cbn [fmap list_fmap concat app servers_loop]; [done|].
  rewrite Z.eqb_refl, E. by destruct Hr as [-> | ->].
Qed.

Lemma servers_loop_spec items es item e (l : LinkedList.LinkedList NetEnd) cs :
  server_ok item e → Forall2 server_ok items es → LinkedList.ll_rep l cs →
  ∃ l' cs', servers_loop (server_text items) item (Some l) = Ret (Some (Some l')) ∧
    LinkedList.ll_rep l' cs' ∧ cs'.*2 = reverse (on_port_53 <$> e :: es) ++ cs.*2.
Proof using All.
  intros Hi Hitems. revert item e l cs Hi. induction Hitems as [|x y items es Hx _ IH];
    intros item e l cs Hi Hl.
  - destruct (add_server_spec _ _ _ _ Hi Hl) as (l' & p & E & Hl').
    exists l', ((p, on_port_53 e) :: cs). split_and!; [exact E|done|done].
  - destruct (add_server_spec _ _ _ _ Hi Hl) as (l1 & p & E & Hl1).
    unfold server_text. cbn [fmap list_fmap concat app servers_loop].
    rewrite Z.eqb_refl, E. cbn [mbind Res_bind].
    rewrite servers_loop_scan by apply Hx. cbn [app].
    destruct (IH x y l1 _ Hx Hl1) as (l' & cs' & E' & Hl' & Hcs). exists l', cs'.
    split_and!; [exact E'|done|]. rewrite Hcs. cbn [fmap list_fmap snd].
    by rewrite !reverse_cons, <- !app_assoc.
Qed.

Lemma upstreams_parsed items es :
  Forall2 server_ok items es → items ≠ [] →
  ∃ l cs, server_config_parser KEY_UPSTREAMS (server_text items) = Ret (0, Some (Servers (Some l))) ∧
    LinkedList.ll_rep l cs ∧ cs.*2 = reverse (on_port_53 <$> es).
Proof using All.
  intros Hitems Hne. destruct Hitems as [|x y items es Hx Hitems]; [done|].
  unfold server_config_parser, same. rewrite bool_decide_true by done.
  unfold server_text. cbn [fmap list_fmap concat app]. rewrite Z.eqb_refl.
  destruct (LinkedList.linked_list_create (A := NetEnd)) as [l0|] eqn:El.
  2: { unfold LinkedList.linked_list_create in El. by rewrite malloc_total in El. }
  rewrite servers_loop_scan by apply Hx. cbn [app].
  destruct (servers_loop_spec items es x y l0 [] Hx Hitems (LinkedList.ll_rep_create _ El))
    as (l & cs & E & Hl & Hcs).
  unfold server_text in E. rewrite E. cbn [mbind Res_bind]. exists l, cs.
  rewrite app_nil_r in Hcs. done.
Qed.

(** One bad text decides, whatever was read before. *)
Lemma servers_loop_refused items es item e (l : LinkedList.LinkedList NetEnd) cs bad r more :
  server_ok item e → Forall2 server_ok items es → LinkedList.ll_rep l cs → server_bad bad r →
  servers_loop (server_text (items ++ bad :: more)) item (Some l) = r.
Proof using All.
  intros Hi Hitems. revert item e l cs Hi. induction Hitems as [|x y items es Hx _ IH];
    intros item e l cs Hi Hl Hbad;
    destruct (add_server_spec _ _ _ _ Hi Hl) as (l' & p & E & Hl');
    unfold server_text; cbn [fmap list_fmap concat app servers_loop];
    rewrite Z.eqb_refl, E; cbn [mbind Res_bind].
  - by apply servers_loop_bad.
  - rewrite servers_loop_scan by apply Hx. cbn [app]. by eapply IH.
Qed.

Lemma upstreams_refused items es bad r more :
  Forall2 server_ok items es → server_bad bad r → items ≠ [] →
  server_config_parser KEY_UPSTREAMS (server_text (items ++ bad :: more)) =
    (ups ← r; match ups with None => Ret (-1, None) | Some ups => Ret (0, Some (Servers ups)) end).
Proof using All.
  intros Hitems Hbad Hne. destruct Hitems as [|x y items es Hx Hitems]; [done|].
  unfold server_config_parser, same. rewrite bool_decide_true by done.
  unfold server_text. cbn [fmap list_fmap concat app]. rewrite Z.eqb_refl.
  destruct (LinkedList.linked_list_create (A := NetEnd)) as [l0|] eqn:El.
  2: { unfold LinkedList.linked_list_create in El. by rewrite malloc_total in El. }
  rewrite servers_loop_scan by apply Hx. cbn [app].
  pose proof (servers_loop_refused items es x y l0 [] bad r more Hx Hitems
    (LinkedList.ll_rep_create _ El) Hbad) as E.
  unfold server_text in E. by rewrite E.
Qed.
End servers.

(** ** The command line *)

(** An argument that is not an option. *)
Definition plain_arg (a : list Z) : Prop :=
  a ≠ option_config ∧ a ≠ option_debug ∧ a ≠ option_trace.

Lemma strcat_fits dst s :
  Z.of_nat (length (dst ++ s)) < IPS_SIZE → strcat dst s = Ret (dst ++ s).
Proof. intros. unfold strcat. by rewrite (proj2 (Z.ltb_lt _ _)). Qed.

#[export] Instance plain_arg_dec a : Decision (plain_arg a).
Proof. unfold plain_arg. apply _. Defined.

Section params.
Context `{Allocator, Platform} {MS ME : Type}.
Context `{!MapOps (list Z) loc MS, !MapOps (list Z) loc ME}.

Lemma params_loop_plain argv ips (st : config setting MS ME) :
  Forall plain_arg argv → Z.of_nat (length (ips ++ server_text argv)) < IPS_SIZE →
  params_loop argv false ips st = Ret (ips ++ server_text argv, st).
Proof.
  intros Hargv. revert ips. induction Hargv as [|a argv (Hc & Hd & Ht) _ IH]; intros ips Hlen.
  { unfold server_text. simpl. by rewrite app_nil_r. }
  cbn [params_loop]. unfold same. rewrite !bool_decide_false by done.
  unfold server_text in *. cbn [fmap list_fmap concat] in *.
  assert (E : ips ++ (comma :: a) ++ concat ((λ i, comma :: i) <$> argv) =
    ((ips ++ [comma]) ++ a) ++ concat ((λ i, comma :: i) <$> argv)) by (by rewrite <- !app_assoc).
  rewrite E in *. rewrite length_app in Hlen.
  rewrite strcat_fits by (rewrite length_app in Hlen; lia). cbn [mbind Res_bind].
  rewrite strcat_fits by lia.
  cbn [mbind Res_bind]. apply IH. rewrite length_app. lia.
Qed.

Lemma strcat_over dst s :
  IPS_SIZE ≤ Z.of_nat (length (dst ++ s)) → strcat dst s = UB.
Proof. intros. unfold strcat. by rewrite (proj2 (Z.ltb_ge _ _)). Qed.

Lemma params_loop_over argv ips (st : config setting MS ME) :
  Forall plain_arg argv → Z.of_nat (length ips) < IPS_SIZE ≤ Z.of_nat (length (ips ++ server_text argv)) →
  params_loop argv false ips st = UB.
Proof.
  intros Hargv. revert ips. induction Hargv as [|a argv (Hc & Hd & Ht) _ IH]; intros ips Hlen.
  { unfold server_text in Hlen. simpl in Hlen. rewrite app_nil_r in Hlen. lia. }
  cbn [params_loop]. unfold same. rewrite !bool_decide_false by done.
  unfold server_text in *. cbn [fmap list_fmap concat] in *.
  destruct (decide (IPS_SIZE ≤ Z.of_nat (length (ips ++ [comma])))).
  { by rewrite strcat_over. }
  rewrite strcat_fits by lia. cbn [mbind Res_bind].
  destruct (decide (IPS_SIZE ≤ Z.of_nat (length ((ips ++ [comma]) ++ a)))).
  { by rewrite strcat_over. }
  rewrite strcat_fits by lia. cbn [mbind Res_bind]. apply IH. split; [lia|].
  revert Hlen. rewrite ?length_app. simpl. rewrite ?length_app. simpl. lia.
Qed.
End params.

(** ** Injecting and asking *)

Abbreviation settings := (gmap (list Z * list Z) (ConfigValue setting)).
Abbreviation short s := (Z.of_nat (length s) < KEY_SIZE).

Section injecting.
Context `{AllocTotal, Platform} {MS ME : Type}.
Context `{!MapOps (list Z) loc MS, !MapOps (list Z) loc ME}.
Context `{!MapLaws (list Z) loc MS, !MapLaws (list Z) loc ME}.
Implicit Types (st : config setting MS ME) (am : settings).

(** No registry is consulted, since the old value is not a parsed one. *)
Lemma param_inject_spec argv st am :
  center_holds st am → argv ≠ [] → Forall plain_arg argv →
  Z.of_nat (length (server_text argv)) < IPS_SIZE →
  (∀ e, am !! (SERV_SECTION, KEY_UPSTREAMS) = Some e → is_cook e = false) →
  ∃ st', param_inject_config argv st = Ret (0, st') ∧
    now_holds st st'
      (<[(SERV_SECTION, KEY_UPSTREAMS) := MkValue false (Text (server_text argv))]> am).
Proof using All.
  intros Hr Hne Hargv Hlen Hraw. unfold param_inject_config.
  rewrite (params_loop_plain argv [] st Hargv Hlen). cbn [mbind Res_bind app].
  pose proof (replace_value_spec st am SERV_SECTION KEY_UPSTREAMS
    (MkValue false (Text (server_text argv))) Hr ltac:(intros _; by eexists)) as Hi.
  unfold settings_set in Hi.
  assert (Hcl : settings_clean (cleaner_of st) SERV_SECTION KEY_UPSTREAMS am = Ret tt).
  { unfold settings_clean. destruct (am !! _) as [e|] eqn:E; [|done]. by rewrite (Hraw e eq_refl). }
  rewrite Hcl in Hi. destruct Hi as (st' & E & Hr'). exists st'. split; [|done].
  unfold config_inject. destruct argv as [|a argv]; [done|].
  unfold server_text in *. cbn [fmap list_fmap concat app] in *. by rewrite E.
Qed.
End injecting.


Class WideOk `{Platform} : Prop := wide_ok : ∀ z, wide_store z = Ret (wrap_i32 z).
#[export] Instance lenient_wide : @WideOk lenient.
Proof. done. Qed.

Section asking.
Context `{AllocTotal, StaleOk} {MS ME : Type}.
Context `{!MapOps (list Z) loc MS, !MapOps (list Z) loc ME}.
Context `{!MapLaws (list Z) loc MS, !MapLaws (list Z) loc ME}.
Implicit Types (st : config setting MS ME) (am : settings)
  (ps : gmap (list Z) (ConfigParser setting)) (cs : gmap (list Z) (ConfigCleaner setting)).

Lemma ask_absent {X} section key convert (x : X) st am ps cs :
  config_rep st am ps cs → short section → short key → am !! (section, key) = None →
  ∃ st', ask section key convert x st = Ret (x, st') ∧ config_rep st' am ps cs.
Proof using All.
  intros Hr Hs Hk Hn. pose proof (config_get_known _ _ _ _ section key Hr Hs Hk) as Hg.
  rewrite settings_get_None in Hg by done. destruct Hg as (st' & E & Hr').
  exists st'. unfold ask. by rewrite E.
Qed.

Lemma ask_cooked {X} section key convert (x y : X) st am ps cs v :
  config_rep st am ps cs → short section → short key →
  am !! (section, key) = Some (MkValue true v) → convert v = Ret y →
  ∃ st', ask section key convert x st = Ret (y, st') ∧ config_rep st' am ps cs.
Proof using All.
  intros Hr Hs Hk Hv Hc. pose proof (config_get_known _ _ _ _ section key Hr Hs Hk) as Hg.
  unfold settings_get in Hg. rewrite Hv in Hg. destruct Hg as (st' & E & Hr').
  exists st'. unfold ask. rewrite E. cbn [mbind Res_bind value]. by rewrite Hc.
Qed.

Lemma ask_text {X} section key convert (x y : X) st am ps cs t parser c :
  config_rep st am ps cs → short section → short key →
  am !! (section, key) = Some (MkValue false (Text t)) → ps !! section = Some parser →
  parser key t = Ret (0, Some c) → convert (Parsed c) = Ret y →
  ∃ st', ask section key convert x st = Ret (y, st') ∧
    config_rep st' (<[(section, key) := MkValue true (Parsed c)]> am) ps cs.
Proof using All.
  intros Hr Hs Hk Hv Hp Hpar Hc. pose proof (config_get_known _ _ _ _ section key Hr Hs Hk) as Hg.
  unfold settings_get in Hg. rewrite Hv, (known_Some ps section parser Hp) in Hg.
  cbn [is_cook value] in Hg. rewrite bind_Ret, Hpar in Hg.
  destruct Hg as (st' & E & Hr'). exists st'. unfold ask. rewrite E. cbn [mbind Res_bind].
  by rewrite Hc.
Qed.

(** A setting of the server that is absent, or text of a number in a range. *)
Definition num_ok am (key : list Z) (bound : Z) : Prop :=
  ∀ e, am !! (SERV_SECTION, key) = Some e →
    ∃ t, e = MkValue false (Text t) ∧ - bound ≤ number t < bound.
Definition num_of am (key : list Z) (default : Z) : Z :=
  match am !! (SERV_SECTION, key) with
  | Some (MkValue _ (Text t)) => number t
  | _ => default
  end.

Lemma ask_number `{InetPton} key convert default bound st am ps cs :
  config_rep st am ps cs → key = KEY_PACKET_TIMEOUT ∨ key = KEY_MAX_RETRY_TIME →
  ps !! SERV_SECTION = Some server_config_parser → bound ≤ 2 ^ 63 → num_ok am key bound →
  (∀ z, - bound ≤ z < bound → convert (Parsed (Num z)) = Ret z) →
  ∃ st' am', ask SERV_SECTION key convert default st = Ret (num_of am key default, st') ∧
    config_rep st' am' ps cs ∧ ∀ key', key' ≠ key →
      am' !! (SERV_SECTION, key') = am !! (SERV_SECTION, key').
Proof using All.
  intros Hr Hkey Hps Hb Hn Hc. unfold num_of.
  assert (short SERV_SECTION ∧ short key) as [Hs Hk] by (by destruct Hkey as [-> | ->]).
  destruct (am !! (SERV_SECTION, key)) as [e|] eqn:E.
  - destruct (Hn e E) as (t & -> & Ht).
    assert (Hp : server_config_parser key t = Ret (0, Some (Num (number t)))).
    { unfold server_config_parser, same, atol. destruct Hkey as [-> | ->];
        rewrite ?(bool_decide_false (_ = KEY_UPSTREAMS)) by done;
        rewrite ?(bool_decide_false (KEY_PACKET_TIMEOUT = _)) by done;
        rewrite bool_decide_true by done;
        rewrite (proj2 (Z.leb_le _ _)), (proj2 (Z.ltb_lt _ _)) by lia; done. }
    destruct (ask_text SERV_SECTION key convert default (number t) st am ps cs t _ _ Hr Hs Hk E Hps
      Hp (Hc _ Ht)) as (st' & E' & Hr').
    eexists st', _. split_and!; [exact E'|exact Hr'|]. intros key' Hne.
    by rewrite lookup_insert_ne by congruence.
  - destruct (ask_absent SERV_SECTION key convert default st am ps cs Hr Hs Hk E) as (st' & E' & Hr').
    by exists st', am.
Qed.
End asking.

Section server_settings.
Context `{AllocTotal, StaleOk, !WideOk, InetPton} {MS ME : Type}.
Context `{!MapOps (list Z) loc MS, !MapOps (list Z) loc ME}.
Context `{!MapLaws (list Z) loc MS, !MapLaws (list Z) loc ME}.
Implicit Types (st : config setting MS ME) (am : settings).

Lemma server_settings_spec argv es st am ps cs timeout retries ups :
  config_rep st am ps cs → argv ≠ [] → Forall2 server_ok argv es →
  am !! (SERV_SECTION, KEY_UPSTREAMS) = Some (MkValue false (Text (server_text argv))) →
  num_ok am KEY_PACKET_TIMEOUT (2 ^ 63) → num_ok am KEY_MAX_RETRY_TIME (2 ^ 31) →
  ∃ st' l us, server_settings timeout retries ups st =
      Ret (num_of am KEY_PACKET_TIMEOUT timeout, num_of am KEY_MAX_RETRY_TIME retries, Some l, st') ∧
    (LinkedList.ll_rep l us ∧ us.*2 = reverse (on_port_53 <$> es)) ∧
    server_config_parser KEY_UPSTREAMS (server_text argv) = Ret (0, Some (Servers (Some l))).
Proof using All.
  intros Hr Hne Hes Hup Ht Hm. unfold server_settings.
  destruct (config_register_parser_known st am ps cs SERV_SECTION server_config_parser Hr)
    as (st1 & -> & Hr1); [done|]. cbn [mbind Res_bind].
  destruct (config_register_cleaner_known st1 am _ cs SERV_SECTION server_config_cleaner Hr1)
    as (st2 & -> & Hr2); [done|]. cbn [mbind Res_bind].
  assert (Hps : <[SERV_SECTION := server_config_parser]> ps !! SERV_SECTION =
    Some server_config_parser) by (by rewrite lookup_insert_eq).
  destruct (ask_number KEY_PACKET_TIMEOUT as_num timeout (2 ^ 63) _ _ _ _ Hr2)
    as (st3 & am3 & -> & Hr3 & G3); [by left|done|lia|done|done|]. cbn [mbind Res_bind].
  assert (Em : num_of am3 KEY_MAX_RETRY_TIME retries = num_of am KEY_MAX_RETRY_TIME retries)
    by (unfold num_of; by rewrite G3).
  destruct (ask_number KEY_MAX_RETRY_TIME as_int retries (2 ^ 31) _ _ _ _ Hr3)
    as (st4 & am4 & -> & Hr4 & G4); [by right|done|lia| | |].
  { intros e. rewrite G3 by done. apply Hm. }
  { intros z Hz. unfold as_int. cbn [as_num mbind Res_bind]. rewrite wide_ok. f_equal.
    apply wrap_i32_small. unfold is_i32. lia. }
  cbn [mbind Res_bind]. rewrite Em.
  destruct (upstreams_parsed argv es Hes Hne) as (l & us & Ep & Hl & Hus).
  assert (Hup4 : am4 !! (SERV_SECTION, KEY_UPSTREAMS) =
    Some (MkValue false (Text (server_text argv)))) by (by rewrite G4, G3).
  destruct (ask_text SERV_SECTION KEY_UPSTREAMS as_servers ups (Some l) st4 am4 _ _ _ _ _ Hr4
    ltac:(done) ltac:(done) Hup4 Hps Ep ltac:(done)) as (st5 & -> & _).
  cbn [mbind Res_bind]. by exists st5, l, us.
Qed.
End server_settings.

(** ** The logger *)

(** The settings of the logger, and what they ask for. *)
Record log_ok `{Files} (am : settings) : Prop := {
  lo_level : ∀ e, am !! (LOG_SECTION, KEY_LOG_LEVEL) = Some e →
    (∃ t, e = MkValue false (Text t)) ∨ (∃ z, e = MkValue true (Parsed (Num z)) ∧ 0 ≤ z < LEVEL_NUM);
  lo_channels : ∀ name e, name ∈ LEVEL_STR → am !! (LOG_SECTION, name) = Some e →
    ∃ t s, e = MkValue false (Text t) ∧ open_channel t = Ret s;
}.

Definition level_of (t : list Z) : Z :=
  let level := find_level LEVEL_STR t TRACE in if level <? LEVEL_NUM then level else INFO.
Definition level_setting (am : settings) : Z :=
  match am !! (LOG_SECTION, KEY_LOG_LEVEL) with
  | Some (MkValue _ (Text t)) => level_of t
  | Some (MkValue _ (Parsed (Num z))) => z
  | _ => INFO
  end.
Definition channel_setting `{Files} (am : settings) (name : list Z) : stream :=
  match am !! (LOG_SECTION, name) with
  | Some (MkValue _ (Text t)) => match open_channel t with Ret s => s | _ => Stdout end
  | _ => Stdout
  end.

Lemma level_of_range t : 0 ≤ level_of t < LEVEL_NUM.
Proof.
  unfold level_of, LEVEL_STR, LEVEL_NUM, TRACE, INFO. cbn [find_level].
  repeat case_match; bools; lia.
Qed.

Lemma level_setting_range `{Files} am : log_ok am → 0 ≤ level_setting am < LEVEL_NUM.
Proof.
  intros [Hl _]. unfold level_setting. destruct (am !! _) as [e|] eqn:E; [|by compute].
  destruct (Hl e eq_refl) as [[t ->]|(z & -> & Hz)]; [apply level_of_range|done].
Qed.

(** The name of a level opens its own channel only. *)
Lemma parse_channel `{Files} (i : nat) name t s :
  LEVEL_STR !! i = Some name → open_channel t = Ret s →
  log_config_parser name t = Ret (0, Some (Channel s)).
Proof.
  intros Hi Ho. unfold log_config_parser, LEVEL_STR in *.
  assert (Hn : same name KEY_LOG_LEVEL = false).
  { do 5 (destruct i as [|i]; [by injection Hi as <-|]). done. }
  rewrite Hn. do 5 (destruct i as [|i];
    [injection Hi as <-; cbn [open_channels]; repeat match goal with
     | |- context [same_case ?a ?b] =>
         let r := eval vm_compute in (same_case a b) in change (same_case a b) with r; cbv iota
     end; rewrite ?Ho; done|]). done.
Qed.

Section logger.
Context `{AllocTotal, StaleOk, !WideOk, Files} {MS ME : Type}.
Context `{!MapOps (list Z) loc MS, !MapOps (list Z) loc ME}.
Context `{!MapLaws (list Z) loc MS, !MapLaws (list Z) loc ME}.
Implicit Types (st : config setting MS ME) (am : settings).

Lemma ask_channel (i : nat) name st am ps cs :
  config_rep st am ps cs → ps !! LOG_SECTION = Some log_config_parser →
  LEVEL_STR !! i = Some name →
  (∀ e, am !! (LOG_SECTION, name) = Some e →
    ∃ t s, e = MkValue false (Text t) ∧ open_channel t = Ret s) →
  ∃ st' am', ask LOG_SECTION name as_stream (Some Stdout) st =
      Ret (Some (channel_setting am name), st') ∧
    config_rep st' am' ps cs ∧ ∀ sk, sk ≠ (LOG_SECTION, name) → am' !! sk = am !! sk.
Proof using All.
  intros Hr Hps Hi Ho.
  assert (Hn : short name).
  { unfold LEVEL_STR in Hi. do 5 (destruct i as [|i]; [by injection Hi as <-|]). done. }
  unfold channel_setting. destruct (am !! (LOG_SECTION, name)) as [e|] eqn:E.
  - destruct (Ho e eq_refl) as (t & s & -> & Hs).
    destruct (ask_text LOG_SECTION name as_stream (Some Stdout) (Some s) st am ps cs t _ _ Hr
      ltac:(done) Hn E Hps (parse_channel i name t s Hi Hs) eq_refl) as (st' & E' & Hr').
    rewrite Hs. eexists st', _. split_and!; [exact E'|exact Hr'|].
    intros sk Hne. by rewrite lookup_insert_ne by congruence.
  - destruct (ask_absent LOG_SECTION name as_stream (Some Stdout) st am ps cs Hr ltac:(done) Hn E)
      as (st' & E' & Hr'). by exists st', am.
Qed.

Lemma level_names_distinct i j name : LEVEL_STR !! i = Some name → LEVEL_STR !! j = Some name → i = j.
Proof. apply NoDup_lookup. by_compute. Qed.

Lemma channels_loop_spec n (i : nat) channels st am ps cs :
  config_rep st am ps cs → ps !! LOG_SECTION = Some log_config_parser →
  (i + n = 5)%nat → length channels = 5%nat →
  (∀ j name e, (i ≤ j)%nat → LEVEL_STR !! j = Some name → am !! (LOG_SECTION, name) = Some e →
    ∃ t s, e = MkValue false (Text t) ∧ open_channel t = Ret s) →
  ∃ channels' st' am', channels_loop n (Z.of_nat i) channels st = Ret (channels', st') ∧
    config_rep st' am' ps cs ∧ (∀ sk, sk.1 ≠ LOG_SECTION → am' !! sk = am !! sk) ∧
    length channels' = 5%nat ∧
    (∀ j, (j < i)%nat → channels' !! j = channels !! j) ∧
    ∀ j name, (i ≤ j)%nat → LEVEL_STR !! j = Some name →
      channels' !! j = Some (Some (channel_setting am name)).
Proof using All.
  revert i channels st am. induction n as [|n IH]; intros i channels st am Hr Hps Hi Hlen Ho.
  { exists channels, st, am. split_and!; [done..|]. intros j name Hj Hname.
    apply lookup_lt_Some in Hname. unfold LEVEL_STR in Hname. simpl in Hname. lia. }
  destruct (lookup_lt_is_Some_2 LEVEL_STR i) as [name Hname]; [unfold LEVEL_STR; simpl; lia|].
  cbn [channels_loop]. rewrite blit_single by lia. cbn [mbind Res_bind].
  rewrite (rd_Some LEVEL_STR i name Hname). cbn [mbind Res_bind].
  destruct (ask_channel i name st am ps cs Hr Hps Hname) as (st1 & am1 & -> & Hr1 & Hsame);
    [intros e; by apply (Ho i)|]. cbn [mbind Res_bind].
  rewrite blit_single by (rewrite length_insert; lia). cbn [mbind Res_bind].
  rewrite Nat2Z.id, list_insert_insert_eq. replace (Z.of_nat i + 1) with (Z.of_nat (S i)) by lia.
  assert (Hne : ∀ j name', (S i ≤ j)%nat → LEVEL_STR !! j = Some name' → name' ≠ name).
  { intros j name' Hj Hj' ->. pose proof (level_names_distinct _ _ _ Hname Hj'). lia. }
  destruct (IH (S i) (<[i := Some (channel_setting am name)]> channels) st1 am1 Hr1 Hps)
    as (ch & st2 & am2 & E & Hr2 & Hother & Hl & Hlow & Hhigh); [lia|by rewrite length_insert| |].
  { intros j name' e Hj Hj'. rewrite Hsame by (intros [= ->]; by eapply Hne). apply (Ho j); [lia|done]. }
  exists ch, st2, am2. split_and!; [done|done| |done| |].
  - intros sk Hsk. rewrite Hother by done. apply Hsame. by intros ->.
  - intros j Hj. rewrite Hlow by lia. rewrite list_lookup_insert_ne by lia. done.
  - intros j name' Hj Hj'. destruct (decide (i = j)) as [<-|].
    + rewrite Hlow by lia. rewrite list_lookup_insert_eq by lia. congruence.
    + rewrite (Hhigh j name') by (done || lia). unfold channel_setting. rewrite Hsame; [done|].
      intros [= ->]. eapply Hne; [|done..]. lia.
Qed.

Lemma ask_level st am ps cs :
  config_rep st am ps cs → ps !! LOG_SECTION = Some log_config_parser → log_ok am →
  ∃ st' am', ask LOG_SECTION KEY_LOG_LEVEL as_int INFO st = Ret (level_setting am, st') ∧
    config_rep st' am' ps cs ∧ ∀ sk, sk ≠ (LOG_SECTION, KEY_LOG_LEVEL) → am' !! sk = am !! sk.
Proof using All.
  intros Hr Hps Hok. pose proof (level_setting_range _ Hok) as Hrange. unfold level_setting in *.
  assert (Hint : ∀ z, 0 ≤ z < LEVEL_NUM → as_int (Parsed (Num z)) = Ret z).
  { intros z Hz. unfold as_int, LEVEL_NUM in *. cbn [as_num mbind Res_bind]. rewrite wide_ok. f_equal.
    apply wrap_i32_small. unfold is_i32. lia. }
  destruct (am !! (LOG_SECTION, KEY_LOG_LEVEL)) as [e|] eqn:E.
  - destruct (lo_level _ Hok e E) as [[t ->]|(z & -> & Hz)].
    + destruct (ask_text LOG_SECTION KEY_LOG_LEVEL as_int INFO (level_of t) st am ps cs t _
        (Num (level_of t)) Hr ltac:(done) ltac:(done) E Hps) as (st' & E' & Hr').
      * unfold log_config_parser, same. by rewrite bool_decide_true.
      * by apply Hint.
      * eexists st', _. split_and!; [exact E'|exact Hr'|]. intros sk Hne.
        by rewrite lookup_insert_ne by congruence.
    + destruct (ask_cooked LOG_SECTION KEY_LOG_LEVEL as_int INFO z st am ps cs _ Hr
        ltac:(done) ltac:(done) E (Hint z Hz)) as (st' & E' & Hr'). by exists st', am.
  - destruct (ask_absent LOG_SECTION KEY_LOG_LEVEL as_int INFO st am ps cs Hr
      ltac:(done) ltac:(done) E) as (st' & E' & Hr'). by exists st', am.
Qed.
(** The settings of the other sections stay. *)
Lemma logger_init_spec st am ps cs :
  config_rep st am ps cs → log_ok am →
  ∃ lg st' am', logger_init logger_start st = Ret (0, lg, st') ∧
    config_rep st' am' (<[LOG_SECTION := log_config_parser]> ps) cs ∧
    (∀ sk, sk.1 ≠ LOG_SECTION → am' !! sk = am !! sk) ∧
    logging_level lg = level_setting am ∧
    ∀ j name, level_setting am ≤ Z.of_nat j → LEVEL_STR !! j = Some name →
      output_channels lg !! j = Some (Some (channel_setting am name)).
Proof using All.
  intros Hr Hok. pose proof (level_setting_range _ Hok) as Hrange. unfold LEVEL_NUM in Hrange.
  unfold logger_init. destruct (config_register_parser_known st am ps cs LOG_SECTION log_config_parser
    Hr ltac:(done)) as (st1 & -> & Hr1). cbn [mbind Res_bind].
  assert (Hps : <[LOG_SECTION := log_config_parser]> ps !! LOG_SECTION = Some log_config_parser)
    by (by rewrite lookup_insert_eq).
  destruct (ask_level st1 am _ cs Hr1 Hps Hok) as (st2 & am2 & E2 & Hr2 & Hsame).
  unfold logger_start. cbn [logging_level output_channels]. rewrite E2. cbn [mbind Res_bind].
  set (l := Z.to_nat (level_setting am)). replace (level_setting am) with (Z.of_nat l) by lia.
  assert (Hkey : ∀ j nm, LEVEL_STR !! j = Some nm → (LOG_SECTION, nm) ≠ (LOG_SECTION, KEY_LOG_LEVEL)).
  { intros j nm Hj. unfold LEVEL_STR in Hj. do 5 (destruct j as [|j]; [by injection Hj as <-|]). done. }
  destruct (channels_loop_spec (Z.to_nat (LEVEL_NUM - Z.of_nat l)) l (replicate 5 None) st2 am2 _ cs
    Hr2 Hps) as (ch & st3 & am3 & -> & Hr3 & Hother & _ & _ & Hch); [unfold LEVEL_NUM; lia|done| |].
  { intros j nm e Hj Hnm. rewrite Hsame by eauto. apply (lo_channels _ Hok).
    by apply list_elem_of_lookup_2 in Hnm. }
  cbn [mbind Res_bind]. eexists _, st3, am3. split_and!; [done|exact Hr3| |done|].
  - intros sk Hsk. rewrite Hother by done. apply Hsame. by intros ->.
  - intros j nm Hj Hnm. cbn [output_channels]. rewrite (Hch j nm ltac:(lia) Hnm).
    unfold channel_setting. by rewrite Hsame by eauto.
Qed.
End logger.

(** ** Properties *)

(** C32. The upstream servers of the command line, on any platform.  When the
    arguments are addresses, each in the text form of an IPv4 or IPv6 address
    of another host, the program puts them in the configuration behind commas,
    as the text of [server_upstream], and changes nothing else there; of this
    text the server's parser makes the list of their end points on port 53, the
    last argument first.  After them, one address of this host makes the parser
    refuse the whole text, and one text that is no address undefined: [errno] is
    formatted as a string.  Arguments of 1024 bytes or more in all, with their
    commas, write outside of the array [ips]. *)
Theorem upstreams_from_command_line `{AllocTotal, Platform, InetPton} {MS ME : Type}
    `{!MapOps (list Z) loc MS, !MapOps (list Z) loc ME}
    `{!MapLaws (list Z) loc MS, !MapLaws (list Z) loc ME}
    (st : config setting MS ME) am argv es :
  center_holds st am → argv ≠ [] → Forall plain_arg argv →
  (∀ e, am !! (SERV_SECTION, KEY_UPSTREAMS) = Some e → is_cook e = false) →
  Forall2 server_ok argv es →
  (Z.of_nat (length (server_text argv)) < IPS_SIZE →
   ∃ st', param_inject_config argv st = Ret (0, st') ∧
     now_holds st st'
       (<[(SERV_SECTION, KEY_UPSTREAMS) := MkValue false (Text (server_text argv))]> am)) ∧
  (∃ l us, server_config_parser KEY_UPSTREAMS (server_text argv) = Ret (0, Some (Servers (Some l))) ∧
     LinkedList.ll_rep l us ∧ us.*2 = reverse (on_port_53 <$> es)) ∧
  (∀ bad more, server_bad bad (Ret None) →
     server_config_parser KEY_UPSTREAMS (server_text (argv ++ bad :: more)) = Ret (-1, None)) ∧
  (∀ bad more, server_bad bad UB →
     server_config_parser KEY_UPSTREAMS (server_text (argv ++ bad :: more)) = UB) ∧
  (IPS_SIZE ≤ Z.of_nat (length (server_text argv)) → param_inject_config argv st = UB).
Proof.
  intros Hr Hne Hargv Hraw Hes. split_and!.
  - intros Hlen. by apply param_inject_spec.
  - by apply upstreams_parsed.
  - intros bad more Hbad. by rewrite (upstreams_refused _ _ _ _ more Hes Hbad Hne).
  - intros bad more Hbad. by rewrite (upstreams_refused _ _ _ _ more Hes Hbad Hne).
  - intros Hlen. unfold param_inject_config.
    by rewrite params_loop_over by (done || (simpl; unfold IPS_SIZE in *; lia)).
Qed.

#[local] Existing Instances table_ops table_laws always_laws.

(** A text form of one address, for the examples. *)
#[local] Instance demo_pton : InetPton := {|
  inet_pton4 s := if same s (lit "8.8.8.8") then Some [8; 8; 8; 8] else None;
  inet_pton6 s := None;
|}.
Definition demo_end : NetEnd := MkEnd ([8; 8; 8; 8] ++ replicate 12 0) IPV4 (htons 53).
Definition demo_args : list (list Z) := [lit "8.8.8.8"; lit "8.8.8.8"].

Lemma demo_server_ok : server_ok (lit "8.8.8.8") demo_end.
Proof. split; [by_compute|by_compute|reflexivity|reflexivity]. Qed.

Lemma upstreams_from_command_line_witness :
  ∃ (st0 st1 : config setting table table) l us,
    @config_init always strict setting table table _ = Ret (0, st0) ∧
    @param_inject_config always strict table table _ _ demo_args st0 = Ret (0, st1) ∧
    @server_config_parser always demo_pton KEY_UPSTREAMS (server_text demo_args) =
      Ret (0, Some (Servers (Some l))) ∧
    LinkedList.ll_rep l us ∧ length us = 2%nat ∧
    @server_config_parser always demo_pton KEY_UPSTREAMS (server_text (demo_args ++ [lit "localhost"])) =
      Ret (-1, None) ∧
    @server_config_parser always demo_pton KEY_UPSTREAMS (server_text (demo_args ++ [lit "dns"])) = UB.
Proof.
  destruct (@config_init_spec always _ strict setting table table _ _ _ _) as (st0 & E0 & Hr & _).
  destruct (@upstreams_from_command_line always _ strict demo_pton table table _ _ _ _
    st0 ∅ demo_args [demo_end; demo_end] Hr) as (Hok & (l & us & E2 & Hl & Hus) & Hown & Hbad & _).
  - done.
  - by_compute.
  - intros e He. by rewrite lookup_empty in He.
  - do 2 (apply Forall2_cons; split; [apply demo_server_ok|]). constructor.
  - destruct (Hok ltac:(by_compute)) as (st1 & E1 & _).
    exists st0, st1, l, us. split_and!; [exact E0|exact E1|exact E2|exact Hl| |apply (Hown _ [])|apply (Hbad _ [])].
    + by rewrite <- (length_fmap snd), Hus.
    + split; [by_compute|by_compute|]. left. split; [vm_compute; discriminate|reflexivity].
    + split; [by_compute|by_compute|]. right. split_and!; reflexivity.
Defined.

(** The logger after its initialisation, on a lenient machine.  It takes its level from the
    configuration or the command line, INFO by default or for an unknown name,
    and each level from there on has the channel the configuration names, the
    standard output by default: a line is dropped exactly when its level is
    below the level of the logger, and no line goes to a channel that was not
    opened. *)
Theorem logger_channels_ready `{AllocTotal, StaleOk, !WideOk, Files} {MS ME : Type}
    `{!MapOps (list Z) loc MS, !MapOps (list Z) loc ME}
    `{!MapLaws (list Z) loc MS, !MapLaws (list Z) loc ME}
    (st : config setting MS ME) am ps cs (level : nat) (line : list Z) name :
  config_rep st am ps cs → log_ok am → LEVEL_STR !! level = Some name →
  ∃ lg st', logger_init logger_start st = Ret (0, lg, st') ∧
    logging_level lg = level_setting am ∧ 0 ≤ level_setting am < LEVEL_NUM ∧
    do_log lg (Z.of_nat level) line =
      Ret (if Z.of_nat level <? level_setting am then None
           else Some (channel_setting am name, line)).
Proof.
  intros Hr Hok Hname. pose proof (level_setting_range _ Hok) as Hrange.
  destruct (logger_init_spec st am ps cs Hr Hok) as (lg & st' & _ & E & _ & _ & El & Hch).
  exists lg, st'. split_and!; [done..|apply Hrange|apply Hrange|]. unfold do_log. rewrite El.
  destruct (Z.of_nat level <? level_setting am) eqn:Elt; bools; [done|].
  by rewrite (rd_Some _ _ _ (Hch level name Elt Hname)).
Qed.

#[local] Instance demo_files : Files := {| can_write _ := true; can_append _ := true |}.

Lemma logger_channels_ready_witness :
  ∃ (st st' : config setting table table) lg,
    @config_init always lenient setting table table _ = Ret (0, st) ∧
    @logger_init always lenient demo_files table table _ _ logger_start st = Ret (0, lg, st') ∧
    do_log lg WARN [104; 105] = Ret (Some (Stdout, [104; 105])).
Proof.
  destruct (@config_init_known always _ lenient _ setting table table _ _ _ _) as (st & E & Hr).
  destruct (@logger_channels_ready always _ lenient _ _ demo_files table table _ _ _ _ st ∅ ∅ ∅ 3
    [104; 105] (lit "WARN") Hr) as (lg & st' & E' & _ & _ & Hlog).
  - split; [intros e He|intros name e _ He]; by rewrite lookup_empty in He.
  - reflexivity.
  - exists st, st', lg. split_and!; [exact E|exact E'|exact Hlog].
Defined.

(** The cache cannot be configured, even on a lenient machine.  The test of the key in the parser of
    the resolver's section is inverted: a text for [usecache] is accepted
    without a result, and [config_get] uses its local variable without having
    initialised it, whatever the text; any other key of the section is parsed
    as if it were [usecache].  The default only stays when the file does not
    mention the key. *)
Theorem usecache_unreadable `{AllocTotal, StaleOk} {MS ME : Type}
    `{!MapOps (list Z) loc MS, !MapOps (list Z) loc ME}
    `{!MapLaws (list Z) loc MS, !MapLaws (list Z) loc ME}
    (st : config setting MS ME) am ps cs (use_cache : Z) (key text : list Z) :
  config_rep st am ps cs →
  (am !! (SECTION_DNS_RESOLVER, KEY_USE_CACHE) = Some (MkValue false (Text text)) →
   dns_resolver_init use_cache st = UB) ∧
  (am !! (SECTION_DNS_RESOLVER, KEY_USE_CACHE) = None →
   ∃ st', dns_resolver_init use_cache st = Ret (0, use_cache, st')) ∧
  (same_case key KEY_USE_CACHE = false → 0 ≤ number text < 2 →
   dns_resolver_config_parser key text = Ret (0, Some (Num (number text)))).
Proof.
  intros Hr. unfold dns_resolver_init.
  destruct (config_register_parser_known st am ps cs SECTION_DNS_RESOLVER dns_resolver_config_parser
    Hr ltac:(done)) as (st1 & -> & Hr1). cbn [mbind Res_bind].
  pose proof (config_get_known st1 am _ cs SECTION_DNS_RESOLVER KEY_USE_CACHE Hr1 ltac:(done)
    ltac:(done)) as Hg. unfold settings_get in Hg. split_and!.
  - intros Ht. rewrite Ht in Hg. cbn [is_cook value] in Hg.
    rewrite (known_Some _ _ dns_resolver_config_parser) in Hg by (by rewrite lookup_insert_eq).
    simpl in Hg. by rewrite Hg.
  - intros Hn. rewrite Hn in Hg. destruct Hg as (st' & -> & _). by exists st'.
  - intros Hk Hn. unfold dns_resolver_config_parser, atoi. rewrite Hk. cbn [negb].
    rewrite (proj2 (Z.leb_le _ _)), (proj2 (Z.ltb_lt _ _)) by lia. cbn [andb mbind Res_bind].
    destruct (number text =? 0) eqn:E0; [done|]. destruct (number text =? 1) eqn:E1; [done|].
    bools. lia.
Qed.

Lemma usecache_unreadable_witness :
  ∃ st st1 : config setting table table,
    @config_init always lenient setting table table _ = Ret (0, st) ∧
    @config_inject always lenient setting table table _ _ SECTION_DNS_RESOLVER KEY_USE_CACHE
      (lit "0") st = Ret (0, st1) ∧
    @dns_resolver_init always lenient table table _ _ 1 st1 = UB.
Proof.
  destruct (@config_init_known always _ lenient _ setting table table _ _ _ _) as (st & E & Hr).
  destruct (@replace_value_known always _ lenient _ setting table table _ _ _ _ st ∅ ∅ ∅
    SECTION_DNS_RESOLVER KEY_USE_CACHE (MkValue false (Text (lit "0"))) Hr
    ltac:(intros _; by eexists)) as (st1 & E1 & Hr1).
  destruct (@usecache_unreadable always _ lenient _ table table _ _ _ _ st1 _ ∅ ∅ 1
    KEY_USE_CACHE (lit "0") Hr1) as (Hub & _).
  exists st, st1. split; [exact E|]. split; [exact E1|]. apply Hub. by rewrite lookup_insert_eq.
Defined.

End Settings.
