(* ===== verification/IpTable.v ===== *)
(** * The ip table: [load_ip_table] and [dns_cache_init] of [src/dns/dns_cache.c]

    Every line [name=address] of a text file is a record; the records of a name
    and a type are put into the cache together, as the answer to that question.
    [table_groups] is the abstract table: the groups in the order in which
    their first lines come. *)

From Stdlib Require String.
From S2P Require Import Prelude CString TextFile NameCodec Protocol MapInterface HashMap Cache Resolver Config.
Import Config NameCodec Protocol Cache Resolver.

Module IpTable.

Definition LINE_SIZE : Z := 512.
Definition GROUP_KEY_SIZE : Z := 512.
Definition hash_sign : Z := 35.
Definition equals_sign : Z := 61.

(** ** A line *)

Section line.
Context `{Allocator, InetPton}.
Implicit Types (line : list (option Z)) (p : Z).

(** [strchr(p, c)], [None] when the string ends before. *)
Fixpoint strchr_loop (fuel : nat) line p (c : Z) : Res (option Z) :=
  match fuel with
  | O => OutOfFuel
  | S fuel =>
      x ← char_at line p;
      if x =? c then Ret (Some p) else if x =? 0 then Ret None else strchr_loop fuel line (p + 1) c
  end.
Definition strchr line p (c : Z) : Res (option Z) := strchr_loop (S (length line)) line p c.

(** The string at [p]. *)
Fixpoint string_loop (fuel : nat) line p : Res (list Z) :=
  match fuel with
  | O => OutOfFuel
  | S fuel =>
      x ← char_at line p;
      if x =? 0 then Ret [] else s ← string_loop fuel line (p + 1); Ret (x :: s)
  end.
Definition string_at line p : Res (list Z) := string_loop (S (length line)) line p.

Definition set_char line p (c : Z) : Res (list (option Z)) := blit line p [Some c].

(** [while (end >= start && isspace(end[0])) { end[0] = 0; end--; }] *)
Fixpoint trim_loop (fuel : nat) line (end_ start : Z) : Res (list (option Z)) :=
  match fuel with
  | O => OutOfFuel
  | S fuel =>
      if end_ >=? start then
        c ← char_at line end_;
        if isspace c then line ← set_char line end_ 0; trim_loop fuel line (end_ - 1) start
        else Ret line
      else Ret line
  end.
Definition trim line (end_ start : Z) : Res (list (option Z)) :=
  trim_loop (S (length line)) line end_ start.

(** From the empty string check on: the type and the record. *)
Definition entry_record (domain ip_str : list Z) : Res (option (Z * ResourceRecord)) :=
  if bool_decide (domain = []) || bool_decide (ip_str = []) then Ret None
  else
    let type := match inet_pton4 ip_str with
                | Some _ => Some QTYPE_A
                | None => match inet_pton6 ip_str with Some _ => Some QTYPE_AAAA | None => None end
                end in
    match type with
    | None => Ret None
    | Some type =>
        rr ← rr_make_from_config_pair (Some domain) UINT32_MAX type (Some ip_str);
        Ret (match rr with Some rr => Some (type, rr) | None => None end)
    end.

(** The type and the record of a line, [None] when it is skipped. *)
Definition table_record line : Res (option (Z * ResourceRecord)) :=
  p ← skip_spaces line 0;
  c ← char_at line p;
  if (c =? 0) || (c =? newline) || (c =? hash_sign) then Ret None
  else
    eq ← strchr line p equals_sign;
    match eq with
    | None => Ret None
    | Some eq =>
        line ← set_char line eq 0;
        line ← trim line (eq - 1) p;
        ip ← skip_spaces line (eq + 1);
        s ← string_at line ip;
        line ← trim line (ip + Z.of_nat (length s) - 1) ip;
        domain ← string_at line p;
        ip_str ← string_at line ip;
        entry_record domain ip_str
    end.
End line.

(** [snprintf] of ["%u|%s"] into an array of 512 bytes. *)
Definition group_key (type : Z) (rr : ResourceRecord) : Res (list Z) :=
  name ← c_string (rr_name rr);
  Ret (take (Z.to_nat (GROUP_KEY_SIZE - 1)) (print_u type ++ bar :: name)).

(** ** The table *)

(** [rr_groups], the vectors it points to, and [group_keys]. *)
Record groups (G : Type) := MkGroups {
  rr_groups : G;
  vectors : Store (list ResourceRecord);
  group_keys : list (list Z);
}.
Arguments MkGroups {G} rr_groups vectors group_keys.
Arguments rr_groups {G} g.
Arguments vectors {G} g.
Arguments group_keys {G} g.

(** [strchr] in a key: what follows the bar. *)
Fixpoint after_bar (s : list Z) : option (list Z) :=
  match s with
  | [] => None
  | c :: s => if c =? bar then Some s else after_bar s
  end.

Section table.
Context `{Allocator, InetPton} {G M : Type}.
Context `{!MapOps (list Z) loc G, !MapOps (list Z) loc M}.
Implicit Types (gs : groups G) (g : option (DnsCache M)).

(** The record joins the vector of its group, a new one for its first record. *)
Definition add_record (type : Z) (rr : ResourceRecord) gs : Res (groups G) :=
  k ← group_key type rr;
  found ← map_get (rr_groups gs) k;
  '(l, gs) ← match found with
    | Some l => Ret (l, gs)
    | None =>
        let '(l, vs) := alloc [] (vectors gs) in
        '(_, m) ← map_put (rr_groups gs) k l;
        Ret (l, MkGroups m vs (group_keys gs ++ [k]))
    end;
  rs ← load (vectors gs) l;
  vs ← store (vectors gs) l (rs ++ [rr]);
  Ret (MkGroups (rr_groups gs) vs (group_keys gs)).

Fixpoint read_loop (fuel : nat) (file : list Z) (line : list (option Z)) gs : Res (groups G) :=
  match fuel with
  | O => OutOfFuel
  | S fuel =>
      match fgets line file with
      | None => Ret gs
      | Some (line, file) =>
          r ← table_record line;
          gs ← match r with Some (type, rr) => add_record type rr gs | None => Ret gs end;
          read_loop fuel file line gs
      end
  end.

(** [for (i = 0; i < vector_size(group_keys); i++)] *)
Fixpoint cache_groups (now : Z) (keys : list (list Z)) gs g : Res (option (DnsCache M)) :=
  match keys with
  | [] => Ret g
  | k :: keys =>
      found ← map_get (rr_groups gs) k;
      g ← match found, after_bar k with
          | Some l, Some qname =>
              rs ← load (vectors gs) l;
              group_type ← atoi k;
              '(_, g) ← dns_cache_put now g (qname ++ [0]) group_type QCLASS_IN
                (MkValue (wrap_u16 (Z.of_nat (length rs))) 0 0 (Some rs));
              Ret g
          | _, _ => Ret g
          end;
      cache_groups now keys gs g
  end.

(** [file] is [None] when it cannot be opened. *)
Definition load_ip_table (now : Z) (file : option (list Z)) g : Res (Z * option (DnsCache M)) :=
  match file with
  | None => Ret (1, g)
  | Some file =>
      m ← map_create;
      match m with
      | None => Ret (1, g)
      | Some m =>
          gs ← read_loop (S (length file)) file (replicate (Z.to_nat LINE_SIZE) None)
                 (MkGroups m empty_store []);
          g ← cache_groups now (group_keys gs) gs g;
          _ ← map_free (rr_groups gs);
          Ret (0, g)
      end
  end.

(** A second call is refused; [file] is what the configured path leads to. *)
Definition dns_cache_init (now : Z) (file : option (list Z)) g : Res (Z * option (DnsCache M)) :=
  match g with
  | Some _ => Ret (0, g)
  | None =>
      c ← cache_create;
      match c with
      | None => Ret (1, g)
      | Some c => '(_, g) ← load_ip_table now file (Some c); Ret (0, g)
      end
  end.
End table.

(** ** The abstract table *)

(** The lines the loader reads; [sp] are blanks, kept where the file has them.
    The name of an entry is given by its labels. *)
Inductive table_line :=
| Blank (sp : list Z)
| Remark (sp text : list Z)
| Entry (sp1 : list Z) (labels : list (list Z)) (sp2 sp3 ip sp4 : list Z).

Definition print_line (l : table_line) : list Z :=
  match l with
  | Blank sp => sp
  | Remark sp text => sp ++ hash_sign :: text
  | Entry sp1 labels sp2 sp3 ip sp4 => sp1 ++ join labels ++ sp2 ++ equals_sign :: sp3 ++ ip ++ sp4
  end.
Definition print_table (ls : list table_line) : list Z :=
  concat ((λ l, print_line l ++ [newline]) <$> ls).

Definition blank (sp : list Z) : Prop := Forall (λ c, isspace c = true ∧ c ≠ newline) sp.
(** A word: no blank, no NUL, no [=]. *)
Definition word (s : list Z) : Prop :=
  s ≠ [] ∧ Forall (λ c, isspace c = false ∧ c ≠ 0 ∧ c ≠ equals_sign) s.

(** A label may be too long; two dots in a row are another matter, the name
    would end there. *)
Definition line_ok (l : table_line) : Prop :=
  (length (print_line l) < 511)%nat ∧
  match l with
  | Blank sp => blank sp
  | Remark sp text => blank sp ∧ Forall (λ c, c ≠ newline) text
  | Entry sp1 labels sp2 sp3 ip sp4 =>
      blank sp1 ∧ blank sp2 ∧ blank sp3 ∧ blank sp4 ∧ word (join labels) ∧ word ip ∧
      head (join labels) ≠ Some hash_sign ∧ (length (join labels) < 500)%nat ∧
      Forall (λ l, plain l ∧ l ≠ []) labels
  end.

#[export] Instance blank_dec sp : Decision (blank sp).
Proof. unfold blank. apply _. Defined.
#[export] Instance word_dec s : Decision (word s).
Proof. unfold word. apply _. Defined.
#[export] Instance line_ok_dec l : Decision (line_ok l).
Proof. destruct l; unfold line_ok; apply _. Defined.

Section host.
Context `{InetPton}.

(** The record of an entry: none for a text that is no address, or a name with
    a label that is too long. *)
Definition host_record (labels : list (list Z)) (ip : list Z) : option ResourceRecord :=
  if bool_decide (Forall (λ l, length l ≤ 63)%nat labels) then
    match inet_pton4 ip with
    | Some a => Some (MkRR (wire_name labels) QTYPE_A QCLASS_IN UINT32_MAX 4 a)
    | None =>
        match inet_pton6 ip with
        | Some a => Some (MkRR (wire_name labels) QTYPE_AAAA QCLASS_IN UINT32_MAX 16 a)
        | None => None
        end
    end
  else None.

Definition line_record (l : table_line) : option ResourceRecord :=
  match l with Entry _ labels _ _ ip _ => host_record labels ip | _ => None end.
Definition table_records (ls : list table_line) : list ResourceRecord := omap line_record ls.

(** The records of the file for a question, in the order of the file. *)
Definition hosts (ls : list table_line) (q : list Z) (t : Z) : list ResourceRecord :=
  filter (λ rr, rr_name rr = q ++ [0] ∧ rr_type rr = t) (table_records ls).
(** The questions it answers. *)
Definition host_questions (ls : list table_line) : gset (list Z * Z) :=
  list_to_set ((λ rr, (rr_name rr, rr_type rr)) <$> table_records ls).
End host.

(** ** Reading a line *)

Section read_line.
Implicit Types (buf : list (option Z)) (pre w sp rest : list Z).

Lemma strchr_holds buf pre w c rest p :
  holds buf (pre ++ w ++ c :: rest) → Forall (λ x, x ≠ c ∧ x ≠ 0) w → p = Z.of_nat (length pre) →
  strchr buf p c = Ret (Some (Z.of_nat (length (pre ++ w)))).
Proof.
  intros Hb Hw ->. unfold strchr. pose proof (holds_length _ _ Hb) as Hl.
  rewrite !length_app in Hl. assert (Hf : (length w < S (length buf))%nat) by lia.
  revert Hf. generalize (S (length buf)). clear Hl. revert pre Hb.
  induction Hw as [|x w [Hx Hx0] _ IH]; intros pre Hb [|fuel] Hf; simpl in Hf; try lia.
  - simpl. rewrite (char_at_holds buf pre rest c) by done. cbn [mbind Res_bind].
    by rewrite Z.eqb_refl, app_nil_r.
  - cbn [strchr_loop]. rewrite (char_at_holds buf pre (w ++ c :: rest) x) by done.
    cbn [mbind Res_bind]. rewrite !(proj2 (Z.eqb_neq _ _)) by done.
    replace (Z.of_nat (length pre) + 1) with (Z.of_nat (length (pre ++ [x])))
      by (rewrite length_app; simpl; lia).
    rewrite (IH (pre ++ [x])); [by rewrite <- app_assoc|by rewrite <- app_assoc|lia].
Qed.

Lemma string_at_holds buf pre w rest p :
  holds buf (pre ++ w ++ 0 :: rest) → no_nul w → p = Z.of_nat (length pre) →
  string_at buf p = Ret w.
Proof.
  intros Hb Hw ->. unfold string_at. pose proof (holds_length _ _ Hb) as Hl.
  rewrite !length_app in Hl. assert (Hf : (length w < S (length buf))%nat) by lia.
  revert Hf. generalize (S (length buf)). clear Hl. revert pre Hb.
  induction Hw as [|x w Hx _ IH]; intros pre Hb [|fuel] Hf; simpl in Hf; try lia.
  - cbn [string_loop]. by rewrite (char_at_holds buf pre rest 0).
  - cbn [string_loop]. rewrite (char_at_holds buf pre (w ++ 0 :: rest) x) by done.
    cbn [mbind Res_bind]. rewrite (proj2 (Z.eqb_neq _ _)) by done.
    replace (Z.of_nat (length pre) + 1) with (Z.of_nat (length (pre ++ [x])))
      by (rewrite length_app; simpl; lia).
    rewrite (IH (pre ++ [x])); [done|by rewrite <- app_assoc|lia].
Qed.

Lemma set_char_holds buf pre c d rest p :
  holds buf (pre ++ c :: rest) → p = Z.of_nat (length pre) →
  ∃ buf', set_char buf p d = Ret buf' ∧ holds buf' (pre ++ d :: rest) ∧ length buf' = length buf.
Proof.
  intros [junk ->] ->. unfold set_char.
  rewrite blit_single by (rewrite length_app, length_fmap, length_app; simpl; lia).
  eexists. split; [done|]. split; [|by rewrite length_insert]. exists junk.
  rewrite Nat2Z.id, !fmap_app, !fmap_cons, <- !app_assoc. cbn [app].
  rewrite insert_app_r_alt by (rewrite length_fmap; lia). rewrite length_fmap, Nat.sub_diag. done.
Qed.

(** The blanks behind a word become NULs. *)
Lemma trim_holds buf pre w sp rest end_ start :
  holds buf (pre ++ w ++ sp ++ rest) → Forall (λ x, isspace x = true) sp →
  (∀ x, last w = Some x → isspace x = false) →
  start = Z.of_nat (length pre) → end_ = Z.of_nat (length (pre ++ w ++ sp)) - 1 →
  ∃ buf', trim buf end_ start = Ret buf' ∧
    holds buf' (pre ++ w ++ replicate (length sp) 0 ++ rest) ∧ length buf' = length buf.
Proof.
  intros Hb Hsp Hlast -> ->. unfold trim. pose proof (holds_length _ _ Hb) as Hl.
  rewrite !length_app in Hl. assert (Hf : (length sp < S (length buf))%nat) by lia.
  revert Hf. generalize (S (length buf)). intros fuel. revert fuel buf rest Hb Hl.
  induction sp as [|b sp IH] using rev_ind; intros [|fuel] buf rest Hb Hl Hf;
    rewrite ?length_app in Hf; simpl in Hf; try lia; cbn [trim_loop].
  - exists buf. split_and!; [|done|done]. rewrite Z.geb_leb, app_nil_r.
    destruct w as [|x w _] using rev_ind.
    { rewrite app_nil_r. by rewrite (proj2 (Z.leb_gt _ _)) by lia. }
    rewrite (proj2 (Z.leb_le _ _)) by (rewrite !length_app; simpl; lia).
    rewrite (char_at_holds' buf (pre ++ w) rest x);
      [|by rewrite <- !app_assoc in *|rewrite !length_app; simpl; lia].
    cbn [mbind Res_bind]. by rewrite (Hlast x) by (by rewrite last_snoc).
  - apply Forall_app in Hsp as [Hsp [Hbsp _]%Forall_cons].
    assert (Hb1 : holds buf ((pre ++ w ++ sp) ++ b :: rest)) by (by rewrite <- !app_assoc in *).
    assert (Hpos : Z.of_nat (length (pre ++ w ++ sp ++ [b])) - 1 = Z.of_nat (length (pre ++ w ++ sp)))
      by (rewrite !length_app; simpl; lia).
    rewrite Hpos, Z.geb_leb. rewrite (proj2 (Z.leb_le _ _)) by (rewrite !length_app; lia).
    rewrite (char_at_holds buf (pre ++ w ++ sp) rest b Hb1). cbn [mbind Res_bind]. rewrite Hbsp.
    destruct (set_char_holds buf (pre ++ w ++ sp) b 0 rest _ Hb1 eq_refl) as (buf1 & -> & Hb2 & Hl1).
    cbn [mbind Res_bind].
    destruct (IH Hsp fuel buf1 (0 :: rest)) as (buf' & E & Hb' & Hl').
    + by rewrite <- !app_assoc in Hb2.
    + rewrite Hl1. rewrite !length_app in *. simpl in *. lia.
    + lia.
    + exists buf'. split_and!; [exact E| |congruence].
      rewrite length_app, replicate_add. by rewrite <- !app_assoc in *.
Qed.

Lemma blank_isspace sp : blank sp → Forall (λ c, isspace c = true) sp.
Proof. intros Hs. eapply Forall_impl; [exact Hs|]. by intros c [? _]. Qed.
Lemma isspace_no_nul sp : Forall (λ c, isspace c = true) sp → no_nul sp.
Proof. intros Hs. eapply Forall_impl; [exact Hs|]. by intros c Hc ->. Qed.
Lemma blank_plain sp : blank sp → Forall (λ x, x ≠ equals_sign ∧ x ≠ 0) sp.
Proof. intros Hs. eapply Forall_impl; [exact Hs|]. intros c [Hc _]. by split; intros ->. Qed.
Lemma word_plain s : word s → Forall (λ x, x ≠ equals_sign ∧ x ≠ 0) s.
Proof. intros [_ Hs]. eapply Forall_impl; [exact Hs|]. by intros c (_ & ? & ?). Qed.
Lemma word_no_nul s : word s → no_nul s.
Proof. intros [_ Hs]. eapply Forall_impl; [exact Hs|]. by intros c (_ & ? & ?). Qed.
Lemma word_last s x : word s → last s = Some x → isspace x = false.
Proof.
  intros [_ Hs] Hx. apply last_Some_elem_of in Hx.
  by apply (proj1 (Forall_forall _ _) Hs x) in Hx as [? _].
Qed.
Lemma word_head s : word s → ∃ c s', s = c :: s' ∧ isspace c = false ∧ c ≠ 0.
Proof. intros [Hne Hs]. destruct s as [|c s]; [done|]. apply Forall_cons in Hs as [(?&?&_) _]. eauto. Qed.

Lemma zeros_then n rest : replicate n 0 ++ 0 :: rest = 0 :: replicate n 0 ++ rest.
Proof. induction n as [|n IH]; [done|]. simpl. by rewrite IH. Qed.
End read_line.

Section lines.
Context `{Allocator, InetPton}.

Lemma table_record_blank buf sp :
  holds buf (print_line (Blank sp) ++ [newline; 0]) → blank sp → table_record buf = Ret None.
Proof.
  intros Hb Hs. unfold table_record. cbn [print_line] in Hb.
  assert (Hb' : holds buf ([] ++ (sp ++ [newline]) ++ 0 :: [])) by (by rewrite <- app_assoc).
  assert (E : skip_spaces buf 0 = Ret (Z.of_nat (length (sp ++ [newline])))).
  { apply (skip_spaces_holds buf [] (sp ++ [newline]) 0 []); [done| |done].
    apply Forall_app. split; [by apply blank_isspace|by constructor]. }
  rewrite E. cbn [mbind Res_bind]. by rewrite (char_at_holds buf (sp ++ [newline]) [] 0).
Qed.

Lemma table_record_remark buf sp text :
  holds buf (print_line (Remark sp text)) → blank sp → table_record buf = Ret None.
Proof.
  intros Hb Hs. unfold table_record. cbn [print_line] in Hb.
  assert (E : skip_spaces buf 0 = Ret (Z.of_nat (length sp))).
  { apply (skip_spaces_holds buf [] sp hash_sign text); [done|by apply blank_isspace|done]. }
  rewrite E. cbn [mbind Res_bind]. by rewrite (char_at_holds buf sp text hash_sign).
Qed.

(** The domain is cut at the [=] and behind its last character. *)
Lemma cut_domain buf sp1 name sp2 rest :
  holds buf (sp1 ++ (name ++ sp2) ++ equals_sign :: rest) → word name → blank sp2 →
  let eq := Z.of_nat (length (sp1 ++ name ++ sp2)) in
  strchr buf (Z.of_nat (length sp1)) equals_sign = Ret (Some eq) ∧
  ∃ buf', (line ← set_char buf eq 0; trim line (eq - 1) (Z.of_nat (length sp1))) = Ret buf' ∧
    holds buf' ((sp1 ++ name ++ 0 :: replicate (length sp2) 0) ++ rest).
Proof.
  intros Hb Hn Hs eq. split.
  { apply (strchr_holds buf sp1 (name ++ sp2) equals_sign rest); [done| |done].
    apply Forall_app. split; [by apply word_plain|by apply blank_plain]. }
  destruct (set_char_holds buf (sp1 ++ name ++ sp2) equals_sign 0 rest eq
    ltac:(by rewrite <- app_assoc) eq_refl) as (buf1 & -> & Hb1 & _). cbn [mbind Res_bind].
  destruct (trim_holds buf1 sp1 name sp2 (0 :: rest) (eq - 1) (Z.of_nat (length sp1)))
    as (buf2 & -> & Hb2 & _); [by rewrite <- !app_assoc in Hb1|by apply blank_isspace| |done|done|].
  { intros x Hx. by apply (word_last name). }
  exists buf2. split; [done|]. rewrite zeros_then in Hb2. by rewrite <- !app_assoc.
Qed.

(** So is the address, behind the blanks that follow the [=]. *)
Lemma cut_ip buf pre sp3 ip sp4 :
  holds buf (pre ++ sp3 ++ ip ++ sp4 ++ [newline; 0]) → word ip → blank sp3 → blank sp4 →
  let start := Z.of_nat (length (pre ++ sp3)) in
  skip_spaces buf (Z.of_nat (length pre)) = Ret start ∧
  ∃ s buf' z, string_at buf start = Ret s ∧ trim buf (start + Z.of_nat (length s) - 1) start = Ret buf' ∧
    holds buf' ((pre ++ sp3) ++ ip ++ 0 :: z).
Proof.
  intros Hb Hi Hs3 Hs4 start. destruct (word_head _ Hi) as (d & ip' & Ei & Hd & _). split.
  { rewrite Ei in Hb. apply (skip_spaces_holds buf pre sp3 d _ Hb); [by apply blank_isspace|done]. }
  assert (Hsp : Forall (λ x, isspace x = true) (sp4 ++ [newline])).
  { apply Forall_app. split; [by apply blank_isspace|by constructor]. }
  assert (Hb1 : holds buf ((pre ++ sp3) ++ (ip ++ sp4 ++ [newline]) ++ [0])) by (by rewrite <- !app_assoc).
  exists (ip ++ sp4 ++ [newline]).
  destruct (trim_holds buf (pre ++ sp3) ip (sp4 ++ [newline]) [0]
    (start + Z.of_nat (length (ip ++ sp4 ++ [newline])) - 1) start)
    as (buf' & E & Hb' & _); [by rewrite <- !app_assoc in *|done| |done|unfold start; rewrite !length_app; lia|].
  { intros x Hx. by apply (word_last ip). }
  rewrite zeros_then in Hb'. eexists buf', _. split_and!; [|exact E|exact Hb'].
  apply (string_at_holds buf (pre ++ sp3) _ [] _ Hb1); [|done].
  apply no_nul_app. split; [by apply word_no_nul|by apply isspace_no_nul].
Qed.

(** The wire form of a name without empty labels is a string. *)
Lemma host_wire_no_nul (ls : list (list Z)) :
  Forall (λ l, plain l ∧ l ≠ []) ls → no_nul (wire ls).
Proof.
  induction 1 as [|l ls [Hl Hne] _ IH]; [constructor|]. rewrite wire_cons.
  constructor; [destruct l; simpl in *; [done|lia]|]. apply no_nul_app. split; [|done].
  eapply Forall_impl; [exact Hl|]. by intros c [? _].
Qed.

Lemma rr_make_host `{!AllocTotal} ls ip type :
  Forall plain ls → join ls ≠ [] → type = QTYPE_A ∨ type = QTYPE_AAAA →
  rr_make_from_config_pair (Some (join ls)) UINT32_MAX type (Some ip) =
    Ret (if bool_decide (Forall (λ l, length l ≤ 63)%nat ls) then
           if type =? QTYPE_A
           then (λ a, MkRR (wire_name ls) QTYPE_A QCLASS_IN UINT32_MAX 4 a) <$> inet_pton4 ip
           else (λ a, MkRR (wire_name ls) QTYPE_AAAA QCLASS_IN UINT32_MAX 16 a) <$> inet_pton6 ip
         else None).
Proof.
  intros Hp Hne Ht. unfold rr_make_from_config_pair.
  rewrite (encode_name_spec ls Hp Hne) by apply malloc_total. cbn [mbind Res_bind].
  destruct (bool_decide _); [|done].
  destruct Ht as [-> | ->]; cbn; rewrite malloc_total; cbn [negb].
  - by destruct (inet_pton4 ip).
  - by destruct (inet_pton6 ip).
Qed.

Lemma entry_record_host `{!AllocTotal} labels ip :
  Forall (λ l, plain l ∧ l ≠ []) labels → join labels ≠ [] → ip ≠ [] →
  entry_record (join labels) ip = Ret ((λ rr, (rr_type rr, rr)) <$> host_record labels ip).
Proof.
  intros Hlab Hn Hi. unfold entry_record, host_record. rewrite !bool_decide_false by done. cbn [orb].
  assert (Hp : Forall plain labels) by (eapply Forall_impl; [exact Hlab|]; by intros ? []).
  destruct (inet_pton4 ip) eqn:E4; [|destruct (inet_pton6 ip) eqn:E6].
  - rewrite rr_make_host by (done || by left). cbn [mbind Res_bind].
    rewrite E4. by destruct (bool_decide _).
  - rewrite rr_make_host by (done || by right). cbn [mbind Res_bind].
    change (QTYPE_AAAA =? QTYPE_A) with false. cbv iota. rewrite E6. by destruct (bool_decide _).
  - by destruct (bool_decide _).
Qed.

Lemma table_record_entry `{!AllocTotal} buf sp1 labels sp2 sp3 ip sp4 :
  let l := Entry sp1 labels sp2 sp3 ip sp4 in
  holds buf (print_line l ++ [newline; 0]) → line_ok l →
  table_record buf = Ret ((λ rr, (rr_type rr, rr)) <$> host_record labels ip).
Proof.
  intros l Hb (_ & Hs1 & Hs2 & Hs3 & Hs4 & Hn & Hi & Hhash & _ & Hlab).
  unfold l in Hb. cbn [print_line] in Hb. remember (join labels) as name eqn:Ename.
  destruct (word_head _ Hn) as (c & name' & En & Hc & Hc0). destruct (word_head _ Hi) as (d & ip' & Ei & _).
  set (rest := sp3 ++ ip ++ sp4 ++ [newline; 0]).
  assert (Hb0 : holds buf (sp1 ++ (name ++ sp2) ++ equals_sign :: rest)).
  { unfold rest. by repeat (rewrite <- app_assoc in Hb; cbn [app] in Hb) || rewrite <- !app_assoc. }
  assert (Hbc : holds buf (sp1 ++ c :: name' ++ sp2 ++ equals_sign :: rest)).
  { rewrite En in Hb0. by rewrite <- app_assoc in Hb0. }
  assert (Esk : skip_spaces buf 0 = Ret (Z.of_nat (length sp1)))
    by (apply (skip_spaces_holds buf [] sp1 c _ Hbc); [by apply blank_isspace|done]).
  unfold table_record. rewrite Esk. cbn [mbind Res_bind].
  rewrite (char_at_holds buf sp1 _ c Hbc). cbn [mbind Res_bind].
  assert (c ≠ hash_sign) by (intros ->; by rewrite En in Hhash).
  assert (c ≠ newline) by (by intros ->). rewrite !(proj2 (Z.eqb_neq _ _)) by done. cbn [orb].
  destruct (cut_domain buf sp1 name sp2 rest Hb0 Hn Hs2) as (-> & buf2 & E2 & Hb2). cbn [mbind Res_bind].
  destruct (set_char buf _ 0) as [buf1| |]; [|done|done]. cbn [mbind Res_bind] in *. rewrite E2.
  cbn [mbind Res_bind]. set (pre := sp1 ++ name ++ 0 :: replicate (length sp2) 0) in *.
  assert (Hpre : Z.of_nat (length (sp1 ++ name ++ sp2)) + 1 = Z.of_nat (length pre)).
  { unfold pre. rewrite !length_app. cbn [length]. rewrite length_replicate. lia. }
  rewrite Hpre. destruct (cut_ip buf2 pre sp3 ip sp4 Hb2 Hi Hs3 Hs4) as (-> & s & buf3 & z & Es & E3 & Hb3).
  cbn [mbind Res_bind]. rewrite Es. cbn [mbind Res_bind]. rewrite E3. cbn [mbind Res_bind].
  rewrite (string_at_holds buf3 (pre ++ sp3) ip _ _ Hb3) by (by apply word_no_nul || done).
  rewrite (string_at_holds buf3 sp1 name (replicate (length sp2) 0 ++ sp3 ++ ip ++ 0 :: z))
    by (by apply word_no_nul || done || by unfold pre in Hb3; rewrite <- !app_assoc in Hb3).
  cbn [mbind Res_bind]. rewrite Ename. apply entry_record_host; [done|by rewrite <- Ename, En|by rewrite Ei].
Qed.
End lines.

(** ** Grouping *)

(** [inet_pton] writes a whole address. *)
Class InetPtonLaws `{InetPton} : Prop := {
  inet_pton4_length s a : inet_pton4 s = Some a → length a = 4%nat;
  inet_pton6_length s a : inet_pton6 s = Some a → length a = 16%nat;
}.

Record host_ok (rr : ResourceRecord) : Prop := {
  host_name : ∃ s, rr_name rr = s ++ [0] ∧ no_nul s ∧ (length s < 505)%nat;
  host_type : rr_type rr = QTYPE_A ∨ rr_type rr = QTYPE_AAAA;
  host_ttl : rr_ttl rr = UINT32_MAX;
  host_rdata : rdata_length rr = Z.of_nat (length (rdata rr));
}.

Lemma host_rr_ok rr : host_ok rr → rr_ok rr.
Proof. intros Hr. destruct (host_name _ Hr) as (s & Hs & Hn & _). split; [by exists s|apply Hr]. Qed.

Lemma line_record_ok `{InetPtonLaws} l rr : line_ok l → line_record l = Some rr → host_ok rr.
Proof.
  destruct l as [|sp text|sp1 ls sp2 sp3 ip sp4]; [done..|]. intros (_ & _ & _ & _ & _ & Hw & _ & _ & Hl & Hls).
  simpl. unfold host_record. destruct (bool_decide _); [|done].
  assert (Hname : ∃ s, wire_name ls = s ++ [0] ∧ no_nul s ∧ (length s < 505)%nat).
  { exists (wire ls). split_and!; [done|by apply host_wire_no_nul|].
    assert (ls ≠ []) by (intros ->; by destruct Hw as [[] _]). rewrite wire_length by done. lia. }
  destruct (inet_pton4 ip) eqn:E4; [|destruct (inet_pton6 ip) eqn:E6; [|done]]; intros [= <-];
    (split; [done|simpl; tauto|done|]); simpl.
  - by rewrite (inet_pton4_length _ _ E4).
  - by rewrite (inet_pton6_length _ _ E6).
Qed.

(** The key of a record's group, and the records of a group. *)
Definition rr_group (rr : ResourceRecord) : list Z := print_u (rr_type rr) ++ bar :: removelast (rr_name rr).
Definition in_group (k : list Z) (rs : list ResourceRecord) : list ResourceRecord :=
  filter (λ rr, rr_group rr = k) rs.

Lemma print_u_host rr : host_ok rr →
  print_u (rr_type rr) = [49] ∨ print_u (rr_type rr) = [50; 56].
Proof. intros Hr. destruct (host_type _ Hr) as [-> | ->]; [by left|by right]. Qed.

Lemma group_key_spec rr : host_ok rr → group_key (rr_type rr) rr = Ret (rr_group rr).
Proof.
  intros Hr. destruct (host_name _ Hr) as (s & Es & Hs & Hl). unfold group_key, rr_group.
  rewrite Es, c_string_app, removelast_last by done. cbn [mbind Res_bind]. f_equal. apply take_ge.
  rewrite length_app. change (Z.to_nat (GROUP_KEY_SIZE - 1)) with 511%nat.
  destruct (print_u_host _ Hr) as [-> | ->]; simpl; lia.
Qed.

(** A group answers one question. *)
Lemma rr_group_question rr s t :
  host_ok rr → is_u16 t → rr_group rr = print_u t ++ bar :: s ↔ rr_name rr = s ++ [0] ∧ rr_type rr = t.
Proof.
  intros Hr Ht. destruct (host_name _ Hr) as (s' & Es & _). unfold rr_group. rewrite Es, removelast_last.
  assert (Hu : is_u16 (rr_type rr)) by (destruct (host_type _ Hr) as [-> | ->]; done).
  destruct (print_u_spec _ Ht) as [D V], (print_u_spec _ Hu) as [D' V']. split.
  - intros [E ->]%field_inj; [|done..]. split; [done|congruence].
  - by intros [->%app_inv_tail ->].
Qed.

Section groups.
#[local] Set Default Proof Using "Type*".
Context `{!Allocator, !AllocTotal, !InetPton, !InetPtonLaws} {G M : Type}.
Context `{!MapOps (list Z) loc G, !MapLaws (list Z) loc G, !MapOps (list Z) loc M, !MapLaws (list Z) loc M}.
Implicit Types (gs : groups G) (rs : list ResourceRecord).

(** The groups of the records read so far. *)
Definition groups_rep gs rs : Prop :=
  Forall host_ok rs ∧ NoDup (group_keys gs) ∧ (∀ k, k ∈ group_keys gs ↔ k ∈ rr_group <$> rs) ∧
  store_wf (vectors gs) ∧
  ∃ mm, map_rep (rr_groups gs) mm ∧
    (∀ k, is_Some (mm !! k) ↔ k ∈ group_keys gs) ∧
    (∀ k k' l, mm !! k = Some l → mm !! k' = Some l → k = k') ∧
    (∀ k l, mm !! k = Some l → cells (vectors gs) !! l = Some (in_group k rs)).

Lemma in_group_snoc k rs rr :
  in_group k (rs ++ [rr]) = in_group k rs ++ (if decide (rr_group rr = k) then [rr] else []).
Proof. unfold in_group. rewrite filter_app. f_equal. Qed.

Lemma in_group_nil k rs : k ∉ rr_group <$> rs → in_group k rs = [].
Proof.
  intros Hk. unfold in_group. destruct (filter _ rs) as [|r l] eqn:E; [done|]. destruct Hk.
  assert (Hin : r ∈ filter (λ rr, rr_group rr = k) rs) by (rewrite E; left).
  apply list_elem_of_filter in Hin as [<- Hin]. by apply list_elem_of_fmap_2.
Qed.

Lemma add_record_known gs rs rr :
  groups_rep gs rs → host_ok rr → rr_group rr ∈ group_keys gs →
  ∃ gs', add_record (rr_type rr) rr gs = Ret gs' ∧ groups_rep gs' (rs ++ [rr]).
Proof.
  intros (Hrs & Hnd & Hkeys & Hwf & mm & Hm & Hdom & Hinj & Hcells) Hr Hin. unfold add_record.
  rewrite (group_key_spec _ Hr), bind_Ret, (map_get_spec _ _ _ Hm), bind_Ret.
  destruct (proj2 (Hdom _) Hin) as [l Hl]. rewrite Hl, bind_Ret, (load_Some _ _ _ (Hcells _ _ Hl)), bind_Ret.
  rewrite (store_Some _ _ _ _ (Hcells _ _ Hl)), bind_Ret. eexists. split; [done|]. split_and!; simpl; try done.
  - apply Forall_app. by split; [|apply Forall_singleton].
  - intros k. rewrite fmap_app, elem_of_app, (list_elem_of_singleton k (rr_group rr)), Hkeys. split; [tauto|].
    intros [?| ->]; [done|by apply Hkeys].
  - eauto using store_wf_insert.
  - exists mm. split_and!; try done. intros k l' Hl'. rewrite in_group_snoc.
    destruct (decide (rr_group rr = k)) as [<-|Hne].
    + rewrite Hl in Hl'. injection Hl' as <-. by rewrite lookup_insert_eq.
    + rewrite lookup_insert_ne by (intros <-; eauto). rewrite app_nil_r. by apply Hcells.
Qed.

Lemma add_record_new gs rs rr :
  groups_rep gs rs → host_ok rr → rr_group rr ∉ group_keys gs →
  ∃ gs', add_record (rr_type rr) rr gs = Ret gs' ∧ groups_rep gs' (rs ++ [rr]).
Proof.
  intros (Hrs & Hnd & Hkeys & Hwf & mm & Hm & Hdom & Hinj & Hcells) Hr Hin. unfold add_record.
  rewrite (group_key_spec _ Hr), bind_Ret, (map_get_spec _ _ _ Hm), bind_Ret.
  assert (Hnone : mm !! rr_group rr = None) by (apply eq_None_not_Some; by rewrite Hdom).
  rewrite Hnone. unfold alloc. destruct (map_put_spec _ _ (rr_group rr) (brk (vectors gs)) Hm) as (m' & -> & Hm').
  rewrite !bind_Ret. cbn [vectors rr_groups group_keys].
  assert (Hlow : ∀ k l, mm !! k = Some l → l ≠ brk (vectors gs)).
  { intros k l Hl ->. pose proof (Hwf _ (mk_is_Some _ _ (Hcells _ _ Hl))). lia. }
  erewrite load_Some by apply lookup_insert_eq. rewrite bind_Ret.
  erewrite store_Some by apply lookup_insert_eq. rewrite bind_Ret.
  eexists. split; [done|]. split_and!; simpl.
  - apply Forall_app. by split; [|apply Forall_singleton].
  - apply NoDup_app. split_and!; [done| |apply NoDup_singleton]. by intros k Hk ->%list_elem_of_singleton.
  - intros k. by rewrite fmap_app, !elem_of_app, Hkeys.
  - refine (store_wf_insert (alloc [] (vectors gs)).2 _ _ (store_wf_alloc _ _ Hwf) _).
    simpl. rewrite lookup_insert_eq. eauto.
  - exists (<[rr_group rr := brk (vectors gs)]> mm). split_and!; [done|..].
    + intros k. rewrite elem_of_app, list_elem_of_singleton, lookup_insert_is_Some, Hdom. clear. destruct (decide (rr_group rr = k)); naive_solver.
    + intros k k' l. rewrite !lookup_insert_Some. naive_solver.
    + intros k l. rewrite lookup_insert_Some, in_group_snoc. intros [[<- <-]|[Hne Hl]].
      * rewrite decide_True, lookup_insert_eq by done. rewrite in_group_nil; [done|]. by rewrite <- Hkeys.
      * rewrite decide_False, app_nil_r by done. rewrite !lookup_insert_ne by (apply not_eq_sym; eauto). by apply Hcells.
Qed.

Lemma add_record_spec gs rs rr :
  groups_rep gs rs → host_ok rr →
  ∃ gs', add_record (rr_type rr) rr gs = Ret gs' ∧ groups_rep gs' (rs ++ [rr]).
Proof.
  intros Hg Hr. destruct (decide (rr_group rr ∈ group_keys gs)).
  - by apply add_record_known.
  - by apply add_record_new.
Qed.
(** ** Reading the file *)

Lemma print_line_plain l : line_ok l → Forall (λ c, c ≠ newline) (print_line l).
Proof.
  assert (Hb : ∀ sp, blank sp → Forall (λ c, c ≠ newline) sp)
    by (intros sp Hs; eapply Forall_impl; [exact Hs|]; by intros c [_ ?]).
  assert (Hw : ∀ s, word s → Forall (λ c, c ≠ newline) s)
    by (intros s [_ Hs]; eapply Forall_impl; [exact Hs|]; by intros c [? _] ->).
  intros [_ Hl]. destruct l as [sp|sp text|sp1 ls sp2 sp3 ip sp4]; simpl; [by apply Hb| |].
  - destruct Hl. apply Forall_app. split; [by apply Hb|by constructor].
  - destruct Hl as (?&?&?&?&?&?&_). repeat (apply Forall_app; split); auto. constructor; [done|].
    repeat (apply Forall_app; split); auto.
Qed.

Lemma table_record_line buf l :
  holds buf (print_line l ++ [newline; 0]) → line_ok l →
  table_record buf = Ret ((λ rr, (rr_type rr, rr)) <$> line_record l).
Proof.
  intros Hb Hl. destruct l as [sp|sp text|sp1 ls sp2 sp3 ip sp4].
  - destruct Hl as [_ Hl]. by eapply table_record_blank.
  - destruct Hl as [_ [Hl _]]. eapply table_record_remark; [|done]. by eapply holds_app.
  - by apply (table_record_entry buf sp1 ls sp2 sp3 ip sp4).
Qed.

Lemma read_loop_spec fuel ls buf gs rs :
  Forall line_ok ls → length buf = Z.to_nat LINE_SIZE → (length ls < fuel)%nat → groups_rep gs rs →
  ∃ gs', read_loop fuel (print_table ls) buf gs = Ret gs' ∧ groups_rep gs' (rs ++ table_records ls).
Proof.
  intros Hls. revert fuel buf gs rs. induction Hls as [|l ls Hl _ IH]; intros [|fuel] buf gs rs Hb Hf Hg;
    simpl in Hf; try lia; cbn [read_loop].
  { exists gs. by rewrite app_nil_r. }
  assert (Hbl : (length (print_line l) + 2 ≤ length buf)%nat).
  { rewrite Hb. destruct Hl as [Hl _]. unfold LINE_SIZE. lia. }
  destruct (fgets_line buf (print_line l) (print_table ls) (print_line_plain l Hl) Hbl)
    as (buf' & E & Hh & Hb').
  assert (Ep : print_table (l :: ls) = print_line l ++ newline :: print_table ls)
    by (unfold print_table; simpl; by rewrite <- app_assoc).
  rewrite Ep, E, (table_record_line buf' l Hh Hl), bind_Ret. unfold table_records. cbn [omap list_omap].
  destruct (line_record l) as [rr|] eqn:El; cbn [fmap option_fmap option_map].
  - destruct (add_record_spec gs rs rr Hg (line_record_ok l rr Hl El)) as (gs1 & -> & Hg1).
    rewrite bind_Ret. destruct (IH fuel buf' gs1 _ ltac:(congruence) ltac:(lia) Hg1) as (gs' & -> & Hg').
    exists gs'. split; [done|]. by rewrite <- app_assoc in Hg'.
  - rewrite bind_Ret. by apply IH; [congruence|lia|].
Qed.

(** ** Filling the cache *)

Definition group_value rs (k : list Z) : CacheValue :=
  MkValue (wrap_u16 (Z.of_nat (length (in_group k rs)))) 0 0 (Some (in_group k rs)).
(** The key of the cache: the class comes first. *)
Definition cached_key (k : list Z) : list Z := print_u QCLASS_IN ++ bar :: k.
Definition loaded (now : Z) (cap : nat) rs (keys : list (list Z)) (items : list item) : list item :=
  foldl (λ items k, lru_put now cap (cached_key k) (group_value rs k) items) items keys.

Lemma group_value_ok rs k : Forall host_ok rs → value_ok (group_value rs k).
Proof.
  intros Hrs. eexists. split; [done|]. apply filter_keeps. eapply Forall_impl; [exact Hrs|]. apply host_rr_ok.
Qed.

Lemma cached_key_create s r t :
  no_nul s → is_u16 t → cache_key_create (s ++ 0 :: r) t QCLASS_IN = Ret (cached_key (print_u t ++ bar :: s)).
Proof. intros Hs Ht. rewrite (cache_key_spec s r t QCLASS_IN Hs). by rewrite (wrap_u16_small t Ht). Qed.

(** A group key, taken apart. *)
Lemma group_key_parts rr :
  host_ok rr → ∃ s, after_bar (rr_group rr) = Some s ∧ atoi (rr_group rr) = Ret (rr_type rr) ∧
    cache_key_create (s ++ [0]) (rr_type rr) QCLASS_IN = Ret (cached_key (rr_group rr)).
Proof.
  intros Hr. destruct (host_name _ Hr) as (s & Es & Hs & _). exists s. unfold rr_group.
  rewrite Es, removelast_last, (cache_key_spec s [] _ _ Hs). by destruct (host_type _ Hr) as [-> | ->].
Qed.

Lemma cache_groups_spec now gs rs keys c items :
  groups_rep gs rs → (∀ k, k ∈ keys → k ∈ group_keys gs) → cache_rep c items → items_ok items →
  ∃ c', cache_groups now keys gs (Some c) = Ret (Some c') ∧ capacity c' = capacity c ∧
    cache_rep c' (loaded now (Z.to_nat (capacity c)) rs keys items) ∧
    items_ok (loaded now (Z.to_nat (capacity c)) rs keys items).
Proof.
  intros (Hrs & _ & Hkeys & _ & mm & Hm & Hdom & _ & Hcells).
  revert c items. induction keys as [|k keys IH]; intros c items Hin Hc Hi; cbn [cache_groups].
  { exists c. done. }
  assert (Hk : k ∈ group_keys gs) by (apply Hin; left).
  destruct (proj2 (Hdom _) Hk) as [l Hl]. rewrite (map_get_spec _ _ _ Hm), Hl, bind_Ret.
  apply Hkeys, list_elem_of_fmap in Hk as (rr & -> & Hrr). rewrite Forall_forall in Hrs.
  destruct (group_key_parts rr (Hrs rr Hrr)) as (s & -> & Ea & Ek).
  rewrite (load_Some _ _ _ (Hcells _ _ Hl)), bind_Ret, Ea, bind_Ret. fold (group_value rs (rr_group rr)).
  assert (Hv : value_ok (group_value rs (rr_group rr))) by (apply group_value_ok; by apply Forall_forall).
  destruct (dns_cache_put_spec now c items _ _ _ _ _ Hc Ek Hv) as (c1 & -> & Hc1 & Hcap). rewrite !bind_Ret.
  destruct (IH c1 _ (λ k' Hk', Hin k' (list_elem_of_further _ _ _ Hk')) Hc1) as (c' & -> & Hcap' & Hc' & Hi').
  { pose proof (items_ok_spec now (Z.to_nat (capacity c)) (OpPut (s ++ [0]) (rr_type rr) QCLASS_IN
      (group_value rs (rr_group rr))) items) as Hok. cbn [spec_op snd] in Hok. unfold key_of in Hok.
    rewrite Ek in Hok. apply Hok; [|done]. split; [|done].
    unfold cache_key_create in Ek. destruct (strlen (s ++ [0])); [by eexists|done|done]. }
  rewrite Hcap in Hc', Hi'. exists c'. split_and!; [done|congruence|done..].
Qed.

Lemma loaded_other now cap rs keys items k' :
  k' ∉ cached_key <$> keys → (length items + length keys ≤ cap)%nat →
  find_item k' (loaded now cap rs keys items) = find_item k' items.
Proof.
  revert items. induction keys as [|k keys IH]; intros items Hk Hl; [done|].
  rewrite fmap_cons, not_elem_of_cons in Hk. simpl in Hl |- *. destruct Hk as [Hne Hk].
  pose proof (lru_put_length now cap (cached_key k) (group_value rs k) items).
  rewrite IH by (done || lia). apply find_item_put_other; [done|lia].
Qed.

Lemma loaded_find now cap rs keys items k :
  NoDup keys → k ∈ keys → (length items + length keys ≤ cap)%nat →
  find_item (cached_key k) (loaded now cap rs keys items) = Some (MkItem (cached_key k) (group_value rs k) now).
Proof.
  revert items. induction keys as [|k' keys IH]; intros items Hnd Hk Hl; [by apply elem_of_nil in Hk|].
  apply NoDup_cons in Hnd as [Hk' Hnd]. simpl in Hl.
  pose proof (lru_put_length now cap (cached_key k') (group_value rs k') items).
  apply elem_of_cons in Hk as [->|Hk]; simpl; [|apply IH; [done..|lia]].
  rewrite loaded_other; [apply find_item_put_same| |lia].
  intros (k & Ek & Hin)%list_elem_of_fmap. by injection Ek as ->.
Qed.
Lemma groups_rep_empty m : map_rep m ∅ → groups_rep (MkGroups m empty_store []) [].
Proof.
  intros Hm. split_and!; [constructor|constructor|by intros k; split; intros ?%elem_of_nil|apply store_wf_empty|].
  exists ∅. split_and!; [done|..]; simpl.
  - intros k. rewrite lookup_empty. split; [by intros []|by intros ?%elem_of_nil].
  - intros k k' l. by rewrite lookup_empty.
  - intros k l. by rewrite lookup_empty.
Qed.

Lemma table_records_ok ls : Forall line_ok ls → Forall host_ok (table_records ls).
Proof.
  intros Hls. apply Forall_forall. intros rr (l & Hl & Hr)%list_elem_of_omap.
  rewrite Forall_forall in Hls. by eapply line_record_ok; [apply Hls|].
Qed.

Lemma table_records_length ls : (length (table_records ls) ≤ length ls)%nat.
Proof.
  unfold table_records. induction ls as [|l ls IH]; [done|]. cbn [omap list_omap].
  destruct (line_record l); cbn [length]; fold (omap line_record ls); lia.
Qed.

(** One group per question. *)
Lemma groups_bound gs ls :
  groups_rep gs (table_records ls) → (length (group_keys gs) ≤ base.size (host_questions ls))%nat.
Proof.
  intros (_ & Hnd & Hkeys & _). set (f := λ x : list Z * Z, print_u x.2 ++ bar :: removelast x.1).
  replace (base.size (host_questions ls)) with (length (f <$> elements (host_questions ls)))
    by (by rewrite length_fmap).
  apply submseteq_length, NoDup_submseteq; [done|]. intros k (rr & -> & Hrr)%Hkeys%list_elem_of_fmap.
  apply list_elem_of_fmap. exists (rr_name rr, rr_type rr). split; [done|].
  apply elem_of_elements, elem_of_list_to_set. by apply (list_elem_of_fmap_2 (λ rr, (rr_name rr, rr_type rr))).
Qed.

Lemma in_group_hosts ls s t :
  Forall line_ok ls → is_u16 t → in_group (print_u t ++ bar :: s) (table_records ls) = hosts ls s t.
Proof.
  intros Hls%table_records_ok Ht. unfold in_group, hosts. induction Hls as [|rr rs Hr _ IH]; [done|].
  rewrite !filter_cons, IH. pose proof (rr_group_question rr s t Hr Ht). by repeat case_decide; tauto || f_equal.
Qed.

Lemma load_ip_table_spec now ls c :
  Forall line_ok ls → cache_rep c [] →
  ∃ gs c', groups_rep gs (table_records ls) ∧
    load_ip_table (G := G) now (Some (print_table ls)) (Some c) = Ret (0, Some c') ∧
    capacity c' = capacity c ∧
    let items := loaded now (Z.to_nat (capacity c)) (table_records ls) (group_keys gs) [] in
    cache_rep c' items ∧ items_ok items.
Proof.
  intros Hls Hc. unfold load_ip_table. destruct (map_create_spec (M := G)) as (m & -> & Hm). rewrite bind_Ret.
  assert (Hf : (length ls < S (length (print_table ls)))%nat).
  { clear. induction ls as [|l ls IH]; [simpl; lia|].
    change (print_table (l :: ls)) with ((print_line l ++ [newline]) ++ print_table ls).
    rewrite !length_app. simpl. lia. }
  destruct (read_loop_spec _ ls (replicate (Z.to_nat LINE_SIZE) None) _ [] Hls (length_replicate _ _) Hf
    (groups_rep_empty m Hm)) as (gs & -> & Hg). rewrite bind_Ret.
  destruct (cache_groups_spec now gs _ (group_keys gs) c [] Hg (λ k Hk, Hk) Hc (Forall_nil_2 _))
    as (c' & -> & Hcap & Hc' & Hi'). rewrite bind_Ret.
  exists gs, c'. destruct Hg as (Hg1 & Hg2 & Hg3 & Hg4 & mm & Hmm & Hg5).
  rewrite (map_free_spec _ _ Hmm), bind_Ret. split_and!; [|done..]. split_and!; [done..|]. by exists mm.
Qed.

(** What the cache answers for the records of a question. *)
Definition host_value (rs : list ResourceRecord) : option CacheValue :=
  match rs with
  | [] => None
  | _ => Some (MkValue (wrap_u16 (Z.of_nat (length rs))) 0 0 (Some rs))
  end.

Lemma group_unexpired now now' rs k : Forall host_ok rs → value_expired now' now (group_value rs k) = false.
Proof.
  intros Hrs. unfold value_expired. cbn [group_value v_rrs]. apply not_true_iff_false.
  rewrite existsb_exists. intros (rr & Hin%list_elem_of_In & E). apply list_elem_of_filter in Hin as [_ Hin].
  rewrite Forall_forall in Hrs. unfold rr_expired in E. by rewrite (host_ttl _ (Hrs _ Hin)) in E.
Qed.

Lemma loaded_lookup now now' cap gs ls q t :
  Forall line_ok ls → groups_rep gs (table_records ls) → (length (group_keys gs) ≤ cap)%nat → is_u16 t →
  (lru_get now' (cached_key (print_u t ++ bar :: q)) (loaded now cap (table_records ls) (group_keys gs) [])).1 =
    host_value (hosts ls q t).
Proof.
  intros Hls (Hrs & Hnd & Hkeys & _) Hcap Ht. rewrite <- (in_group_hosts ls q t Hls Ht).
  set (k := print_u t ++ bar :: q). unfold lru_get. destruct (decide (k ∈ group_keys gs)) as [Hin|Hin].
  - rewrite loaded_find by (done || simpl; lia). unfold item_expired. cbn [i_value i_created].
    rewrite group_unexpired by done. cbn [fst]. apply Hkeys, list_elem_of_fmap in Hin as (rr & Ek & Hin).
    destruct (in_group k (table_records ls)) as [|r0 rs] eqn:E; [|by unfold group_value; rewrite E].
    exfalso. eapply elem_of_nil. rewrite <- E. apply list_elem_of_filter. by split.
  - rewrite loaded_other by (simpl; lia || intros (k' & [= ->] & ?)%list_elem_of_fmap; done).
    rewrite in_group_nil by (by rewrite <- Hkeys). done.
Qed.

(** The counts of the values loaded are right, unless 65536 records wrap them. *)
Lemma loaded_good now cap rs keys items :
  Forall host_ok rs → Z.of_nat (length rs) < 2 ^ 16 → items_good items → items_good (loaded now cap rs keys items).
Proof.
  intros Hrs Hlen. revert items. induction keys as [|k keys IH]; intros items Hi; [done|].
  apply IH. unfold lru_put, items_good in *. constructor; simpl.
  - split; [by apply group_value_ok|]. unfold value_counted, value_rrs. cbn [group_value v_answer v_authority v_additional v_rrs].
    pose proof (length_filter (λ rr, rr_group rr = k) rs) as Hle. fold (in_group k rs) in Hle.
    rewrite wrap_u16_small by (unfold is_u16; lia). lia.
  - destruct (find_item _ _); [by apply filter_keeps|]. case_decide; [by apply removelast_Forall|done].
Qed.

(** An item that holds the records of a question of the table. *)
Definition host_item (ls : list table_line) (i : item) : Prop :=
  ∃ q t, no_nul q ∧ is_u16 t ∧ i_key i = cached_key (print_u t ++ bar :: q) ∧
    host_value (hosts ls q t) = Some (i_value i).

Lemma loaded_hosts now cap ls keys items :
  Forall line_ok ls → (∀ k, k ∈ keys → k ∈ rr_group <$> table_records ls) →
  Forall (host_item ls) items → Forall (host_item ls) (loaded now cap (table_records ls) keys items).
Proof.
  intros Hls. revert items. induction keys as [|k keys IH]; intros items Hk Hi; [done|].
  apply IH; [intros k' Hk'; apply Hk; by right|]. apply lru_put_Forall; [|done].
  destruct (proj1 (list_elem_of_fmap _ _ _) (Hk k ltac:(by left))) as (rr & -> & Hrr).
  pose proof (table_records_ok ls Hls) as Hok. rewrite Forall_forall in Hok. specialize (Hok rr Hrr).
  destruct (host_name _ Hok) as (s & Es & Hs & _).
  assert (Hu : is_u16 (rr_type rr)) by (destruct (host_type _ Hok) as [-> | ->]; done).
  assert (Ek : rr_group rr = print_u (rr_type rr) ++ bar :: s) by (by apply rr_group_question).
  exists s, (rr_type rr). split_and!; [done|done|by rewrite Ek|].
  rewrite <- (in_group_hosts ls s _ Hls Hu), <- Ek. cbn [i_value]. unfold group_value.
  destruct (in_group (rr_group rr) (table_records ls)) eqn:E; [|done].
  exfalso. eapply elem_of_nil. rewrite <- E. by apply list_elem_of_filter.
Qed.

Lemma dns_cache_init_spec now ls :
  Forall line_ok ls → (base.size (host_questions ls) ≤ 1024)%nat →
  ∃ (c : DnsCache M) items, dns_cache_init (G := G) now (Some (print_table ls)) None = Ret (0, Some c) ∧
    cache_rep c items ∧ items_ok items ∧ Forall (host_item ls) items ∧
    (Z.of_nat (length (table_records ls)) < 2 ^ 16 → items_good items) ∧
    ∀ now' q t, is_u16 t →
      (lru_get now' (cached_key (print_u t ++ bar :: q)) items).1 = host_value (hosts ls q t).
Proof.
  intros Hls Hsize. unfold dns_cache_init. destruct cache_create_spec as (c0 & -> & Hc0 & Hcap0).
  rewrite bind_Ret. destruct (load_ip_table_spec now ls c0 Hls Hc0) as (gs & c & Hg & -> & Hcap & Hc & Hi).
  rewrite Hcap0 in Hc, Hi. change (Z.to_nat DNS_CACHE_DEFAULT_CAPACITY) with 1024%nat in *.
  pose proof (groups_bound gs ls Hg) as Hbound. eexists c, _. split_and!; [done|exact Hc|exact Hi| | |].
  - apply loaded_hosts; [done| |constructor]. destruct Hg as (_ & _ & Hkeys & _). intros k. by rewrite Hkeys.
  - intros Hlen. apply loaded_good; [apply Hg|done|constructor].
  - intros now' q t Ht. apply loaded_lookup; [done..|lia|done].
Qed.

(** C15. The ip table answers its questions for ever: after [dns_cache_init] has
    read a file of well-formed lines with at most 1024 different questions, a
    query of the cache for a name and a type is answered, however late, with
    all the records of that name and type, in the order of the file, whatever
    blanks, remarks and malformed addresses surround them; for any other name
    or type it misses. *)
Theorem ip_table_answers (now : Z) (ls : list table_line) :
  Forall line_ok ls → (base.size (host_questions ls) ≤ 1024)%nat →
  ∃ c : DnsCache M, dns_cache_init (G := G) now (Some (print_table ls)) None = Ret (0, Some c) ∧
    (∃ items, cache_rep c items ∧ items_ok items) ∧
    ∀ (now' : Z) (q r : list Z) (t : Z), no_nul q → is_u16 t →
      ∃ c', dns_cache_get now' (Some c) (q ++ 0 :: r) t QCLASS_IN = Ret (host_value (hosts ls q t), Some c').
Proof.
  intros Hls Hsize. destruct (dns_cache_init_spec now ls Hls Hsize) as (c & items & E & Hc & Hi & _ & _ & Hget).
  exists c. split; [done|]. split; [by exists items|]. intros now' q r t Hq Ht.
  destruct (dns_cache_get_spec now' c _ _ t QCLASS_IN _ Hc (cached_key_create q r t Hq Ht) Hi) as (c' & -> & _). exists c'.
  by rewrite Hget.
Qed.
End groups.

(** ** A file *)

Import String.StringSyntax.
#[local] Existing Instances table_ops table_laws always_laws.

#[local] Instance demo_pton : InetPton := {|
  inet_pton4 s := if decide (s = lit "10.0.0.1") then Some [10; 0; 0; 1]
                  else if decide (s = lit "10.0.0.2") then Some [10; 0; 0; 2] else None;
  inet_pton6 s := if decide (s = lit "::1") then Some (replicate 15 0 ++ [1]) else None;
|}.
#[local] Instance demo_pton_laws : InetPtonLaws.
Proof. split; intros s a; simpl; repeat case_decide; by intros [= <-]. Qed.

Definition demo_table : list table_line :=
  [Remark [] (lit " hosts"); Entry [32] [lit "a"; lit "b"] [32] [32] (lit "10.0.0.1") [13];
   Blank [32; 9]; Entry [] [lit "a"; lit "b"] [] [] (lit "::1") [];
   Entry [] [lit "c"] [] [] (lit "10.0.0") []; Entry [] [lit "a"; lit "b"] [] [] (lit "10.0.0.2") []].

Definition demo_name : list Z := wire [lit "a"; lit "b"].

Example demo_hosts :
  rdata <$> hosts demo_table demo_name QTYPE_A = [[10; 0; 0; 1]; [10; 0; 0; 2]] ∧
  length (hosts demo_table demo_name QTYPE_AAAA) = 1%nat.
Proof. by vm_compute. Qed.

Lemma ip_table_answers_witness :
  Forall line_ok demo_table ∧ (base.size (host_questions demo_table) ≤ 1024)%nat ∧
  ∃ c : DnsCache Config.table, @dns_cache_init always demo_pton Config.table Config.table _ _ 7 (Some (print_table demo_table)) None =
    Ret (0, Some c) ∧ (∃ items, cache_rep c items ∧ items_ok items).
Proof.
  assert (G1 : Forall line_ok demo_table) by by_compute.
  assert (G2 : (base.size (host_questions demo_table) ≤ 1024)%nat) by by_compute.
  split; [exact G1|]. split; [exact G2|].
  destruct (@ip_table_answers always _ demo_pton _ Config.table Config.table _ _ _ _ 7 demo_table G1 G2) as (c & Hc & Hi & _).
  exists c. split; [exact Hc|exact Hi].
Defined.

(** Two dots in a row end the name: the rest of it is lost. *)
Example double_dot :
  match fgets (replicate 512 None) (lit "a..b=10.0.0.1" ++ [newline]) with
  | Some (line, _) => r ← @table_record always demo_pton line;
                      match r with Some (type, rr) => group_key type rr | None => UB end
  | None => UB
  end = Ret (lit "1|" ++ wire [lit "a"]).
Proof. by vm_compute. Qed.

End IpTable.
