(* ===== verification/Session.v ===== *)
(** * Sessions: [src/server/session_factory.c]

    A session is the memory of a query sent upstream: who asked, under which
    id, and the packet to send again.  A hash table finds it by the id of the
    relayed packet; a lazy heap orders the sessions by the time they were last
    sent.  The two static variables and the allocated sessions are the fields
    of [session_factory]; the relayed packet belongs to its session alone and is
    part of it.  The clock is an argument. *)

From S2P Require Import Prelude MapInterface HashMap LazyHeap CString NameCodec Protocol Socket.
Import LazyHeap Protocol Socket.

Module Session.

Record RelayInfo := MkRelay { timestamp : Z; retry_times : Z; relay_packet : DnsPacket }.
Record Session := MkSession { client_id : Z; client_ip : NetEnd; relay_info : RelayInfo }.

Record session_factory (M : Type) := MkFactory {
  agent_id_sessions : M;
  sessions_queue : LazyHeap loc M;
  sessions : Store Session;
}.
Arguments MkFactory {M} agent_id_sessions sessions_queue sessions.
Arguments agent_id_sessions {M} s.
Arguments sessions_queue {M} s.
Arguments sessions {M} s.

Definition relay_id (s : Session) : Z := id (header (relay_packet (relay_info s))).
Definition stamp (s : Session) : Z := timestamp (relay_info s).

Definition set_timestamp (s : Session) (t : Z) : Session :=
  MkSession (client_id s) (client_ip s)
    (MkRelay t (retry_times (relay_info s)) (relay_packet (relay_info s))).

(** The pointers compared are those of open sessions, never NULL. *)
Definition session_comparator (ss : Store Session) (a b : loc) : Res Z :=
  a_session ← load ss a; b_session ← load ss b;
  let interval := stamp a_session - stamp b_session in
  Ret (if interval >? 0 then 1 else if interval <? 0 then -1 else 0).

Section session.
Context `{Allocator} {M : Type} `{!MapOps Z loc M}.
Implicit Types (f : session_factory M).

(** [None] is the return code 1. *)
Definition session_factory_init : Res (option (session_factory M)) :=
  q ← lazy_heap_create;
  match q with
  | None => Ret None
  | Some q =>
      t ← map_create;
      Ret (match t with Some t => Some (MkFactory t q empty_store) | None => None end)
  end.

Definition session_get f (relay_response : option DnsPacket) : Res (option loc) :=
  match relay_response with
  | None => Ret None
  | Some p => map_get (agent_id_sessions f) (id (header p))
  end.

Definition session_close f (session : loc) : Res (session_factory M) :=
  s ← load (sessions f) session;
  let key := relay_id s in
  q ← lazy_heap_remove (sessions_queue f) key;
  t ← map_remove (agent_id_sessions f) key;
  ss ← free (sessions f) session;
  Ret (MkFactory t q ss).

(** [None] is the return code -1. *)
Definition get_session_timeout_remain (now : Z) f (session : option loc) (timeout : Z) :
    Res (option Z) :=
  match session with
  | None => Ret None
  | Some session =>
      s ← load (sessions f) session;
      let elapse := now - stamp s in
      Ret (Some (timeout - elapse))
  end.

Definition session_peek f : Res (option loc * session_factory M) :=
  '(r, q) ← lazy_heap_peek (session_comparator (sessions f)) (sessions_queue f);
  Ret (r, MkFactory (agent_id_sessions f) q (sessions f)).

Definition session_wait (now : Z) f (session : loc) : Res (session_factory M) :=
  s ← load (sessions f) session;
  q ← lazy_heap_remove (sessions_queue f) (relay_id s);
  ss ← store (sessions f) session (set_timestamp s now);
  q ← lazy_heap_add (session_comparator ss) q (relay_id s) session;
  Ret (MkFactory (agent_id_sessions f) q ss).

(** The timestamp of a new session is not set, nor read, before
    [session_wait] sets it. *)
Definition session_open (now : Z) f (client_id : Z) (client_ip : NetEnd) (relay_pack : DnsPacket) :
    Res (session_factory M) :=
  p ← packet_clone relay_pack;
  let s := MkSession client_id client_ip (MkRelay 0 0 p) in
  let '(session, ss) := alloc s (sessions f) in
  '(_, t) ← map_put (agent_id_sessions f) (relay_id s) session;
  session_wait now (MkFactory t (sessions_queue f) ss) session.
End session.

(** ** The sessions a factory holds: relay id to pointer and contents *)

Definition rank_of (ss : Store Session) (l : loc) : Z :=
  match cells ss !! l with Some s => stamp s | None => 0 end.

Section rep.
Context `{Allocator} {M : Type} `{!MapOps Z loc M, !MapLaws Z loc M}.
Implicit Types (f : session_factory M) (ss : gmap Z (loc * Session)).

Record sf_rep f (last : Z) ss : Prop := {
  f_table : map_rep (agent_id_sessions f) (fst <$> ss);
  f_queue : lh_rep (rank_of (sessions f)) (sessions_queue f) (fst <$> ss);
  f_cells : ∀ i l s, ss !! i = Some (l, s) → cells (sessions f) !! l = Some s ∧ relay_id s = i;
  f_all : ∀ l s, cells (sessions f) !! l = Some s → ss !! relay_id s = Some (l, s);
  f_wf : store_wf (sessions f);
  f_time : ∀ i l s, ss !! i = Some (l, s) → stamp s ≤ last;
}.

Lemma fst_lookup ss i l : (fst <$> ss) !! i = Some l ↔ ∃ s, ss !! i = Some (l, s).
Proof.
  rewrite lookup_fmap. destruct (ss !! i) as [[l' s]|]; simpl; split.
  - intros [= <-]. eauto.
  - by intros (? & [= -> ->]).
  - done.
  - by intros (? & ?).
Qed.

(** The store has the sessions of the table and no other. *)
Lemma session_list f last ss : sf_rep f last ss → map_to_list (cells (sessions f)) ≡ₚ (map_to_list ss).*2.
Proof.
  intros Hf. apply NoDup_Permutation.
  - apply NoDup_map_to_list.
  - apply NoDup_fmap_2_strong; [|apply NoDup_map_to_list].
    intros [i [l s]] [j [l' s']] Hi%elem_of_map_to_list Hj%elem_of_map_to_list [= <- <-].
    destruct (f_cells _ _ _ Hf _ _ _ Hi) as [_ <-], (f_cells _ _ _ Hf _ _ _ Hj) as [_ <-]. done.
  - intros [l s]. rewrite list_elem_of_fmap. split.
    + intros Hl%elem_of_map_to_list. exists (relay_id s, (l, s)). split; [done|].
      by apply elem_of_map_to_list, (f_all _ _ _ Hf).
    + intros ([i e] & Ee & Hi%elem_of_map_to_list). cbn [snd] in Ee. subst e.
      by apply elem_of_map_to_list, (f_cells _ _ _ Hf i).
Qed.

Lemma comparator_ranked (st : Store Session) (P : loc → Prop) :
  (∀ l, P l → is_Some (cells st !! l)) → ranked (rank_of st) (session_comparator st) P.
Proof.
  intros HP x y Hx Hy. destruct (HP _ Hx) as [a Ha], (HP _ Hy) as [b Hb].
  unfold session_comparator, rank_of. rewrite (load_Some _ _ _ Ha), (load_Some _ _ _ Hb), Ha, Hb.
  cbn [mbind Res_bind]. eexists. split; [reflexivity|].
  destruct (stamp a - stamp b >? 0) eqn:E1; bools; [lia|].
  destruct (stamp a - stamp b <? 0) eqn:E2; bools; lia.
Qed.

Lemma f_among f last ss l : sf_rep f last ss → among (fst <$> ss) l → is_Some (cells (sessions f) !! l).
Proof.
  intros Hf [k Hk]. apply fst_lookup in Hk as [s Hs]. destruct (f_cells _ _ _ Hf _ _ _ Hs) as [? _]. eauto.
Qed.

Lemma session_factory_init_spec :
  AllocTotal → ∃ f, session_factory_init = Ret (Some f) ∧ (∀ last, sf_rep f last ∅) ∧
    lh_size (sessions_queue f) = 0.
Proof.
  intros Htot. unfold session_factory_init.
  destruct (lazy_heap_create_spec (A := loc) (M := M) (rank_of empty_store) Htot) as (q & -> & Hq & Hs).
  cbn [mbind Res_bind]. destruct map_create_spec as (t & -> & Ht). cbn [mbind Res_bind].
  eexists. split; [reflexivity|]. split; [|exact Hs]. intros last. split; cbn [agent_id_sessions sessions_queue sessions].
  - by rewrite fmap_empty.
  - by rewrite fmap_empty.
  - intros i l s Hi. by rewrite lookup_empty in Hi.
  - intros l s Hl. simpl in Hl. by rewrite lookup_empty in Hl.
  - apply store_wf_empty.
  - intros i l s Hi. by rewrite lookup_empty in Hi.
Qed.

Lemma session_get_spec f last ss p :
  sf_rep f last ss → session_get f (Some p) = Ret (fst <$> ss !! id (header p)).
Proof.
  intros Hf. unfold session_get. rewrite (map_get_spec _ _ _ (f_table _ _ _ Hf)). by rewrite lookup_fmap.
Qed.

Lemma session_peek_spec f last ss :
  sf_rep f last ss →
  ∃ r f', session_peek f = Ret (r, f') ∧ sf_rep f' last ss ∧ sessions f' = sessions f ∧
    match r with
    | None => ss = ∅
    | Some l => ∃ i s, ss !! i = Some (l, s) ∧ ∀ j l' s', ss !! j = Some (l', s') → stamp s ≤ stamp s'
    end.
Proof.
  intros Hf. unfold session_peek.
  destruct (lazy_heap_peek_spec (rank_of (sessions f)) (session_comparator (sessions f))
    (sessions_queue f) (fst <$> ss) (f_queue _ _ _ Hf)) as (r & q & -> & Hq & Hr).
  { apply comparator_ranked. intros l. by eapply f_among. }
  cbn [mbind Res_bind]. eexists r, _. split; [reflexivity|]. split_and!; [|done|].
  - destruct Hf. by split.
  - destruct r as [l|].
    + destruct Hr as (i & Hi & Hmin). apply fst_lookup in Hi as [s Hs]. exists i, s. split; [done|].
      intros j l' s' Hj. specialize (Hmin j l'). unfold rank_of in Hmin.
      rewrite (proj1 (f_cells _ _ _ Hf _ _ _ Hs)), (proj1 (f_cells _ _ _ Hf _ _ _ Hj)) in Hmin.
      apply Hmin, fst_lookup. eauto.
    + by apply fmap_empty_inv in Hr.
Qed.

Lemma timeout_remain_spec f last ss i l s now timeout :
  sf_rep f last ss → ss !! i = Some (l, s) →
  get_session_timeout_remain now f (Some l) timeout = Ret (Some (timeout - (now - stamp s))).
Proof.
  intros Hf Hi. unfold get_session_timeout_remain.
  by rewrite (load_Some _ _ _ (proj1 (f_cells _ _ _ Hf _ _ _ Hi))).
Qed.

Lemma session_close_spec f last ss i l s :
  sf_rep f last ss → ss !! i = Some (l, s) →
  ∃ f', session_close f l = Ret f' ∧ sf_rep f' last (delete i ss).
Proof.
  intros Hf Hi. destruct (f_cells _ _ _ Hf _ _ _ Hi) as [Hl Hid]. unfold session_close.
  rewrite (load_Some _ _ _ Hl). cbn [mbind Res_bind]. rewrite Hid.
  destruct (lazy_heap_remove_spec _ _ _ i (f_queue _ _ _ Hf)) as (q & -> & Hq). cbn [mbind Res_bind].
  destruct (map_remove_spec _ _ i (f_table _ _ _ Hf)) as (t & -> & Ht). cbn [mbind Res_bind].
  rewrite (free_Some _ _ _ Hl). cbn [mbind Res_bind]. eexists. split; [reflexivity|].
  assert (Hother : ∀ j l' s', delete i ss !! j = Some (l', s') → ss !! j = Some (l', s') ∧ l' ≠ l).
  { intros j l' s'. destruct (decide (i = j)) as [<-|Hne]; [by rewrite lookup_delete_eq|].
    rewrite lookup_delete_ne by done. intros Hj. split; [done|]. intros ->.
    destruct (f_cells _ _ _ Hf _ _ _ Hj) as [Hj' Hidj]. rewrite Hl in Hj'. congruence. }
  split; cbn [agent_id_sessions sessions_queue sessions cells].
  - by rewrite fmap_delete.
  - rewrite fmap_delete. eapply lh_rep_rank; [|exact Hq]. intros k x Hx.
    rewrite <- fmap_delete in Hx. apply fst_lookup in Hx as [s' Hx]. destruct (Hother _ _ _ Hx) as [_ Hne].
    unfold rank_of. cbn [cells]. by rewrite lookup_delete_ne.
  - intros j l' s' Hj. destruct (Hother _ _ _ Hj) as [Hj' Hne]. rewrite lookup_delete_ne by done.
    by apply (f_cells _ _ _ Hf).
  - intros l' s' Hl'. destruct (decide (l = l')) as [<-|Hne]; [by rewrite lookup_delete_eq in Hl'|].
    rewrite lookup_delete_ne in Hl' by done. pose proof (f_all _ _ _ Hf _ _ Hl') as Hss.
    rewrite lookup_delete_ne; [done|]. intros E. rewrite <- E, Hi in Hss. congruence.
  - apply store_wf_delete, Hf.
  - intros j l' s' Hj. destruct (Hother _ _ _ Hj) as [Hj' _]. by eapply f_time.
Qed.

(** The queue may hold a session under a new rank, or a session the table has
    and the queue has not: [session_wait] restores both. *)
Lemma session_wait_queue (tm : gmap Z loc) f now l s :
  AllocTotal → lh_rep (rank_of (sessions f)) (sessions_queue f) tm →
  cells (sessions f) !! l = Some s → lh_size (sessions_queue f) < 2 ^ 30 →
  (∀ k l', tm !! k = Some l' → ∃ s', cells (sessions f) !! l' = Some s' ∧ stamp s' ≤ now ∧ relay_id s' = k) →
  ∃ f' st', session_wait now f l = Ret f' ∧ store (sessions f) l (set_timestamp s now) = Ret st' ∧
    sessions f' = st' ∧ agent_id_sessions f' = agent_id_sessions f ∧
    lh_rep (rank_of st') (sessions_queue f') (<[relay_id s := l]> tm).
Proof.
  intros Htot Hq Hl Hsz Htm. unfold session_wait. rewrite (load_Some _ _ _ Hl). cbn [mbind Res_bind].
  destruct (lazy_heap_remove_spec _ _ _ (relay_id s) Hq) as (q1 & E1 & Hq1).
  assert (Hsz1 : lh_size q1 = lh_size (sessions_queue f)) by (by eapply lazy_heap_remove_size).
  rewrite E1. cbn [mbind Res_bind]. rewrite (store_Some _ _ _ _ Hl). cbn [mbind Res_bind].
  set (st' := MkStore _ _).
  assert (Hrest : ∀ k l', delete (relay_id s) tm !! k = Some l' →
    l' ≠ l ∧ ∃ s', cells st' !! l' = Some s' ∧ cells (sessions f) !! l' = Some s' ∧ stamp s' ≤ now).
  { intros k l' [Hne Hk]%lookup_delete_Some. destruct (Htm _ _ Hk) as (s' & Hs' & ? & Hid).
    assert (l' ≠ l) by (intros ->; rewrite Hl in Hs'; congruence). split; [done|]. exists s'.
    split; [|done]. unfold st'. cbn [cells]. by rewrite lookup_insert_ne. }
  destruct (lazy_heap_add_spec (rank_of st') (session_comparator st') q1
    (delete (relay_id s) tm) (relay_id s) l Htot) as (q2 & E2 & Hq2).
  - eapply lh_rep_rank; [|exact Hq1]. intros k l' Hk. destruct (Hrest _ _ Hk) as (_ & s' & Hs' & Hs & _).
    unfold rank_of. by rewrite Hs', Hs.
  - apply comparator_ranked. intros l' [->|[k Hk]].
    + unfold st'. cbn [cells]. rewrite lookup_insert_eq. eauto.
    + destruct (Hrest _ _ Hk) as (_ & s' & Hs' & _). eauto.
  - lia.
  - by rewrite lookup_delete_eq.
  - right. intros k l' Hk. destruct (Hrest _ _ Hk) as (_ & s' & Hs' & _ & Hle).
    unfold rank_of. rewrite Hs'. unfold st'. cbn [cells]. rewrite lookup_insert_eq. exact Hle.
  - rewrite E2. cbn [mbind Res_bind]. eexists _, st'. split; [reflexivity|].
    split_and!; [done..|]. cbn [sessions_queue]. rewrite insert_delete_eq in Hq2. exact Hq2.
Qed.

Lemma session_wait_spec f last ss i l s now :
  AllocTotal → sf_rep f last ss → ss !! i = Some (l, s) → last ≤ now →
  lh_size (sessions_queue f) < 2 ^ 30 →
  ∃ f', session_wait now f l = Ret f' ∧ sf_rep f' now (<[i := (l, set_timestamp s now)]> ss).
Proof.
  intros Htot Hf Hi Hnow Hsz. destruct (f_cells _ _ _ Hf _ _ _ Hi) as [Hl Hid].
  destruct (session_wait_queue (fst <$> ss) f now l s Htot (f_queue _ _ _ Hf) Hl Hsz)
    as (f' & st' & E & Est & Hss & Hag & Hq).
  { intros k l' Hk. apply fst_lookup in Hk as [s' Hk]. destruct (f_cells _ _ _ Hf _ _ _ Hk) as [? ?].
    exists s'. split_and!; [done| |done]. pose proof (f_time _ _ _ Hf _ _ _ Hk). lia. }
  exists f'. split; [exact E|]. rewrite (store_Some _ _ _ _ Hl) in Est. injection Est as <-.
  rewrite Hid in Hq. split.
  - rewrite Hag, fmap_insert. cbn [fst]. rewrite insert_id; [apply Hf|].
    apply fst_lookup. eauto.
  - rewrite Hss, fmap_insert. exact Hq.
  - intros j l' s' Hj. rewrite Hss. cbn [cells].
    apply lookup_insert_Some in Hj as [[<- [= <- <-]]|[Hne Hj]]; [by rewrite lookup_insert_eq|].
    destruct (f_cells _ _ _ Hf _ _ _ Hj) as [Hl' Hid']. split; [|done].
    rewrite lookup_insert_ne; [done|]. intros <-. rewrite Hl in Hl'. congruence.
  - intros l' s'. rewrite Hss. cbn [cells]. intros [[<- <-]|[Hne Hl']]%lookup_insert_Some.
    + change (relay_id (set_timestamp s now)) with (relay_id s). by rewrite Hid, lookup_insert_eq.
    + pose proof (f_all _ _ _ Hf _ _ Hl') as Hj. rewrite lookup_insert_ne; [done|].
      intros E'. rewrite <- E', Hi in Hj. congruence.
  - rewrite Hss. apply store_wf_insert; [apply Hf|eauto].
  - intros j l' s' Hj. apply lookup_insert_Some in Hj as [[<- [= <- <-]]|[Hne Hj]]; [done|].
    pose proof (f_time _ _ _ Hf _ _ _ Hj). lia.
Qed.

Lemma session_open_spec f last ss now client ip p :
  AllocTotal → sf_rep f last ss → pack_ok p → ss !! id (header p) = None → last ≤ now →
  lh_size (sessions_queue f) < 2 ^ 30 →
  ∃ f' l, session_open now f client ip p = Ret f' ∧
    sf_rep f' now (<[id (header p) := (l, MkSession client ip (MkRelay now 0 p))]> ss).
Proof.
  intros Htot Hf Hp Hi Hnow Hsz. unfold session_open. rewrite (packet_clone_ok _ Hp). cbn [mbind Res_bind].
  set (s0 := MkSession client ip (MkRelay 0 0 p)). change (relay_id s0) with (id (header p)).
  destruct (alloc s0 (sessions f)) as [l st] eqn:Ea. unfold alloc in Ea. injection Ea as Hl Hst.
  pose proof (store_wf_fresh _ (f_wf _ _ _ Hf)) as Hfresh. rewrite Hl in Hfresh.
  assert (Hwf : store_wf st) by (rewrite <- Hst; exact (store_wf_alloc (sessions f) s0 (f_wf _ _ _ Hf))).
  assert (Hst2 : st = MkStore (<[l := s0]> (cells (sessions f))) (Pos.succ l)) by (rewrite <- Hl; done).
  clear Hl Hst. subst st. cbn [cells brk] in *.
  destruct (map_put_spec _ _ (id (header p)) l (f_table _ _ _ Hf)) as (t & Et & Ht).
  rewrite Et. cbn [mbind Res_bind].
  set (st := MkStore (<[l := s0]> (cells (sessions f))) (Pos.succ l)) in *.
  set (f1 := MkFactory t (sessions_queue f) st).
  assert (Hcell : cells st !! l = Some s0) by (apply lookup_insert_eq).
  assert (Hold : ∀ l' s', cells (sessions f) !! l' = Some s' → l' ≠ l ∧ cells st !! l' = Some s').
  { intros l' s' Hl'. assert (l' ≠ l) by congruence. split; [done|]. unfold st. cbn [cells].
    by rewrite lookup_insert_ne by congruence. }
  destruct (session_wait_queue (fst <$> ss) f1 now l s0 Htot) as (f' & st' & E & Est & Hss & Hag & Hq).
  { eapply lh_rep_rank; [|exact (f_queue _ _ _ Hf)]. intros k l' Hk. apply fst_lookup in Hk as [s' Hk].
    destruct (f_cells _ _ _ Hf _ _ _ Hk) as [Hl' _]. destruct (Hold _ _ Hl') as [_ Hl2].
    unfold rank_of, f1. cbn [sessions]. by rewrite Hl', Hl2. }
  { exact Hcell. }
  { exact Hsz. }
  { intros k l' Hk. apply fst_lookup in Hk as [s' Hk]. destruct (f_cells _ _ _ Hf _ _ _ Hk) as [Hl' ?].
    destruct (Hold _ _ Hl') as [_ ?]. exists s'. split_and!; [done| |done].
    pose proof (f_time _ _ _ Hf _ _ _ Hk). lia. }
  exists f', l. split; [exact E|]. cbn [f1 sessions] in Est. rewrite (store_Some _ _ _ _ Hcell) in Est.
  injection Est as <-. split.
  - rewrite Hag, fmap_insert. exact Ht.
  - rewrite Hss, fmap_insert. exact Hq.
  - intros j l' s' Hj. rewrite Hss. cbn [cells].
    apply lookup_insert_Some in Hj as [[<- [= <- <-]]|[Hne Hj]]; [by rewrite lookup_insert_eq|].
    destruct (f_cells _ _ _ Hf _ _ _ Hj) as [Hl' Hid']. destruct (Hold _ _ Hl') as [? ?].
    by rewrite lookup_insert_ne.
  - intros l' s'. rewrite Hss. cbn [cells]. intros [[<- <-]|[Hne Hl']]%lookup_insert_Some.
    + change (relay_id (set_timestamp s0 now)) with (id (header p)). by rewrite lookup_insert_eq.
    + unfold st in Hl'. cbn [cells] in Hl'. rewrite lookup_insert_ne in Hl' by congruence.
      pose proof (f_all _ _ _ Hf _ _ Hl') as Hj. rewrite lookup_insert_ne; [done|]. congruence.
  - rewrite Hss. apply (store_wf_insert st l); [done|eauto].
  - intros j l' s' Hj. apply lookup_insert_Some in Hj as [[<- [= <- <-]]|[Hne Hj]]; [done|].
    pose proof (f_time _ _ _ Hf _ _ _ Hj). lia.
Qed.

(** Writing to an open session what neither the table nor the queue reads. *)
Lemma sf_rep_update f last ss i l s s' st :
  sf_rep f last ss → ss !! i = Some (l, s) → relay_id s' = relay_id s → stamp s' = stamp s →
  store (sessions f) l s' = Ret st →
  sf_rep (MkFactory (agent_id_sessions f) (sessions_queue f) st) last (<[i := (l, s')]> ss).
Proof.
  intros Hf Hi Hid Hst Hstore. destruct (f_cells _ _ _ Hf _ _ _ Hi) as [Hl Hri].
  rewrite (store_Some _ _ _ _ Hl) in Hstore. injection Hstore as <-.
  assert (Hkeys : fst <$> <[i := (l, s')]> ss = fst <$> ss).
  { rewrite fmap_insert. cbn [fst]. apply insert_id, fst_lookup. eauto. }
  split; cbn [agent_id_sessions sessions_queue sessions cells]; rewrite ?Hkeys.
  - apply Hf.
  - eapply lh_rep_rank; [|apply Hf]. intros k l' _. unfold rank_of. cbn [cells].
    destruct (decide (l = l')) as [<-|Hne]; [by rewrite lookup_insert_eq, Hl|by rewrite lookup_insert_ne].
  - intros j l' s2 Hj. apply lookup_insert_Some in Hj as [[<- [= <- <-]]|[Hne Hj]].
    + rewrite lookup_insert_eq. split; [done|congruence].
    + destruct (f_cells _ _ _ Hf _ _ _ Hj) as [Hl' Hj']. split; [|done].
      rewrite lookup_insert_ne; [done|]. intros <-. congruence.
  - intros l' s2 Hl'. apply lookup_insert_Some in Hl' as [[<- <-]|[Hne Hl']].
    + rewrite Hid, Hri. by rewrite lookup_insert_eq.
    + pose proof (f_all _ _ _ Hf _ _ Hl') as Hj. rewrite lookup_insert_ne; [done|].
      intros E. rewrite <- E, Hi in Hj. congruence.
  - apply (store_wf_insert (sessions f) l); [apply Hf|eauto].
  - intros j l' s2 Hj. apply lookup_insert_Some in Hj as [[<- [= <- <-]]|[Hne Hj]].
    + rewrite Hst. by apply (f_time _ _ _ Hf _ _ _ Hi).
    + by apply (f_time _ _ _ Hf _ _ _ Hj).
Qed.

Lemma sf_rep_later f last now ss : last ≤ now → sf_rep f last ss → sf_rep f now ss.
Proof.
  intros Hle [? ? ? ? ? Ht]. split; try done. intros i l s Hi. specialize (Ht _ _ _ Hi). lia.
Qed.

(** The heap grows by at most one element per call. *)
Definition queued f : Z := lh_size (sessions_queue f).

Lemma session_wait_queued f now l f' : session_wait now f l = Ret f' → queued f' ≤ queued f + 1.
Proof.
  unfold session_wait, queued. intros (s & _ & E)%bind_Ret_inv.
  apply bind_Ret_inv in E as (q & E1 & E). apply bind_Ret_inv in E as (st & _ & E).
  apply bind_Ret_inv in E as (q2 & E2 & E). injection E as <-. cbn [sessions_queue].
  apply lazy_heap_remove_size in E1. apply lazy_heap_add_size in E2. lia.
Qed.

(** What the calls change in the store. *)
Lemma session_wait_cells f now l f' :
  session_wait now f l = Ret f' →
  ∃ s, cells (sessions f) !! l = Some s ∧ cells (sessions f') = <[l := set_timestamp s now]> (cells (sessions f)).
Proof.
  intros (s & Hl%load_Ret & (q & _ & (ss & Es & (q2 & _ & E)%bind_Ret_inv)%bind_Ret_inv)%bind_Ret_inv)%bind_Ret_inv.
  injection E as <-. rewrite (store_Some _ _ _ _ Hl) in Es. injection Es as <-. by exists s.
Qed.

Lemma session_peek_cells f r f' : session_peek f = Ret (r, f') → sessions f' = sessions f.
Proof. intros ([r' q] & _ & E)%bind_Ret_inv. by injection E as _ <-. Qed.

Lemma session_close_cells f l f' :
  session_close f l = Ret f' →
  is_Some (cells (sessions f) !! l) ∧ cells (sessions f') = delete l (cells (sessions f)).
Proof.
  intros (s & Hl%load_Ret & (q & _ & (t & _ & (ss & Es & E)%bind_Ret_inv)%bind_Ret_inv)%bind_Ret_inv)%bind_Ret_inv.
  injection E as <-. rewrite (free_Some _ _ _ Hl) in Es. injection Es as <-. by split; [exists s|].
Qed.

Lemma session_peek_queued f r f' : session_peek f = Ret (r, f') → queued f' ≤ queued f.
Proof.
  unfold session_peek, queued. intros ([r' q] & E & E2)%bind_Ret_inv.
  apply lazy_heap_peek_size in E. injection E2 as <- <-. exact E.
Qed.
End rep.

(** ** Properties *)

Section properties.
Context `{AllocTotal} {M : Type} `{!MapOps Z loc M, !MapLaws Z loc M}.
Implicit Types (f : session_factory M) (ss : gmap Z (loc * Session)).

(** C16. The factory implements a table of sessions keyed by the id of the
    relayed packet, with timers.  From a factory that represents [ss], under a
    clock that does not go back: a response finds the session that sent its id
    and no other; opening a session under a free id adds it, due from now;
    waiting restarts its timer; closing removes it and frees it exactly once;
    [session_peek] gives the session sent longest ago, so the first to time
    out, NULL exactly when none is open.  No dangling session is ever compared
    or returned. *)
Theorem session_factory_refines f (last now : Z) ss (resp : DnsPacket) (client : Z) (ip : NetEnd)
    (p : DnsPacket) :
  sf_rep f last ss → last ≤ now → lh_size (sessions_queue f) < 2 ^ 30 →
  (∃ f0 : session_factory M, session_factory_init = Ret (Some f0) ∧ sf_rep f0 last ∅) ∧
  session_get f (Some resp) = Ret (fst <$> ss !! id (header resp)) ∧
  (∃ r f', session_peek f = Ret (r, f') ∧ sf_rep f' last ss ∧
     match r with
     | None => ss = ∅
     | Some l => ∃ i s, ss !! i = Some (l, s) ∧
         (∀ timeout, get_session_timeout_remain now f' (Some l) timeout = Ret (Some (timeout - (now - stamp s)))) ∧
         ∀ j l' s', ss !! j = Some (l', s') → stamp s ≤ stamp s'
     end) ∧
  (pack_ok p → ss !! id (header p) = None →
     ∃ f' l, session_open now f client ip p = Ret f' ∧
       sf_rep f' now (<[id (header p) := (l, MkSession client ip (MkRelay now 0 p))]> ss)) ∧
  (∀ i l s, ss !! i = Some (l, s) →
     (∃ f', session_wait now f l = Ret f' ∧ sf_rep f' now (<[i := (l, set_timestamp s now)]> ss)) ∧
     (∃ f', session_close f l = Ret f' ∧ sf_rep f' last (delete i ss))).
Proof using H H0 M MapLaws0 MapOps0.
  intros Hf Hnow Hsz. split_and!.
  - destruct (session_factory_init_spec (M := M) _) as (f0 & E & Hf0 & _). exists f0. auto.
  - by eapply session_get_spec.
  - destruct (session_peek_spec f last ss Hf) as (r & f' & E & Hf' & _ & Hr). exists r, f'.
    split_and!; [done..|]. destruct r as [l|]; [|done]. destruct Hr as (i & s & Hi & Hmin).
    exists i, s. split_and!; [done| |done]. intros timeout. by eapply timeout_remain_spec.
  - intros Hp Hi. by eapply session_open_spec.
  - intros i l s Hi. split; [by eapply session_wait_spec|by eapply session_close_spec].
Qed.
End properties.

Abbreviation stable := (HashMap.HashMap Z loc).
#[local] Instance demo_alloc : Allocator := always.
#[local] Instance demo_total : AllocTotal := always_total.
#[local] Instance demo_ops : MapOps Z loc stable := @HashMap.uint_table_ops always loc.
#[local] Instance demo_laws : MapLaws Z loc stable := @HashMap.uint_table_laws always always_total loc.

Definition demo_end : NetEnd := MkEnd (replicate 16 0) IPV4 0.
Definition demo_relay : DnsPacket := MkPacket (MkHeader 9 0x0100 1 0 0 0) [MkQuestion [1; 97; 0] 1 1] [].

Lemma demo_relay_ok : pack_ok demo_relay.
Proof. split; [|constructor]. apply Forall_singleton. by apply cstring_check. Qed.

Lemma session_factory_refines_witness :
  ∃ f f' : session_factory stable, session_factory_init = Ret (Some f) ∧
    session_open 5 f 7 demo_end demo_relay = Ret f' ∧
    ∃ l, sf_rep f' 5 (<[9 := (l, MkSession 7 demo_end (MkRelay 5 0 demo_relay))]> ∅).
Proof.
  destruct (session_factory_init_spec (M := stable) _) as (f & E & Hf & Hs).
  destruct (session_factory_refines (M := stable) f 0 5 ∅ demo_relay 7 demo_end demo_relay (Hf 0))
    as (_ & _ & _ & Ho & _); [lia|rewrite Hs; lia|].
  destruct Ho as (f' & l & E' & Hf'); [exact demo_relay_ok|apply lookup_empty|].
  exists f, f'. split; [exact E|]. split; [exact E'|]. exists l. exact Hf'.
Defined.
End Session.
