(* ===== verification/SessionHeap.v ===== *)
(** * Sessions with all their memory

    [src/server/session_factory.c] on the heap of [Memory.v]: a session is an
    object that points to a packet of its own, the copy [session_open] makes of
    the packet sent upstream.  The table and the queue of a factory are those of
    [Session.v], whose store of sessions is not used ([bare]): the heap takes its
    place, also for the comparator of the queue, which follows the pointers it
    is given.  What [Session.v] proves of a factory holds of it in memory. *)

From iris.proofmode Require Import proofmode.
From S2P Require Import Prelude Heap MapInterface HashMap LazyHeap CString NameCodec Protocol Socket Session Memory.
Import LazyHeap Protocol Socket Memory.

Module SessionHeap.

Definition sizeof_Session : Z := 56.

Definition get_session `{Allocator} (p : option loc) : Mem SessionObj :=
  l ← lift (nonnull p); o ← get l;
  match o with OSession s => mret s | _ => lift UB end.

Definition set_session `{Allocator} l (f : SessionObj → SessionObj) : Mem unit :=
  s ← get_session (Some l); set l (OSession (f s)).

Definition with_stamp (now : Z) (s : SessionObj) : SessionObj :=
  MkSessionObj (s_client s) (s_end s) now (s_retries s) (s_packet s).
Definition with_packet p (s : SessionObj) : SessionObj :=
  MkSessionObj (s_client s) (s_end s) (s_stamp s) (s_retries s) p.

(** The pointers compared are never NULL. *)
Definition session_comparator (h : Store object) (a b : loc) : Res Z :=
  a_session ← load h a; b_session ← load h b;
  match a_session, b_session with
  | OSession a_session, OSession b_session =>
      let interval := s_stamp a_session - s_stamp b_session in
      Ret (if interval >? 0 then 1 else if interval <? 0 then -1 else 0)
  | _, _ => UB
  end.

Section operations.
Context `{Allocator, Garbage} {M : Type} `{!MapOps Z loc M}.
Implicit Types (f : Session.session_factory M) (p : option loc) (l : loc).

(** The id of the packet a session keeps. *)
Definition relay_id (s : SessionObj) : Mem Z :=
  relay_packet ← get_packet (s_packet s); mret (id (p_header relay_packet)).

Definition session_get f (relay_response : option loc) : Mem (option loc) :=
  match relay_response with
  | None => mret None
  | Some _ => p ← get_packet relay_response; lift (map_get (Session.agent_id_sessions f) (id (p_header p)))
  end.

Definition session_close f (session : loc) : Mem (Session.session_factory M) :=
  s ← get_session (Some session);
  key ← relay_id s;
  q ← lift (lazy_heap_remove (Session.sessions_queue f) key);
  t ← lift (map_remove (Session.agent_id_sessions f) key);
  pack_free (s_packet s) ≫= λ _,
  free (Some session) ≫= λ _,
  mret (Session.MkFactory t q (Session.sessions f)).

(** [None] is the return code -1. *)
Definition get_session_timeout_remain (now : Z) (session : option loc) (timeout : Z) : Mem (option Z) :=
  match session with
  | None => mret None
  | Some _ => s ← get_session session; let elapse := now - s_stamp s in mret (Some (timeout - elapse))
  end.

Definition session_peek f : Mem (option loc * Session.session_factory M) :=
  '(r, q) ← inspect (λ h, lazy_heap_peek (session_comparator h) (Session.sessions_queue f));
  mret (r, Session.MkFactory (Session.agent_id_sessions f) q (Session.sessions f)).

Definition session_wait (now : Z) f (session : loc) : Mem (Session.session_factory M) :=
  s ← get_session (Some session);
  key ← relay_id s;
  q ← lift (lazy_heap_remove (Session.sessions_queue f) key);
  set_session session (with_stamp now) ≫= λ _,
  q ← inspect (λ h, lazy_heap_add (session_comparator h) q key session);
  mret (Session.MkFactory (Session.agent_id_sessions f) q (Session.sessions f)).

(** The timestamp of a new session is neither set nor read before
    [session_wait] sets it. *)
Definition session_open (now : Z) f (client_id : Z) (client_ip : NetEnd) (relay_pack : loc) :
    Mem (Session.session_factory M) :=
  session ← malloc sizeof_Session (Bytes []);
  session ← lift (nonnull session);
  set session (OSession (MkSessionObj client_id client_ip 0 0 None)) ≫= λ _,
  relay_packet ← packet_clone relay_pack;
  set_session session (with_packet (Some relay_packet)) ≫= λ _,
  s ← get_session (Some session);
  key ← relay_id s;
  '(_, t) ← lift (map_put (Session.agent_id_sessions f) key session);
  session_wait now (Session.MkFactory t (Session.sessions_queue f) (Session.sessions f)) session.
End operations.

(** ** The sessions of a factory as objects *)

Definition obj_of (k : loc) (s : Session.Session) : SessionObj :=
  MkSessionObj (Session.client_id s) (Session.client_ip s) (Session.stamp s)
    (Session.retry_times (Session.relay_info s)) (Some k).
Definition session_at l (s : Session.Session) : mprop :=
  ∃ k, l ↦ OSession (obj_of k s) ∗ pack_at k (Session.relay_packet (Session.relay_info s)).
Definition sessions_mem (ss : Store Session.Session) : mprop := [∗ map] l ↦ s ∈ cells ss, session_at l s.

Definition bare {M} (f : Session.session_factory M) : Session.session_factory M :=
  Session.MkFactory (Session.agent_id_sessions f) (Session.sessions_queue f) empty_store.

Section access.
Context `{Allocator, Garbage}.
Implicit Types (ss : Store Session.Session) (l : loc) (s : Session.Session).

Lemma get_session_spec l o (Φ : SessionObj → mprop) :
  l ↦ OSession o -∗ (l ↦ OSession o -∗ Φ o) -∗ wp (get_session (Some l)) Φ.
Proof.
  iIntros "Hl HΦ". unfold get_session.
  wp_apply wp_lift_ret; [done|]. wp_apply (wp_get with "Hl"). iIntros "Hl".
  iApply wp_ret. by iApply "HΦ".
Qed.

Lemma set_session_spec l o f (Φ : unit → mprop) :
  l ↦ OSession o -∗ (l ↦ OSession (f o) -∗ Φ tt) -∗ wp (set_session l f) Φ.
Proof.
  iIntros "Hl HΦ". unfold set_session. wp_apply (get_session_spec with "Hl"). iIntros "Hl".
  iApply (wp_set with "Hl HΦ").
Qed.

Lemma sessions_acc ss l s :
  cells ss !! l = Some s → sessions_mem ss ⊢ session_at l s ∗
    ∀ s', session_at l s' -∗ sessions_mem (MkStore (<[l := s']> (cells ss)) (brk ss)).
Proof. intros Hl. by apply big_sepM_insert_acc. Qed.

Lemma sessions_read ss l s :
  cells ss !! l = Some s → sessions_mem ss ⊢ session_at l s ∗ (session_at l s -∗ sessions_mem ss).
Proof. intros Hl. by apply big_sepM_lookup_acc. Qed.

Lemma sessions_delete ss l s b :
  cells ss !! l = Some s → sessions_mem ss ⊢ session_at l s ∗ sessions_mem (MkStore (delete l (cells ss)) b).
Proof. iIntros (Hl) "Hm". unfold sessions_mem. by rw (big_sepM_delete _ _ _ _ Hl). Qed.

Lemma sessions_insert ss l s b :
  cells ss !! l = None → sessions_mem ss -∗ session_at l s -∗ sessions_mem (MkStore (<[l := s]> (cells ss)) b).
Proof. iIntros (Hl) "Hm Hs". unfold sessions_mem. cbn [cells]. rw big_sepM_insert //. iFrame. Qed.

(** The stamp of a session of [ss] is the one in memory. *)
Lemma session_stamp ss h rest l s :
  owns h (sessions_mem ss) rest → cells ss !! l = Some s →
  ∃ o, cells h !! l = Some (OSession o) ∧ s_stamp o = Session.stamp s.
Proof.
  intros Hh Hl. eapply (owns_mono _ _ (∃ k, l ↦ OSession (obj_of k s) ∗ True)%I) in Hh.
  - apply owns_exist in Hh as [k Hk%owns_lookup]. by exists (obj_of k s).
  - iIntros "Hm". iDestruct (sessions_read with "Hm") as "[(%k & Hl & Hk) Hm]"; [exact Hl|]. iExists k. by iFrame.
Qed.

Lemma comparator_gives ss h rest a b :
  owns h (sessions_mem ss) rest → gives (Session.session_comparator ss a b) (session_comparator h a b).
Proof.
  intros Hh z (sa & Ha%load_Ret & (sb & Hb%load_Ret & E)%bind_Ret_inv)%bind_Ret_inv.
  destruct (session_stamp _ _ _ _ _ Hh Ha) as (oa & Hoa & Ea), (session_stamp _ _ _ _ _ Hh Hb) as (ob & Hob & Eb).
  unfold session_comparator. rw (load_Some _ _ _ Hoa) (load_Some _ _ _ Hob). cbn [mbind Res_bind]. by rw Ea Eb.
Qed.
End access.

(** ** The operations do what those of [Session.v] do *)

Section simulation.
Context `{Allocator, Garbage} {M : Type} `{!MapOps Z loc M}.
Implicit Types (f : Session.session_factory M) (l : loc) (s : Session.Session).

Lemma relay_id_spec s k (Φ : Z → mprop) :
  pack_at k (Session.relay_packet (Session.relay_info s)) -∗
  (pack_at k (Session.relay_packet (Session.relay_info s)) -∗ Φ (Session.relay_id s)) -∗
  wp (relay_id (obj_of k s)) Φ.
Proof.
  iIntros "(%q & %r & Hk & Hp) HΦ". unfold relay_id. cbn [s_packet obj_of].
  wp_apply (get_packet_spec with "Hk"). iIntros "Hk". iApply wp_ret. iApply "HΦ". iExists q, r. iFrame.
Qed.

Lemma session_close_sim f l f' (Φ : Session.session_factory M → mprop) :
  Session.session_close f l = Ret f' → sessions_mem (Session.sessions f) -∗
  (sessions_mem (Session.sessions f') -∗ Φ (bare f')) -∗ wp (session_close (bare f) l) Φ.
Proof.
  intros (s & Hl%load_Ret & (q & Eq & (t & Et & (ss & Es & E)%bind_Ret_inv)%bind_Ret_inv)%bind_Ret_inv)%bind_Ret_inv.
  injection E as <-. rw (free_Some _ _ _ Hl) in Es. injection Es as <-. iIntros "Hm HΦ".
  iDestruct (sessions_delete _ _ _ (brk (Session.sessions f)) Hl with "Hm") as "[(%k & Hl & Hk) Hm]".
  unfold session_close. wp_apply (get_session_spec with "Hl"). iIntros "Hl".
  wp_apply (relay_id_spec with "Hk"). iIntros "Hk".
  wp_apply wp_lift_ret; [exact Eq|]. wp_apply wp_lift_ret; [exact Et|].
  wp_apply (pack_free_spec with "Hk"). wp_apply (wp_release with "Hl"). iApply wp_ret. iApply ("HΦ" with "Hm").
Qed.

Lemma session_peek_sim f r f' (Φ : option loc * Session.session_factory M → mprop) :
  Session.session_peek f = Ret (r, f') → sessions_mem (Session.sessions f) -∗
  (sessions_mem (Session.sessions f') -∗ Φ (r, bare f')) -∗ wp (session_peek (bare f)) Φ.
Proof.
  intros ([r' q] & Eq & E)%bind_Ret_inv. injection E as -> <-. iIntros "Hm HΦ". unfold session_peek.
  wp_apply (wp_inspect _ (sessions_mem (Session.sessions f)) with "Hm").
  { intros h rest Hh. eapply lazy_heap_peek_gives; [|exact Eq]. intros a b. by eapply comparator_gives. }
  iIntros "Hm". iApply wp_ret. by iApply "HΦ".
Qed.

Lemma session_wait_sim now f l f' (Φ : Session.session_factory M → mprop) :
  Session.session_wait now f l = Ret f' → sessions_mem (Session.sessions f) -∗
  (sessions_mem (Session.sessions f') -∗ Φ (bare f')) -∗ wp (session_wait now (bare f) l) Φ.
Proof.
  intros (s & Hl%load_Ret & (q & Eq & (ss & Es & (q2 & Eq2 & E)%bind_Ret_inv)%bind_Ret_inv)%bind_Ret_inv)%bind_Ret_inv.
  injection E as <-. rw (store_Some _ _ _ _ Hl) in Es. injection Es as <-. iIntros "Hm HΦ".
  iDestruct (sessions_acc _ _ _ Hl with "Hm") as "[(%k & Hl & Hk) Hm]".
  unfold session_wait. wp_apply (get_session_spec with "Hl"). iIntros "Hl".
  wp_apply (relay_id_spec with "Hk"). iIntros "Hk". wp_apply wp_lift_ret; [exact Eq|].
  wp_apply (set_session_spec with "Hl"). iIntros "Hl".
  iSpecialize ("Hm" $! (Session.set_timestamp s now) with "[Hl Hk]"); [iExists k; iFrame|].
  wp_apply (wp_inspect with "Hm").
  { intros h rest Hh. eapply lazy_heap_add_gives; [|exact Eq2]. intros a b. by eapply comparator_gives. }
  iIntros "Hm". iApply wp_ret. by iApply "HΦ".
Qed.

Lemma timeout_remain_sim now f l r timeout (Φ : option Z → mprop) :
  Session.get_session_timeout_remain now f (Some l) timeout = Ret r → sessions_mem (Session.sessions f) -∗
  (sessions_mem (Session.sessions f) -∗ Φ r) -∗ wp (get_session_timeout_remain now (Some l) timeout) Φ.
Proof.
  intros (s & Hl%load_Ret & E)%bind_Ret_inv. injection E as <-. iIntros "Hm HΦ".
  iDestruct (sessions_read _ _ _ Hl with "Hm") as "[(%k & Hl & Hk) Hm]". unfold get_session_timeout_remain.
  wp_apply (get_session_spec with "Hl"). iIntros "Hl". iApply wp_ret. iApply "HΦ". iApply "Hm". iExists k. iFrame.
Qed.

Lemma sessions_over {T} ss (m : Mem T) :
  ∃ n, (∀ l, is_Some (cells ss !! l) → (l < n)%positive) ∧
    ∀ Φ, sessions_mem ss -∗ (sessions_mem ss -∗ wp_over n m Φ) -∗ wp m Φ.
Proof.
  apply wp_over_map. intros h l Hh [s Hl].
  eapply (holds_has _ (λ k, pack_at k _ ∗ (session_at l s -∗ sessions_mem ss))%I (λ k, OSession (obj_of k s))); [|exact Hh].
  iIntros "Hm". iDestruct (sessions_read with "Hm") as "[(%k & Hl & Hk) Hm]"; [exact Hl|]. iExists k. iFrame.
Qed.

(** The factory whose store hands out [b] next. *)
Definition at_brk (b : loc) f : Session.session_factory M :=
  Session.MkFactory (Session.agent_id_sessions f) (Session.sessions_queue f) (MkStore (cells (Session.sessions f)) b).

Lemma session_open_sim `{!AllocTotal} now f client ip lp p (P : loc → Session.session_factory M → Prop)
    (Φ : Session.session_factory M → mprop) :
  pack_ok p →
  (∀ b, store_wf (MkStore (cells (Session.sessions f)) b) →
    ∃ f', Session.session_open now (at_brk b f) client ip p = Ret f' ∧ P b f') →
  pack_at lp p -∗ sessions_mem (Session.sessions f) -∗
  (∀ b f', <affine> ⌜P b f'⌝ -∗ pack_at lp p -∗ sessions_mem (Session.sessions f') -∗ lost_vectors 2 -∗ Φ (bare f')) -∗
  wp (session_open now (bare f) client ip lp) Φ.
Proof.
  iIntros (Hp HP) "Hp Hm HΦ".
  destruct (sessions_over (Session.sessions f) (session_open now (bare f) client ip lp)) as (n & Hn & Hover).
  iApply (Hover with "Hm"). iIntros "Hm". unfold session_open.
  iApply wp_over_bind_first. iApply malloc_over; [apply malloc_total|]. iIntros (l Hl) "Hl".
  destruct (HP l) as (f' & E & Hf'); [intros l' Hl'; specialize (Hn l' Hl'); cbn; lia|].
  unfold Session.session_open in E. rw (packet_clone_ok _ Hp) in E. cbn [mbind Res_bind alloc at_brk Session.sessions cells brk] in E.
  apply bind_Ret_inv in E as ([x t] & Et & E).
  wp_apply wp_lift_ret; [done|]. wp_apply (wp_set with "Hl"). iIntros "Hl".
  wp_apply (packet_clone_spec with "Hp"); [done|]. iIntros (k) "Hp Hk L1 L2".
  wp_apply (set_session_spec with "Hl"). iIntros "Hl". wp_apply (get_session_spec with "Hl"). iIntros "Hl".
  set (s := Session.MkSession client ip (Session.MkRelay 0 0 p)) in *. 
  wp_apply (relay_id_spec s k with "Hk"). iIntros "Hk". wp_apply wp_lift_ret; [exact Et|].
  assert (Hnone : cells (Session.sessions f) !! l = None).
  { apply eq_None_not_Some. intros Hs. specialize (Hn _ Hs). lia. }
  iDestruct (sessions_insert _ l s (Pos.succ l) Hnone with "Hm [Hl Hk]") as "Hm"; [iExists k; iFrame|].
  iApply (session_wait_sim _ (Session.MkFactory t _ _) with "Hm"); [exact E|]. iIntros "Hm".
  iApply ("HΦ" with "[//] Hp Hm"). unfold lost_vectors. by iFrame.
Qed.
End simulation.
End SessionHeap.
