(* ===== verification/Server.v ===== *)
(** * The server: [src/server/server.c]

    The static variables of the file and of the modules it drives are the
    fields of [server].  What the kernel does is an argument: the outcome of
    each [sendto], and what each [recvfrom] yields.  [sent] lists the datagrams
    the kernel accepted.  One clock reading serves a packet, a sweep of the
    timers, a turn of the loop. *)

From stdpp Require Import sorting.
From S2P Require Import Prelude IdPool LinkedList MapInterface HashMap LazyHeap CString NameCodec Protocol Wire Cache Resolver Socket Session.
Import Protocol Wire Resolver Socket Session.

Module Server.

Definition DNS_RECV_BUF_SIZE : Z := 4096.
Definition DNS_SEND_BUF_SIZE : Z := 4096.

Record server (M C : Type) := MkServer {
  upstreams : LinkedList.LinkedList NetEnd;
  next_upstream : option loc;
  send_buf : list Z;
  recv_buf : list Z;
  pool : IdPool.id_pool;
  factory : session_factory M;
  g_cache : option (Cache.DnsCache C);
  use_cache : Z;
  request_timeout : Z;
  max_retry_time : Z;
  sent : list (list Z * sockaddr);
}.
Arguments MkServer {M C} upstreams next_upstream send_buf recv_buf pool factory g_cache use_cache
  request_timeout max_retry_time sent.
Arguments upstreams {M C} s.
Arguments next_upstream {M C} s.
Arguments send_buf {M C} s.
Arguments recv_buf {M C} s.
Arguments pool {M C} s.
Arguments factory {M C} s.
Arguments g_cache {M C} s.
Arguments use_cache {M C} s.
Arguments request_timeout {M C} s.
Arguments max_retry_time {M C} s.
Arguments sent {M C} s.

Section server.
Context `{Allocator, Kernel} {M C : Type} `{!MapOps Z loc M, !MapOps (list Z) loc C}.
Implicit Types (st : server M C).

Definition set_next st (n : option loc) : server M C :=
  MkServer (upstreams st) n (send_buf st) (recv_buf st) (pool st) (factory st) (g_cache st)
    (use_cache st) (request_timeout st) (max_retry_time st) (sent st).
Definition set_send_buf st (b : list Z) : server M C :=
  MkServer (upstreams st) (next_upstream st) b (recv_buf st) (pool st) (factory st) (g_cache st)
    (use_cache st) (request_timeout st) (max_retry_time st) (sent st).
Definition set_recv_buf st (b : list Z) : server M C :=
  MkServer (upstreams st) (next_upstream st) (send_buf st) b (pool st) (factory st) (g_cache st)
    (use_cache st) (request_timeout st) (max_retry_time st) (sent st).
Definition set_pool st (p : IdPool.id_pool) : server M C :=
  MkServer (upstreams st) (next_upstream st) (send_buf st) (recv_buf st) p (factory st) (g_cache st)
    (use_cache st) (request_timeout st) (max_retry_time st) (sent st).
Definition set_factory st (f : session_factory M) : server M C :=
  MkServer (upstreams st) (next_upstream st) (send_buf st) (recv_buf st) (pool st) f (g_cache st)
    (use_cache st) (request_timeout st) (max_retry_time st) (sent st).
Definition set_cache st (c : option (Cache.DnsCache C)) : server M C :=
  MkServer (upstreams st) (next_upstream st) (send_buf st) (recv_buf st) (pool st) (factory st) c
    (use_cache st) (request_timeout st) (max_retry_time st) (sent st).
Definition add_sent st (d : list Z * sockaddr) : server M C :=
  MkServer (upstreams st) (next_upstream st) (send_buf st) (recv_buf st) (pool st) (factory st)
    (g_cache st) (use_cache st) (request_timeout st) (max_retry_time st) (sent st ++ [d]).

(** The return code (0, 1 or -1), the packet when it is 0, where it comes from.
    The bytes of the end point that are not written are not read either. *)
Definition pack_recv (fuel : nat) st (r : recv) : Res (Z * option DnsPacket * NetEnd * server M C) :=
  let nowhere := MkEnd (replicate 16 0) IPV4 0 in
  '(len, buf, src) ← socket_recv_nowait r (recv_buf st) DNS_RECV_BUF_SIZE nowhere;
  let st := set_recv_buf st buf in
  if len =? 0 then Ret (1, None, src, st)
  else if len =? -1 then Ret (-1, None, src, st)
  else
    packet ← pack_deserialize fuel buf len;
    Ret (match packet with Some _ => 0 | None => -1 end, packet, src, st).

(** The packet and the destination are never NULL. *)
Definition packet_send st (dns_pack : DnsPacket) (dest : NetEnd) : Res (Z * server M C) :=
  '(buf, raw_pack_size) ← pack_serialize dns_pack (send_buf st) DNS_SEND_BUF_SIZE;
  let st := set_send_buf st buf in
  if (raw_pack_size <? 0) || (raw_pack_size >? MAX_PACKET_SIZE) then Ret (1, st)
  else
    '(ret, datagram) ← socket_send (sent st) buf raw_pack_size dest;
    if ret >=? 0 then Ret (0, add_sent st datagram) else Ret (1, st).

Definition pick_upstream st : Res (NetEnd * server M C) :=
  node ← match next_upstream st with
         | None => nonnull (LinkedList.ll_head (upstreams st))
         | Some n => Ret n
         end;
  n ← load (LinkedList.nodes (upstreams st)) node;
  Ret (LinkedList.data n, set_next st (LinkedList.next n)).

Definition set_session st (l : loc) (s : Session) : Res (server M C) :=
  ss ← store (sessions (factory st)) l s;
  Ret (set_factory st (MkFactory (agent_id_sessions (factory st)) (sessions_queue (factory st)) ss)).

(** [retry_times] is a signed [char]. *)
Definition count_retry (s : Session) : Session :=
  MkSession (client_id s) (client_ip s)
    (MkRelay (stamp s) (schar (wrap_u8 (retry_times (relay_info s) + 1))) (relay_packet (relay_info s))).
Definition set_relay_packet (s : Session) (p : DnsPacket) : Session :=
  MkSession (client_id s) (client_ip s) (MkRelay (stamp s) (retry_times (relay_info s)) p).

Definition do_handle_timeout (now : Z) st (session : loc) : Res (server M C) :=
  s ← load (sessions (factory st)) session;
  let rid := relay_id s in
  if retry_times (relay_info s) >=? max_retry_time st then
    let query := set_id (relay_packet (relay_info s)) (client_id s) in
    st ← set_session st session (set_relay_packet s query);
    fail_pack ← pack_make_inner_error query;
    '(_, st) ← packet_send st fail_pack (client_ip s);
    f ← session_close (factory st) session;
    p ← IdPool.id_free rid (pool st);
    Ret (set_pool (set_factory st f) p)
  else
    '(dest, st) ← pick_upstream st;
    '(_, st) ← packet_send st (relay_packet (relay_info s)) dest;
    st ← set_session st session (count_retry s);
    f ← session_wait now (factory st) session;
    Ret (set_factory st f).

Fixpoint batch_timeout (fuel : nat) (now : Z) st : Res (server M C) :=
  '(session, f) ← session_peek (factory st);
  let st := set_factory st f in
  match session with
  | None => Ret st
  | Some l =>
      remain ← get_session_timeout_remain now f (Some l) (request_timeout st);
      time_remain ← nonnull remain;
      if time_remain >? 0 then Ret st
      else
        match fuel with
        | O => OutOfFuel
        | S fuel => st ← do_handle_timeout now st l; batch_timeout fuel now st
        end
  end.

(** The branch of [handle_dns_packet] that sends a query upstream. *)
Definition relay_query (now : Z) st (packet_in : DnsPacket) (source_end : NetEnd) : Res (server M C) :=
  '(code, relay_id, p) ← IdPool.id_alloc false (pool st);
  let st := set_pool st p in
  if negb (code =? 0) then
    packet_out ← pack_make_inner_error packet_in;
    '(_, st) ← packet_send st packet_out source_end;
    Ret st
  else
    relay_id ← nonnull relay_id;
    packet_out ← pack_make_query_relay packet_in relay_id;
    '(dest, st) ← pick_upstream st;
    '(r, st) ← packet_send st packet_out dest;
    if negb (r =? 0) then
      p ← IdPool.id_free relay_id (pool st); Ret (set_pool st p)
    else
      f ← session_open now (factory st) (id (header packet_in)) source_end packet_out;
      Ret (set_factory st f).

Definition handle_dns_packet (now : Z) st (packet_in : DnsPacket) (source_end : NetEnd) :
    Res (server M C) :=
  if packet_is_query packet_in then
    '(direction, packet_out, c) ← pack_try_response_local now (g_cache st) packet_in;
    let st := set_cache st c in
    match direction with
    | CLIENT =>
        packet_out ← nonnull packet_out;
        '(_, st) ← packet_send st packet_out source_end;
        Ret st
    | UPSTREAM =>
        relay_query now st packet_in source_end
    end
  else
    session ← session_get (factory st) (Some packet_in);
    match session with
    | None => Ret st
    | Some l =>
        s ← load (sessions (factory st)) l;
        '(packet_out, c) ← pack_make_response_relay now (use_cache st) (g_cache st) packet_in (client_id s);
        let st := set_cache st c in
        '(_, st) ← packet_send st packet_out (client_ip s);
        f ← session_close (factory st) l;
        p ← IdPool.id_free (id (header packet_in)) (pool st);
        Ret (set_pool (set_factory st f) p)
    end.

(** The inner loop of [server_loop]: packets are handled until [recvfrom] has
    none, fails, or yields one the parser refuses. *)
Fixpoint drain (fuel : nat) (now : Z) st (rs : list recv) : Res (server M C) :=
  match rs with
  | [] => Ret st
  | r :: rs =>
      '(ret, packet, source_end, st) ← pack_recv fuel st r;
      match packet with
      | Some packet => st ← handle_dns_packet now st packet source_end; drain fuel now st rs
      | None => Ret st
      end
  end.

(** One turn of [server_loop]: the timeout given to [select] ([None] without
    limit), then the packets that arrived, then the sweep of the timers. *)
Definition select_timeout (now : Z) st : Res (option (Z * Z) * server M C) :=
  '(earliest_session, f) ← session_peek (factory st);
  remain ← match earliest_session with
           | None => Ret (-1)
           | Some l => r ← get_session_timeout_remain now f (Some l) (request_timeout st); nonnull r
           end;
  Ret (timeval_of remain, set_factory st f).

Definition server_turn (fuel : nat) (now : Z) (rs : list recv) st : Res (server M C) :=
  st ← drain fuel now st rs; batch_timeout fuel now st.

(** [server_loop] leaves its loop, returning -1, only when [select] fails
    ([None]); each turn has its clock readings, before and after [select]. *)
Fixpoint server_loop (fuel : nat) (turns : list (Z * option (Z * list recv))) st :
    Res (list (option (Z * Z)) * option Z * server M C) :=
  match turns with
  | [] => Ret ([], None, st)
  | (before, turn) :: turns =>
      '(timeout, st) ← select_timeout before st;
      match turn with
      | None => Ret ([timeout], Some (-1), st)
      | Some (now, rs) =>
          st ← server_turn fuel now rs st;
          '(timeouts, r, st) ← server_loop fuel turns st;
          Ret (timeout :: timeouts, r, st)
      end
  end.
End server.

(** ** What the server holds

    [ss] are the open sessions by relay id, [out] the ids taken from the pool,
    [items] the cache, [us] the upstream servers: every id taken belongs to
    exactly one open session. *)

Section rep.
Context `{Allocator, Kernel} {M C : Type} `{!MapOps Z loc M, !MapLaws Z loc M, !MapOps (list Z) loc C, !MapLaws (list Z) loc C}.
Implicit Types (st : server M C) (ss : gmap Z (loc * Session)) (out : gset Z)
  (items : list Cache.item) (us : list (loc * NetEnd)) (p : DnsPacket).

Record srv_rep st (last : Z) ss items out us : Prop := {
  s_factory : sf_rep (factory st) last ss;
  s_pool : IdPool.pool_inv (pool st) out;
  s_ids : ∀ i, i ∈ out ↔ is_Some (ss !! i);
  s_cache : g_rep (g_cache st) items;
  s_items : items_good items;
  s_ups : LinkedList.ll_rep (upstreams st) us;
  s_some : us ≠ [];
  s_next : ∀ n, next_upstream st = Some n → n ∈ us.*1;
  s_send : length (send_buf st) = 4096%nat;
}.

(** A packet [pack_serialize] writes correctly into the buffer. *)
Definition sendable (buf : list Z) p : Prop :=
  wire_ok p ∧ fits p buf DNS_SEND_BUF_SIZE ∧ pack_clean buf p.

(** What a call of [packet_send] changes. *)
Definition after_send st p (dest : NetEnd) (ok : bool) : server M C :=
  let st := set_send_buf st (pack_out p ++ drop (length (pack_out p)) (send_buf st)) in
  if ok then add_sent st (pack_out p, sockaddr_of dest) else st.

Definition deliverable st p (dest : NetEnd) : bool :=
  (Z.of_nat (length (pack_out p)) <=? MAX_PACKET_SIZE) &&
  (sendto (sent st) (pack_out p) (sockaddr_of dest) >=? 0).

Lemma packet_send_spec st p dest :
  sendable (send_buf st) p →
  packet_send st p dest =
    Ret (if deliverable st p dest then 0 else 1, after_send st p dest (deliverable st p dest)).
Proof.
  intros (Hw & Hf & Hc). unfold packet_send. rewrite (pack_serialize_spec _ _ _ Hw Hf Hc).
  cbn [mbind Res_bind]. unfold deliverable, after_send.
  rewrite (proj2 (Z.ltb_ge _ _)) by lia. cbn [orb]. rewrite Z.gtb_ltb, Z.ltb_antisym.
  destruct (_ <=? MAX_PACKET_SIZE); cbn [negb andb]; [|done].
  unfold socket_send. rewrite slice_Ret by (rewrite ?length_app; lia). cbn [mbind Res_bind drop Z.to_nat].
  rewrite Nat2Z.id, drop_0, take_app_length. cbn [sent set_send_buf].
  by destruct (_ >=? 0).
Qed.

Lemma after_send_rep st last ss items out us p dest b :
  sendable (send_buf st) p → srv_rep st last ss items out us →
  srv_rep (after_send st p dest b) last ss items out us.
Proof.
  intros (_ & (_ & _ & Hlen & _) & _) [? ? ? ? ? ? ? ? Hs].
  assert (length (pack_out p ++ drop (length (pack_out p)) (send_buf st)) = 4096%nat)
    by (rewrite length_app, length_drop; lia).
  unfold after_send. destruct b; by split.
Qed.

Lemma after_send_sent st p dest b :
  sent (after_send st p dest b) = if b then sent st ++ [(pack_out p, sockaddr_of dest)] else sent st.
Proof. by destruct b. Qed.

(** The outcome of sending [p] to [dest], seen from outside: one datagram with
    the bytes of the packet, or nothing when it is too long or refused. *)
Definition offered st st' p dest : Prop :=
  sent st' = if deliverable st p dest then sent st ++ [(pack_out p, sockaddr_of dest)] else sent st.

(** The next upstream server is the one at index [k]. *)
Definition cursor st us (k : nat) : Prop :=
  ∃ n d, us !! k = Some (n, d) ∧ (next_upstream st = Some n ∨ k = 0%nat ∧ next_upstream st = None).

Lemma pick_upstream_spec st us k n d :
  LinkedList.ll_rep (upstreams st) us → us !! k = Some (n, d) →
  (next_upstream st = Some n ∨ k = 0%nat ∧ next_upstream st = None) →
  pick_upstream st = Ret (d, set_next st (us.*1 !! S k)).
Proof.
  intros Hr Hk Hn. assert (Hnode : match next_upstream st with
    | None => nonnull (LinkedList.ll_head (upstreams st)) | Some n => Ret n end = Ret n).
  { destruct Hn as [->|[-> ->]]; [done|]. rewrite (LinkedList.ll_rep_head _ _ Hr).
    destruct us as [|[n' d'] us]; [done|]. by injection Hk as -> ->. }
  unfold pick_upstream. rewrite Hnode. cbn [mbind Res_bind].
  apply list_elem_of_split_length in Hk as (pre & post & -> & ->).
  rewrite (load_Some _ _ _ (LinkedList.ll_rep_mid _ _ _ _ _ Hr)). cbn [mbind Res_bind].
  cbn [LinkedList.data LinkedList.next]. do 2 f_equal. f_equal.
  rewrite fmap_app, lookup_app_r by (rewrite length_fmap; lia).
  rewrite length_fmap. replace (S (length pre) - length pre)%nat with 1%nat by lia.
  rewrite fmap_cons. cbn [lookup list_lookup]. by destruct (post.*1).
Qed.

Lemma cursor_exists st last ss items out us :
  srv_rep st last ss items out us → ∃ k, cursor st us k.
Proof.
  intros Hs. unfold cursor. destruct (next_upstream st) as [n|] eqn:E.
  - apply (s_next _ _ _ _ _ _ Hs) in E. apply list_elem_of_fmap in E as ([n' d] & -> & Hin).
    apply list_elem_of_lookup in Hin as [k Hk]. exists k, n', d. auto.
  - pose proof (s_some _ _ _ _ _ _ Hs). destruct us as [|[n d] us]; [done|]. exists 0%nat, n, d. auto.
Qed.

(** Past the last server comes the first. *)
Lemma cursor_next st us k :
  (k < length us)%nat → next_upstream st = us.*1 !! S k → cursor st us (S k mod length us)%nat.
Proof.
  intros Hk Hn. unfold cursor. rewrite Hn. destruct (decide (S k < length us)%nat) as [Hlt|Hge].
  - rewrite Nat.mod_small by done. destruct (lookup_lt_is_Some_2 us (S k) Hlt) as [[m' d'] E'].
    exists m', d'. split; [done|]. left. by rewrite list_lookup_fmap, E'.
  - assert (S k = length us) as -> by lia. rewrite Nat.Div0.mod_same.
    destruct us as [|[m0 d0] us']; [simpl in Hk; lia|]. exists m0, d0. split; [done|]. right. split; [done|].
    apply lookup_ge_None_2. rewrite length_fmap. lia.
Qed.

Lemma pick_upstream_any st last ss items out us :
  srv_rep st last ss items out us →
  ∃ d m, pick_upstream st = Ret (d, set_next st m) ∧ d ∈ us.*2 ∧ (∀ n, m = Some n → n ∈ us.*1).
Proof.
  intros Hs. destruct (cursor_exists _ _ _ _ _ _ Hs) as (k & n & d & Hk & Hn).
  exists d, (us.*1 !! S k). split; [by apply (pick_upstream_spec st us k n d (s_ups _ _ _ _ _ _ Hs))|]. split.
  - apply (list_elem_of_fmap_2' snd _ (n, d)); [|done]. by eapply list_elem_of_lookup_2.
  - intros m Hm. by eapply list_elem_of_lookup_2.
Qed.

Lemma set_next_rep st last ss items out us m :
  (∀ n, m = Some n → n ∈ us.*1) → srv_rep st last ss items out us →
  srv_rep (set_next st m) last ss items out us.
Proof. intros Hm [? ? ? ? ? ? ? ? ?]. by split. Qed.

Lemma set_cache_rep st last ss items items' out us c :
  g_rep c items' → items_good items' → srv_rep st last ss items out us →
  srv_rep (set_cache st c) last ss items' out us.
Proof. intros Hc Hi [? ? ? ? ? ? ? ? ?]. by split. Qed.

Lemma srv_rep_later st last now ss items out us :
  last ≤ now → srv_rep st last ss items out us → srv_rep st now ss items out us.
Proof. intros Hle [? ? ? ? ? ? ? ? ?]. split; try done. by eapply sf_rep_later. Qed.

Lemma taken_back (i : Z) out : i ∉ out → ({[i]} ∪ out) ∖ {[i]} = out.
Proof. intros Hi. rewrite difference_union_distr_l_L, difference_diag_L, union_empty_l_L.
  by apply difference_disjoint_L, disjoint_singleton_r. Qed.

(** ** The handler, on queries *)

Lemma make_relay_spec p i : pack_ok p → pack_make_query_relay p i = Ret (set_id p i).
Proof. intros Hp. unfold pack_make_query_relay. by rewrite (packet_clone_ok _ Hp). Qed.

Lemma inner_error_spec p : pack_ok p → pack_make_inner_error p = Ret (reply p RCODE_SERVFAIL).
Proof. apply make_response_fail_reply. Qed.

Lemma set_id_ok p i : pack_ok p → pack_ok (set_id p i).
Proof. intros [? ?]. by split. Qed.

Lemma is_query_ids p i : packet_is_query (set_id p i) = packet_is_query p.
Proof. reflexivity. Qed.

(** The session a forwarded query opens. *)
Definition new_session (now : Z) (q : DnsPacket) (src : NetEnd) (i : Z) : Session :=
  MkSession (id (header q)) src (MkRelay now 0 (set_id q i)).

Lemma pick_upstream_pool st pl d m :
  pick_upstream st = Ret (d, set_next st m) → pick_upstream (set_pool st pl) = Ret (d, set_next (set_pool st pl) m).
Proof.
  unfold pick_upstream. cbn [next_upstream set_pool upstreams].
  destruct (match next_upstream st with Some n => Ret n | None => _ end) as [n| |]; [|done|done].
  cbn [mbind Res_bind]. destruct (load _ n) as [nd| |]; [|done|done]. cbn [mbind Res_bind].
  intros [= -> Hnext]. by rewrite Hnext.
Qed.

(** The relayed query was sent: the session is opened. *)
Lemma forward_sent st last ss items out us now q src i d pl m :
  AllocTotal → srv_rep st last ss items out us → last ≤ now → queued (factory st) < 2 ^ 30 → pack_ok q →
  sendable (send_buf st) (set_id q i) → is_u16 i → i ∉ out → IdPool.pool_inv pl ({[i]} ∪ out) →
  (∀ n, m = Some n → n ∈ us.*1) →
  let st2 := after_send (set_next (set_pool st pl) m) (set_id q i) d true in
  ∃ f l, session_open now (factory st2) (id (header q)) src (set_id q i) = Ret f ∧
    srv_rep (set_factory st2 f) now (<[i := (l, new_session now q src i)]> ss) items ({[i]} ∪ out) us.
Proof.
  intros Htot Hst Hnow Hsz Hq Hsr Hi Hout Hpl Hm st2.
  assert (Hfree : ss !! i = None).
  { destruct (ss !! i) eqn:E'; [|done]. destruct Hout. apply (s_ids _ _ _ _ _ _ Hst). eauto. }
  destruct (session_open_spec (factory st) last ss now (id (header q)) src (set_id q i) Htot
    (s_factory _ _ _ _ _ _ Hst) (set_id_ok _ i Hq)) as (f & l & Eo & Hf); [done|done|done|].
  exists f, l. split; [exact Eo|]. pose proof (srv_rep_later _ _ _ _ _ _ _ Hnow Hst) as Hst'.
  pose proof (after_send_rep (set_next st m) now ss items out us (set_id q i) d true
    Hsr (set_next_rep _ _ _ _ _ _ _ Hm Hst')) as [? ? ? ? ? ? ? ? ?].
  split; try done. intros j. rewrite elem_of_union, elem_of_singleton, (s_ids _ _ _ _ _ _ Hst).
  destruct (decide (i = j)) as [<-|Hne].
  - rewrite lookup_insert_eq. split; [eauto|by left].
  - rewrite lookup_insert_ne by done. split; [by intros [?|?]|by right].
Qed.

(** It could not be sent: the id goes back. *)
Lemma forward_refused st last ss items out us q i d pl m :
  srv_rep st last ss items out us → sendable (send_buf st) (set_id q i) → is_u16 i → i ∉ out →
  IdPool.pool_inv pl ({[i]} ∪ out) → (∀ n, m = Some n → n ∈ us.*1) →
  let st2 := after_send (set_next (set_pool st pl) m) (set_id q i) d false in
  ∃ pl', IdPool.id_free i (pool st2) = Ret pl' ∧ srv_rep (set_pool st2 pl') last ss items out us.
Proof.
  intros Hst Hsr Hi Hout Hpl Hm st2.
  destruct (IdPool.id_free_inv pl ({[i]} ∪ out) i Hpl Hi) as (pl' & E & Hpl').
  exists pl'. split; [exact E|]. rewrite (taken_back i out Hout) in Hpl'.
  pose proof (after_send_rep (set_next st m) last ss items out us (set_id q i) d false
    Hsr (set_next_rep _ _ _ _ _ _ _ Hm Hst)) as [? ? ? ? ? ? ? ? ?]. by split.
Qed.

(** What becomes of a query that goes upstream: it finds an id, or is answered
    SERVFAIL. *)
Definition forwarded (now : Z) st ss items out us q src st' : Prop :=
  (∀ i, is_u16 i → i ∈ out) ∧ srv_rep st' now ss items out us ∧
    offered st st' (reply q RCODE_SERVFAIL) src ∨
  ∃ i d, is_u16 i ∧ (i ∉ out) ∧ d ∈ us.*2 ∧ offered st st' (set_id q i) d ∧
    if deliverable st (set_id q i) d
    then ∃ l, srv_rep st' now (<[i := (l, new_session now q src i)]> ss) items ({[i]} ∪ out) us
    else srv_rep st' now ss items out us.

Lemma forward_spec st last ss items out us now q src :
  AllocTotal → srv_rep st last ss items out us → last ≤ now → queued (factory st) < 2 ^ 30 →
  pack_ok q → sendable (send_buf st) (reply q RCODE_SERVFAIL) →
  (∀ i, is_u16 i → sendable (send_buf st) (set_id q i)) →
  ∃ st', relay_query now st q src = Ret st' ∧ forwarded now st ss items out us q src st'.
Proof.
  intros Htot Hst Hnow Hsz Hq Hse Hsr. unfold relay_query. pose proof (srv_rep_later _ _ _ _ _ _ _ Hnow Hst) as Hst'.
  destruct (IdPool.id_alloc_cases _ _ (s_pool _ _ _ _ _ _ Hst)) as [[E Hall]|(i & pl & E & Hi & Hout & Hpl)].
  - rewrite E. cbn [mbind Res_bind]. change (negb (1 =? 0)) with true. cbv iota.
    rewrite (inner_error_spec _ Hq). cbn [mbind Res_bind].
    set (st1 := set_pool st (pool st)). assert (Est1 : st1 = st) by (unfold st1; by destruct st).
    rewrite Est1, packet_send_spec by done. cbn [mbind Res_bind].
    eexists. split; [reflexivity|]. left. split_and!; [done|by apply after_send_rep|apply after_send_sent].
  - rewrite E. cbn [mbind Res_bind]. change (negb (0 =? 0)) with false. cbv iota. cbn [nonnull]. cbn [mbind Res_bind].
    rewrite (make_relay_spec _ _ Hq). cbn [mbind Res_bind].
    destruct (pick_upstream_any st now ss items out us Hst') as (d & m & Epick & Hd & Hm).
    rewrite (pick_upstream_pool _ pl _ _ Epick). cbn [mbind Res_bind].
    rewrite packet_send_spec by (by apply Hsr). cbn [mbind Res_bind].
    assert (Edel : deliverable (set_next (set_pool st pl) m) (set_id q i) d = deliverable st (set_id q i) d) by done.
    rewrite Edel. destruct (deliverable st (set_id q i) d) eqn:Eok; cbn [Z.eqb negb].
    + destruct (forward_sent st last ss items out us now q src i d pl m) as (f & l & -> & Hrep); [by auto..|].
      cbn [mbind Res_bind]. eexists. split; [reflexivity|]. right. exists i, d.
      do 3 (split; [done|]). split; [unfold offered; by rewrite Eok|]. rewrite Eok. by exists l.
    + destruct (forward_refused st now ss items out us q i d pl m) as (pl' & -> & Hrep); [by auto..|].
      cbn [mbind Res_bind]. eexists. split; [reflexivity|]. right. exists i, d.
      do 3 (split; [done|]). split; [unfold offered; by rewrite Eok|]. by rewrite Eok.
Qed.

Lemma local_spec st last ss items out us now q ls :
  srv_rep st last ss items out us → query_ok q ls →
  ∃ c items', pack_try_response_local now (g_cache st) q =
      Ret (direction_of (local_answer now items q ls), local_answer now items q ls, c) ∧
    same_lookups now items items' ∧ srv_rep (set_cache st c) last ss items' out us.
Proof.
  intros Hst Hq. destruct (try_response_local_spec now (g_cache st) items q ls
    (s_cache _ _ _ _ _ _ Hst) (s_items _ _ _ _ _ _ Hst) Hq) as (c & items' & E & Hc & Hi & Hs).
  exists c, items'. split_and!; [done..|]. by eapply set_cache_rep.
Qed.

(** A query with a local answer. *)
Lemma answered_spec st last ss items out us now q src ls r :
  srv_rep st last ss items out us → packet_is_query q = true → query_ok q ls →
  local_answer now items q ls = Some r → sendable (send_buf st) r →
  ∃ st' items', handle_dns_packet now st q src = Ret st' ∧ same_lookups now items items' ∧
    srv_rep st' last ss items' out us ∧ offered st st' r src.
Proof.
  intros Hst Hq Hok Ha Hr. unfold handle_dns_packet. rewrite Hq.
  destruct (local_spec st last ss items out us now q ls Hst Hok) as (c & items' & E & Hs & Hst1).
  rewrite E, Ha, !bind_Ret. cbn [direction_of nonnull]. rewrite bind_Ret, packet_send_spec, bind_Ret by done.
  eexists _, items'. split; [reflexivity|]. split_and!; [done|by apply after_send_rep|].
  unfold offered. by rewrite after_send_sent.
Qed.

(** What becomes of a query. *)
Definition handled (now : Z) st last ss items out us q src ls st' items' : Prop :=
  same_lookups now items items' ∧
  match local_answer now items q ls with
  | Some r => srv_rep st' last ss items' out us ∧ offered st st' r src
  | None => forwarded now st ss items' out us q src st'
  end.

Lemma query_spec st last ss items out us now q src ls :
  AllocTotal →
  srv_rep st last ss items out us → last ≤ now → queued (factory st) < 2 ^ 30 →
  packet_is_query q = true → query_ok q ls →
  (∀ r, local_answer now items q ls = Some r → sendable (send_buf st) r) →
  sendable (send_buf st) (reply q RCODE_SERVFAIL) →
  (∀ i, is_u16 i → sendable (send_buf st) (set_id q i)) →
  ∃ st' items', handle_dns_packet now st q src = Ret st' ∧
    handled now st last ss items out us q src ls st' items'.
Proof.
  intros Htot Hst Hnow Hsz Hq Hok Hr Hse Hsr. unfold handled. destruct (local_answer now items q ls) as [r|] eqn:Ea.
  { destruct (answered_spec st last ss items out us now q src ls r) as (st' & items' & ? & ? & ? & ?); [by auto..|].
    by exists st', items'. }
  unfold handle_dns_packet. rewrite Hq.
  destruct (local_spec st last ss items out us now q ls Hst Hok) as (c & items' & E & Hs & Hst1).
  rewrite E, Ea, bind_Ret. cbn [direction_of].
  destruct (forward_spec (set_cache st c) last ss items' out us now q src Htot Hst1 Hnow Hsz
    (qo_pack _ _ Hok) Hse Hsr) as (st' & Ef & Hf).
  by exists st', items'.
Qed.

(** ** The handler, on responses *)

(** A session is closed and its id given back. *)
Lemma closed_rep st last ss items out us i l s f pl :
  srv_rep st last ss items out us → ss !! i = Some (l, s) → sf_rep f last (delete i ss) →
  IdPool.pool_inv pl (out ∖ {[i]}) →
  srv_rep (set_pool (set_factory st f) pl) last (delete i ss) items (out ∖ {[i]}) us.
Proof.
  intros [? ? Hids ? ? ? ? ? ?] Hi Hf Hp. split; try done.
  intros j. rewrite elem_of_difference, not_elem_of_singleton, Hids. destruct (decide (j = i)) as [->|Hne].
  - rewrite lookup_delete_eq. split; [by intros [_ ?]|by intros [? ?]].
  - rewrite lookup_delete_ne by done. tauto.
Qed.

Lemma response_spec st last ss items out us now p src q ls l s c :
  srv_rep st last ss items out us → packet_is_query p = false → ss !! id (header p) = Some (l, s) →
  response_ok p q ls → g_cache st = Some c →
  sendable (send_buf st) (set_id p (client_id s)) →
  ∃ st', handle_dns_packet now st p src = Ret st' ∧
    offered st st' (set_id p (client_id s)) (client_ip s) ∧
    srv_rep st' last (delete (id (header p)) ss)
      (after_response (use_cache st) now c q p items) (out ∖ {[id (header p)]}) us.
Proof.
  intros Hst Hp Hi Hr Hc Hsend. unfold handle_dns_packet. rewrite Hp.
  rewrite (session_get_spec _ _ _ _ (s_factory _ _ _ _ _ _ Hst)), Hi. cbn [fmap option_fmap option_map fst].
  cbn [mbind Res_bind]. destruct (f_cells _ _ _ (s_factory _ _ _ _ _ _ Hst) _ _ _ Hi) as [Hl _].
  rewrite (load_Some _ _ _ Hl). cbn [mbind Res_bind].
  pose proof (s_cache _ _ _ _ _ _ Hst) as Hg. rewrite Hc in Hg.
  destruct (response_relay_spec now (use_cache st) c items p q ls (client_id s) Hr Hg) as (c' & E & Hc').
  rewrite Hc, E. cbn [mbind Res_bind]. rewrite packet_send_spec by done. cbn [mbind Res_bind].
  change (deliverable (set_cache st (Some c'))) with (deliverable st).
  set (st2 := after_send _ _ _ _).
  destruct (session_close_spec (factory st) last ss _ l s (s_factory _ _ _ _ _ _ Hst) Hi) as (f' & Ef & Hf').
  assert (Efac : factory st2 = factory st) by (unfold st2; by destruct (deliverable _ _ _)).
  rewrite Efac, Ef. cbn [mbind Res_bind].
  assert (Hout : id (header p) ∈ out) by (apply (s_ids _ _ _ _ _ _ Hst); eauto).
  destruct (IdPool.id_free_inv (pool st) out (id (header p)) (s_pool _ _ _ _ _ _ Hst)) as (pl & Ep & Hpl);
    [by eapply IdPool.inv_out; [apply Hst|]|].
  assert (Epool : pool st2 = pool st) by (unfold st2; by destruct (deliverable _ _ _)).
  rewrite Epool, Ep. cbn [mbind Res_bind]. eexists. split; [reflexivity|]. split.
  - unfold offered. change (sent (set_pool (set_factory st2 f') pl)) with (sent st2).
    unfold st2. by rewrite after_send_sent.
  - assert (Hgood : items_good (after_response (use_cache st) now c q p items)).
    { apply after_response_Forall; [|apply Hst]. split; [|apply Hr]. exists (rrs p). split; [done|apply Hr]. }
    apply (closed_rep st2 last ss _ out us _ l s); [|done..].
    apply after_send_rep; [exact Hsend|]. by apply (set_cache_rep st last ss items).
Qed.

Lemma response_unknown st last ss items out us now p src :
  srv_rep st last ss items out us → packet_is_query p = false → ss !! id (header p) = None →
  handle_dns_packet now st p src = Ret st.
Proof.
  intros Hst Hp Hi. unfold handle_dns_packet. rewrite Hp.
  by rewrite (session_get_spec _ _ _ _ (s_factory _ _ _ _ _ _ Hst)), Hi.
Qed.

(** ** Timers *)

Definition resent (now : Z) (s : Session) : Session := set_timestamp (count_retry s) now.

Lemma resend_spec st last ss items out us now i l s k :
  AllocTotal → srv_rep st last ss items out us → cursor st us k → last ≤ now → queued (factory st) < 2 ^ 30 →
  ss !! i = Some (l, s) → retry_times (relay_info s) < max_retry_time st →
  sendable (send_buf st) (relay_packet (relay_info s)) →
  ∃ st' d, do_handle_timeout now st l = Ret st' ∧ us.*2 !! k = Some d ∧
    offered st st' (relay_packet (relay_info s)) d ∧ cursor st' us (S k mod length us)%nat ∧
    srv_rep st' now (<[i := (l, resent now s)]> ss) items out us ∧
    queued (factory st') ≤ queued (factory st) + 1 ∧
    request_timeout st' = request_timeout st ∧ max_retry_time st' = max_retry_time st.
Proof.
  intros Htot Hst (n & d & Hk & Hn) Hnow Hsz Hi Hretry Hsend. unfold do_handle_timeout.
  destruct (f_cells _ _ _ (s_factory _ _ _ _ _ _ Hst) _ _ _ Hi) as [Hl Hid].
  rewrite (load_Some _ _ _ Hl). cbn [mbind Res_bind]. rewrite Z.geb_leb.
  rewrite (proj2 (Z.leb_gt _ _)) by done.
  rewrite (pick_upstream_spec st us k n d (s_ups _ _ _ _ _ _ Hst) Hk Hn). cbn [mbind Res_bind].
  rewrite packet_send_spec by done. cbn [mbind Res_bind].
  change (deliverable (set_next st (us.*1 !! S k))) with (deliverable st). set (st2 := after_send _ _ _ _).
  assert (Hnext : next_upstream st2 = us.*1 !! S k) by (unfold st2; by destruct (deliverable _ _ _)).
  assert (Hst2 : srv_rep st2 now ss items out us).
  { apply after_send_rep; [done|]. apply set_next_rep; [intros m; apply list_elem_of_lookup_2|]. by eapply srv_rep_later. }
  assert (Eo : offered st st2 (relay_packet (relay_info s)) d)
    by (unfold offered, st2; by rewrite after_send_sent).
  assert (Efac : factory st2 = factory st ∧ request_timeout st2 = request_timeout st ∧
    max_retry_time st2 = max_retry_time st) by (unfold st2; by destruct (deliverable _ _ _)).
  clearbody st2. destruct Efac as (Efac & Et & Emax).
  destruct (f_cells _ _ _ (s_factory _ _ _ _ _ _ Hst2) _ _ _ Hi) as [Hl2 _].
  unfold set_session. destruct (store (sessions (factory st2)) l (count_retry s)) as [cs| |] eqn:Ecs;
    [|by rewrite (store_Some _ _ _ _ Hl2) in Ecs..].
  cbn [mbind Res_bind].
  pose proof (sf_rep_update _ _ _ _ _ _ (count_retry s) cs (s_factory _ _ _ _ _ _ Hst2) Hi eq_refl eq_refl Ecs) as Hf.
  destruct (session_wait_spec _ now _ i l (count_retry s) now Htot Hf) as (f' & Ew & Hf').
  { by rewrite lookup_insert_eq. }
  { lia. }
  { cbn [sessions_queue]. rewrite Efac. exact Hsz. }
  cbn [factory set_factory]. rewrite Ew. cbn [mbind Res_bind].
  rewrite insert_insert_eq in Hf'. eexists _, d. split; [reflexivity|].
  split_and!; [by rewrite list_lookup_fmap, Hk|exact Eo|apply cursor_next; [by eapply lookup_lt_Some|exact Hnext]| | |done|done].
  - destruct Hst2. split; try done. intros j. rewrite s_ids0. destruct (decide (i = j)) as [<-|Hne].
    + rewrite lookup_insert_eq, Hi. split; eauto.
    + by rewrite lookup_insert_ne.
  - apply session_wait_queued in Ew. unfold queued in *. cbn [sessions_queue factory set_factory] in *.
    rewrite Efac in Ew. exact Ew.
Qed.

Lemma set_factory_rep st last ss items out us f :
  sf_rep f last ss → srv_rep st last ss items out us → srv_rep (set_factory st f) last ss items out us.
Proof. intros Hf [? ? ? ? ? ? ? ? ?]. by split. Qed.

Definition expired (timeout now : Z) (s : Session) : Prop := timeout - (now - stamp s) ≤ 0.
#[export] Instance expired_dec timeout now s : Decision (expired timeout now s).
Proof. unfold expired. apply _. Defined.

(** The sessions after a sweep: the ones that timed out were sent again. *)
Definition sweep (timeout now : Z) ss : gmap Z (loc * Session) :=
  (λ e, (e.1, if decide (expired timeout now e.2) then resent now e.2 else e.2)) <$> ss.
Definition late (timeout now : Z) ss : gmap Z (loc * Session) :=
  filter (λ kv, expired timeout now kv.2.2) ss.

Lemma sweep_none timeout now ss :
  (∀ i l s, ss !! i = Some (l, s) → ¬ expired timeout now s) → sweep timeout now ss = ss.
Proof.
  intros Hno. apply map_eq. intros i. unfold sweep. rewrite lookup_fmap.
  destruct (ss !! i) as [[l s]|] eqn:E; [|done]. cbn [fmap option_fmap option_map fst snd].
  by rewrite decide_False by (by eapply Hno).
Qed.

Lemma resent_fresh timeout now s : 0 < timeout → ¬ expired timeout now (resent now s).
Proof. unfold expired, resent, set_timestamp, stamp. cbn. lia. Qed.

Lemma sweep_insert timeout now ss i l s :
  0 < timeout → ss !! i = Some (l, s) → expired timeout now s →
  sweep timeout now (<[i := (l, resent now s)]> ss) = sweep timeout now ss.
Proof.
  intros Ht Hi He. unfold sweep. rewrite fmap_insert. cbn [fst snd].
  rewrite decide_False by (by apply resent_fresh). apply insert_id.
  rewrite lookup_fmap, Hi. cbn [fmap option_fmap option_map fst snd]. by rewrite decide_True.
Qed.

Lemma late_insert timeout now ss i l s :
  0 < timeout → ss !! i = Some (l, s) → expired timeout now s →
  (i, (l, s)) :: map_to_list (late timeout now (<[i := (l, resent now s)]> ss)) ≡ₚ map_to_list (late timeout now ss).
Proof.
  intros Ht Hi He. unfold late. rewrite map_filter_insert_False by (by apply resent_fresh).
  rewrite map_filter_delete. apply (map_to_list_delete (filter _ ss)). by apply map_lookup_filter_Some.
Qed.

Lemma late_none timeout now ss :
  (∀ i l s, ss !! i = Some (l, s) → ¬ expired timeout now s) → late timeout now ss = ∅.
Proof.
  intros Hno. apply map_empty. intros i. apply map_lookup_filter_None. right.
  intros [l s] Hi. by apply (Hno i l).
Qed.

(** What a sweep needs of the sessions it sends again. *)
Definition resendable st ss (now : Z) : Prop :=
  ∀ i l s, ss !! i = Some (l, s) → expired (request_timeout st) now s →
    retry_times (relay_info s) < max_retry_time st ∧
    ∀ buf, length buf = 4096%nat → sendable buf (relay_packet (relay_info s)).

(** What [sent] becomes when a packet is offered to the kernel. *)
Definition offer (before : list (list Z * sockaddr)) (e : DnsPacket * NetEnd) : list (list Z * sockaddr) :=
  if (Z.of_nat (length (pack_out e.1)) <=? MAX_PACKET_SIZE) &&
     (sendto before (pack_out e.1) (sockaddr_of e.2) >=? 0)
  then before ++ [(pack_out e.1, sockaddr_of e.2)] else before.

Definition older (a b : Z * (loc * Session)) : Prop := stamp a.2.2 ≤ stamp b.2.2.
Definition packet_of (e : Z * (loc * Session)) : DnsPacket := relay_packet (relay_info e.2.2).

(** What a sweep sends: the sessions that are due, the longest waiting one first,
    each once, its packet offered to the server whose turn it is, the next server
    being the one at index [k]. *)
Definition swept st st' ss us (now : Z) (k : nat) : Prop :=
  ∃ (due : list (Z * (loc * Session))) (dests : list NetEnd),
    due ≡ₚ map_to_list (late (request_timeout st) now ss) ∧ StronglySorted older due ∧
    length dests = length due ∧
    (∀ j, (j < length due)%nat → dests !! j = us.*2 !! ((k + j) mod length us)%nat) ∧
    sent st' = fold_left offer (zip (packet_of <$> due) dests) (sent st) ∧
    cursor st' us ((k + length due) mod length us)%nat.

(** The first steps of a sweep: either nothing is due, or the session that has
    waited longest is. *)
Lemma batch_timeout_peek st last ss items out us now :
  srv_rep st last ss items out us →
  ∃ f, srv_rep (set_factory st f) last ss items out us ∧ queued f ≤ queued (factory st) ∧
    ((∀ i l s, ss !! i = Some (l, s) → ¬ expired (request_timeout st) now s) ∧
     (∀ fuel, batch_timeout fuel now st = Ret (set_factory st f)) ∨
     ∃ i l s, ss !! i = Some (l, s) ∧ expired (request_timeout st) now s ∧
       (∀ j l' s', ss !! j = Some (l', s') → stamp s ≤ stamp s') ∧
       ∀ fuel, batch_timeout (S fuel) now st =
         (st ← do_handle_timeout now (set_factory st f) l; batch_timeout fuel now st)).
Proof.
  intros Hst. destruct (session_peek_spec _ _ _ (s_factory _ _ _ _ _ _ Hst)) as (r & f & E & Hf & _ & Hr).
  exists f. split; [by apply set_factory_rep|]. split; [by eapply session_peek_queued|].
  destruct r as [l|].
  2: { subst ss. left. split; [by intros ??? ?%lookup_empty_Some|].
       intros fuel. destruct fuel; cbn [batch_timeout]; by rewrite E. }
  destruct Hr as (i & s & Hi & Hmin).
  pose proof (timeout_remain_spec _ _ _ _ _ _ now (request_timeout (set_factory st f)) Hf Hi) as Et.
  change (request_timeout st) with (request_timeout (set_factory st f)).
  destruct (request_timeout (set_factory st f) - (now - stamp s) >? 0) eqn:Erem.
  - left. split.
    + intros j l' s' Hj. specialize (Hmin _ _ _ Hj). rewrite Z.gtb_ltb in Erem. apply Z.ltb_lt in Erem.
      unfold expired. lia.
    + intros fuel. destruct fuel; cbn [batch_timeout]; rewrite E; cbn [mbind Res_bind];
        rewrite Et; cbn [mbind Res_bind nonnull]; by rewrite Erem.
  - right. exists i, l, s. split_and!; [done| |done|].
    + rewrite Z.gtb_ltb in Erem. by apply Z.ltb_ge in Erem.
    + intros fuel. cbn [batch_timeout]. rewrite E. cbn [mbind Res_bind]. rewrite Et.
      cbn [mbind Res_bind nonnull]. by rewrite Erem.
Qed.

Lemma swept_none st st' ss us now k :
  (k < length us)%nat → cursor st us k → late (request_timeout st) now ss = ∅ →
  sent st' = sent st → next_upstream st' = next_upstream st → swept st st' ss us now k.
Proof.
  intros Hk Hc Hno Es En. exists [], []. rewrite Hno, map_to_list_empty. split_and!; try done.
  - constructor.
  - simpl. lia.
  - cbn [length]. rewrite Nat.add_0_r, Nat.mod_small by done. unfold cursor. by rewrite En.
Qed.

Lemma swept_cons st st1 st2 ss us now k i l s d :
  0 < request_timeout st → request_timeout st1 = request_timeout st →
  ss !! i = Some (l, s) → expired (request_timeout st) now s →
  (∀ j l' s', ss !! j = Some (l', s') → stamp s ≤ stamp s') → (k < length us)%nat →
  us.*2 !! k = Some d → offered st st1 (relay_packet (relay_info s)) d →
  swept st1 st2 (<[i := (l, resent now s)]> ss) us now (S k mod length us)%nat → swept st st2 ss us now k.
Proof.
  intros Ht Et Hi He Hmin Hk Hd Ho (due & dests & Hp & Hs & Hl & Hds & Hsent & Hc). rewrite Et in Hp.
  exists ((i, (l, s)) :: due), (d :: dests). split_and!.
  - by rewrite Hp, late_insert.
  - constructor; [done|]. apply Forall_forall. intros [j [l' s']] Hin. unfold older. cbn [fst snd].
    rewrite Hp in Hin. apply elem_of_map_to_list, map_lookup_filter_Some in Hin as [Hj Hx].
    apply lookup_insert_Some in Hj as [[_ [= <- <-]]|[_ Hj]]; [by apply resent_fresh in Hx|by eapply Hmin].
  - cbn [length]. by f_equal.
  - intros [|j] Hj; [by rewrite Nat.add_0_r, Nat.mod_small by done|]. cbn [lookup list_lookup length] in *.
    rewrite Hds by lia. f_equal. rewrite Nat.Div0.add_mod_idemp_l. f_equal. lia.
  - rewrite Hsent, Ho. reflexivity.
  - rewrite Nat.Div0.add_mod_idemp_l in Hc. cbn [length].
    replace (k + S (length due))%nat with (S k + length due)%nat by lia. exact Hc.
Qed.

Lemma batch_timeout_sends fuel st last ss items out us now k :
  AllocTotal → srv_rep st last ss items out us → last ≤ now → 0 < request_timeout st →
  resendable st ss now → (base.size (late (request_timeout st) now ss) ≤ fuel)%nat →
  queued (factory st) + Z.of_nat (base.size (late (request_timeout st) now ss)) < 2 ^ 30 →
  cursor st us k →
  ∃ st', batch_timeout fuel now st = Ret st' ∧
    srv_rep st' now (sweep (request_timeout st) now ss) items out us ∧
    queued (factory st') ≤ queued (factory st) + Z.of_nat (base.size (late (request_timeout st) now ss)) ∧
    swept st st' ss us now k.
Proof.
  intros Htot. revert st last ss k. induction fuel as [|fuel IH];
    intros st last ss k Hst Hnow Htime Hres Hfuel Hsz Hc;
    destruct (batch_timeout_peek st last ss items out us now Hst) as (f & Hst1 & Hq & Hcase);
    assert (Hk : (k < length us)%nat) by (destruct Hc as (? & ? & ? & _); by eapply lookup_lt_Some);
    (destruct Hcase as [[Hno E]|(i & l & s & Hi & He & Hmin & E)];
      [exists (set_factory st f); rewrite sweep_none by exact Hno; split_and!;
        [by rewrite E|by eapply srv_rep_later|cbn [factory set_factory]; lia|
         apply swept_none; [done..|by apply late_none|done|done]]|]);
    pose proof (Permutation_length (late_insert _ _ _ _ _ _ Htime Hi He)) as Hlate;
    cbn [length] in Hlate; rewrite !length_map_to_list in Hlate; [lia|].
  destruct (Hres _ _ _ Hi He) as [Hretry Hsend].
  destruct (resend_spec (set_factory st f) last ss items out us now i l s k Htot Hst1 Hc Hnow)
    as (st' & d & Eh & Hd & Ho & Hc' & Hst' & Hq' & Et & Em);
    [cbn [factory set_factory]; lia|exact Hi|exact Hretry|apply Hsend; apply Hst|].
  rewrite E, Eh. cbn [mbind Res_bind]. cbn [request_timeout max_retry_time factory set_factory] in Et, Em, Hq'.
  destruct (IH st' now (<[i := (l, resent now s)]> ss) (S k mod length us)%nat) as (st2 & E2 & Hrep & Hq2 & Hsw);
    rewrite ?Et; [exact Hst'|lia|exact Htime| |lia|lia|exact Hc'|].
  - intros j l' s' Hj He'. rewrite Em.
    apply lookup_insert_Some in Hj as [[_ [= <- <-]]|[_ Hj]]; [|by eapply Hres; [|rewrite <- Et]].
    rewrite Et in He'. by apply resent_fresh in He'.
  - rewrite Et in Hrep, Hq2. rewrite (sweep_insert _ _ _ _ _ _ Htime Hi He) in Hrep.
    exists st2. split_and!; [exact E2|exact Hrep|lia|]. by eapply (swept_cons (set_factory st f)).
Qed.

Lemma batch_timeout_spec fuel st last ss items out us now :
  AllocTotal → srv_rep st last ss items out us → last ≤ now → 0 < request_timeout st →
  resendable st ss now → (base.size (late (request_timeout st) now ss) ≤ fuel)%nat →
  queued (factory st) + Z.of_nat (base.size (late (request_timeout st) now ss)) < 2 ^ 30 →
  ∃ st', batch_timeout fuel now st = Ret st' ∧
    srv_rep st' now (sweep (request_timeout st) now ss) items out us ∧
    queued (factory st') ≤ queued (factory st) + Z.of_nat (base.size (late (request_timeout st) now ss)).
Proof.
  intros Htot Hst Hnow Ht Hr Hf Hq. destruct (cursor_exists _ _ _ _ _ _ Hst) as [k Hk].
  destruct (batch_timeout_sends fuel st last ss items out us now k) as (st' & ? & ? & ? & _); eauto.
Qed.

(** ** The rotation of upstream servers *)

Fixpoint picks (n : nat) st : Res (list NetEnd * server M C) :=
  match n with
  | O => Ret ([], st)
  | S n => '(d, st) ← pick_upstream st; '(ds, st) ← picks n st; Ret (d :: ds, st)
  end.

Lemma picks_spec n st us k :
  LinkedList.ll_rep (upstreams st) us → (k < length us)%nat → cursor st us k →
  ∃ ds st', picks n st = Ret (ds, st') ∧ length ds = n ∧
    ∀ j, (j < n)%nat → ds !! j = us.*2 !! ((k + j) mod length us)%nat.
Proof.
  intros Hr. revert st k Hr. induction n as [|n IH]; intros st k Hr Hk (m & d & Hkd & Hn).
  { exists [], st. split_and!; [done..|lia]. }
  cbn [picks]. rewrite (pick_upstream_spec _ _ _ _ _ Hr Hkd Hn). cbn [mbind Res_bind].
  set (st1 := set_next st (us.*1 !! S k)).
  destruct (IH st1 (S k mod length us)%nat) as (ds & st' & -> & Hlen & Hds).
  - exact Hr.
  - apply Nat.mod_upper_bound. lia.
  - by apply cursor_next.
  - cbn [mbind Res_bind]. exists (d :: ds), st'. split_and!; [done|simpl; lia|].
    intros [|j] Hj.
    + rewrite Nat.add_0_r, Nat.mod_small by done. cbn [lookup list_lookup].
      by rewrite list_lookup_fmap, Hkd.
    + cbn [lookup list_lookup]. rewrite Hds by lia. f_equal.
      rewrite Nat.Div0.add_mod_idemp_l. f_equal. lia.
Qed.
End rep.

(** ** Properties *)

Section properties.
Context `{AllocTotal, Kernel} {M C : Type} `{!MapOps Z loc M, !MapLaws Z loc M, !MapOps (list Z) loc C, !MapLaws (list Z) loc C}.
Implicit Types (st : server M C) (ss : gmap Z (loc * Session)) (out : gset Z)
  (items : list Cache.item) (us : list (loc * NetEnd)).

(** C2. What becomes of a query.  A query the resolver answers is answered to
    its sender with one datagram holding the bytes of that answer.  Any other
    is sent to one of the upstream servers under an id no open session uses,
    and exactly when it was sent a session remembers its sender, its id and the
    packet, due from now; if it could not be sent the id is back in the pool.
    When all ids are in use the client gets SERVFAIL.  In every case the taken
    ids remain the ids of the open sessions and the cache answers as before. *)
Theorem handle_query_correct st (last now : Z) ss items out us (q : DnsPacket) (src : NetEnd)
    (ls : list (list Z)) :
  srv_rep st last ss items out us → last ≤ now → queued (factory st) < 2 ^ 30 →
  packet_is_query q = true → query_ok q ls →
  (∀ r, local_answer now items q ls = Some r → sendable (send_buf st) r) →
  sendable (send_buf st) (reply q RCODE_SERVFAIL) →
  (∀ i, is_u16 i → sendable (send_buf st) (set_id q i)) →
  ∃ st' items', handle_dns_packet now st q src = Ret st' ∧ same_lookups now items items' ∧
    match local_answer now items q ls with
    | Some r => srv_rep st' last ss items' out us ∧ offered st st' r src
    | None =>
        (∀ i, is_u16 i → i ∈ out) ∧ srv_rep st' now ss items' out us ∧
          offered st st' (reply q RCODE_SERVFAIL) src ∨
        ∃ i d, is_u16 i ∧ (i ∉ out) ∧ d ∈ us.*2 ∧ offered st st' (set_id q i) d ∧
          if deliverable st (set_id q i) d
          then ∃ l, srv_rep st' now (<[i := (l, new_session now q src i)]> ss) items' ({[i]} ∪ out) us
          else srv_rep st' now ss items' out us
    end.
Proof using All. by apply query_spec. Qed.

(** C3. What becomes of a response.  One that carries the id of no open session
    is dropped: nothing is sent, cached or changed.  One that does is sent to
    the client that asked, with its id restored and everything else untouched;
    its records enter the cache unless it is switched off, the session is closed and its id returned. *)
Theorem handle_response_correct st (last now : Z) ss items out us (p : DnsPacket) (src : NetEnd)
    (q : SectionQuestion) (ls : list (list Z)) (c : Cache.DnsCache C) :
  srv_rep st last ss items out us → packet_is_query p = false →
  response_ok p q ls → g_cache st = Some c →
  match ss !! id (header p) with
  | None => handle_dns_packet now st p src = Ret st
  | Some (l, s) =>
      sendable (send_buf st) (set_id p (client_id s)) →
      ∃ st', handle_dns_packet now st p src = Ret st' ∧
        offered st st' (set_id p (client_id s)) (client_ip s) ∧
        srv_rep st' last (delete (id (header p)) ss)
          (after_response (use_cache st) now c q p items) (out ∖ {[id (header p)]}) us
  end.
Proof.
  intros Hst Hp Hr Hc. destruct (ss !! id (header p)) as [[l s]|] eqn:E.
  - intros Hsend. by eapply response_spec.
  - by eapply response_unknown.
Qed.

(** C24. A transaction with an upstream server leaves no trace but the cache: when
    the query of a client was forwarded under an id and a response with that id
    arrives, the client is sent that response under its own id, and sessions
    and ids are what they were before the query. *)
Theorem transaction_restores st (last now : Z) ss items out us (q : DnsPacket) (src : NetEnd)
    (ls : list (list Z)) :
  srv_rep st last ss items out us → last ≤ now → queued (factory st) < 2 ^ 30 →
  packet_is_query q = true → query_ok q ls → local_answer now items q ls = None →
  sendable (send_buf st) (reply q RCODE_SERVFAIL) →
  (∀ i, is_u16 i → sendable (send_buf st) (set_id q i)) →
  (∃ i, is_u16 i ∧ i ∉ out) →
  ∃ st1 i d, handle_dns_packet now st q src = Ret st1 ∧ d ∈ us.*2 ∧
    offered st st1 (set_id q i) d ∧
    (deliverable st (set_id q i) d = true →
     ∀ now' p src' question ls' c, packet_is_query p = false → id (header p) = i →
       response_ok p question ls' → g_cache st1 = Some c →
       sendable (send_buf st1) (set_id p (id (header q))) →
       ∃ st2 items2, handle_dns_packet now' st1 p src' = Ret st2 ∧
         offered st1 st2 (set_id p (id (header q))) src ∧ srv_rep st2 now ss items2 out us).
Proof using All.
  intros Hst Hnow Hsz Hq Hok Hnone Hse Hsr (i0 & Hi0 & Hout0).
  destruct (local_spec st last ss items out us now q ls Hst Hok) as (c & items' & E & _ & Hst1).
  destruct (forward_spec (set_cache st c) last ss items' out us now q src _ Hst1 Hnow Hsz
    (qo_pack _ _ Hok) Hse Hsr) as (st1 & Ef & Hf).
  destruct Hf as [(Hall & _)|(i & d & Hi & Hout & Hd & Ho & Hrep)]; [by destruct Hout0; apply Hall|].
  exists st1, i, d. split_and!; [|done|exact Ho|].
  { unfold handle_dns_packet. rewrite Hq, E, Hnone. exact Ef. }
  intros Hdel now' p src' question ls' c' Hp Hid Hr Hc Hsend.
  change (deliverable (set_cache st c)) with (deliverable st) in Hrep.
  rewrite Hdel in Hrep. destruct Hrep as [l Hrep].
  destruct (response_spec st1 now _ items' _ us now' p src' question ls' l (new_session now q src i) c' Hrep Hp)
    as (st2 & E2 & Ho2 & Hst2); [by rewrite Hid, lookup_insert_eq|done..|].
  eexists st2, _. split_and!; [exact E2|exact Ho2|]. rewrite Hid in Hst2.
  assert (Hfree : ss !! i = None).
  { destruct (ss !! i) eqn:E'; [|done]. destruct Hout. apply (s_ids _ _ _ _ _ _ Hst). eauto. }
  rewrite delete_insert_eq, delete_id in Hst2 by done.
  pose proof (taken_back i out Hout) as Eout. rewrite Eout in Hst2. exact Hst2.
Qed.

(** The upstream servers take turns: from the start, the servers picked are
    those of the configured list in order, over and over. *)
Theorem upstreams_round_robin (n : nat) st us :
  LinkedList.ll_rep (upstreams st) us → us ≠ [] → next_upstream st = None →
  ∃ ds st', picks n st = Ret (ds, st') ∧ length ds = n ∧
    ∀ j, (j < n)%nat → ds !! j = us.*2 !! (j mod length us)%nat.
Proof.
  intros Hr Hne Hnext. destruct us as [|[m d] us]; [done|].
  apply (picks_spec n st ((m, d) :: us) 0 Hr); [simpl; lia|]. exists m, d. auto.
Qed.

(** C25. The sweep of the timers terminates and is exact: when the sessions that
    have timed out have retries left, each of them is sent again once, its retry
    counted and its timer restarted, the others are untouched, and no session
    or id is lost; the number of sessions is fuel enough.  The datagrams are
    pinned ([swept]): the sessions that are due, and no others, in the order of
    their timers, have their packet offered once each, to the upstream servers
    in turn from the one the cursor is at; what was sent before stays, and each
    packet adds one datagram, unless it is longer than 512 bytes or the kernel
    refuses it. *)
Theorem batch_timeout_sweeps (fuel : nat) st (last now : Z) ss items out us :
  srv_rep st last ss items out us → last ≤ now → 0 < request_timeout st → resendable st ss now →
  (base.size (late (request_timeout st) now ss) ≤ fuel)%nat →
  queued (factory st) + Z.of_nat (base.size (late (request_timeout st) now ss)) < 2 ^ 30 →
  ∃ st' k, batch_timeout fuel now st = Ret st' ∧
    srv_rep st' now (sweep (request_timeout st) now ss) items out us ∧
    cursor st us k ∧ swept st st' ss us now k.
Proof using All.
  intros Hst Hnow Ht Hr Hf Hq. destruct (cursor_exists _ _ _ _ _ _ Hst) as [k Hk].
  destruct (batch_timeout_sends fuel st last ss items out us now k) as (st' & ? & ? & _ & ?); eauto 10.
Qed.

(** C37. Giving up on a query leaves a dangling session behind.  When the retries
    are spent, the handler first writes the id of the client into the packet of
    the session, so [session_close] removes that id from the tables instead of
    the relayed one, and frees the session: a late response with the relayed id
    still finds it. *)
Theorem give_up_dangles st (last now : Z) ss items out us (i : Z) (l : loc) (s : Session) :
  srv_rep st last ss items out us → ss !! i = Some (l, s) →
  max_retry_time st ≤ retry_times (relay_info s) → client_id s ≠ i →
  pack_ok (relay_packet (relay_info s)) →
  sendable (send_buf st) (reply (set_id (relay_packet (relay_info s)) (client_id s)) RCODE_SERVFAIL) →
  ∃ st', do_handle_timeout now st l = Ret st' ∧
    offered st st' (reply (set_id (relay_packet (relay_info s)) (client_id s)) RCODE_SERVFAIL) (client_ip s) ∧
    ∀ now' p src, packet_is_query p = false → id (header p) = i → handle_dns_packet now' st' p src = UB.
Proof.
  intros Hst Hi Hretry Hne Hp Hsend. unfold do_handle_timeout.
  pose proof (s_factory _ _ _ _ _ _ Hst) as Hf. destruct (f_cells _ _ _ Hf _ _ _ Hi) as [Hl Hid].
  rewrite (load_Some _ _ _ Hl). cbn [mbind Res_bind]. rewrite Z.geb_leb, (proj2 (Z.leb_le _ _)) by done.
  unfold set_session at 1. rewrite (store_Some _ _ _ _ Hl). cbn [mbind Res_bind].
  rewrite (inner_error_spec _ (set_id_ok _ _ Hp)). cbn [mbind Res_bind].
  rewrite packet_send_spec by done. cbn [mbind Res_bind].
  set (st1 := set_factory st _). change (deliverable st1) with (deliverable st).
  set (st2 := after_send _ _ _ _).
  assert (Efac : factory st2 = factory st1 ∧ pool st2 = pool st)
    by (unfold st2; by destruct (deliverable _ _ _)).
  assert (Esent : offered st st2 (reply (set_id (relay_packet (relay_info s)) (client_id s)) RCODE_SERVFAIL) (client_ip s))
    by (unfold offered, st2; by rewrite after_send_sent).
  clearbody st2. destruct Efac as [-> ->]. unfold session_close, st1. cbn [factory set_factory sessions sessions_queue agent_id_sessions].
  unfold load at 1. cbn [cells]. rewrite lookup_insert_eq. cbn [nonnull]. cbn [mbind Res_bind].
  change (relay_id (set_relay_packet s _)) with (client_id s).
  destruct (LazyHeap.lazy_heap_remove_spec _ _ _ (client_id s) (f_queue _ _ _ Hf)) as (qq & -> & _). cbn [mbind Res_bind].
  destruct (map_remove_spec _ _ (client_id s) (f_table _ _ _ Hf)) as (t & -> & Ht). cbn [mbind Res_bind].
  unfold free. cbn [cells brk]. rewrite lookup_insert_eq. cbn [mbind Res_bind]. rewrite Hid.
  destruct (IdPool.id_free_inv (pool st) out i (s_pool _ _ _ _ _ _ Hst)) as (pl & -> & _).
  { eapply IdPool.inv_out; [apply Hst|]. apply (s_ids _ _ _ _ _ _ Hst). eauto. }
  cbn [mbind Res_bind]. eexists. split; [reflexivity|]. split; [exact Esent|].
  intros now' p src Hq Hidp. unfold handle_dns_packet. rewrite Hq.
  cbn [factory set_pool set_factory session_get agent_id_sessions sessions].
  rewrite (map_get_spec _ _ _ Ht), Hidp, lookup_delete_ne by done.
  rewrite lookup_fmap, Hi. cbn [fmap option_fmap option_map fst]. cbn [mbind Res_bind].
  unfold load. cbn [cells]. by rewrite lookup_delete_eq.
Qed.
End properties.

(** ** Packets without records can always be sent *)

Lemma plain_sendable buf p :
  wire_ok p → rrs p = [] → (length (head_out p) ≤ 4096)%nat → length buf = 4096%nat → sendable buf p.
Proof.
  intros Hw Hr Hl Hb. assert (Eo : pack_out p = head_out p) by (unfold pack_out; by rewrite Hr).
  split; [done|]. split.
  - unfold fits. rewrite Eo, Hr. unfold DNS_SEND_BUF_SIZE. split_and!; [lia..|constructor].
  - unfold pack_clean. by rewrite Hr.
Qed.

Lemma head_out_length p p' : questions p = questions p' → length (head_out p) = length (head_out p').
Proof. intros E. unfold head_out. by rewrite !length_app, !header_bytes_length, E. Qed.

Lemma set_id_wire p i : wire_ok p → is_u16 i → wire_ok (set_id p i).
Proof. intros [[] ? ? ? ?] Hi. by split. Qed.

Lemma reply_wire p rcode : wire_ok p → wire_ok (reply p rcode).
Proof.
  intros [[] ? ? ? ?]. split; try done; try constructor; cbn [reply header]; try done. apply response_flags_u16.
Qed.

(** ** Concrete runs *)

#[local] Instance demo_kernel : Kernel := λ _ data _, Z.of_nat (length data).
#[local] Instance demo_alloc : Allocator := always.
#[local] Instance demo_total : AllocTotal := always_total.
Abbreviation stable := (HashMap.HashMap Z loc).
Abbreviation ctable := (HashMap.HashMap (list Z) loc).
#[local] Instance stable_ops : MapOps Z loc stable := @HashMap.uint_table_ops always loc.
#[local] Instance stable_laws : MapLaws Z loc stable := @HashMap.uint_table_laws always always_total loc.
#[local] Instance ctable_ops : MapOps (list Z) loc ctable := @HashMap.str_table_ops always loc.
#[local] Instance ctable_laws : MapLaws (list Z) loc ctable := @HashMap.str_table_laws always always_total loc.

(** The query [a.b] of [Resolver.v] and a response that says the name does not exist. *)
Definition demo_denial (i : Z) : DnsPacket := MkPacket (MkHeader i 0x8183 1 0 0 0) [demo_question] [].

Lemma demo_question_ok : Forall (λ q, cstring (qname q) ∧ is_u16 (qtype q) ∧ is_u16 (qclass q)) [demo_question].
Proof. apply Forall_singleton. split_and!; [by apply cstring_check|unfold is_u16; simpl; lia..]. Qed.

Lemma demo_ask_wire : wire_ok demo_ask.
Proof. split; [split; unfold is_u16; simpl; lia|done|done|exact demo_question_ok|constructor]. Qed.

Lemma demo_denial_wire i : is_u16 i → wire_ok (demo_denial i).
Proof.
  intros Hi. split; [|done|done|exact demo_question_ok|constructor].
  split; [exact Hi|unfold is_u16; simpl; lia..].
Qed.

Lemma demo_denial_ok i : response_ok (demo_denial i) demo_question demo_labels.
Proof.
  split; [|done|done|exact demo_labels_wf|by_compute].
  split; [|constructor]. apply Forall_singleton. by apply cstring_check.
Qed.

Lemma demo_sendable buf p : wire_ok p → rrs p = [] → questions p = [demo_question] →
  length buf = 4096%nat → sendable buf p.
Proof.
  intros Hw Hr Hq Hb. apply plain_sendable; [done|done| |done].
  rewrite (head_out_length p demo_ask) by exact Hq.
  assert (length (head_out demo_ask) = 21%nat) as -> by reflexivity. lia.
Qed.

(** One upstream server. *)
Lemma demo_upstreams : ∃ (lst : LinkedList.LinkedList NetEnd) l, LinkedList.ll_rep lst [(l, demo_end)].
Proof.
  destruct (LinkedList.linked_list_addFirst_spec (A := NetEnd) (LinkedList.MkList None None 0 empty_store) [] demo_end)
    as (lst & l & _ & Hr); [by apply LinkedList.ll_rep_create|reflexivity|].
  exists lst, l. exact Hr.
Qed.

(** A server that has just started. *)
Lemma demo_server :
  ∃ (st : server stable ctable) us, srv_rep st 0 ∅ [] ∅ us ∧ queued (factory st) = 0 ∧
    send_buf st = replicate 4096 0 ∧ next_upstream st = None.
Proof.
  destruct demo_upstreams as (lst & l & Hl). destruct (session_factory_init_spec (M := stable) _) as (f & _ & Hf & Hs).
  exists (MkServer lst None (replicate 4096 0) [] (IdPool.id_pool_init.2) f None 1 3000 2 []), [(l, demo_end)].
  split; [|split; [exact Hs|done]]. split.
  - exact (Hf 0).
  - exact IdPool.id_pool_init_inv.
  - intros i. rewrite lookup_empty. split; [by intros ?%elem_of_empty|by intros [? ?]].
  - reflexivity.
  - constructor.
  - exact Hl.
  - done.
  - done.
  - apply length_replicate.
Qed.

(** A server with one open session, sent at time 5 for a client using another
    id, and a cache. *)
Lemma demo_busy (max_retry : Z) :
  ∃ (st : server stable ctable) us i l client c, let s := MkSession client demo_end (MkRelay 5 0 (set_id demo_ask i)) in
    srv_rep st 5 {[i := (l, s)]} [] {[i]} us ∧ client ≠ i ∧ is_u16 client ∧ is_u16 i ∧
    length (send_buf st) = 4096%nat ∧ use_cache st = 1 ∧ g_cache st = Some c ∧ request_timeout st = 3000 ∧
    max_retry_time st = max_retry ∧ queued (factory st) ≤ 1.
Proof.
  destruct demo_upstreams as (lst & l & Hl). destruct (session_factory_init_spec (M := stable) _) as (f & _ & Hf & Hs).
  destruct (IdPool.id_alloc_fresh _ _ IdPool.id_pool_init_inv) as (i & p & _ & Hi & _ & Hp).
  { exists 0. split; [unfold is_u16; lia|by intros ?%elem_of_empty]. }
  destruct (Cache.cache_create_spec (M := ctable)) as (c & _ & Hc & _).
  set (client := if decide (i = 7) then 8 else 7).
  assert (Hpack : pack_ok (set_id demo_ask i)) by (apply set_id_ok, demo_ask_ok).
  destruct (session_open_spec f 0 ∅ 5 client demo_end (set_id demo_ask i) _ (Hf 0) Hpack) as (f' & ls & Eo & Hf');
    [apply lookup_empty|lia|rewrite Hs; lia|].
  exists (MkServer lst None (replicate 4096 0) [] p f' (Some c) 1 3000 max_retry []), [(l, demo_end)], i, ls, client, c.
  cbv zeta. assert (client ≠ i ∧ is_u16 client) as [? ?].
  { unfold client, is_u16. destruct (decide (i = 7)); lia. }
  split_and!; try done.
  - rewrite union_empty_r_L in Hp. split; [exact Hf'|exact Hp| |exact Hc|constructor|exact Hl|done|done|apply length_replicate].
    intros j. rewrite elem_of_singleton. cbn [header id set_id]. destruct (decide (j = i)) as [->|Hne].
    + rewrite lookup_singleton_eq. split; eauto.
    + rewrite lookup_singleton_ne by done. split; [done|by intros [? ?]].
  - unfold session_open in Eo. rewrite (packet_clone_ok _ Hpack) in Eo. cbn [mbind Res_bind] in Eo.
    destruct (alloc _ (sessions f)) as [l0 st0]. apply bind_Ret_inv in Eo as ([r t] & _ & Eo).
    apply session_wait_queued in Eo. unfold queued in *. cbn [sessions_queue] in Eo. cbn [factory]. lia.
Qed.

Lemma demo_local_none : local_answer 5 [] demo_ask demo_labels = None.
Proof. reflexivity. Qed.

(** What the witnesses owe for the packets the demo query gives rise to. *)
Lemma demo_ask_sendable buf :
  length buf = 4096%nat →
  sendable buf (reply demo_ask RCODE_SERVFAIL) ∧ ∀ i, is_u16 i → sendable buf (set_id demo_ask i).
Proof.
  intros Hb. split; [|intros i Hi]; apply demo_sendable; try done.
  - apply reply_wire, demo_ask_wire.
  - by apply set_id_wire; [apply demo_ask_wire|].
Qed.

Lemma demo_buf_length : length (replicate 4096 0) = 4096%nat.
Proof. apply length_replicate. Qed.

Lemma handle_query_correct_witness :
  ∃ (st st' : server stable ctable), handle_dns_packet 5 st demo_ask demo_end = Ret st'.
Proof.
  destruct demo_server as (st & us & Hst & Hq & Hb & _).
  destruct (demo_ask_sendable (send_buf st)) as [Hse Hsr]; [rewrite Hb; exact demo_buf_length|].
  destruct (handle_query_correct st 0 5 ∅ [] ∅ us demo_ask demo_end demo_labels Hst) as (st' & _ & E & _);
    [lia|rewrite Hq; lia|reflexivity|exact demo_ask_ok|intros r; rewrite demo_local_none; discriminate|exact Hse|exact Hsr|].
  exists st, st'. exact E.
Defined.

Lemma handle_response_correct_witness :
  ∃ (st st' : server stable ctable) i, handle_dns_packet 6 st (demo_denial i) demo_end = Ret st'.
Proof.
  destruct (demo_busy 2) as (st & us & i & l & client & c & Hst & _ & Hcl & Hi & Hb & Hu & Hc & _).
  pose proof (handle_response_correct st 5 6 _ [] {[i]} us (demo_denial i) demo_end demo_question demo_labels c
    Hst eq_refl (demo_denial_ok i)) as Hr.
  cbn [header id demo_denial] in Hr. rewrite lookup_singleton_eq in Hr.
  destruct Hr as (st' & E & _); [exact Hc| |].
  - apply demo_sendable; [|done|done|exact Hb]. exact (set_id_wire _ _ (demo_denial_wire i Hi) Hcl).
  - exists st, st', i. exact E.
Defined.

Lemma transaction_restores_witness :
  ∃ (st st1 : server stable ctable) i d, handle_dns_packet 5 st demo_ask demo_end = Ret st1 ∧
    offered st st1 (set_id demo_ask i) d.
Proof.
  destruct demo_server as (st & us & Hst & Hq & Hb & _).
  destruct (demo_ask_sendable (send_buf st)) as [Hse Hsr]; [rewrite Hb; exact demo_buf_length|].
  destruct (transaction_restores st 0 5 ∅ [] ∅ us demo_ask demo_end demo_labels Hst) as (st1 & i & d & E & _ & Ho & _);
    [lia|rewrite Hq; lia|reflexivity|exact demo_ask_ok|exact demo_local_none|exact Hse|exact Hsr| |].
  { exists 0. split; [unfold is_u16; lia|by intros ?%elem_of_empty]. }
  exists st, st1, i, d. split; [exact E|exact Ho].
Defined.

Lemma upstreams_round_robin_witness :
  ∃ (st : server stable ctable) ds st', picks 3 st = Ret (ds, st') ∧ length ds = 3%nat.
Proof.
  destruct demo_server as (st & us & Hst & _ & _ & Hn).
  destruct (upstreams_round_robin 3 st us (s_ups _ _ _ _ _ _ Hst) (s_some _ _ _ _ _ _ Hst) Hn)
    as (ds & st' & E & Hl & _).
  exists st, ds, st'. split; [exact E|exact Hl].
Defined.

(** At 4000 the session sent at 5 has been waiting for more than 3000. *)
Lemma batch_timeout_sweeps_witness :
  ∃ (st st' : server stable ctable) i d, batch_timeout 1 4000 st = Ret st' ∧
    sent st' = offer (sent st) (set_id demo_ask i, d).
Proof.
  destruct (demo_busy 2) as (st & us & i & l & client & c & Hst & _ & _ & Hi & _ & _ & _ & Ht & Hm & Hq).
  assert (Hsize : ∀ t n, (base.size (late t n {[i := (l, MkSession client demo_end (MkRelay 5 0 (set_id demo_ask i)))]}) ≤ 1)%nat).
  { intros t n. unfold late. rewrite <- (map_size_singleton i (l, MkSession client demo_end (MkRelay 5 0 (set_id demo_ask i)))).
    apply map_subseteq_size, map_filter_subseteq. }
  destruct (batch_timeout_sweeps 1 st 5 4000 _ [] {[i]} us Hst) as (st' & k & E & _ & _ & Hsw).
  - lia.
  - rewrite Ht. lia.
  - intros j l' s' Hj _. apply lookup_singleton_Some in Hj as [<- [= <- <-]].
    rewrite Hm. split; [reflexivity|]. intros buf Hb. by apply demo_ask_sendable.
  - apply Hsize.
  - rewrite Ht. pose proof (Hsize 3000 4000). lia.
  - destruct Hsw as (due & dests & Hp & _ & Hl & _ & Hs & _). rewrite Ht in Hp.
    unfold late in Hp. rewrite map_filter_singleton_True, map_to_list_singleton in Hp by (by compute).
    apply Permutation_singleton_r in Hp as ->. destruct dests as [|d [|? ?]]; [done| |done].
    exists st, st', i, d. split; [exact E|exact Hs].
Defined.

Lemma give_up_dangles_witness :
  ∃ (st st' : server stable ctable) i l, do_handle_timeout 4000 st l = Ret st' ∧
    handle_dns_packet 4001 st' (demo_denial i) demo_end = UB.
Proof.
  destruct (demo_busy 0) as (st & us & i & l & client & c & Hst & Hne & Hcl & Hi & Hb & _ & _ & _ & Hm & _).
  destruct (give_up_dangles st 5 4000 _ [] {[i]} us i l
    (MkSession client demo_end (MkRelay 5 0 (set_id demo_ask i))) Hst) as (st' & E & _ & Hub).
  - apply lookup_singleton_eq.
  - rewrite Hm. reflexivity.
  - exact Hne.
  - apply set_id_ok, demo_ask_ok.
  - apply demo_sendable; [|done|done|exact Hb]. apply reply_wire.
    exact (set_id_wire _ _ (set_id_wire _ _ demo_ask_wire Hi) Hcl).
  - exists st, st', i, l. split; [exact E|]. apply Hub; reflexivity.
Defined.
End Server.
