(* ===== verification/ServerLoop.v ===== *)
(** * The event loop over well-formed traffic

    [Server.v] says what one packet and one sweep do.  Here they are composed as
    [server_loop] composes them: over every sequence of turns, whatever the
    order of queries, responses, unknown responses, empty reads and timer
    sweeps.  [traffic] says which packets are considered: well-formed ones
    whose answers fit the send buffer. *)

From S2P Require Import Prelude IdPool LinkedList MapInterface HashMap LazyHeap CString NameCodec Protocol Wire Cache Resolver Socket Session Server.
Import Protocol Wire Resolver Socket Session Server.

Module ServerLoop.

(** Take a run that returned apart. *)
Ltac unrun H :=
  repeat (progress cbn beta iota in H ||
    match type of H with
    | Ret _ = Ret _ => injection H; clear H; intros; subst
    | UB = _ => discriminate H
    | OutOfFuel = _ => discriminate H
    | (_ ≫= _) = Ret _ => apply bind_Ret_inv in H; destruct H as (? & ? & H)
    | context [match ?x with _ => _ end] => destruct x eqn:?
    end).

(** ** How fast the queue of timers grows *)

(** The settings stay, and at most [k] elements have been added to the queue. *)
Record paced {M C} (k : Z) (st st' : server M C) : Prop := {
  pc_timeout : request_timeout st' = request_timeout st;
  pc_retry : max_retry_time st' = max_retry_time st;
  pc_queue : queued (factory st') ≤ queued (factory st) + k;
}.

Lemma paced_trans {M C} k j (a b c : server M C) : paced k a b → paced j b c → paced (k + j) a c.
Proof. intros [] []. split; [congruence..|lia]. Qed.

Lemma paced_weaken {M C} k j (a b : server M C) : k ≤ j → paced k a b → paced j a b.
Proof. intros ? []. split; [congruence..|lia]. Qed.

(** ** What no handler touches *)

Section frames.
Context `{Allocator, Kernel} {M C : Type} `{!MapOps Z loc M, !MapOps (list Z) loc C}.
Implicit Types (st : server M C) (g : option (Cache.DnsCache C)) (f : session_factory M).

(** The buffer of incoming datagrams, the settings, and that there is a cache. *)
Record framed st st' : Prop := {
  fr_recv : recv_buf st' = recv_buf st;
  fr_timeout : request_timeout st' = request_timeout st;
  fr_retry : max_retry_time st' = max_retry_time st;
  fr_use : use_cache st' = use_cache st;
  fr_cache : is_Some (g_cache st) → is_Some (g_cache st');
}.
#[export] Instance framed_preorder : PreOrder framed.
Proof.
  split; [by intros st|]. intros a b c [] []. split; [congruence..|auto].
Qed.

Lemma cache_get_some now g n t c v g' :
  Cache.dns_cache_get now g n t c = Ret (v, g') → is_Some g → is_Some g'.
Proof. intros E Hg. unfold Cache.dns_cache_get in E. unrun E; eauto. Qed.

Lemma cache_put_some now g n t c v r g' :
  Cache.dns_cache_put now g n t c v = Ret (r, g') → is_Some g → is_Some g'.
Proof. intros E Hg. unfold Cache.dns_cache_put in E. unrun E; eauto. Qed.

Lemma parents_loop_some fuel now g q off r g' :
  parents_loop fuel now g q off = Ret (r, g') → is_Some g → is_Some g'.
Proof.
  revert g off. induction fuel as [|fuel IH]; intros g off E Hg; [done|]. cbn [parents_loop] in E.
  unrun E; [by eapply cache_get_some|eapply IH; [eassumption|by eapply cache_get_some]|
    by eapply cache_get_some].
Qed.

Lemma try_local_some now g q d r g' :
  pack_try_response_local now g q = Ret (d, r, g') → is_Some g → is_Some g'.
Proof.
  intros E Hg. unfold pack_try_response_local, query_pre_validate in E.
  assert (Hpre : ∀ c g1, match head (questions q) with
    | None => Ret (RCODE_NOERROR, g)
    | Some q => parents_loop (S (length (qname q))) now g q 0 end = Ret (c, g1) → is_Some g1).
  { intros c g1 E1. destruct (head (questions q)); [by eapply parents_loop_some|by injection E1 as <- <-]. }
  set (pre := match head (questions q) with None => _ | Some _ => _ end) in *. clearbody pre.
  unrun E; eauto using cache_get_some.
Qed.

Lemma response_relay_some now u g p i r g' :
  pack_make_response_relay now u g p i = Ret (r, g') → is_Some g → is_Some g'.
Proof. intros E Hg. unfold pack_make_response_relay in E. unrun E; eauto using cache_put_some. Qed.

Lemma packet_send_framed st p d r st' :
  packet_send st p d = Ret (r, st') → framed st st' ∧ factory st' = factory st.
Proof. intros E. unfold packet_send in E. unrun E; by repeat split. Qed.

Lemma pick_upstream_framed st d st' :
  pick_upstream st = Ret (d, st') → framed st st' ∧ factory st' = factory st.
Proof. intros E. unfold pick_upstream in E. unrun E; by repeat split. Qed.

Lemma set_session_framed st l x st' : set_session st l x = Ret st' → framed st st'.
Proof. intros E. unfold set_session in E. unrun E. by split. Qed.

Lemma session_open_queued now f c ip p f' :
  session_open now f c ip p = Ret f' → queued f' ≤ queued f + 1.
Proof. intros E. unfold session_open in E. unrun E. by apply session_wait_queued in E. Qed.

Lemma session_close_queued f l f' : session_close f l = Ret f' → queued f' ≤ queued f.
Proof.
  intros E. unfold session_close in E. unrun E. unfold queued. cbn [sessions_queue].
  erewrite LazyHeap.lazy_heap_remove_size by eassumption. lia.
Qed.

(** Chain the frames of the calls of a run. *)
Ltac frames :=
  repeat match goal with
  | E : packet_send _ _ _ = Ret _ |- _ => apply packet_send_framed in E as [? ?]
  | E : pick_upstream _ = Ret _ |- _ => apply pick_upstream_framed in E as [? ?]
  | E : set_session _ _ _ = Ret _ |- _ => apply set_session_framed in E
  | E : session_open _ _ _ _ _ = Ret _ |- _ => apply session_open_queued in E
  | E : session_close _ _ = Ret _ |- _ => apply session_close_queued in E
  | E : session_wait _ _ _ = Ret _ |- _ => apply session_wait_queued in E
  end.

Lemma framed_paced k st st' :
  framed st st' → queued (factory st') ≤ queued (factory st) + k → paced k st st'.
Proof. intros []. by split. Qed.

Ltac frames_done :=
  repeat match goal with F : framed _ _ |- _ => destruct F end;
  cbn [factory recv_buf request_timeout max_retry_time use_cache g_cache
       set_pool set_factory set_cache] in *;
  repeat match goal with E : factory _ = _ |- _ => rewrite E in * end;
  split; [split; cbn [recv_buf request_timeout max_retry_time use_cache g_cache
       set_pool set_factory set_cache]; [congruence..|by eauto 8]|lia].

Lemma relay_query_framed now st p src st' :
  relay_query now st p src = Ret st' →
  framed st st' ∧ queued (factory st') ≤ queued (factory st) + 1.
Proof. intros E. unfold relay_query in E. unrun E; frames; frames_done. Qed.

Lemma handle_framed now st p src st' :
  handle_dns_packet now st p src = Ret st' →
  framed st st' ∧ queued (factory st') ≤ queued (factory st) + 1.
Proof.
  intros E. unfold handle_dns_packet in E. unrun E.
  all: try match goal with E : relay_query _ _ _ _ = _ |- _ => apply relay_query_framed in E as [? ?] end.
  all: frames.
  all: repeat match goal with
    | E : pack_try_response_local _ _ _ = Ret _ |- _ => pose proof (try_local_some _ _ _ _ _ _ E); clear E
    | E : pack_make_response_relay _ _ _ _ _ = Ret _ |- _ => pose proof (response_relay_some _ _ _ _ _ _ _ E); clear E
    end.
  all: frames_done.
Qed.

Lemma handle_timeout_framed now st l st' :
  do_handle_timeout now st l = Ret st' → framed st st'.
Proof.
  intros E. unfold do_handle_timeout in E. unrun E; frames;
    repeat match goal with F : framed _ _ |- _ => destruct F end;
    cbn [recv_buf request_timeout max_retry_time use_cache g_cache set_pool set_factory] in *;
    split; cbn [recv_buf request_timeout max_retry_time use_cache g_cache set_pool set_factory];
    (congruence || by eauto 8).
Qed.

Lemma batch_timeout_framed fuel now st st' : batch_timeout fuel now st = Ret st' → framed st st'.
Proof.
  revert st. induction fuel as [|fuel IH]; intros st E; cbn [batch_timeout] in E; unrun E.
  all: try (split; [reflexivity..|done]).
  match goal with E : do_handle_timeout _ _ _ = _ |- _ => apply handle_timeout_framed in E as [] end.
  destruct (IH _ E). split; cbn in *; (congruence || by eauto).
Qed.

(** The timers do not touch the cache. *)
Lemma packet_send_cache st p d r st' : packet_send st p d = Ret (r, st') → g_cache st' = g_cache st.
Proof. intros E. unfold packet_send in E. by unrun E. Qed.
Lemma pick_upstream_cache st d st' : pick_upstream st = Ret (d, st') → g_cache st' = g_cache st.
Proof. intros E. unfold pick_upstream in E. by unrun E. Qed.
Lemma set_session_cache st l x st' : set_session st l x = Ret st' → g_cache st' = g_cache st.
Proof. intros E. unfold set_session in E. by unrun E. Qed.

Lemma handle_timeout_cache now st l st' : do_handle_timeout now st l = Ret st' → g_cache st' = g_cache st.
Proof.
  intros E. unfold do_handle_timeout in E. unrun E;
    repeat match goal with
    | E : packet_send _ _ _ = _ |- _ => apply packet_send_cache in E
    | E : pick_upstream _ = _ |- _ => apply pick_upstream_cache in E
    | E : set_session _ _ _ = _ |- _ => apply set_session_cache in E
    end; cbn [g_cache set_pool set_factory]; congruence.
Qed.

Lemma batch_timeout_cache fuel now st st' : batch_timeout fuel now st = Ret st' → g_cache st' = g_cache st.
Proof.
  revert st. induction fuel as [|fuel IH]; intros st E; cbn [batch_timeout] in E; unrun E; try done.
  match goal with E : do_handle_timeout _ _ _ = _ |- _ => apply handle_timeout_cache in E as E1 end.
  by rewrite (IH _ E).
Qed.
End frames.

(** ** The traffic considered *)

(** Written correctly into any send buffer. *)
Definition light (p : DnsPacket) : Prop := ∀ buf, length buf = 4096%nat → sendable buf p.

(** [Q]: queries, [R]: responses, [V]: what may be cached. *)
Record traffic (Q R : DnsPacket → Prop) (V : Cache.CacheValue → Prop) : Prop := {
  t_query : ∀ q, Q q → packet_is_query q = true ∧ ∃ ls, query_ok q ls;
  t_relay : ∀ q i, Q q → is_u16 i → light (set_id q i);
  t_reply : ∀ q rcode, Q q → light (reply q rcode);
  t_value : ∀ q v, Q q → V v → light (reply_value q v);
  t_response : ∀ p, R p → packet_is_query p = false ∧ ∃ question ls, response_ok p question ls;
  t_answer : ∀ p i, R p → is_u16 i → light (set_id p i);
  t_cached : ∀ p, R p → V (value_of p);
}.

(** The bytes of a query or of a response; [fuel] is enough to parse them. *)
Definition incoming (Q R : DnsPacket → Prop) (fuel : nat) (r : recv) : Prop :=
  match r with
  | Received bytes _ _ =>
      ∃ p, bytes = pack_out p ∧ wire_ok p ∧ (length (pack_out p) ≤ 512)%nat ∧
        Forall (λ rr, length (rr_name rr) + 2 < fuel ∧ length (rdata rr) + 2 < fuel)%nat (rrs p) ∧
        (Q p ∨ R p)
  | _ => True
  end.

(** A turn: the clock before [select]; when [select] returned, the clock then
    and what the calls of [recvfrom] yield. *)
Abbreviation turn := (Z * option (Z * list recv))%type.

(** The clock does not go back, and what arrives is of the traffic. *)
Fixpoint orderly (Q R : DnsPacket → Prop) (fuel : nat) (last : Z) (turns : list turn) : Prop :=
  match turns with
  | [] | (_, None) :: _ => True
  | (_, Some (now, rs)) :: turns => last ≤ now ∧ Forall (incoming Q R fuel) rs ∧ orderly Q R fuel now turns
  end.

Definition select_failed (t : turn) : bool := match t.2 with None => true | Some _ => false end.

Section loop.
#[local] Set Default Proof Using "Type*".
Context `{AllocTotal, Kernel} {M C : Type} `{!MapOps Z loc M, !MapLaws Z loc M, !MapOps (list Z) loc C, !MapLaws (list Z) loc C}.
Context (Q R : DnsPacket → Prop) (V : Cache.CacheValue → Prop) (began : Z).
Implicit Types (st : server M C) (ss : gmap Z (loc * Session)) (out : gset Z)
  (items : list Cache.item) (us : list (loc * NetEnd)) (p q : DnsPacket).

(** A session due [retry_times] times since the loop began. *)
Record session_ok st (s : Session) : Prop := {
  so_retries : 0 ≤ retry_times (relay_info s) ≤ max_retry_time st;
  so_time : retry_times (relay_info s) * request_timeout st ≤ stamp s - began;
  so_packet : light (relay_packet (relay_info s));
  so_client : is_u16 (client_id s);
}.

(** What holds between two packets. *)
Record serving st (last : Z) ss items out us : Prop := {
  v_began : began ≤ last;
  v_rep : srv_rep st last ss items out us;
  v_sessions : ∀ i l s, ss !! i = Some (l, s) → session_ok st s;
  v_items : Forall (λ i, V (Cache.i_value i)) items;
  v_cache : is_Some (g_cache st);
  v_retry : 0 ≤ max_retry_time st ≤ 127;
  v_timeout : 0 < request_timeout st;
  v_recv : (4096 ≤ length (recv_buf st))%nat;
}.

Lemma serving_frame st st' last now ss items out ss' items' out' us :
  serving st last ss items out us → framed st st' → began ≤ now → srv_rep st' now ss' items' out' us →
  (∀ i l s, ss' !! i = Some (l, s) → session_ok st s) →
  Forall (λ i, V (Cache.i_value i)) items' →
  serving st' now ss' items' out' us.
Proof.
  intros [] [E1 E2 E3 E4 Hg] Hnow Hrep Hss Hi.
  split; try done; [intros i l s Hs; destruct (Hss i l s Hs); split; by rewrite ?E2, ?E3|by apply Hg|by rewrite E3|by rewrite E2|by rewrite E1].
Qed.

Lemma serving_later st last now ss items out us :
  last ≤ now → serving st last ss items out us → serving st now ss items out us.
Proof. intros Hnow []. split; try done; [lia|by eapply srv_rep_later]. Qed.

Lemma light_at st last ss items out us p :
  srv_rep st last ss items out us → light p → sendable (send_buf st) p.
Proof. intros Hst Hp. apply Hp, Hst. Qed.

Lemma local_light now items q ls r :
  traffic Q R V → Q q → Forall (λ i, V (Cache.i_value i)) items →
  local_answer now items q ls = Some r → light r.
Proof.
  intros Ht Hq Hi. unfold local_answer. destruct (OPCODE_GET _ =? 0).
  2:{ destruct (_ || _); intros [= <-]; by apply Ht. }
  destruct (questions q) as [|qu [|]]; [intros [= <-]; by apply Ht| |intros [= <-]; by apply Ht].
  destruct (existsb _ _); [intros [= <-]; by apply Ht|].
  destruct (lookup_value now items _) as [v|] eqn:E; [|destruct (_ =? 0); [intros [= <-]; by apply Ht|done]].
  intros [= <-]. apply Ht; [done|]. unfold lookup_value, Cache.lru_get in E.
  destruct (Cache.find_item _ items) as [it|] eqn:Ef; [|done]. apply Cache.find_item_key in Ef as [_ Hin].
  destruct (Cache.item_expired now it); [done|]. injection E as <-.
  rewrite Forall_forall in Hi. by apply Hi.
Qed.

(** What a query leaves: the server serves on. *)
Lemma handled_serving st last ss items out us now q src ls st' items' :
  traffic Q R V → serving st last ss items out us → last ≤ now → Q q → is_u16 (id (header q)) →
  framed st st' → handled now st last ss items out us q src ls st' items' →
  ∃ ss' out', serving st' now ss' items' out' us.
Proof.
  intros Ht Hv Hnow Hq Hid Hfr [Hsame Hr]. pose proof (v_began _ _ _ _ _ _ Hv).
  assert (Hi' : Forall (λ i, V (Cache.i_value i)) items').
  { apply Forall_forall. intros i Hi. destruct Hsame as [_ Hsub]. apply Hsub in Hi.
    pose proof (v_items _ _ _ _ _ _ Hv) as Hall. rewrite Forall_forall in Hall. by apply Hall. }
  assert (Hdone : ∀ ss' out', srv_rep st' now ss' items' out' us → (∀ i l s, ss' !! i = Some (l, s) →
      ss !! i = Some (l, s) ∨ s = new_session now q src i ∧ is_u16 i) →
    ∃ ss' out', serving st' now ss' items' out' us).
  { intros ss' out' Hrep Hss. exists ss', out'. eapply serving_frame; [exact Hv|exact Hfr|lia|exact Hrep| |exact Hi'].
    intros i l s Hi. destruct (Hss i l s Hi) as [Hold|[-> Hu]]; [by eapply v_sessions|].
    pose proof (v_retry _ _ _ _ _ _ Hv). split; cbn; [lia|lia|by apply Ht|done]. }
  destruct (local_answer now items q ls) as [r|].
  - destruct Hr as [Hrep _]. eapply srv_rep_later in Hrep; [|exact Hnow]. by eapply Hdone; [exact Hrep|auto].
  - destruct Hr as [(_ & Hrep & _)|(i & d & Hi & _ & _ & _ & Hrep)];
      [by eapply Hdone; [exact Hrep|auto]|].
    destruct (deliverable _ _ _); [destruct Hrep as [l Hrep]|by eapply Hdone; [exact Hrep|auto]].
    eapply Hdone; [exact Hrep|].
    intros j l' s Hj. apply lookup_insert_Some in Hj as [[<- [= _ <-]]|[_ Hj]]; auto.
Qed.

(** What the traffic allows for the packets a query gives rise to. *)
Lemma query_light st last ss items out us now q ls :
  traffic Q R V → serving st last ss items out us → Q q →
  (∀ r, local_answer now items q ls = Some r → sendable (send_buf st) r) ∧
  sendable (send_buf st) (reply q RCODE_SERVFAIL) ∧ (∀ i, is_u16 i → sendable (send_buf st) (set_id q i)).
Proof.
  intros Ht Hv Hq. pose proof (v_rep _ _ _ _ _ _ Hv) as Hst. split_and!.
  - intros r Hr. apply (light_at _ _ _ _ _ _ _ Hst). by eapply local_light; [..|apply Hv|].
  - by apply (light_at _ _ _ _ _ _ _ Hst), Ht.
  - intros i Hi. by apply (light_at _ _ _ _ _ _ _ Hst), Ht.
Qed.

Lemma query_step st last ss items out us now q src :
  traffic Q R V → serving st last ss items out us → last ≤ now → queued (factory st) < 2 ^ 30 →
  Q q → is_u16 (id (header q)) →
  ∃ st' ss' items' out', handle_dns_packet now st q src = Ret st' ∧ serving st' now ss' items' out' us.
Proof.
  intros Ht Hv Hnow Hsz Hq Hid. pose proof (v_rep _ _ _ _ _ _ Hv) as Hst.
  destruct (t_query _ _ _ Ht q Hq) as [Hqr [ls Hok]].
  destruct (query_light st last ss items out us now q ls Ht Hv Hq) as (Hr & Hse & Hsr).
  destruct (query_spec st last ss items out us now q src ls) as (st' & items' & E & Hh); try done.
  destruct (handle_framed _ _ _ _ _ E) as [Hfr _].
  destruct (handled_serving st last ss items out us now q src ls st' items') as (ss' & out' & Hv'); [done..|].
  by exists st', ss', items', out'.
Qed.

Lemma response_step st last ss items out us now p src :
  traffic Q R V → serving st last ss items out us → last ≤ now → R p →
  ∃ st' ss' items' out', handle_dns_packet now st p src = Ret st' ∧ serving st' now ss' items' out' us.
Proof.
  intros Ht Hv Hnow Hp. pose proof (v_rep _ _ _ _ _ _ Hv) as Hst.
  destruct (t_response _ _ _ Ht p Hp) as [Hqr (question & ls & Hok)].
  destruct (v_cache _ _ _ _ _ _ Hv) as [c Hc].
  destruct (ss !! id (header p)) as [[l s]|] eqn:Ei.
  - pose proof (so_client _ _ (v_sessions _ _ _ _ _ _ Hv _ _ _ Ei)) as Hcl. pose proof (v_began _ _ _ _ _ _ Hv).
    destruct (response_spec st last ss items out us now p src question ls l s c Hst Hqr Ei Hok Hc) as (st' & E & _ & Hrep).
    { by apply (light_at _ _ _ _ _ _ _ Hst), (t_answer _ _ _ Ht). }
    eexists st', _, _, _. split; [exact E|].
    eapply serving_frame; [exact Hv|by eapply handle_framed|lia|by eapply srv_rep_later| |].
    + intros j l' s' Hj. apply lookup_delete_Some in Hj as [_ Hj]. by eapply v_sessions.
    + apply after_response_Forall; [by apply Ht|by eapply v_items].
  - exists st, ss, items, out. split; [by eapply response_unknown|].
    by eapply serving_later.
Qed.

(** No more than 65536 sessions are open. *)
Lemma sessions_bound st last ss items out us :
  srv_rep st last ss items out us → Z.of_nat (base.size ss) ≤ 65536.
Proof.
  intros Hst. pose proof (IdPool.pool_inv_size _ _ (s_pool _ _ _ _ _ _ Hst)).
  pose proof (IdPool.inv_top _ _ (s_pool _ _ _ _ _ _ Hst)).
  rewrite <- size_dom. assert (dom ss = out) as ->; [|lia].
  apply set_eq. intros i. by rewrite elem_of_dom, (s_ids _ _ _ _ _ _ Hst).
Qed.

Lemma late_bound st last ss items out us timeout now :
  srv_rep st last ss items out us → Z.of_nat (base.size (late timeout now ss)) ≤ 65536.
Proof.
  intros Hst. etrans; [|by eapply sessions_bound].
  apply inj_le, map_size_filter.
Qed.

Lemma resent_retry now s :
  0 ≤ retry_times (relay_info s) < 127 →
  retry_times (relay_info (resent now s)) = retry_times (relay_info s) + 1.
Proof.
  intros ?. unfold resent, count_retry, set_timestamp, wrap_u8, schar. cbn.
  rewrite Z.mod_small by lia. rewrite (proj2 (Z.ltb_lt _ _)) by lia. done.
Qed.

(** A session that is due and has no retry left. *)
Definition spent (timeout retries now : Z) ss : Prop :=
  ¬ map_Forall (λ _ e, expired timeout now e.2 → retry_times (relay_info e.2) < retries) ss.

#[export] Instance spent_dec timeout retries now ss : Decision (spent timeout retries now ss).
Proof. unfold spent. apply _. Defined.

(** It takes a session that many timeouts to spend its retries. *)
Lemma spent_late st last ss items out us now :
  serving st last ss items out us → spent (request_timeout st) (max_retry_time st) now ss →
  (max_retry_time st + 1) * request_timeout st ≤ now - began.
Proof.
  intros Hv Hs. apply map_not_Forall in Hs as (i & [l s] & Hi & Hs); [|apply _]. cbn [snd] in Hs.
  destruct (v_sessions _ _ _ _ _ _ Hv _ _ _ Hi) as [? Htime _ _]. unfold expired in Hs.
  destruct (decide (request_timeout st - (now - stamp s) ≤ 0)); [|tauto].
  assert (max_retry_time st ≤ retry_times (relay_info s)) by lia. pose proof (v_timeout _ _ _ _ _ _ Hv). nia.
Qed.

Lemma sweep_step fuel st last ss items out us now :
  serving st last ss items out us → last ≤ now → ¬ spent (request_timeout st) (max_retry_time st) now ss →
  65536 ≤ Z.of_nat fuel → queued (factory st) + 65536 < 2 ^ 30 →
  ∃ st', batch_timeout fuel now st = Ret st' ∧ serving st' now (sweep (request_timeout st) now ss) items out us ∧
    paced 65536 st st'.
Proof.
  intros Hv Hnow Hspent Hfuel Hsz. pose proof (v_rep _ _ _ _ _ _ Hv) as Hst.
  apply dec_stable in Hspent. pose proof (v_retry _ _ _ _ _ _ Hv).
  pose proof (late_bound _ _ _ _ _ _ (request_timeout st) now Hst) as Hlate.
  destruct (batch_timeout_spec fuel st last ss items out us now) as (st' & E & Hrep & Hqueue);
    [done|done|done|by eapply v_timeout| |lia|lia|].
  { intros i l s Hi He. split; [exact (Hspent i (l, s) Hi He)|]. intros buf Hb.
    by apply (so_packet _ _ (v_sessions _ _ _ _ _ _ Hv _ _ _ Hi)). }
  exists st'. split; [exact E|]. split; [|apply framed_paced; [by eapply batch_timeout_framed|lia]].
  eapply serving_frame; [exact Hv|by eapply batch_timeout_framed|pose proof (v_began _ _ _ _ _ _ Hv); lia|exact Hrep| |by eapply v_items].
  intros i l s Hi. unfold sweep in Hi. apply lookup_fmap_Some in Hi as ([l0 s0] & [= <- <-] & Hi).
  pose proof (v_sessions _ _ _ _ _ _ Hv _ _ _ Hi) as [Hr Ht Hl Hc]. cbn [fst snd].
  case_decide as He; [|by split]. pose proof (Hspent i (l0, s0) Hi He) as Hlt. cbn [snd] in Hlt.
  split; [rewrite resent_retry by lia; lia| |exact Hl|exact Hc].
  rewrite resent_retry by lia. unfold expired in He. change (stamp (resent now s0)) with now. lia.
Qed.

(** ** A turn *)

Lemma pack_recv_spec fuel st p a port :
  wire_ok p → (length (pack_out p) ≤ 512)%nat → (4096 ≤ length (recv_buf st))%nat →
  Forall (λ rr, length (rr_name rr) + 2 < fuel ∧ length (rdata rr) + 2 < fuel)%nat (rrs p) →
  let src := source_of (MkEnd (replicate 16 0) IPV4 0) a port in
  ∃ buf, pack_recv fuel st (Received (pack_out p) a port) = Ret (0, Some p, src, set_recv_buf st buf) ∧
    length buf = length (recv_buf st).
Proof.
  intros Hp H512 Hbuf Hf src. pose proof (pack_out_header p) as H12. unfold pack_recv, socket_recv_nowait.
  change (Z.to_nat DNS_RECV_BUF_SIZE) with (Z.to_nat 4096).
  rewrite take_ge by lia. rewrite blit_Ret by lia. cbn [mbind Res_bind].
  rewrite (proj2 (Z.eqb_neq _ 0)), (proj2 (Z.eqb_neq _ (-1))) by lia.
  change (take (Z.to_nat 0) (recv_buf st)) with (@nil Z). cbn [app].
  rewrite pack_deserialize_spec by (done || lia). cbn [mbind Res_bind].
  eexists _. split; [reflexivity|]. rewrite length_app, length_drop. lia.
Qed.

Lemma recv_serving st last ss items out us buf :
  serving st last ss items out us → length buf = length (recv_buf st) →
  serving (set_recv_buf st buf) last ss items out us.
Proof.
  intros [? [] Hs] Hb. split; try done; [intros i l s Hi; by destruct (Hs i l s Hi)|].
  cbn [recv_buf set_recv_buf]. by rewrite Hb.
Qed.

Lemma packet_step st last ss items out us now p src :
  traffic Q R V → serving st last ss items out us → last ≤ now → queued (factory st) < 2 ^ 30 →
  Q p ∨ R p → is_u16 (id (header p)) →
  ∃ st' ss' items' out', handle_dns_packet now st p src = Ret st' ∧ serving st' now ss' items' out' us.
Proof. intros ???? [?|?] ?; [by eapply query_step|by eapply response_step]. Qed.

Lemma drain_step fuel now rs st last ss items out us :
  traffic Q R V → serving st last ss items out us → last ≤ now →
  Forall (incoming Q R fuel) rs → queued (factory st) + Z.of_nat (length rs) < 2 ^ 30 →
  ∃ st' ss' items' out', drain fuel now st rs = Ret st' ∧ serving st' now ss' items' out' us ∧
    paced (Z.of_nat (length rs)) st st'.
Proof.
  intros Ht. revert st last ss items out. induction rs as [|r rs IH]; intros st last ss items out Hv Hnow Hin Hsz.
  { exists st, ss, items, out. split_and!; [done|by eapply serving_later|split; [done..|simpl; lia]]. }
  pose proof (serving_later _ _ _ _ _ _ _ Hnow Hv) as Hlast.
  apply Forall_cons in Hin as [Hr Hin]. cbn [drain]. rewrite length_cons in *.
  destruct r as [bytes a port| |].
  - destruct Hr as (p & -> & Hp & H512 & Hf & HQR).
    destruct (pack_recv_spec fuel st p a port Hp H512 (v_recv _ _ _ _ _ _ Hv) Hf) as (buf & -> & Hb).
    set (src := source_of _ _ _).
    cbn [mbind Res_bind].
    destruct (packet_step (set_recv_buf st buf) now ss items out us now p src) as (st1 & ss1 & items1 & out1 & E & Hv1);
      [done|by apply recv_serving|lia|cbn [factory set_recv_buf]; lia|done|by apply Hp|].
    destruct (handle_framed _ _ _ _ _ E) as [Hfr Hq1]. pose proof (framed_paced 1 _ _ Hfr Hq1) as Hp1.
    cbn [factory set_recv_buf] in Hq1.
    rewrite E. cbn [mbind Res_bind].
    destruct (IH st1 now ss1 items1 out1 Hv1) as (st2 & ss2 & items2 & out2 & E2 & Hv2 & Hp2);
      [lia|done|lia|].
    exists st2, ss2, items2, out2. split_and!; [done|done|].
    eapply paced_weaken; [|eapply (paced_trans 1 _ st st1); [destruct Hp1; by split|exact Hp2]]. lia.
  - exists st, ss, items, out. split_and!; [by destruct st|done|split; [done..|lia]].
  - exists st, ss, items, out. split_and!; [by destruct st|done|split; [done..|lia]].
Qed.

Lemma select_step st last ss items out us before :
  serving st last ss items out us →
  ∃ timeout st', select_timeout before st = Ret (timeout, st') ∧
    serving st' last ss items out us ∧ paced 0 st st'.
Proof.
  intros Hv. pose proof (v_rep _ _ _ _ _ _ Hv) as Hst. unfold select_timeout.
  destruct (session_peek_spec _ _ _ (s_factory _ _ _ _ _ _ Hst)) as (r & f & E & Hf & _ & Hr).
  rewrite E. cbn [mbind Res_bind]. assert (Hv' : serving (set_factory st f) last ss items out us).
  { eapply serving_frame; [exact Hv|by split|by eapply v_began|by apply set_factory_rep|by eapply v_sessions|by eapply v_items]. }
  apply session_peek_queued in E. destruct r as [l|].
  - destruct Hr as (i & s & Hi & _). rewrite (timeout_remain_spec _ _ _ _ _ _ before _ Hf Hi).
    cbn [mbind Res_bind nonnull]. eexists _, _. split; [reflexivity|]. split; [done|]. split; [done..|cbn [factory set_factory]; lia].
  - cbn [mbind Res_bind]. eexists _, _. split; [reflexivity|]. split; [done|]. split; [done..|cbn [factory set_factory]; lia].
Qed.

(** What the loop is not up to: a turn at whose sweep a query has spent its
    retries (which takes longer than so many timeouts), or after which the queue
    of timers may have 2^30 entries.  [st] is the state before the turn. *)
Definition hard fuel us st (t : turn) : Prop :=
  match t.2 with
  | None => False
  | Some (now, rs) =>
      2 ^ 30 ≤ queued (factory st) + Z.of_nat (length rs) + 65536 ∨
      ∃ timeout st1 st2 ss items out, select_timeout t.1 st = Ret (timeout, st1) ∧
        drain fuel now st1 rs = Ret st2 ∧ srv_rep st2 now ss items out us ∧
        spent (request_timeout st2) (max_retry_time st2) now ss ∧
        (max_retry_time st + 1) * request_timeout st ≤ now - began
  end.

Lemma turn_step fuel before now rs st last ss items out us :
  traffic Q R V → serving st last ss items out us → last ≤ now → Forall (incoming Q R fuel) rs →
  65536 ≤ Z.of_nat fuel →
  hard fuel us st (before, Some (now, rs)) ∨
  ∃ timeout st1 st' ss' items' out', select_timeout before st = Ret (timeout, st1) ∧
    server_turn fuel now rs st1 = Ret st' ∧ serving st' now ss' items' out' us ∧
    paced (Z.of_nat (length rs) + 65536) st st'.
Proof.
  intros Ht Hv Hnow Hin Hfuel.
  destruct (decide (2 ^ 30 ≤ queued (factory st) + Z.of_nat (length rs) + 65536)) as [Hc|Hc]; [by left; left|].
  destruct (select_step st last ss items out us before Hv) as (timeout & st1 & E1 & Hv1 & Hp1). pose proof (pc_queue _ _ _ Hp1).
  destruct (drain_step fuel now rs st1 last ss items out us Ht Hv1 Hnow Hin)
    as (st2 & ss2 & items2 & out2 & E2 & Hv2 & Hp2); [lia|]. pose proof (pc_queue _ _ _ Hp2).
  pose proof (paced_trans _ _ _ _ _ Hp1 Hp2) as Hp.
  destruct (decide (spent (request_timeout st2) (max_retry_time st2) now ss2)) as [Hs|Hs].
  - left. right. exists timeout, st1, st2, ss2, items2, out2. split_and!; [done|done|apply Hv2|done|].
    destruct Hp as [<- <- _]. by eapply spent_late.
  - destruct (sweep_step fuel st2 now ss2 items2 out2 us now Hv2) as (st3 & E3 & Hv3 & Hp3);
      [lia|done|lia..|].
    right. eexists timeout, st1, st3, _, items2, out2. split_and!; [done| |done|].
    + unfold server_turn. by rewrite E2.
    + eapply paced_weaken; [|exact (paced_trans _ _ _ _ _ Hp Hp3)]. lia.
Qed.

(** The most turns can add to the queue. *)
Fixpoint load (turns : list turn) : Z :=
  match turns with
  | [] => 0
  | (_, None) :: turns => load turns
  | (_, Some (_, rs)) :: turns => Z.of_nat (length rs) + 65536 + load turns
  end.
Lemma load_app ts ts' : load (ts ++ ts') = load ts + load ts'.
Proof. induction ts as [|[? [[? ?]|]] ts IH]; cbn [load app]; lia. Qed.
Lemma load_pos ts : 0 ≤ load ts.
Proof. induction ts as [|[? [[? ?]|]] ts IH]; cbn [load]; lia. Qed.

(** So early that no query can have spent its retries. *)
Definition early (timeout retries : Z) (t : turn) : Prop :=
  match t.2 with
  | None => True
  | Some (now, _) => now - began < (retries + 1) * timeout
  end.

(** What is loaded and asked for early enough is not hard. *)
Lemma early_light st st' past t rest :
  paced (load past) st st' → Forall (early (request_timeout st) (max_retry_time st)) (past ++ t :: rest) →
  queued (factory st) + load (past ++ t :: rest) < 2 ^ 30 →
  match t.2 with
  | None => True
  | Some (now, rs) => queued (factory st') + Z.of_nat (length rs) + 65536 < 2 ^ 30 ∧
      now - began < (max_retry_time st' + 1) * request_timeout st'
  end.
Proof.
  intros [-> -> Hq] [_ [He _]%Forall_cons]%Forall_app Hl. rewrite load_app in Hl. pose proof (load_pos rest).
  unfold early in He. destruct t as [? [[? ?]|]]; [|done]. cbn [load snd] in *. lia.
Qed.

Lemma gets_through fuel us st st' past rest :
  paced (load past) st st' → rest = [] ∨ (∃ t rest', rest = t :: rest' ∧ hard fuel us st' t) →
  Forall (early (request_timeout st) (max_retry_time st)) (past ++ rest) →
  queued (factory st) + load (past ++ rest) < 2 ^ 30 → rest = [].
Proof.
  intros Hp [|(t & rest' & -> & Hh)] He Hl; [done|].
  pose proof (early_light _ _ _ _ _ Hp He Hl) as Hlight. unfold hard in Hh.
  destruct (t.2) as [[now rs]|]; [|done]. destruct Hh as [Hh|(? & ? & ? & ? & ? & ? & _ & _ & _ & _ & Hh)]; lia.
Qed.

(** The turns the loop gets through, and the ones it does not come to. *)
Lemma server_loop_spec fuel turns st last ss items out us :
  traffic Q R V → serving st last ss items out us → orderly Q R fuel last turns →
  65536 ≤ Z.of_nat fuel →
  ∃ past rest timeouts st' last' ss' items' out', turns = past ++ rest ∧
    server_loop fuel past st = Ret (timeouts, if existsb select_failed past then Some (-1) else None, st') ∧
    serving st' last' ss' items' out' us ∧ paced (load past) st st' ∧
    (rest = [] ∨ ∃ t rest', rest = t :: rest' ∧ hard fuel us st' t).
Proof.
  intros Ht. revert st last ss items out.
  induction turns as [|[before [[now rs]|]] turns IH]; intros st last ss items out Hv Ho Hfuel.
  - exists [], [], [], st, last, ss, items, out. split_and!; [done|done|done|split; [done..|simpl; lia]|by left].
  - cbn [orderly] in Ho. destruct Ho as (Hnow & Hin & Ho).
    destruct (turn_step fuel before now rs st last ss items out us Ht Hv Hnow Hin Hfuel)
      as [Hh|(timeout & st1 & st2 & ss2 & items2 & out2 & E1 & E2 & Hv2 & Hp2)].
    { eexists [], _, [], st, last, ss, items, out. split_and!; [done|done|done|split; [done..|simpl; lia]|].
      right. by eexists _, _. }
    destruct (IH st2 now ss2 items2 out2 Hv2 Ho Hfuel)
      as (past & rest & timeouts & st3 & last3 & ss3 & items3 & out3 & -> & E & Hv3 & Hp3 & Hrest).
    exists ((before, Some (now, rs)) :: past), rest, (timeout :: timeouts), st3, last3, ss3, items3, out3.
    split_and!; [done| |done|exact (paced_trans _ _ _ _ _ Hp2 Hp3)|done]. cbn [server_loop existsb select_failed snd orb].
    rewrite E1. cbn [mbind Res_bind]. rewrite E2. cbn [mbind Res_bind]. by rewrite E.
  - destruct (select_step st last ss items out us before Hv) as (timeout & st1 & E & Hv1 & Hp1).
    exists ((before, None) :: turns), [], [timeout], st1, last, ss, items, out.
    split_and!; [by rewrite app_nil_r| |done| |by left].
    + cbn [server_loop existsb select_failed snd orb]. by rewrite E.
    + eapply paced_weaken; [|exact Hp1]. apply load_pos.
Qed.
End loop.

(** ** Properties *)

(** C4. The event loop over any traffic.  Whatever well-formed queries and
    responses arrive, in whatever order, however they interleave with responses
    to nothing, failed reads and sweeps of the timers, the loop does nothing
    undefined, never runs out of fuel, returns only when [select] fails, and
    keeps its invariant: the taken ids are the ids of the open sessions, each
    session waits in the queue of timers, the cache is a least-recently-used
    list.  It gets through all turns, or comes to one that is [hard]: one that
    finds a query whose retries are spent (where the code goes wrong, see
    [give_up_dangles]; not before (retries + 1) timeouts have passed) or may
    grow the queue of timers to 2^30 entries.  So it gets through all turns that
    are [early] enough and whose [load] is less.  The clock must not go back; a
    fuel of 65536 covers every sweep. *)
Theorem server_loop_safe `{AllocTotal, Kernel} {M C : Type}
    `{!MapOps Z loc M, !MapLaws Z loc M, !MapOps (list Z) loc C, !MapLaws (list Z) loc C}
    (Q R : DnsPacket → Prop) (V : Cache.CacheValue → Prop) (began : Z) (fuel : nat) (turns : list turn)
    (st : server M C) (last : Z) (ss : gmap Z (loc * Session)) (items : list Cache.item)
    (out : gset Z) (us : list (loc * NetEnd)) :
  traffic Q R V → serving V began st last ss items out us → orderly Q R fuel last turns →
  65536 ≤ Z.of_nat fuel →
  ∃ past rest timeouts st' last' ss' items' out', turns = past ++ rest ∧
    server_loop fuel past st = Ret (timeouts, if existsb select_failed past then Some (-1) else None, st') ∧
    srv_rep st' last' ss' items' out' us ∧ items_good items' ∧
    (rest = [] ∨ ∃ t rest', rest = t :: rest' ∧ hard began fuel us st' t) ∧
    (Forall (early began (request_timeout st) (max_retry_time st)) turns → queued (factory st) + load turns < 2 ^ 30 → rest = []).
Proof.
  intros Ht Hv Ho Hfuel.
  destruct (server_loop_spec Q R V began fuel turns st last ss items out us Ht Hv Ho Hfuel)
    as (past & rest & ts & st' & last' & ss' & items' & out' & -> & El & Hv' & Hp & Hrest).
  pose proof (v_rep _ _ _ _ _ _ _ _ Hv'). exists past, rest, ts, st', last', ss', items', out'.
  split_and!; [done..|by eapply s_items|done|]. by eapply gets_through.
Qed.

(** ** A run: a query, the response to it, a turn in which nothing arrives *)

Section witness.
#[local] Existing Instances demo_kernel demo_alloc demo_total stable_ops stable_laws ctable_ops ctable_laws.

Definition is_demo_query (q : DnsPacket) : Prop := ∃ i, is_u16 i ∧ q = set_id demo_ask i.
Definition is_demo_response (p : DnsPacket) : Prop := ∃ i, is_u16 i ∧ p = demo_denial i.
Definition is_demo_value (v : Cache.CacheValue) : Prop := v = value_of (demo_denial 0).

Lemma demo_light p : wire_ok p → rrs p = [] → questions p = [demo_question] → light p.
Proof. intros ??? buf Hb. by apply demo_sendable. Qed.

Lemma demo_traffic : traffic is_demo_query is_demo_response is_demo_value.
Proof.
  split.
  - intros q (i & Hi & ->). split; [done|]. exists demo_labels.
    destruct demo_ask_ok as [? ? ?]. by split; [apply set_id_ok|..].
  - intros q j (i & Hi & ->) Hj. apply demo_light; [|done..].
    by apply set_id_wire, Hj; apply set_id_wire, Hi; apply demo_ask_wire.
  - intros q rcode (i & Hi & ->). apply demo_light; [|done..].
    by apply reply_wire, set_id_wire, Hi; apply demo_ask_wire.
  - intros q v (i & Hi & ->) ->. apply demo_light; [|done..].
    destruct (reply_wire _ RCODE_NOERROR (set_id_wire _ _ demo_ask_wire Hi)). by split.
  - intros p (i & Hi & ->). split; [done|]. exists demo_question, demo_labels. apply demo_denial_ok.
  - intros p j (i & Hi & ->) Hj. apply demo_light; [|done..].
    by apply set_id_wire, Hj; apply demo_denial_wire.
  - by intros p (i & Hi & ->).
Qed.

Lemma demo_ready (c : Cache.DnsCache ctable) :
  Cache.cache_rep c [] → ∃ (st : server stable ctable) us,
    serving is_demo_value 0 st 0 ∅ [] ∅ us ∧ queued (factory st) = 0 ∧ (max_retry_time st = 5 ∧ request_timeout st = 3000) ∧ g_cache st = Some c.
Proof.
  intros Hc.
  destruct demo_server as (st0 & us & [Hf Hp Hids _ Hi Hl Hne Hnext Hsend] & Hq & _).
  exists (MkServer (upstreams st0) (next_upstream st0) (send_buf st0) (replicate 4096 0) (pool st0)
    (factory st0) (Some c) 1 3000 5 []), us.
  split; [|by split]. by split.
Qed.

Definition demo_turns : list turn :=
  [(0, Some (5, [Received (pack_out demo_ask) (replicate 16 0) 0; NoData]));
   (6, Some (7, [Received (pack_out (demo_denial 0)) (replicate 16 0) 0; Failed]));
   (8, Some (9000, [NoData])); (9001, None)].

Lemma demo_incoming p fuel :
  is_demo_query p ∨ is_demo_response p → wire_ok p → rrs p = [] → questions p = [demo_question] →
  incoming is_demo_query is_demo_response fuel (Received (pack_out p) (replicate 16 0) 0).
Proof.
  intros HQR Hp Hr Hq. exists p. rewrite Hr. split_and!; [done|done| |constructor|done].
  unfold pack_out. rewrite Hr. cbn [rrs_out]. rewrite (head_out_length p demo_ask) by exact Hq.
  apply Nat.leb_le. reflexivity.
Qed.

Lemma demo_orderly fuel : orderly is_demo_query is_demo_response fuel 0 demo_turns.
Proof.
  assert (is_u16 (id (header demo_ask))) by (unfold is_u16; simpl; lia).
  assert (is_u16 0) by (unfold is_u16; lia).
  cbn [orderly demo_turns]. split_and!; try lia; try done; repeat constructor.
  - apply demo_incoming; [|apply demo_ask_wire|done..]. left. by exists (id (header demo_ask)).
  - apply demo_incoming; [|by apply demo_denial_wire|done..]. right. by exists 0.
Qed.

(** A datagram each in two turns, all long before six timeouts have passed. *)
Lemma demo_early (st : server stable ctable) :
  queued (factory st) = 0 → max_retry_time st = 5 → request_timeout st = 3000 →
  Forall (early 0 (request_timeout st) (max_retry_time st)) demo_turns ∧ queued (factory st) + load demo_turns < 2 ^ 30.
Proof.
  intros -> -> ->. split; [|reflexivity].
  unfold demo_turns. repeat constructor; unfold early; cbn [snd]; lia.
Qed.

Lemma server_loop_safe_witness :
  ∃ (st st' : server stable ctable) timeouts,
    server_loop (Z.to_nat 65536) demo_turns st = Ret (timeouts, Some (-1), st').
Proof.
  destruct (Cache.cache_create_spec (M := ctable)) as (c & _ & Hc & _).
  destruct (demo_ready c Hc) as (st & us & Hv & Hq & [Hm Hto] & _).
  destruct (server_loop_safe is_demo_query is_demo_response is_demo_value 0 (Z.to_nat 65536) demo_turns
    st 0 ∅ [] ∅ us demo_traffic Hv (demo_orderly _))
    as (past & rest & ts & st' & _ & _ & _ & _ & E & El & _ & _ & _ & Hr); [rewrite Z2Nat.id; vm_compute; discriminate|].
  destruct (demo_early st Hq Hm Hto) as [He Hl]. rewrite (Hr He Hl), app_nil_r in E. subst past.
  exists st, st', ts. exact El.
Defined.
End witness.
End ServerLoop.
