(* ===== verification/ServerHeap.v ===== *)
(** * The server with all its memory

    [src/server/server.c] on the heap of [Memory.v]: packets are received into
    objects, answered from the cache of [CacheHeap.v], copied into sessions,
    sent, and released, where the program does it.  The static variables are
    those of [Server.server], without the stores of the sessions and of the
    cache ([bare]).  The loop sends and keeps what [Server.v] says; besides, its
    memory is accounted for: what is not part of an open session or of a cached
    item is lost, and every packet loses four vectors at most. *)

From iris.proofmode Require Import proofmode.
From S2P Require Import Prelude Heap IdPool LinkedList Vector MapInterface HashMap LazyHeap CString NameCodec Protocol Wire Cache.
From S2P Require Import Resolver Socket Memory WireHeap CacheMemory CacheHeap CacheItems ResolverHeap Session SessionHeap Server ServerLoop.
Import Protocol Socket Server Memory WireHeap CacheItems ResolverHeap SessionHeap.

Module ServerHeap.

Section operations.
Context `{Allocator, Garbage, Kernel} {M C : Type} `{!MapOps Z loc M, !MapOps (list Z) loc C}.
Implicit Types (st : server M C) (p : option loc) (l : loc).

(** The return code (0, 1 or -1), the packet when it is 0, where it comes from. *)
Definition pack_recv (fuel : nat) st (r : recv) : Mem (Z * option loc * NetEnd * server M C) :=
  let nowhere := MkEnd (replicate 16 0) IPV4 0 in
  '(len, buf, src) ← lift (socket_recv_nowait r (recv_buf st) DNS_RECV_BUF_SIZE nowhere);
  let st := set_recv_buf st buf in
  if len =? 0 then mret (1, None, src, st)
  else if len =? -1 then mret (-1, None, src, st)
  else
    packet ← pack_deserialize fuel buf len;
    mret (match packet with Some _ => 0 | None => -1 end, packet, src, st).

Definition packet_send st (dns_pack : loc) (dest : NetEnd) : Mem (Z * server M C) :=
  '(buf, raw_pack_size) ← pack_serialize dns_pack (send_buf st) DNS_SEND_BUF_SIZE;
  let st := set_send_buf st buf in
  if (raw_pack_size <? 0) || (raw_pack_size >? MAX_PACKET_SIZE) then mret (1, st)
  else
    '(ret, datagram) ← lift (socket_send (sent st) buf raw_pack_size dest);
    if ret >=? 0 then mret (0, add_sent st datagram) else mret (1, st).

Definition count_retry (s : SessionObj) : SessionObj :=
  MkSessionObj (s_client s) (s_end s) (s_stamp s) (schar (wrap_u8 (s_retries s + 1))) (s_packet s).

(** When the retries are spent the id is written into the packet of the session
    itself, which [session_close] then looks for under it. *)
Definition do_handle_timeout (now : Z) st (session : loc) : Mem (server M C) :=
  s ← get_session (Some session);
  rid ← relay_id s;
  if s_retries s >=? max_retry_time st then
    query ← lift (nonnull (s_packet s));
    set_packet query (with_header (λ r, set_id r (s_client s))) ≫= λ _,
    fail_pack ← pack_make_inner_error query;
    '(_, st) ← packet_send st fail_pack (s_end s);
    f ← session_close (factory st) session;
    pack_free (Some fail_pack) ≫= λ _,
    p ← lift (IdPool.id_free rid (pool st));
    mret (set_pool (set_factory st f) p)
  else
    '(dest, st) ← lift (pick_upstream st);
    packet ← lift (nonnull (s_packet s));
    '(_, st) ← packet_send st packet dest;
    set_session session count_retry ≫= λ _,
    f ← session_wait now (factory st) session;
    mret (set_factory st f).

Fixpoint batch_timeout (fuel : nat) (now : Z) st : Mem (server M C) :=
  '(session, f) ← session_peek (factory st);
  let st := set_factory st f in
  match session with
  | None => mret st
  | Some l =>
      remain ← get_session_timeout_remain now (Some l) (request_timeout st);
      time_remain ← lift (nonnull remain);
      if time_remain >? 0 then mret st
      else
        match fuel with
        | O => lift OutOfFuel
        | S fuel => st ← do_handle_timeout now st l; batch_timeout fuel now st
        end
  end.

(** The branch of [handle_dns_packet] that sends a query upstream. *)
Definition relay_query (now : Z) st (packet_in : loc) (source_end : NetEnd) : Mem (server M C) :=
  '(code, relay_id, p) ← lift (IdPool.id_alloc false (pool st));
  let st := set_pool st p in
  if negb (code =? 0) then
    packet_out ← pack_make_inner_error packet_in;
    '(_, st) ← packet_send st packet_out source_end;
    pack_free (Some packet_out) ≫= λ _, mret st
  else
    relay_id ← lift (nonnull relay_id);
    packet_out ← pack_make_query_relay packet_in relay_id;
    '(dest, st) ← lift (pick_upstream st);
    '(r, st) ← packet_send st packet_out dest;
    if negb (r =? 0) then
      p ← lift (IdPool.id_free relay_id (pool st));
      pack_free (Some packet_out) ≫= λ _, mret (set_pool st p)
    else
      query ← get_packet (Some packet_in);
      f ← session_open now (factory st) (id (p_header query)) source_end packet_out;
      pack_free (Some packet_out) ≫= λ _, mret (set_factory st f).

Definition handle_dns_packet (now : Z) st (packet_in : loc) (source_end : NetEnd) : Mem (server M C) :=
  packet ← get_packet (Some packet_in);
  if packet_is_query (MkPacket (p_header packet) [] []) then
    '(direction, packet_out, c) ← pack_try_response_local now (g_cache st) packet_in;
    let st := set_cache st c in
    match direction with
    | CLIENT =>
        packet_out ← lift (nonnull packet_out);
        '(_, st) ← packet_send st packet_out source_end;
        pack_free (Some packet_out) ≫= λ _, mret st
    | UPSTREAM => relay_query now st packet_in source_end
    end
  else
    session ← session_get (factory st) (Some packet_in);
    match session with
    | None => mret st
    | Some l =>
        s ← get_session (Some l);
        '(packet_out, c) ← pack_make_response_relay now (use_cache st) (g_cache st) packet_in (s_client s);
        let st := set_cache st c in
        '(_, st) ← packet_send st packet_out (s_end s);
        f ← session_close (factory st) l;
        p ← lift (IdPool.id_free (id (p_header packet)) (pool st));
        pack_free (Some packet_out) ≫= λ _,
        mret (set_pool (set_factory st f) p)
    end.

(** A packet received is released when it has been handled. *)
Fixpoint drain (fuel : nat) (now : Z) st (rs : list recv) : Mem (server M C) :=
  match rs with
  | [] => mret st
  | r :: rs =>
      '(ret, packet, source_end, st) ← pack_recv fuel st r;
      match packet with
      | Some packet =>
          st ← handle_dns_packet now st packet source_end;
          pack_free (Some packet) ≫= λ _, drain fuel now st rs
      | None => mret st
      end
  end.

Definition select_timeout (now : Z) st : Mem (option (Z * Z) * server M C) :=
  '(earliest_session, f) ← session_peek (factory st);
  remain ← match earliest_session with
           | None => mret (-1)
           | Some l => r ← get_session_timeout_remain now (Some l) (request_timeout st); lift (nonnull r)
           end;
  mret (timeval_of remain, set_factory st f).

Definition server_turn (fuel : nat) (now : Z) (rs : list recv) st : Mem (server M C) :=
  st ← drain fuel now st rs; batch_timeout fuel now st.

Fixpoint server_loop (fuel : nat) (turns : list (Z * option (Z * list recv))) st :
    Mem (list (option (Z * Z)) * option Z * server M C) :=
  match turns with
  | [] => mret ([], None, st)
  | (before, turn) :: turns =>
      '(timeout, st) ← select_timeout before st;
      match turn with
      | None => mret ([timeout], Some (-1), st)
      | Some (now, rs) =>
          st ← server_turn fuel now rs st;
          '(timeouts, r, st) ← server_loop fuel turns st;
          mret (timeout :: timeouts, r, st)
      end
  end.
End operations.

(** ** The server the program has, and its memory *)

Definition bare {M C} (st : server M C) : server M C :=
  set_cache (set_factory st (SessionHeap.bare (factory st))) (CacheHeap.bare <$> g_cache st).

Section memory.
Context `{Allocator, Garbage, Kernel} {M C : Type} `{!MapOps Z loc M, !MapLaws Z loc M, !MapOps (list Z) loc C, !MapLaws (list Z) loc C}.
Implicit Types (st : server M C) (l : loc) (v : DnsPacket).

(** The cache holds [items]; [cap] is its capacity. *)
Definition cache_held (cap : nat) (g : option (Cache.DnsCache C)) (items : list Cache.item) : mprop :=
  ∃ c, <affine> ⌜g = Some c ∧ Cache.cache_rep c items ∧ tidy c ∧ Z.to_nat (Cache.capacity c) = cap⌝ ∗
    CacheHeap.cache_mem c.
Definition server_mem (cap : nat) st (items : list Cache.item) : mprop :=
  sessions_mem (Session.sessions (factory st)) ∗ cache_held cap (g_cache st) items.

Lemma held_items cap g items : cache_held cap g items ⊢ cache_items cap (CacheHeap.bare <$> g) items.
Proof. iIntros "(%c & %Hc & Hm)". destruct Hc as (-> & ?). iExists c. by iFrame. Qed.

Lemma items_held cap gh items :
  cache_items cap gh items ⊢ ∃ c, <affine> ⌜gh = Some (CacheHeap.bare c) ∧ Cache.cache_rep c items⌝ ∗
    cache_held cap (Some c) items.
Proof.
  iIntros "(%c & %Hc & Hm)". destruct Hc as (-> & Hr & ?). iExists c. iSplit; [done|]. iExists c. by iFrame.
Qed.

(** ** Sending and receiving *)

Lemma packet_send_sim st l v dest r (Φ : Z * server M C → mprop) :
  Server.packet_send st v dest = Ret r →
  pack_at l v -∗ (pack_at l v -∗ Φ r) -∗ wp (packet_send st l dest) Φ.
Proof.
  intros ([buf n] & E1 & E)%bind_Ret_inv. iIntros "Hl HΦ". unfold packet_send.
  wp_apply (pack_serialize_sim with "Hl"); [exact E1|]. iIntros "Hl". cbv zeta in E |- *.
  destruct (_ || _); [injection E as <-; iApply wp_ret; by iApply "HΦ"|].
  apply bind_Ret_inv in E as ([ret d] & E2 & E). wp_apply wp_lift_ret; [exact E2|]. simpl in E |- *.
  destruct (ret >=? 0); injection E as <-; iApply wp_ret; by iApply "HΦ".
Qed.

Lemma packet_send_bare st v dest r st' :
  Server.packet_send st v dest = Ret (r, st') → Server.packet_send (bare st) v dest = Ret (r, bare st').
Proof.
  unfold Server.packet_send. intros ([buf n] & E1 & E)%bind_Ret_inv.
  change (send_buf (bare st)) with (send_buf st). rw E1. cbn [mbind Res_bind]. cbv zeta in E |- *.
  destruct (_ || _); [by injection E as <- <-|]. apply bind_Ret_inv in E as ([ret d] & E2 & E). 
  change (sent (set_send_buf (bare st) buf)) with (sent (set_send_buf st buf)). rw E2. cbn [mbind Res_bind].
  by destruct (ret >=? 0); injection E as <- <-.
Qed.

Lemma after_send_bare st v dest b : after_send (bare st) v dest b = bare (after_send st v dest b).
Proof. by destruct b. Qed.

(** A packet is sent and released. *)
Lemma send_and_free {T} st l v dest (K : server M C → Mem T) (Φ : T → mprop) :
  sendable (send_buf st) v → pack_at l v -∗
  wp (K (bare (after_send st v dest (deliverable st v dest)))) Φ -∗
  wp ('(_, st) ← packet_send (bare st) l dest; pack_free (Some l) ≫= λ _, K st) Φ.
Proof.
  iIntros (Hs) "Hl HK". wp_apply (packet_send_sim with "Hl"); [by apply packet_send_spec|]. iIntros "Hl".
  rw after_send_bare. wp_apply (pack_free_spec with "Hl"). iApply "HK".
Qed.

Lemma pick_upstream_bare st d st' :
  pick_upstream st = Ret (d, st') → pick_upstream (bare st) = Ret (d, bare st').
Proof.
  unfold pick_upstream. intros (n & En & (nd & Ed & E)%bind_Ret_inv)%bind_Ret_inv. injection E as <- <-.
  cbn [next_upstream upstreams bare set_cache set_factory]. rw En. cbn [mbind Res_bind]. by rw Ed.
Qed.
End memory.

(** ** Queries *)

Section queries.
#[local] Set Default Proof Using "Type*".
Context `{AllocTotal, Garbage, Kernel} {M C : Type} `{!MapOps Z loc M, !MapLaws Z loc M, !MapOps (list Z) loc C, !MapLaws (list Z) loc C}.
Implicit Types (st : server M C) (l : loc) (q : DnsPacket) (ss : gmap Z (loc * Session.Session)) (out : gset Z)
  (items : list Cache.item) (us : list (loc * NetEnd)).

#[local] Existing Instance ServerLoop.framed_preorder.

(** What a call changes besides what the server represents. *)
Definition follows st st' : Prop :=
  ServerLoop.framed st st' ∧ Session.queued (factory st') ≤ Session.queued (factory st) + 1.

Lemma at_brk_rep st b last ss items out us :
  store_wf (MkStore (cells (Session.sessions (factory st))) b) → srv_rep st last ss items out us →
  srv_rep (set_factory st (at_brk b (factory st))) last ss items out us.
Proof. intros Hwf [[] ? ? ? ? ? ? ? ?]. by split. Qed.

Lemma opened_at now st last ss items out us q src i d pl m l (Φ : Session.session_factory M → mprop) :
  let st2 := after_send (set_next (set_pool st pl) m) (set_id q i) d true in
  srv_rep st last ss items out us → last ≤ now → Session.queued (factory st) < 2 ^ 30 → pack_ok q →
  sendable (send_buf st) (set_id q i) → is_u16 i → i ∉ out → IdPool.pool_inv pl ({[i]} ∪ out) →
  (∀ n, m = Some n → n ∈ us.*1) →
  pack_at l (set_id q i) -∗ sessions_mem (Session.sessions (factory st)) -∗
  (∀ f, <affine> ⌜(∃ ls, srv_rep (set_factory st2 f) now (<[i := (ls, new_session now q src i)]> ss) items ({[i]} ∪ out) us) ∧
      Session.queued f ≤ Session.queued (factory st) + 1⌝ -∗
    pack_at l (set_id q i) -∗ sessions_mem (Session.sessions f) -∗ lost_vectors 2 -∗ Φ (SessionHeap.bare f)) -∗
  wp (session_open now (SessionHeap.bare (factory st)) (id (header q)) src l) Φ.
Proof.
  intros st2 Hst Hnow Hsz Hq Hsr Hi Hout Hpl Hm. iIntros "Hl Hm HΦ".
  iApply (session_open_sim now (factory st) _ _ _ _ (λ _ f,
    (∃ ls, srv_rep (set_factory st2 f) now (<[i := (ls, new_session now q src i)]> ss) items ({[i]} ∪ out) us) ∧
    Session.queued f ≤ Session.queued (factory st) + 1) with "Hl Hm"); [by apply set_id_ok| |].
  - intros b Hwf. destruct (forward_sent (set_factory st (at_brk b (factory st))) last ss items out us now q src i d pl m)
      as (f & ls & E & Hrep); [done|by apply at_brk_rep|done..|].
    exists f. split; [exact E|]. split; [exists ls; exact Hrep|exact (ServerLoop.session_open_queued _ _ _ _ _ _ E)].
  - iIntros (b f Hf) "Hl Hm L". iApply ("HΦ" with "[//] Hl Hm L").
Qed.

Lemma forward_at now st last ss items out us q src l (Φ : server M C → mprop) :
  srv_rep st last ss items out us → last ≤ now → Session.queued (factory st) < 2 ^ 30 → pack_ok q →
  sendable (send_buf st) (Resolver.reply q RCODE_SERVFAIL) → (∀ i, is_u16 i → sendable (send_buf st) (set_id q i)) →
  pack_at l q -∗ sessions_mem (Session.sessions (factory st)) -∗
  (∀ st' n, <affine> ⌜forwarded now st ss items out us q src st' ∧ follows st st' ∧ g_cache st' = g_cache st ∧ (n ≤ 4)%nat⌝ -∗
    pack_at l q -∗ sessions_mem (Session.sessions (factory st')) -∗ lost_vectors n -∗ Φ (bare st')) -∗
  wp (relay_query now (bare st) l src) Φ.
Proof.
  iIntros (Hst Hnow Hsz Hq Hse Hsr) "Hl Hm HΦ". unfold relay_query. pose proof (srv_rep_later _ _ _ _ _ _ _ Hnow Hst) as Hst'.
  destruct (IdPool.id_alloc_cases _ _ (s_pool _ _ _ _ _ _ Hst)) as [[E Hall]|(i & pl & E & Hi & Hout & Hpl)];
    (wp_apply wp_lift_ret; [exact E|]).
  - change (negb (1 =? 0)) with true. cbv iota. unfold pack_make_inner_error.
    wp_apply (fail_at with "Hl"); [done|]. iIntros (l') "Hl [Hl' L]".
    change (set_pool (bare st) (pool (bare st))) with (bare st).
    iApply (send_and_free with "Hl'"); [exact Hse|]. iApply wp_ret. iApply ("HΦ" with "[] Hl [Hm] L").
    + iPureIntro. split_and!; [|split|by destruct (deliverable _ _ _)|lia].
      * left. split_and!; [done|by apply after_send_rep|apply after_send_sent].
      * by destruct (deliverable _ _ _).
      * destruct (deliverable _ _ _); unfold Session.queued; cbn; lia.
    + by destruct (deliverable _ _ _).
  - change (negb (0 =? 0)) with false. cbv iota. wp_apply wp_lift_ret; [done|].
    wp_apply (pack_make_query_relay_spec with "Hl"); [done|]. iIntros (l') "Hl Hl' L1 L2".
    destruct (pick_upstream_any st now ss items out us Hst') as (d & m & Epick & Hd & Hm).
    apply (pick_upstream_pool _ pl), pick_upstream_bare in Epick. wp_apply wp_lift_ret; [exact Epick|].
    wp_apply (packet_send_sim with "Hl'"); [apply packet_send_spec; by apply Hsr|]. iIntros "Hl'".
    change (deliverable (bare (set_next (set_pool st pl) m))) with (deliverable st). rw after_send_bare.
    iDestruct (two_lost with "L1 L2") as "L". destruct (deliverable st (set_id q i) d) eqn:Ed.
    + change (negb (0 =? 0)) with false. cbv iota. wp_apply (wp_get_pack with "Hl"). iIntros (o) "%Ho Hl". rw Ho.
      iDestruct (parts_pack with "Hl") as "Hl".
      wp_apply (opened_at now st _ _ _ _ _ q src i d pl m with "Hl' Hm"); [done..|by apply Hsr|done|done|done|done|].
      iIntros (f Hf) "Hl' Hm L'". destruct Hf as [(ls & Hrep) Hqf]. wp_apply (pack_free_spec with "Hl'"). iApply wp_ret.
      iApply ("HΦ" $! (set_factory (after_send (set_next (set_pool st pl) m) (set_id q i) d true) f) 4%nat with "[] Hl Hm [L L']").
      * iPureIntro. split_and!; [|by split; [split|]|done|lia]. right. exists i, d. do 3 (split; [done|]).
        split; [unfold offered; by rw Ed|]. rw Ed. by exists ls.
      * iApply (lost_add 2 2 with "L L'").
    + change (negb (1 =? 0)) with true. cbv iota.
      destruct (forward_refused st now ss items out us q i d pl m) as (pl' & Ep & Hrep); [by auto..|].
      wp_apply wp_lift_ret; [exact Ep|]. wp_apply (pack_free_spec with "Hl'"). iApply wp_ret.
      iApply ("HΦ" $! (set_pool (after_send (set_next (set_pool st pl) m) (set_id q i) d false) pl') 2%nat with "[] Hl Hm L").
      iPureIntro. split_and!; [|split; [by split|unfold Session.queued; cbn; lia]|done|lia]. right. exists i, d. do 3 (split; [done|]).
      split; [unfold offered; by rw Ed|]. by rw Ed.
Qed.

Lemma handle_query_at now cap st last ss items out us q src l ls (Φ : server M C → mprop) :
  srv_rep st last ss items out us → last ≤ now → Session.queued (factory st) < 2 ^ 30 →
  packet_is_query q = true → Resolver.query_ok q ls →
  (∀ r, Resolver.local_answer now items q ls = Some r → sendable (send_buf st) r) →
  sendable (send_buf st) (Resolver.reply q RCODE_SERVFAIL) →
  (∀ i, is_u16 i → sendable (send_buf st) (set_id q i)) →
  pack_at l q -∗ server_mem cap st items -∗
  (∀ st' items' n, <affine> ⌜handled now st last ss items out us q src ls st' items' ∧ follows st st' ∧ (n ≤ 4)%nat⌝ -∗
    pack_at l q -∗ server_mem cap st' items' -∗ lost_vectors n -∗ Φ (bare st')) -∗
  wp (handle_dns_packet now (bare st) l src) Φ.
Proof.
  iIntros (Hst Hnow Hsz Hqr Hok Hr Hse Hsr) "Hl [Hss Hg] HΦ". unfold handle_dns_packet.
  wp_apply (wp_get_pack with "Hl"). iIntros (o) "%Ho Hl". iDestruct (parts_pack with "Hl") as "Hl". rw Ho.
  change (packet_is_query (MkPacket (header q) [] [])) with (packet_is_query q). rw Hqr.
  iDestruct (held_items with "Hg") as "Hg".
  wp_apply (try_response_at with "Hl Hg"); [apply Hst|done|]. iIntros (r gh items' [Hi' Hs']) "Hl Hg Ha".
  iDestruct (items_held with "Hg") as (c) "[%Hc Hg]". destruct Hc as [-> Hc].
  set (st1 := set_cache st (Some c)).
  assert (Hst1 : srv_rep st1 last ss items' out us) by (by apply (set_cache_rep st last ss items)).
  assert (Hf1 : follows st st1) by (split; [by split|unfold Session.queued; cbn; lia]).
  change (set_cache (bare st) (Some (CacheHeap.bare c))) with (bare st1).
  unfold handled. destruct (Resolver.local_answer now items q ls) as [a|]; destruct r as [la|];
    [|iDestruct "Ha" as "[]"..|]; cbn [Resolver.direction_of].
  - iDestruct "Ha" as "[Ha L]". wp_apply wp_lift_ret; [done|].
    iApply (send_and_free st1 with "Ha"); [by apply Hr|]. iApply wp_ret. iApply ("HΦ" with "[] Hl [Hss Hg] L").
    + iPureIntro. split_and!; [done|by apply after_send_rep; [apply Hr|]|exact (after_send_sent st1 a src _)| |].
      * destruct Hf1 as [[] ?]. split; by destruct (deliverable _ _ _).
      * unfold response_cost. destruct (answering_value _ _ _ _); lia.
    + unfold server_mem. destruct (deliverable _ _ _); iFrame.
  - iApply (forward_at now st1 with "Hl Hss"); [exact Hst1|done|done|apply Hok|done|done|].
    iIntros (st' n) "%Hf Hl Hss L". destruct Hf as (Hf & [Hfr Hq'] & Eg & Hn). iApply ("HΦ" with "[] Hl [Hss Hg] L").
    + iPureIntro. split_and!; [done|exact Hf| |done]. destruct Hf1 as [Hfr1 Hq1]. split; [by etrans|exact Hq'].
    + unfold server_mem. rw Eg. iFrame.
Qed.
End queries.

(** ** Responses *)

Section responses.
#[local] Set Default Proof Using "Type*".
Context `{AllocTotal, Garbage, Kernel} {M C : Type} `{!MapOps Z loc M, !MapLaws Z loc M, !MapOps (list Z) loc C, !MapLaws (list Z) loc C}.
Implicit Types (st : server M C) (l : loc) (p : DnsPacket) (ss : gmap Z (loc * Session.Session)) (out : gset Z)
  (items : list Cache.item) (us : list (loc * NetEnd)).

Lemma handle_response_at now cap st last ss items out us p src l q ls s c lp (Φ : server M C → mprop) :
  srv_rep st last ss items out us → packet_is_query p = false → ss !! id (header p) = Some (l, s) →
  Resolver.response_ok p q ls → g_cache st = Some c → sendable (send_buf st) (set_id p (Session.client_id s)) →
  pack_at lp p -∗ server_mem cap st items -∗
  (∀ st' items', <affine> ⌜offered st st' (set_id p (Session.client_id s)) (Session.client_ip s) ∧
      items' = items_after (use_cache st) now cap q p items ∧
      srv_rep st' last (delete (id (header p)) ss) items' (out ∖ {[id (header p)]}) us ∧ follows st st'⌝ -∗
    pack_at lp p -∗ server_mem cap st' items' -∗ lost_vectors 2 -∗ Φ (bare st')) -∗
  wp (handle_dns_packet now (bare st) lp src) Φ.
Proof.
  iIntros (Hst Hpr Hi Hr Hc Hsend) "Hl [Hss Hg] HΦ". unfold handle_dns_packet.
  wp_apply (wp_get_pack with "Hl"). iIntros (o) "%Ho Hl". iDestruct (parts_pack with "Hl") as "Hl". rw Ho.
  change (packet_is_query (MkPacket (header p) [] [])) with (packet_is_query p). rw Hpr.
  unfold session_get. iApply wp_bind. wp_apply (wp_get_pack with "Hl"). iIntros (o2) "%Ho2 Hl". iDestruct (parts_pack with "Hl") as "Hl".
  rw Ho2. pose proof (Session.session_get_spec _ _ _ p (s_factory _ _ _ _ _ _ Hst)) as Eget. rw Hi in Eget.
  iApply wp_lift_ret; [exact Eget|]. cbn [fmap option_fmap option_map fst].
  destruct (Session.f_cells _ _ _ (s_factory _ _ _ _ _ _ Hst) _ _ _ Hi) as [Hls _].
  iDestruct (sessions_read _ _ _ Hls with "Hss") as "[(%k & Hs & Hk) Hss]".
  wp_apply (get_session_spec with "Hs"). iIntros "Hs". iSpecialize ("Hss" with "[Hs Hk]"); [iExists k; iFrame|].
  iDestruct (held_items with "Hg") as "Hg".
  wp_apply (response_relay_at with "Hl Hg"); [done|]. iIntros (lo gh) "Hl Hg Hlo L".
  iDestruct (items_held with "Hg") as (c') "[%Hc' Hg]". destruct Hc' as [-> Hc'].
  set (st1 := set_cache st (Some c')). change (set_cache (bare st) (Some (CacheHeap.bare c'))) with (bare st1).
  wp_apply (packet_send_sim (bare st1) with "Hlo"); [by apply (packet_send_spec (bare st1))|]. iIntros "Hlo".
  rw after_send_bare. set (st2 := after_send st1 _ _ _).
  destruct (Session.session_close_spec (factory st) last ss _ l s (s_factory _ _ _ _ _ _ Hst) Hi) as (f' & Ef & Hf').
  assert (Efac : factory st2 = factory st) by (unfold st2; by destruct (deliverable _ _ _)).
  assert (Epool : pool (bare st2) = pool st) by (unfold st2; by destruct (deliverable _ _ _)).
  change (factory (bare st2)) with (SessionHeap.bare (factory st2)). rw Efac Epool.
  wp_apply (session_close_sim with "Hss"); [exact Ef|]. iIntros "Hss".
  assert (Hout : id (header p) ∈ out) by (apply (s_ids _ _ _ _ _ _ Hst); rw Hi; by eexists).
  destruct (IdPool.id_free_inv (pool st) out (id (header p)) (s_pool _ _ _ _ _ _ Hst)) as (pl & Ep & Hpl);
    [by eapply IdPool.inv_out; [apply Hst|]|].
  wp_apply wp_lift_ret; [exact Ep|]. wp_apply (pack_free_spec with "Hlo"). iApply wp_ret.
  iApply ("HΦ" $! (set_pool (set_factory st2 f') pl) with "[] Hl [Hss Hg] L").
  - iPureIntro. split_and!; [exact (after_send_sent st1 _ _ _)|done| |].
    + apply (closed_rep st2 last ss _ out us _ l s); [|done..]. apply after_send_rep; [exact Hsend|].
      apply (set_cache_rep st last ss items); [done| |done]. unfold items_after. destruct (_ =? 0); [apply Hst|].
      apply Resolver.items_good_put; [|apply Hr|apply Hst]. exists (rrs p). split; [done|apply Hr].
    + apply ServerLoop.session_close_queued in Ef. split; [|cbn [factory set_pool set_factory]; lia].
      unfold st2. destruct (deliverable _ _ _); by split.
  - assert (Eg : g_cache (set_pool (set_factory st2 f') pl) = Some c') by (unfold st2; by destruct (deliverable _ _ _)).
    unfold server_mem. rw Eg. iFrame.
Qed.
End responses.
End ServerHeap.
