(* ===== verification/ServerMemory.v ===== *)
(** * The event loop and its memory

    What [ServerHeap.v] says of one packet, composed as [ServerLoop.v] composes
    [Server.v]: packets received and released, the sweep of the timers, turns,
    the loop.  Over well-formed traffic and up to the first hard turn, every object
    counted is one of an open session or of a cached item, or one of the vectors
    that are lost: four at most for each packet received. *)

From iris.proofmode Require Import proofmode.
From S2P Require Import Prelude Heap IdPool LinkedList MapInterface HashMap LazyHeap CString NameCodec Protocol Wire Cache.
From S2P Require Import Resolver Socket Memory WireHeap CacheHeap CacheItems ResolverHeap Session SessionHeap Server ServerLoop ServerHeap.
Import Protocol Socket Server Memory WireHeap CacheItems ResolverHeap SessionHeap ServerHeap.

Module ServerMemory.

Abbreviation stored st := (Session.sessions (factory st)).

(** ** Timers *)

Section timers.
#[local] Set Default Proof Using "Type*".
Context `{AllocTotal, Garbage, Kernel} {M C : Type} `{!MapOps Z loc M, !MapOps (list Z) loc C}.
Implicit Types (st : server M C) (l : loc) (ss : Store Session.Session).

(** The packets of the sessions can be copied. *)
Definition copyable ss : Prop :=
  map_Forall (λ _ s, pack_ok (Session.relay_packet (Session.relay_info s))) (cells ss).

Lemma get_session_at ss l s (Φ : SessionObj → mprop) :
  cells ss !! l = Some s → sessions_mem ss -∗
  (∀ k, pack_at k (Session.relay_packet (Session.relay_info s)) -∗
    (∀ s', pack_at k (Session.relay_packet (Session.relay_info s')) -∗ l ↦ OSession (obj_of k s') -∗
      sessions_mem (MkStore (<[l := s']> (cells ss)) (brk ss))) -∗
    l ↦ OSession (obj_of k s) -∗ Φ (obj_of k s)) -∗
  wp (get_session (Some l)) Φ.
Proof.
  iIntros (Hl) "Hm HΦ". iDestruct (sessions_acc _ _ _ Hl with "Hm") as "[(%k & Hl & Hk) Hm]".
  wp_apply (get_session_spec with "Hl"). iIntros "Hl". iApply ("HΦ" with "Hk [Hm] Hl").
  iIntros (s') "Hk Hl". iApply "Hm". iExists k. iFrame.
Qed.

Lemma resend_sim now st l s st' (Φ : server M C → mprop) :
  Server.do_handle_timeout now st l = Ret st' → cells (stored st) !! l = Some s →
  Session.retry_times (Session.relay_info s) < max_retry_time st →
  sessions_mem (stored st) -∗ (sessions_mem (stored st') -∗ Φ (bare st')) -∗
  wp (do_handle_timeout now (bare st) l) Φ.
Proof.
  unfold Server.do_handle_timeout. intros E Hl Hr. rw (load_Some _ _ _ Hl) in E. cbn [mbind Res_bind] in E.
  rw Z.geb_leb (proj2 (Z.leb_gt _ _) Hr) in E.
  apply bind_Ret_inv in E as ([d st1] & Ep & ([r st2] & Es & (st3 & Ec & (f & Ew & E)%bind_Ret_inv)%bind_Ret_inv)%bind_Ret_inv).
  injection E as <-. destruct (ServerLoop.pick_upstream_framed _ _ _ Ep) as [_ Ef1].
  destruct (ServerLoop.packet_send_framed _ _ _ _ _ Es) as [_ Ef2].
  unfold Server.set_session in Ec. rw Ef2 Ef1 (store_Some _ _ (Server.count_retry s) _ Hl) in Ec. injection Ec as <-.
  iIntros "Hm HΦ". unfold do_handle_timeout. wp_apply (get_session_at with "Hm"); [exact Hl|]. iIntros (k) "Hk Hm Hl".
  wp_apply (relay_id_spec with "Hk"). iIntros "Hk". cbn [s_retries obj_of].
  change (max_retry_time (bare st)) with (max_retry_time st). rw Z.geb_leb (proj2 (Z.leb_gt _ _) Hr). cbv iota.
  wp_apply wp_lift_ret; [by apply pick_upstream_bare|]. wp_apply wp_lift_ret; [done|].
  wp_apply (packet_send_sim (bare st1) with "Hk"); [exact (packet_send_bare _ _ _ _ _ Es)|]. iIntros "Hk".
  wp_apply (set_session_spec with "Hl"). iIntros "Hl".
  iDestruct ("Hm" $! (Server.count_retry s) with "Hk Hl") as "Hm".
  change (factory (bare st2)) with (SessionHeap.bare (factory st2)). rw Ef2 Ef1.
  wp_apply (session_wait_sim now (Session.MkFactory _ _ (MkStore _ _)) with "Hm"); [exact Ew|]. iIntros "Hm". iApply wp_ret. by iApply "HΦ".
Qed.

Lemma give_up_sim now st l s st' (Φ : server M C → mprop) :
  Server.do_handle_timeout now st l = Ret st' → cells (stored st) !! l = Some s →
  max_retry_time st ≤ Session.retry_times (Session.relay_info s) →
  pack_ok (Session.relay_packet (Session.relay_info s)) →
  sessions_mem (stored st) -∗ (sessions_mem (stored st') -∗ lost_vectors 1 -∗ Φ (bare st')) -∗
  wp (do_handle_timeout now (bare st) l) Φ.
Proof.
  unfold Server.do_handle_timeout. intros E Hl Hr Hp%(set_id_ok _ (Session.client_id s)).
  rw (load_Some _ _ _ Hl) in E. cbn [mbind Res_bind] in E.
  rw Z.geb_leb (proj2 (Z.leb_le _ _) Hr) in E. unfold Server.set_session in E. rw (store_Some _ _ _ _ Hl) in E.
  cbn [mbind Res_bind] in E. rw (inner_error_spec _ Hp) in E. cbn [mbind Res_bind] in E. set (st1 := set_factory st _) in E.
  apply bind_Ret_inv in E as ([r st2] & Es & (f & Ec & (pl & Ei & E)%bind_Ret_inv)%bind_Ret_inv). injection E as <-.
  destruct (ServerLoop.packet_send_framed _ _ _ _ _ Es) as [_ Ef2]. rw Ef2 in Ec.
  iIntros "Hm HΦ". unfold do_handle_timeout. wp_apply (get_session_at with "Hm"); [exact Hl|]. iIntros (k) "Hk Hm Hl".
  wp_apply (relay_id_spec with "Hk"). iIntros "(%qs & %rs & Hk & Hp)". cbn [s_retries obj_of].
  change (max_retry_time (bare st)) with (max_retry_time st). rw Z.geb_leb (proj2 (Z.leb_le _ _) Hr). cbv iota.
  wp_apply wp_lift_ret; [done|]. wp_apply (set_packet_spec with "Hk"). iIntros "Hk".
  iAssert (pack_at k (set_id (Session.relay_packet (Session.relay_info s)) (Session.client_id s))) with "[Hk Hp]" as "Hk";
    [iExists qs, rs; iFrame|].
  wp_apply (fail_at with "Hk"); [exact Hp|]. iIntros (lf) "Hk [Hf L]".
  iDestruct ("Hm" $! (set_relay_packet s _) with "Hk Hl") as "Hm". change (bare st) with (bare st1).
  wp_apply (packet_send_sim (bare st1) with "Hf"); [exact (packet_send_bare _ _ _ _ _ Es)|]. iIntros "Hf".
  change (factory (bare st2)) with (SessionHeap.bare (factory st2)). rw Ef2.
  wp_apply (session_close_sim (factory st1) with "Hm"); [exact Ec|]. iIntros "Hm".
  wp_apply (pack_free_spec with "Hf"). wp_apply wp_lift_ret; [exact Ei|]. iApply wp_ret. iApply ("HΦ" with "Hm L").
Qed.

(** What a call leaves: [n] sessions are given up. *)
Definition dropped (n : nat) st st' : Prop :=
  copyable (stored st') ∧ (n + base.size (cells (stored st')) = base.size (cells (stored st)))%nat.

Lemma resend_dropped now st l s st' :
  Server.do_handle_timeout now st l = Ret st' → cells (stored st) !! l = Some s →
  Session.retry_times (Session.relay_info s) < max_retry_time st → copyable (stored st) → dropped 0 st st'.
Proof.
  unfold Server.do_handle_timeout. intros E Hl Hr Hc. rw (load_Some _ _ _ Hl) in E. cbn [mbind Res_bind] in E.
  rw Z.geb_leb (proj2 (Z.leb_gt _ _) Hr) in E.
  apply bind_Ret_inv in E as ([d st1] & Ep & ([r st2] & Es & (st3 & Ec & (f & Ew & E)%bind_Ret_inv)%bind_Ret_inv)%bind_Ret_inv).
  injection E as <-. destruct (ServerLoop.pick_upstream_framed _ _ _ Ep) as [_ Ef1].
  destruct (ServerLoop.packet_send_framed _ _ _ _ _ Es) as [_ Ef2].
  unfold Server.set_session in Ec. rw Ef2 Ef1 (store_Some _ _ (Server.count_retry s) _ Hl) in Ec. injection Ec as <-.
  apply Session.session_wait_cells in Ew as (s' & Hs' & Ew). cbn [factory set_factory Session.sessions cells] in Hs', Ew.
  rw lookup_insert_eq in Hs'. injection Hs' as <-. pose proof (Hc _ _ Hl) as Hp. unfold dropped, copyable.
  cbn [factory set_factory]. rw Ew insert_insert_eq. split; [by apply map_Forall_insert_2|].
  by rw map_size_insert_Some.
Qed.

Lemma give_up_dropped now st l s st' :
  Server.do_handle_timeout now st l = Ret st' → cells (stored st) !! l = Some s →
  max_retry_time st ≤ Session.retry_times (Session.relay_info s) → copyable (stored st) → dropped 1 st st'.
Proof.
  unfold Server.do_handle_timeout. intros E Hl Hr Hc. rw (load_Some _ _ _ Hl) in E. cbn [mbind Res_bind] in E.
  rw Z.geb_leb (proj2 (Z.leb_le _ _) Hr) in E. unfold Server.set_session in E. rw (store_Some _ _ _ _ Hl) in E.
  cbn [mbind Res_bind] in E. apply bind_Ret_inv in E as (fail & _ & ([r st2] & Es & (f & Ec & (pl & Ei & E)%bind_Ret_inv)%bind_Ret_inv)%bind_Ret_inv).
  injection E as <-. destruct (ServerLoop.packet_send_framed _ _ _ _ _ Es) as [_ Ef2]. rw Ef2 in Ec.
  apply Session.session_close_cells in Ec as [_ Ec]. cbn [factory set_factory Session.sessions cells] in Ec.
  unfold dropped, copyable. cbn [factory set_factory set_pool]. rw Ec delete_insert_eq.
  split; [by apply map_Forall_delete|]. rw (map_size_delete_Some _ _ (mk_is_Some _ _ Hl)).
  assert (base.size (cells (stored st)) ≠ 0%nat) by (intros Hz%map_size_empty_iff; by rw Hz lookup_empty in Hl). lia.
Qed.

Lemma handle_timeout_sim now st l st' (Φ : server M C → mprop) :
  Server.do_handle_timeout now st l = Ret st' → copyable (stored st) → sessions_mem (stored st) -∗
  (∀ n, <affine> ⌜dropped n st st'⌝ -∗ sessions_mem (stored st') -∗ lost_vectors n -∗ Φ (bare st')) -∗
  wp (do_handle_timeout now (bare st) l) Φ.
Proof.
  iIntros (E Hc) "Hm HΦ". pose proof E as (s & Hl%load_Ret & _)%bind_Ret_inv.
  destruct (decide (max_retry_time st ≤ Session.retry_times (Session.relay_info s))) as [Hr|Hr].
  - iApply (give_up_sim with "Hm"); [done..|exact (Hc _ _ Hl)|]. iIntros "Hm L".
    iApply ("HΦ" with "[] Hm L"). iPureIntro. by eapply give_up_dropped.
  - iApply (resend_sim with "Hm"); [done..|lia|]. iIntros "Hm".
    iApply ("HΦ" $! 0%nat with "[] Hm []"); [|by iApply lost_none]. iPureIntro. eapply resend_dropped; [done..|lia|done].
Qed.

Lemma batch_timeout_sim fuel now st st' (Φ : server M C → mprop) :
  Server.batch_timeout fuel now st = Ret st' → copyable (stored st) → sessions_mem (stored st) -∗
  (∀ n, <affine> ⌜dropped n st st'⌝ -∗ sessions_mem (stored st') -∗ lost_vectors n -∗ Φ (bare st')) -∗
  wp (batch_timeout fuel now (bare st)) Φ.
Proof.
  revert st Φ. induction fuel as [|fuel IH]; intros st Φ ([p f] & Ep & E)%bind_Ret_inv Hc; iIntros "Hm HΦ";
    cbn [batch_timeout]; pose proof (Session.session_peek_cells _ _ _ Ep) as Hcf;
    change (factory (bare st)) with (SessionHeap.bare (factory st));
    (wp_apply (session_peek_sim with "Hm"); [exact Ep|]); iIntros "Hm"; cbv zeta in E |- *;
    change (set_factory (bare st) (SessionHeap.bare f)) with (bare (set_factory st f)).
  all: assert (Hd : dropped 0 st (set_factory st f)) by (unfold dropped, copyable; cbn [factory set_factory]; by rw Hcf).
  all: destruct p as [l|]; [|injection E as <-; iApply wp_ret; iApply ("HΦ" $! 0%nat with "[//] Hm"); iApply lost_none].
  all: apply bind_Ret_inv in E as (r & Er & (t & Et & E)%bind_Ret_inv).
  all: wp_apply (timeout_remain_sim with "Hm"); [exact Er|]; iIntros "Hm"; wp_apply wp_lift_ret; [exact Et|].
  all: simpl in E |- *; destruct (t >? 0); [injection E as <-; iApply wp_ret; iApply ("HΦ" $! 0%nat with "[//] Hm"); iApply lost_none|].
  { done. }
  apply bind_Ret_inv in E as (st1 & E1 & E).
  wp_apply (handle_timeout_sim _ (set_factory st f) with "Hm"); [exact E1|apply Hd|]. iIntros (n) "%Hn Hm L".
  iApply (IH with "Hm"); [exact E|apply Hn|]. iIntros (n') "%Hn' Hm L'".
  iApply ("HΦ" $! (n + n')%nat with "[] Hm [L L']"); [|iApply (lost_add with "L L'")].
  iPureIntro. destruct Hd as [_ Hd], Hn as [_ Hn], Hn' as [Hc' Hn']. split; [done|lia].
Qed.
End timers.

(** ** Packets *)

Section packets.
#[local] Set Default Proof Using "Type*".
Context `{AllocTotal, Garbage, Kernel} {M C : Type} `{!MapOps Z loc M, !MapLaws Z loc M, !MapOps (list Z) loc C, !MapLaws (list Z) loc C}.
Context (Q R : DnsPacket → Prop) (V : Cache.CacheValue → Prop) (began : Z).
Implicit Types (st : server M C) (l : loc) (p : DnsPacket) (ss : gmap Z (loc * Session.Session)) (out : gset Z)
  (items : list Cache.item) (us : list (loc * NetEnd)).
Abbreviation serving := (ServerLoop.serving V began).
#[local] Existing Instance ServerLoop.framed_preorder.

Lemma pack_recv_sim fuel st r c v src st' (Φ : Z * option loc * NetEnd * server M C → mprop) :
  Server.pack_recv fuel st r = Ret (c, v, src, st') →
  (∀ w, v = Some w → Z.of_nat (length (questions w)) < 2 ^ 30 ∧ Z.of_nat (length (rrs w)) < 2 ^ 30) →
  (∀ o, match o, v with Some l, Some w => pack_at l w | None, None => emp | _, _ => False end -∗ Φ (c, o, src, bare st')) -∗
  wp (pack_recv fuel (bare st) r) Φ.
Proof.
  intros ([[len buf] src'] & E1 & E)%bind_Ret_inv Hsz. iIntros "HΦ". unfold pack_recv.
  wp_apply wp_lift_ret; [exact E1|]. cbv zeta in E |- *. simpl in E |- *.
  destruct (len =? 0); [injection E as <- <- <- <-; iApply wp_ret; by iApply "HΦ"|].
  destruct (len =? -1); [injection E as <- <- <- <-; iApply wp_ret; by iApply "HΦ"|].
  apply bind_Ret_inv in E as (w & Ew & E). injection E as <- <- <- <-.
  wp_apply (pack_deserialize_sim); [exact Ew|exact Hsz|]. iIntros (o) "Ho".
  iApply wp_ret. destruct o, w; try (iDestruct "Ho" as %[]); by iApply "HΦ".
Qed.

Lemma unknown_at now st last ss items out us p src l (Φ : server M C → mprop) :
  srv_rep st last ss items out us → packet_is_query p = false → ss !! id (header p) = None →
  pack_at l p -∗ (pack_at l p -∗ Φ (bare st)) -∗ wp (handle_dns_packet now (bare st) l src) Φ.
Proof.
  iIntros (Hst Hp Hi) "Hl HΦ". unfold handle_dns_packet, session_get.
  wp_apply (wp_get_pack with "Hl"). iIntros (o) "%Ho Hl". iDestruct (parts_pack with "Hl") as "Hl". rw Ho.
  change (packet_is_query (MkPacket (header p) [] [])) with (packet_is_query p). rw Hp.
  iApply wp_bind. wp_apply (wp_get_pack with "Hl"). iIntros (o2) "%Ho2 Hl". iDestruct (parts_pack with "Hl") as "Hl".
  rw Ho2. pose proof (Session.session_get_spec _ _ _ p (s_factory _ _ _ _ _ _ Hst)) as Eget. rw Hi in Eget.
  iApply wp_lift_ret; [exact Eget|]. iApply wp_ret. by iApply "HΦ".
Qed.

Lemma packet_at now cap st last ss items out us p src l (Φ : server M C → mprop) :
  ServerLoop.traffic Q R V → serving st last ss items out us → last ≤ now → Session.queued (factory st) < 2 ^ 30 →
  Q p ∨ R p → is_u16 (id (header p)) →
  pack_at l p -∗ server_mem cap st items -∗
  (∀ st' ss' items' out' n, <affine> ⌜serving st' now ss' items' out' us ∧ follows st st' ∧ (n ≤ 4)%nat⌝ -∗
    pack_at l p -∗ server_mem cap st' items' -∗ lost_vectors n -∗ Φ (bare st')) -∗
  wp (handle_dns_packet now (bare st) l src) Φ.
Proof.
  iIntros (Ht Hv Hnow Hsz HQR Hid) "Hl Hm HΦ". pose proof (ServerLoop.v_rep _ _ _ _ _ _ _ _ Hv) as Hst. destruct HQR as [Hq|Hr].
  - destruct (ServerLoop.t_query _ _ _ Ht p Hq) as [Hqr [ls Hok]].
    destruct (ServerLoop.query_light Q R V began st last ss items out us now p ls Ht Hv Hq) as (Hr & Hse & Hsr).
    iApply (handle_query_at with "Hl Hm"); [done..|]. iIntros (st' items' n) "%Hh Hl Hm L". destruct Hh as (Hh & Hf & Hn).
    destruct (ServerLoop.handled_serving Q R V began st last ss items out us now p src ls st' items')
      as (ss' & out' & Hv'); [done..|apply Hf|done|]. iApply ("HΦ" with "[//] Hl Hm L").
  - destruct (ServerLoop.t_response _ _ _ Ht p Hr) as [Hqr (question & ls & Hok)].
    destruct (ServerLoop.v_cache _ _ _ _ _ _ _ _ Hv) as [c Hc]. pose proof (ServerLoop.v_began _ _ _ _ _ _ _ _ Hv).
    destruct (ss !! id (header p)) as [[ls' s]|] eqn:Ei.
    + pose proof (ServerLoop.so_client _ _ _ (ServerLoop.v_sessions _ _ _ _ _ _ _ _ Hv _ _ _ Ei)) as Hcl.
      iApply (handle_response_at with "Hl Hm"); [done..| |].
      { by apply (ServerLoop.light_at _ _ _ _ _ _ _ Hst), (ServerLoop.t_answer _ _ _ Ht). }
      iIntros (st' items') "%Hh Hl Hm L". destruct Hh as (_ & -> & Hrep & Hf). iApply ("HΦ" with "[] Hl Hm L"). iPureIntro.
      split_and!; [|exact Hf|lia]. eapply ServerLoop.serving_frame; [exact Hv|apply Hf|lia|by eapply srv_rep_later| |].
      * intros j l' s' Hj. apply lookup_delete_Some in Hj as [_ Hj]. by eapply ServerLoop.v_sessions.
      * unfold items_after. pose proof (ServerLoop.v_items _ _ _ _ _ _ _ _ Hv).
        destruct (_ =? 0); [done|]. apply Cache.lru_put_Forall; [by apply Ht|done].
    + iApply (unknown_at with "Hl"); [done..|]. iIntros "Hl".
      iApply ("HΦ" $! st ss items out 0%nat with "[] Hl Hm"); [|iApply lost_none]. iPureIntro.
      split_and!; [by eapply ServerLoop.serving_later| |lia]. split; [reflexivity|lia].
Qed.

Lemma drain_at cap fuel now rs st last ss items out us (Φ : server M C → mprop) :
  ServerLoop.traffic Q R V → serving st last ss items out us → last ≤ now →
  Forall (ServerLoop.incoming Q R fuel) rs → Session.queued (factory st) + Z.of_nat (length rs) < 2 ^ 30 →
  server_mem cap st items -∗
  (∀ st' ss' items' out' n, <affine> ⌜serving st' now ss' items' out' us ∧
      ServerLoop.paced (Z.of_nat (length rs)) st st' ∧ (n ≤ 4 * length rs)%nat⌝ -∗ server_mem cap st' items' -∗ lost_vectors n -∗ Φ (bare st')) -∗
  wp (drain fuel now (bare st) rs) Φ.
Proof.
  intros Ht. revert st last ss items out Φ. induction rs as [|r rs IH]; intros st last ss items out Φ Hv Hnow Hin Hsz;
    iIntros "Hm HΦ"; cbn [drain]; pose proof (ServerLoop.serving_later _ _ _ _ _ _ _ _ _ Hnow Hv) as Hlast.
  { iApply wp_ret. iApply ("HΦ" $! st ss items out 0%nat with "[] Hm"); [|iApply lost_none]. iPureIntro. split_and!; [done|split; [done..|simpl; lia]|lia]. }
  apply Forall_cons in Hin as [Hr Hin]. rw length_cons in Hsz |- *. pose proof (ServerLoop.v_recv _ _ _ _ _ _ _ _ Hv) as Hbuf.
  destruct r as [bytes a port| |].
  2,3: wp_apply pack_recv_sim; [reflexivity|done|]; iIntros ([lp|]) "Hp"; [iDestruct "Hp" as %[]|]; iApply wp_ret;
    iApply ("HΦ" $! (set_recv_buf st (recv_buf st)) ss items out 0%nat with "[] Hm"); [|iApply lost_none]; iPureIntro;
    split_and!; [by apply ServerLoop.recv_serving|split; [done..|cbn [factory set_recv_buf]; lia]|lia].
  destruct Hr as (p & -> & Hp & H512 & Hf & HQR).
  destruct (ServerLoop.pack_recv_spec fuel st p a port Hp H512 Hbuf Hf) as (buf & E & Hb). set (src := source_of _ _ _) in E.
  wp_apply pack_recv_sim; [exact E|by intros w [= <-]; apply Wire.wire_lengths|]. iIntros ([lp|]) "Hp"; [|iDestruct "Hp" as %[]].
  wp_apply (packet_at now cap (set_recv_buf st buf) with "Hp Hm"); [done|by apply ServerLoop.recv_serving|lia|cbn [factory set_recv_buf]; lia|done|by apply Hp|].
  iIntros (st1 ss1 items1 out1 n) "%Hx Hp Hm L". destruct Hx as (Hv1 & [Hfr Hq1] & Hn).
  pose proof (ServerLoop.framed_paced 1 _ _ Hfr Hq1) as Hp1. cbn [factory set_recv_buf] in Hq1.
  wp_apply (pack_free_spec with "Hp"). iApply (IH with "Hm"); [exact Hv1|lia|done|lia|].
  iIntros (st2 ss2 items2 out2 n2) "%Hy Hm L2". destruct Hy as (Hv2 & Hp2 & Hn2).
  iApply ("HΦ" $! st2 ss2 items2 out2 (n + n2)%nat with "[] Hm [L L2]"); [|iApply (lost_add with "L L2")].
  iPureIntro. split_and!; [done| |lia].
  eapply ServerLoop.paced_weaken; [|eapply (ServerLoop.paced_trans 1 _ st st1); [destruct Hp1; by split|exact Hp2]]. lia.
Qed.

Lemma select_at cap st last ss items out us before (Φ : option (Z * Z) * server M C → mprop) :
  serving st last ss items out us → server_mem cap st items -∗
  (∀ timeout st', <affine> ⌜serving st' last ss items out us ∧ ServerLoop.paced 0 st st'⌝ -∗
    server_mem cap st' items -∗ Φ (timeout, bare st')) -∗
  wp (select_timeout before (bare st)) Φ.
Proof.
  iIntros (Hv) "[Hss Hg] HΦ". pose proof (ServerLoop.v_rep _ _ _ _ _ _ _ _ Hv) as Hst. unfold select_timeout.
  destruct (Session.session_peek_spec _ _ _ (s_factory _ _ _ _ _ _ Hst)) as (r & f & E & Hf & _ & Hr).
  change (factory (bare st)) with (SessionHeap.bare (factory st)).
  wp_apply (session_peek_sim with "Hss"); [exact E|]. iIntros "Hss".
  assert (Hv' : serving (set_factory st f) last ss items out us).
  { eapply ServerLoop.serving_frame; [exact Hv|by split|by eapply ServerLoop.v_began|by apply set_factory_rep|
      by eapply ServerLoop.v_sessions|by eapply ServerLoop.v_items]. }
  assert (Hp : ServerLoop.paced 0 st (set_factory st f)).
  { apply Session.session_peek_queued in E. split; [done..|cbn [factory set_factory]; lia]. }
  clear E. destruct r as [l|].
  - destruct Hr as (i & s & Hi & _). pose proof (Session.timeout_remain_spec _ _ _ _ _ _ before (request_timeout st) Hf Hi) as Er.
    iApply wp_bind. wp_apply (timeout_remain_sim with "Hss"); [exact Er|]. iIntros "Hss". iApply wp_lift_ret; [done|].
    iApply wp_ret. iApply ("HΦ" $! _ (set_factory st f) with "[//] [Hss Hg]"). iFrame.
  - iApply wp_bind. iApply wp_ret. iApply wp_ret. iApply ("HΦ" $! _ (set_factory st f) with "[//] [Hss Hg]"). iFrame.
Qed.

Lemma sessions_size f last ss :
  Session.sf_rep f last ss → base.size (cells (Session.sessions f)) = base.size ss.
Proof.
  intros Hf%Session.session_list%Permutation_length. by rw length_fmap !length_map_to_list in Hf.
Qed.

Lemma sessions_copyable st last ss items out us : serving st last ss items out us → copyable (stored st).
Proof.
  intros Hv l s Hl. pose proof (ServerLoop.v_rep _ _ _ _ _ _ _ _ Hv) as Hst.
  pose proof (Session.f_all _ _ _ (s_factory _ _ _ _ _ _ Hst) _ _ Hl) as Hi.
  destruct (ServerLoop.v_sessions _ _ _ _ _ _ _ _ Hv _ _ _ Hi) as [_ _ Hlight _].
  apply Wire.wire_pack_ok. destruct (Hlight (send_buf st)) as [? _]; [apply Hst|done].
Qed.

(** A sweep that gives no session up loses nothing. *)
Lemma sweep_at cap fuel now st last ss items out us (Φ : server M C → mprop) :
  serving st last ss items out us → last ≤ now →
  ¬ ServerLoop.spent (request_timeout st) (max_retry_time st) now ss →
  65536 ≤ Z.of_nat fuel → Session.queued (factory st) + 65536 < 2 ^ 30 →
  server_mem cap st items -∗
  (∀ st', <affine> ⌜serving st' now (sweep (request_timeout st) now ss) items out us ∧ ServerLoop.paced 65536 st st'⌝ -∗
    server_mem cap st' items -∗ Φ (bare st')) -∗
  wp (batch_timeout fuel now (bare st)) Φ.
Proof.
  iIntros (Hv Hnow Hs Hfuel Hsz) "[Hss Hg] HΦ".
  destruct (ServerLoop.sweep_step V began fuel st last ss items out us now) as (st' & E & Hv' & Hp); [done..|].
  pose proof (sessions_copyable _ _ _ _ _ _ Hv) as Hc.
  iApply (batch_timeout_sim with "Hss"); [exact E|exact Hc|]. iIntros (n) "%Hn Hss L". destruct Hn as [_ Hn].
  rw (sessions_size _ _ _ (s_factory _ _ _ _ _ _ (ServerLoop.v_rep _ _ _ _ _ _ _ _ Hv))) in Hn.
  rw (sessions_size _ _ _ (s_factory _ _ _ _ _ _ (ServerLoop.v_rep _ _ _ _ _ _ _ _ Hv'))) in Hn.
  unfold sweep in Hn. rw map_size_fmap in Hn. assert (n = 0%nat) as -> by lia.
  iApply ("HΦ" $! st' with "[//]"). unfold server_mem. rw (ServerLoop.batch_timeout_cache _ _ _ _ E).
  iFrame.
Qed.

(** ** Counting *)

Definition session_weight (s : Session.Session) : nat := 1 + pack_weight (Session.relay_packet (Session.relay_info s)).
Definition server_weight ss items : nat :=
  sum_list_with (λ e, session_weight e.2) (map_to_list ss).*2 + cache_weight items.

#[export] Instance session_weighs l s : Weighs (session_at l s) (session_weight s).
Proof. unfold session_weight. weigh session_at. Qed.

Lemma sessions_weigh f last ss :
  Session.sf_rep f last ss →
  Weighs (sessions_mem (Session.sessions f)) (sum_list_with (λ e, session_weight e.2) (map_to_list ss).*2).
Proof.
  intros Hf%Session.session_list. unfold sessions_mem.
  eapply weighs_eq; [|exact (sum_list_with_Permutation_proper (λ e, session_weight e.2) _ _ Hf)].
  eapply weighs_mono; [rw big_opM_map_to_list; reflexivity|].
  apply (weighs_sum (λ e, session_at e.1 e.2) (λ e, session_weight e.2)). intros [l s]. apply _.
Qed.

Lemma server_weighs cap st last ss items out us n :
  srv_rep st last ss items out us →
  Weighs (server_mem cap st items ∗ lost_vectors n) (server_weight ss items + n).
Proof.
  intros Hst. eapply weighs_sep; [|apply _]. apply (weighs_sep _ _ _ _ (sessions_weigh _ _ _ (s_factory _ _ _ _ _ _ Hst))).
  eapply weighs_mono; [apply held_items|apply _].
Qed.

(** ** The loop *)

(** How many packets a turn can bring. *)
Definition arrivals (t : ServerLoop.turn) : nat := match t.2 with Some (_, rs) => length rs | None => 0 end.

(** [st], with the memory [m], and the rest of the memory. *)
Definition in_memory cap st items n (m : Store object) rest : Prop :=
  owns m (server_mem cap st items ∗ lost_vectors n)%I rest.

(** [ServerLoop.hard], of a server in memory. *)
Definition hard fuel us cap st (m : Store object) (rest : gmap loc object) (t : ServerLoop.turn) : Prop :=
  match t.2 with
  | None => False
  | Some (now, rs) =>
      2 ^ 30 ≤ Session.queued (factory st) + Z.of_nat (length rs) + 65536 ∨
      ∃ timeout st1 m1 st2 m2 ss items out n, select_timeout t.1 (bare st) m = Ret ((timeout, bare st1), m1) ∧
        drain fuel now (bare st1) rs m1 = Ret (bare st2, m2) ∧
        in_memory cap st2 items n m2 rest ∧ srv_rep st2 now ss items out us ∧
        ServerLoop.spent (request_timeout st2) (max_retry_time st2) now ss ∧
        (max_retry_time st + 1) * request_timeout st ≤ now - began
  end.

Lemma select_in cap before st last ss items out us n m rest :
  serving st last ss items out us → in_memory cap st items n m rest →
  ∃ timeout st' m', select_timeout before (bare st) m = Ret ((timeout, bare st'), m') ∧
    serving st' last ss items out us ∧ ServerLoop.paced 0 st st' ∧ in_memory cap st' items n m' rest.
Proof.
  intros Hv Hm. destruct (wp_run (select_timeout before (bare st)) (server_mem cap st items ∗ lost_vectors n)
    (λ r, ∃ st', <affine> ⌜r.2 = bare st' ∧ serving st' last ss items out us ∧ ServerLoop.paced 0 st st'⌝ ∗ server_mem cap st' items ∗ lost_vectors n)%I
    m rest) as ([timeout r] & m' & E & [st' Hm']%owns_exist); [|exact Hm|].
  { iIntros "[Hm L]". iApply (select_at with "Hm"); [exact Hv|]. iIntros (t st') "%Hx Hm". destruct Hx. iExists st'. by iFrame. }
  apply owns_pure in Hm' as [(Er & ? & ?) Hm']. cbn [snd] in Er. subst r. by exists timeout, st', m'.
Qed.

Lemma drain_in cap fuel now rs st last ss items out us n m rest :
  ServerLoop.traffic Q R V → serving st last ss items out us → in_memory cap st items n m rest → last ≤ now →
  Forall (ServerLoop.incoming Q R fuel) rs → Session.queued (factory st) + Z.of_nat (length rs) < 2 ^ 30 →
  ∃ st' m' ss' items' out' n', drain fuel now (bare st) rs m = Ret (bare st', m') ∧
    serving st' now ss' items' out' us ∧ ServerLoop.paced (Z.of_nat (length rs)) st st' ∧
    in_memory cap st' items' n' m' rest ∧ (n' ≤ n + 4 * length rs)%nat.
Proof.
  intros Ht Hv Hm Hnow Hin Hsz. destruct (wp_run (drain fuel now (bare st) rs) (server_mem cap st items ∗ lost_vectors n)
    (λ r, ∃ st' ss' items' out' n', <affine> ⌜r = bare st' ∧ serving st' now ss' items' out' us ∧
      ServerLoop.paced (Z.of_nat (length rs)) st st' ∧ (n' ≤ n + 4 * length rs)%nat⌝ ∗
      server_mem cap st' items' ∗ lost_vectors n')%I m rest) as (r & m' & E & Hm'); [|exact Hm|].
  { iIntros "[Hm L]". iApply (drain_at with "Hm"); [exact Ht|exact Hv|exact Hnow|exact Hin|exact Hsz|].
    iIntros (st' ss' items' out' n') "%Hx Hm L'". destruct Hx as (? & ? & ?). iExists st', ss', items', out', (n + n')%nat.
    iFrame. iSplit; [|iApply (lost_add with "L L'")]. iPureIntro. split_and!; [done..|lia]. }
  apply owns_exist in Hm' as [st' [ss' [items' [out' [n' Hm']%owns_exist]%owns_exist]%owns_exist]%owns_exist].
  apply owns_pure in Hm' as [(-> & ? & ? & ?) Hm']. by exists st', m', ss', items', out', n'.
Qed.

Lemma sweep_in cap fuel now st last ss items out us n m rest :
  serving st last ss items out us → in_memory cap st items n m rest → last ≤ now →
  ¬ ServerLoop.spent (request_timeout st) (max_retry_time st) now ss →
  65536 ≤ Z.of_nat fuel → Session.queued (factory st) + 65536 < 2 ^ 30 →
  ∃ st' m' ss', batch_timeout fuel now (bare st) m = Ret (bare st', m') ∧
    serving st' now ss' items out us ∧ ServerLoop.paced 65536 st st' ∧ in_memory cap st' items n m' rest.
Proof.
  intros Hv Hm Hnow Hs Hfuel Hsz.
  destruct (wp_run (batch_timeout fuel now (bare st)) (server_mem cap st items ∗ lost_vectors n)
    (λ r, ∃ st', <affine> ⌜r = bare st' ∧ serving st' now (sweep (request_timeout st) now ss) items out us ∧ ServerLoop.paced 65536 st st'⌝ ∗
      server_mem cap st' items ∗ lost_vectors n)%I m rest) as (r & m' & E & [st' Hm']%owns_exist); [|exact Hm|].
  { iIntros "[Hm L]". iApply (sweep_at with "Hm"); [done..|]. iIntros (st') "%Hx Hm". iExists st'. by iFrame. }
  apply owns_pure in Hm' as [(-> & ? & ?) Hm']. by eexists st', m', _.
Qed.

Lemma turn_in fuel cap before now rs st last ss items out us n m rest :
  ServerLoop.traffic Q R V → serving st last ss items out us → in_memory cap st items n m rest → last ≤ now →
  Forall (ServerLoop.incoming Q R fuel) rs → 65536 ≤ Z.of_nat fuel →
  hard fuel us cap st m rest (before, Some (now, rs)) ∨
  ∃ timeout st1 m1 st' m' ss' items' out' n', select_timeout before (bare st) m = Ret ((timeout, bare st1), m1) ∧
    server_turn fuel now rs (bare st1) m1 = Ret (bare st', m') ∧ serving st' now ss' items' out' us ∧
    ServerLoop.paced (Z.of_nat (length rs) + 65536) st st' ∧ in_memory cap st' items' n' m' rest ∧ (n' ≤ n + 4 * length rs)%nat.
Proof.
  intros Ht Hv Hm Hnow Hin Hfuel.
  destruct (decide (2 ^ 30 ≤ Session.queued (factory st) + Z.of_nat (length rs) + 65536)) as [Hc|Hc]; [by left; left|].
  destruct (select_in cap before st last ss items out us n m rest Hv Hm) as (timeout & st1 & m1 & E1 & Hv1 & Hp1 & Hm1).
  pose proof (ServerLoop.pc_queue _ _ _ Hp1).
  destruct (drain_in cap fuel now rs st1 last ss items out us n m1 rest Ht Hv1 Hm1 Hnow Hin)
    as (st2 & m2 & ss2 & items2 & out2 & n2 & E2 & Hv2 & Hp2 & Hm2 & Hn2); [lia|].
  pose proof (ServerLoop.pc_queue _ _ _ Hp2). pose proof (ServerLoop.paced_trans _ _ _ _ _ Hp1 Hp2) as Hp.
  destruct (decide (ServerLoop.spent (request_timeout st2) (max_retry_time st2) now ss2)) as [Hs|Hs].
  - left. right. exists timeout, st1, m1, st2, m2, ss2, items2, out2, n2.
    split_and!; [done|done|done|apply Hv2|done|]. destruct Hp as [<- <- _]. by eapply ServerLoop.spent_late.
  - destruct (sweep_in cap fuel now st2 now ss2 items2 out2 us n2 m2 rest Hv2 Hm2) as (st3 & m3 & ss3 & E3 & Hv3 & Hp3 & Hm3);
      [lia|done|done|lia|].
    right. exists timeout, st1, m1, st3, m3, ss3, items2, out2, n2.
    split_and!; [done| |done| |done|done]; [unfold server_turn, mbind, Cmd_bind; by rw E2|].
    eapply ServerLoop.paced_weaken; [|exact (ServerLoop.paced_trans _ _ _ _ _ Hp Hp3)]. lia.
Qed.

Lemma light_gone_through fuel us cap st st' m rest past future :
  ServerLoop.paced (ServerLoop.load past) st st' →
  future = [] ∨ (∃ t future', future = t :: future' ∧ hard fuel us cap st' m rest t) →
  Forall (ServerLoop.early began (request_timeout st) (max_retry_time st)) (past ++ future) →
  Session.queued (factory st) + ServerLoop.load (past ++ future) < 2 ^ 30 → future = [].
Proof.
  intros Hp [|(t & rest' & -> & Hh)] He Hl; [done|].
  pose proof (ServerLoop.early_light _ _ _ _ _ _ Hp He Hl) as Hlight. unfold hard in Hh.
  destruct (t.2) as [[now rs]|]; [|done]. destruct Hh as [Hh|(? & ? & ? & ? & ? & ? & ? & ? & ? & _ & _ & _ & _ & _ & Hh)]; lia.
Qed.

(** The turns the loop gets through, with the memory it has then. *)
Lemma loop_in fuel cap turns st last ss items out us n m rest :
  ServerLoop.traffic Q R V → serving st last ss items out us → in_memory cap st items n m rest →
  ServerLoop.orderly Q R fuel last turns → 65536 ≤ Z.of_nat fuel →
  ∃ past future timeouts st' m' last' ss' items' out' n', turns = past ++ future ∧
    server_loop fuel past (bare st) m =
      Ret ((timeouts, if existsb ServerLoop.select_failed past then Some (-1) else None, bare st'), m') ∧
    serving st' last' ss' items' out' us ∧ ServerLoop.paced (ServerLoop.load past) st st' ∧ in_memory cap st' items' n' m' rest ∧
    (n' ≤ n + 4 * sum_list_with arrivals past)%nat ∧
    (future = [] ∨ ∃ t future', future = t :: future' ∧ hard fuel us cap st' m' rest t).
Proof.
  intros Ht. revert st last ss items out n m.
  induction turns as [|[before [[now rs]|]] turns IH]; intros st last ss items out n m Hv Hm Ho Hfuel.
  - exists [], [], [], st, m, last, ss, items, out, n. split_and!; [done..|split; [done..|simpl; lia]|done|simpl; lia|by left].
  - cbn [ServerLoop.orderly] in Ho. destruct Ho as (Hnow & Hin & Ho).
    destruct (turn_in fuel cap before now rs st last ss items out us n m rest Ht Hv Hm Hnow Hin Hfuel)
      as [Hh|(timeout & st1 & m1 & st2 & m2 & ss2 & items2 & out2 & n2 & E1 & E2 & Hv2 & Hp2 & Hm2 & Hn2)].
    { eexists [], _, [], st, m, last, ss, items, out, n. split_and!; [done..|split; [done..|simpl; lia]|done|simpl; lia|].
      right. by eexists _, _. }
    destruct (IH st2 now ss2 items2 out2 n2 m2 Hv2 Hm2 Ho Hfuel)
      as (past & future & ts & st3 & m3 & last3 & ss3 & items3 & out3 & n3 & -> & E & Hv3 & Hp3 & Hm3 & Hn3 & Hf).
    exists ((before, Some (now, rs)) :: past), future, (timeout :: ts), st3, m3, last3, ss3, items3, out3, n3.
    split_and!; [done| |done|exact (ServerLoop.paced_trans _ _ _ _ _ Hp2 Hp3)|done|cbn [sum_list_with arrivals snd]; lia|done].
    cbn [server_loop existsb ServerLoop.select_failed snd orb]. unfold mbind, Cmd_bind. rw E1 E2. cbn beta iota. by rw E.
  - destruct (select_in cap before st last ss items out us n m rest Hv Hm) as (timeout & st1 & m1 & E1 & Hv1 & Hp1 & Hm1).
    exists ((before, None) :: turns), [], [timeout], st1, m1, last, ss, items, out, n.
    split_and!; [by rw app_nil_r| |done|eapply ServerLoop.paced_weaken; [|exact Hp1]; apply ServerLoop.load_pos|done|lia|by left].
    cbn [server_loop existsb ServerLoop.select_failed snd orb]. unfold mbind, Cmd_bind. by rw E1.
Qed.
End packets.

(** ** Property *)

(** C5. The server and its memory.  Run on one heap, where packets, sessions and
    the entries of the cache are objects and every pointer the code follows is
    followed, the event loop gets through the same traffic as in
    [server_loop_safe]: it never follows a pointer to a released object,
    releases nothing twice, and keeps the same invariant.
    This is for well-formed traffic, and until the first turn that is [hard]: one
    at whose sweep a session has spent its retries (closing it then leaves a
    dangling pointer, [give_up_dangles]), or with 2^30 entries in the queue of
    timers.  It gets through all turns that are early and light enough, as in
    [server_loop_safe].  The objects counted are packets, questions, records,
    vectors, blocks of bytes, sessions and entries of the cache; the nodes of the
    tables, the copies of keys they hold and the elements of the queue are not.
    Whenever the loop has got through some turns, it holds of these the ones of the
    open sessions (an object and a packet each), those of the items of the cache
    and its sentinels, and [n] vectors nothing points to any more, four at most for
    each datagram received: every packet received, copied, answered or sent has
    been released.  The rest of the memory is as it was. *)
Theorem server_owns_its_memory `{AllocTotal, Garbage, Kernel} {M C : Type}
    `{!MapOps Z loc M, !MapLaws Z loc M, !MapOps (list Z) loc C, !MapLaws (list Z) loc C}
    (Q R : DnsPacket → Prop) (V : Cache.CacheValue → Prop) (began : Z) (fuel cap : nat) (turns : list ServerLoop.turn)
    (st : server M C) (last : Z) (ss : gmap Z (loc * Session.Session)) (items : list Cache.item)
    (out : gset Z) (us : list (loc * NetEnd)) (m : Store object) (rest : gmap loc object) :
  ServerLoop.traffic Q R V → ServerLoop.serving V began st last ss items out us → owns m (server_mem cap st items) rest →
  ServerLoop.orderly Q R fuel last turns → 65536 ≤ Z.of_nat fuel →
  ∃ past future timeouts st' m' last' ss' items' out' n, turns = past ++ future ∧
    server_loop fuel past (bare st) m =
      Ret ((timeouts, if existsb ServerLoop.select_failed past then Some (-1) else None, bare st'), m') ∧
    srv_rep st' last' ss' items' out' us ∧ owns m' (server_mem cap st' items' ∗ lost_vectors n)%I rest ∧
    base.size (cells m') = (server_weight ss' items' + n + base.size rest)%nat ∧
    (n ≤ 4 * sum_list_with arrivals past)%nat ∧
    (future = [] ∨ ∃ t future', future = t :: future' ∧ hard began fuel us cap st' m' rest t) ∧
    (Forall (ServerLoop.early began (request_timeout st) (max_retry_time st)) turns →
     Session.queued (factory st) + ServerLoop.load turns < 2 ^ 30 → future = []).
Proof.
  intros Ht Hv Hm Ho Hfuel.
  destruct (loop_in Q R V began fuel cap turns st last ss items out us 0 m rest Ht Hv)
    as (past & future & ts & st' & m' & last' & ss' & items' & out' & n & -> & El & Hv' & Hp & Hm' & Hn & Hf); [|done..|].
  { eapply owns_mono; [|exact Hm]. iIntros "$". iApply lost_none. }
  pose proof (ServerLoop.v_rep _ _ _ _ _ _ _ _ Hv') as Hst'.
  exists past, future, ts, st', m', last', ss', items', out', n. split_and!; [done..| |done|done|].
  - exact (owns_size _ _ _ _ (server_weighs cap st' last' ss' items' out' us n Hst') Hm').
  - by eapply light_gone_through.
Qed.

(** ** A server in memory: a new cache, no sessions *)

Section witness.
#[local] Existing Instances demo_kernel demo_alloc demo_total stable_ops stable_laws ctable_ops ctable_laws.
#[local] Instance demo_garbage : Garbage := 0xDEAD.

Lemma demo_in_memory :
  ∃ (st : server stable ctable) us (m : Store object), ServerLoop.serving ServerLoop.is_demo_value 0 st 0 ∅ [] ∅ us ∧
    Session.queued (factory st) = 0 ∧ max_retry_time st = 5 ∧ request_timeout st = 3000 ∧ owns m (server_mem 1024 st []) ∅.
Proof.
  destruct (wp_run (CacheHeap.cache_create (M := ctable)) emp (λ r, cache_items 1024 r []) empty_store ∅) as (g & m & _ & Hm).
  { iIntros "_". iApply create_items. iIntros ([c|]) "Hc"; [done|]. iDestruct "Hc" as %Hno. by destruct Hno. }
  { split; [apply store_wf_empty|]. by exists ∅. }
  assert (∃ c, Cache.cache_rep c [] ∧ owns m (cache_held 1024 (Some c) []) ∅) as (c & Hc & Hg).
  { eapply owns_mono in Hm; [|apply items_held]. apply owns_exist in Hm as [c Hm].
    apply owns_pure in Hm as [[_ Hc] Hm]. by exists c. }
  destruct (ServerLoop.demo_ready c Hc) as (st & us & Hv & Hq & [Hr Ht] & Eg). exists st, us, m. do 4 (split; [done|]).
  eapply owns_mono; [|exact Hg]. unfold server_mem. rw Eg. iIntros "$". unfold sessions_mem.
  pose proof (sessions_size _ _ _ (s_factory _ _ _ _ _ _ (ServerLoop.v_rep _ _ _ _ _ _ _ _ Hv))) as Hs.
  apply map_size_empty_inv in Hs as ->. by rw big_sepM_empty.
Qed.

Lemma server_owns_its_memory_witness :
  ∃ (st st' : server stable ctable) m m' timeouts items ss n,
    server_loop (Z.to_nat 65536) ServerLoop.demo_turns (bare st) m = Ret ((timeouts, Some (-1), bare st'), m') ∧
    base.size (cells m') = (server_weight ss items + n)%nat ∧ (n ≤ 20)%nat.
Proof.
  destruct demo_in_memory as (st & us & m & Hv & Hq & Hr & Ht & Hm).
  destruct (server_owns_its_memory ServerLoop.is_demo_query ServerLoop.is_demo_response ServerLoop.is_demo_value 0
    (Z.to_nat 65536) 1024 ServerLoop.demo_turns st 0 ∅ [] ∅ us m ∅ ServerLoop.demo_traffic Hv Hm (ServerLoop.demo_orderly _))
    as (past & future & ts & st' & m' & _ & ss & items & _ & n & E & El & _ & _ & Hs & Hn & _ & Hf);
    [rw Z2Nat.id; vm_compute; discriminate|].
  destruct (ServerLoop.demo_early st Hq Hr Ht) as [He Hl]. rw (Hf He Hl) app_nil_r in E. subst past.
  exists st, st', m, m', ts, items, ss, n. split; [exact El|]. split; [rw Hs; by rw Nat.add_0_r|].
  etrans; [exact Hn|]. apply Nat.leb_le. reflexivity.
Defined.
End witness.
End ServerMemory.
