(* ===== verification/Startup.v ===== *)
(** * The start of the program

    [main] of [src/main.c] and [server_start] of [src/server/server.c]: the
    configuration file and the command line are read, the modules initialised
    in their order, the socket bound; what follows is [Server.server_loop].
    [main] is given whole and in two halves: [read_setup] is what it does to the
    configuration, with the platform deciding what the undefined accesses there
    come to, and [serve] is the rest, from the settings read on; [main_serves]
    puts them together on any platform.  The thread of [src/server/daemons.c]
    prunes the cache beside the loop.  The files, the socket and the contents of
    fresh buffers are the machine's. *)

From Stdlib Require String.
From S2P Require Import Prelude IdPool LinkedList CString TextFile MapInterface HashMap Config Ini Utils NameCodec Protocol Cache Resolver Socket Settings IpTable Session Server ServerLoop.
Import Utils Protocol Resolver Config Socket Settings.
Import String.StringSyntax.

Module Startup.

Definition CONFIG_FILE : list Z := lit "./dnsrelay.ini".
Definition SECTION_DNS : list Z := lit "dns".
Definition KEY_IP_TABLE_PATH : list Z := lit "iptable".
Definition VALUE_DEFAULT_IP_TABLE_PATH : list Z := lit "./dnsrelay.txt".

(** [read_file] is [fopen] and the contents, [None] for a file that cannot be
    opened; [fresh_recv] and [fresh_send] are what [malloc] leaves in the buffers. *)
Class Machine := {
  read_file : list Z → option (list Z);
  fresh_recv : nat → Z;
  fresh_send : nat → Z;
}.

(** [Exit]: [main] returns before the loop.  [Running]: the loop is entered with
    this state; [daemon] tells whether the thread was created. *)
Inductive started (A : Type) := Exit (code : Z) | Running (daemon : bool) (socket_holder : Z) (st : A).
Arguments Exit {A} code.
Arguments Running {A} daemon socket_holder st.

Section startup.
Context `{Allocator, Platform, Files, InetPton, Machine, SocketCalls, Socket.Kernel} {MS ME G M C : Type}.
Context `{!MapOps (list Z) loc MS, !MapOps (list Z) loc ME, !MapOps (list Z) loc G}.
Context `{!MapOps Z loc M, !MapOps (list Z) loc C}.
Abbreviation center := (config setting MS ME).
Abbreviation server := (Server.server M C).
Implicit Types (st : center) (sv : server).

(** [socket_create(..) || socket_bind(..)] *)
Definition init_socket : Z * option Z :=
  let '(rc, socket) := socket_create in
  match socket with
  | Some s => if (rc =? 0) && (socket_bind s SERVER_PORT =? 0) then (0, Some s) else (-1, Some s)
  | None => (-1, None)
  end.

Definition is_using_cache (use_cache : Z) : bool := negb (use_cache =? 0).

(** What the modules read from the configuration: the path of the ip table, and
    the settings of the resolver and of the server. *)
Record setup := MkSetup {
  su_table : list Z;
  su_cache : Z;
  su_timeout : Z;
  su_retries : Z;
  su_upstreams : option (LinkedList.LinkedList NetEnd);
}.

(** [server_start] from the check of the upstream servers on.  The last three
    arguments are the state the other modules were left in. *)
Definition server_run (use_cache timeout retries : Z) (ups : option (LinkedList.LinkedList NetEnd))
    (pool : IdPool.id_pool) (f : Session.session_factory M) (g : option (Cache.DnsCache C)) :
    Res (started server) :=
  if LinkedList.linked_list_is_empty ups then Ret (Exit (-1))
  else
    match init_socket with
    | (0, Some socket) =>
        ups ← nonnull ups;
        let recv_buf := fresh_recv <$> seq 0 (Z.to_nat Server.DNS_RECV_BUF_SIZE) in
        let send_buf := fresh_send <$> seq 0 (Z.to_nat Server.DNS_SEND_BUF_SIZE) in
        Ret (Running (is_using_cache use_cache) socket
               (Server.MkServer ups None send_buf recv_buf pool f g use_cache timeout retries []))
    | _ => Ret (Exit (-1))
    end.

Definition server_start (use_cache : Z) (pool : IdPool.id_pool) (f : Session.session_factory M)
    (g : option (Cache.DnsCache C)) st : Res (started server) :=
  '(timeout, retries, ups, st) ← server_settings VALUE_DEFAULT_REQUEST_TIMEOUT VALUE_DEFAULT_MAX_RETRY_TIME None st;
  server_run use_cache timeout retries ups pool f g.

(** [dns_cache_init] with the lookup of its path. *)
Definition cache_init (now : Z) st : Res (Z * option (Cache.DnsCache C) * center) :=
  '(path, st) ← ask SECTION_DNS KEY_IP_TABLE_PATH as_text VALUE_DEFAULT_IP_TABLE_PATH st;
  '(rc, g) ← IpTable.dns_cache_init (G := G) now (read_file path) None;
  Ret (rc, g, st).

(** [argv] without the name of the program.  The return codes of
    [config_load_file] and of [dns_resolver_init] are reported only. *)
Definition main (now : Z) (argv : list (list Z)) : Res (started server) :=
  '(rc, st) ← config_init;
  if negb (rc =? 0) then Ret (Exit 1)
  else
    let '(_, config_file) := param_get_config_file argv CONFIG_FILE in
    '(_, st) ← Ini.config_load_file (read_file config_file) (st : center);
    '(_, st) ← param_inject_config argv st;
    '(rc, _, st) ← logger_init logger_start st;
    if negb (rc =? 0) then Ret (Exit 1)
    else
      let '(rc, pool) := IdPool.id_pool_init in
      if negb (rc =? 0) then Ret (Exit 1)
      else
        '(rc, g, st) ← cache_init now st;
        if negb (rc =? 0) then Ret (Exit 1)
        else
          '(_, use_cache, st) ← dns_resolver_init VALUE_DEFAULT_USE_CACHE st;
          f ← Session.session_factory_init;
          match f with
          | None => Ret (Exit 1)
          | Some f => server_start use_cache pool f g st
          end.

(** [main] without what it does to the configuration, which gave [s]. *)
Definition serve (now : Z) (s : setup) : Res (started server) :=
  let '(rc, pool) := IdPool.id_pool_init in
  if negb (rc =? 0) then Ret (Exit 1)
  else
    '(rc, g) ← IpTable.dns_cache_init (G := G) now (read_file (su_table s)) None;
    if negb (rc =? 0) then Ret (Exit 1)
    else
      f ← Session.session_factory_init;
      match f with
      | None => Ret (Exit 1)
      | Some f => server_run (su_cache s) (su_timeout s) (su_retries s) (su_upstreams s) pool f g
      end.

(** What [main] does to the configuration; [None] when it returns before the
    settings are read. *)
Definition read_setup (argv : list (list Z)) : Res (option setup) :=
  '(rc, st) ← config_init;
  if negb (rc =? 0) then Ret None
  else
    let '(_, config_file) := param_get_config_file argv CONFIG_FILE in
    '(_, st) ← Ini.config_load_file (read_file config_file) (st : center);
    '(_, st) ← param_inject_config argv st;
    '(rc, _, st) ← logger_init logger_start st;
    if negb (rc =? 0) then Ret None
    else
      '(path, st) ← ask SECTION_DNS KEY_IP_TABLE_PATH as_text VALUE_DEFAULT_IP_TABLE_PATH st;
      '(_, use_cache, st) ← dns_resolver_init VALUE_DEFAULT_USE_CACHE st;
      '(timeout, retries, ups, _) ← server_settings VALUE_DEFAULT_REQUEST_TIMEOUT VALUE_DEFAULT_MAX_RETRY_TIME None st;
      Ret (Some (MkSetup path use_cache timeout retries ups)).

(** One turn of [daemon_dnscache_ttl], after its sleep. *)
Definition daemon_turn (now : Z) sv : Res server :=
  '(_, g) ← Cache.dns_cache_prune now (Server.g_cache sv);
  Ret (Server.set_cache sv g).

(** Whatever the platform makes of the accesses to dead arrays and of the wide
    stores: once the settings are read, [main] is [serve]. *)
Lemma main_serves (now : Z) argv s : read_setup argv = Ret (Some s) → main now argv = serve now s.
Proof using Type.
  unfold read_setup, main, cache_init, server_start.
  intros ([rc st] & -> & E)%bind_Ret_inv. rewrite bind_Ret. destruct (negb (rc =? 0)); [done|].
  destruct (param_get_config_file argv CONFIG_FILE) as [? file].
  apply bind_Ret_inv in E as ([? st1] & -> & E). rewrite bind_Ret.
  apply bind_Ret_inv in E as ([? st2] & -> & E). rewrite bind_Ret.
  apply bind_Ret_inv in E as ([[rc3 lg] st3] & -> & E). rewrite bind_Ret. destruct (negb (rc3 =? 0)); [done|].
  apply bind_Ret_inv in E as ([path st4] & E4 & ([[rc5 use] st5] & E5 &
    ([[[timeout retries] ups] st6] & E6 & [= <-])%bind_Ret_inv)%bind_Ret_inv).
  unfold serve. destruct IdPool.id_pool_init as [rcp pool]. destruct (negb (rcp =? 0)); [done|].
  rewrite E4, bind_Ret. cbn [su_table su_cache su_timeout su_retries su_upstreams].
  destruct (IpTable.dns_cache_init _ _ _) as [[rcg g]| |]; [|done..]. rewrite !bind_Ret.
  destruct (negb (rcg =? 0)); [done|]. rewrite E5, bind_Ret.
  destruct Session.session_factory_init as [[f|]| |]; [|done..]. by rewrite !bind_Ret, E6, bind_Ret.
Qed.
End startup.

(** ** What the program is started with *)

Abbreviation settings := (gmap (list Z * list Z) (ConfigValue setting)).
Implicit Types (am : settings) (argv : list (list Z)) (es : list NetEnd) (ini : list Ini.ini_line)
  (tbl : list IpTable.table_line).

Definition text_of am (section key default : list Z) : list Z :=
  match am !! (section, key) with Some (MkValue _ (Text t)) => t | _ => default end.

(** The settings of the configuration file, before the command line. *)
Definition settings_of ini : settings := Ini.file_settings [] ini ∅.
Definition table_path ini : list Z :=
  text_of (settings_of ini) SECTION_DNS KEY_IP_TABLE_PATH VALUE_DEFAULT_IP_TABLE_PATH.

(** The settings can be served: the upstream servers are what the server's parser
    makes of the texts [argv], the cache is used, the ip table is well formed or
    absent, and the kernel grants the socket. *)
Record good_setup `{Allocator, InetPton, Machine, SocketCalls} (s : setup) argv es tbl : Prop := {
  gs_some : argv ≠ [];
  gs_servers : Forall2 server_ok argv es;
  gs_upstreams : server_config_parser KEY_UPSTREAMS (server_text argv) = Ret (0, Some (Servers (su_upstreams s)));
  gs_cache : su_cache s ≠ 0;
  gs_table : read_file (su_table s) = Some (IpTable.print_table tbl) ∨
             read_file (su_table s) = None ∧ tbl = [];
  gs_lines : Forall IpTable.line_ok tbl;
  gs_questions : (base.size (IpTable.host_questions tbl) ≤ 1024)%nat;
  gs_records : Z.of_nat (length tbl) < 2 ^ 16;
  gs_socket : sys_socket ≠ -1;
  gs_bind : socket_bind sys_socket SERVER_PORT = 0;
}.

(** The servers are the arguments, the configuration file is well formed or
    absent. *)
Record good_config `{Files, InetPton, Machine} argv es ini : Prop := {
  gc_some : argv ≠ [];
  gc_plain : Forall plain_arg argv;
  gc_servers : Forall2 server_ok argv es;
  gc_fit : Z.of_nat (length (server_text argv)) < IPS_SIZE;
  gc_file : read_file CONFIG_FILE = Some (Ini.print_file ini) ∨ read_file CONFIG_FILE = None ∧ ini = [];
  gc_ini : Forall Ini.line_ok ini;
  gc_log : log_ok (settings_of ini);
  gc_timeout : num_ok (settings_of ini) KEY_PACKET_TIMEOUT (2 ^ 63);
  gc_retries : num_ok (settings_of ini) KEY_MAX_RETRY_TIME (2 ^ 31);
  gc_cache : settings_of ini !! (SECTION_DNS_RESOLVER, KEY_USE_CACHE) = None;
}.

Lemma file_settings_text ini (section : list Z) (am : settings) :
  (∀ (sk : list Z * list Z) e, am !! sk = Some e → ∃ t, e = MkValue false (Text t)) →
  ∀ sk e, Ini.file_settings section ini am !! sk = Some e → ∃ t, e = MkValue false (Text t).
Proof.
  revert section am. induction ini as [|[s|s|k v] ini IH]; intros section am Ham sk e; simpl; eauto.
  apply IH. intros sk' e'. rewrite lookup_insert_Some. intros [[_ <-]|[_ ?]]; eauto.
Qed.

Lemma settings_of_text ini sk e : settings_of ini !! sk = Some e → ∃ t, e = MkValue false (Text t).
Proof. apply file_settings_text. intros ? ?. by rewrite lookup_empty. Qed.

Lemma config_file_default argv : Forall plain_arg argv → param_get_config_file argv CONFIG_FILE = (1, CONFIG_FILE).
Proof.
  induction 1 as [|a argv (Hc & _) _ IH]; [done|]. cbn [param_get_config_file]. unfold same.
  by rewrite bool_decide_false.
Qed.

Section spec.
Context `{AllocTotal, InetPton, !IpTable.InetPtonLaws, Machine, SocketCalls, Socket.Kernel}.
Context {G M C : Type}.
Context `{!MapOps (list Z) loc G, !MapLaws (list Z) loc G, !MapOps Z loc M, !MapLaws Z loc M}.
Context `{!MapOps (list Z) loc C, !MapLaws (list Z) loc C}.
Implicit Types (s : setup) (sv : Server.server M C).

(** The initial state of the cache. *)
Definition cache_ready (tbl : list IpTable.table_line) (g : option (Cache.DnsCache C)) (items : list Cache.item) : Prop :=
  g_rep g items ∧ items_good items ∧ is_Some g ∧ Forall (IpTable.host_item tbl) items ∧
  ∀ now q t, no_nul q → is_u16 t →
    lookup_value now items (Cache.key_of (q ++ [0]) t QCLASS_IN) = IpTable.host_value (IpTable.hosts tbl q t).

Lemma cache_init_spec now s argv es tbl :
  good_setup s argv es tbl →
  ∃ g items, IpTable.dns_cache_init (G := G) now (read_file (su_table s)) None = Ret (0, g) ∧
    cache_ready tbl g items.
Proof using All.
  intros Hg. unfold cache_ready. destruct (gs_table _ _ _ _ Hg) as [-> |[-> ->]].
  - destruct (IpTable.dns_cache_init_spec (G := G) (M := C) now tbl) as (c & items & -> & Hc & _ & Hitems & Hgood & Hget);
      [apply Hg..|]. exists (Some c), items. split_and!; [done|exact Hc| |by eexists|done|].
    + apply Hgood. pose proof (gs_records _ _ _ _ Hg). pose proof (IpTable.table_records_length tbl). lia.
    + intros now' q t Hq Ht. rewrite <- (Hget now' q t Ht). unfold Cache.key_of, lookup_value.
      rewrite (Cache.cache_key_spec q [] t QCLASS_IN Hq). by rewrite (wrap_u16_small t Ht).
  - unfold IpTable.dns_cache_init. destruct (Cache.cache_create_spec (M := C)) as (c & -> & Hc & _).
    rewrite !bind_Ret. cbn [IpTable.load_ip_table]. rewrite !bind_Ret.
    exists (Some c), []. split_and!; [done|exact Hc|constructor|by eexists|constructor|done].
Qed.

(** What the loop starts from. *)
Record server_ready s es tbl sv (items : list Cache.item) us : Prop := {
  sr_rep : ∀ last, Server.srv_rep sv last ∅ items ∅ us;
  sr_upstreams : us.*2 = reverse (on_port_53 <$> es);
  sr_next : Server.next_upstream sv = None;
  sr_use_cache : Server.use_cache sv = su_cache s;
  sr_using : su_cache s ≠ 0;
  sr_timeout : Server.request_timeout sv = su_timeout s;
  sr_retries : Server.max_retry_time sv = su_retries s;
  sr_sent : Server.sent sv = [];
  sr_send : Server.send_buf sv = fresh_send <$> seq 0 (Z.to_nat Server.DNS_SEND_BUF_SIZE);
  sr_queue : Session.queued (Server.factory sv) = 0;
  sr_recv : length (Server.recv_buf sv) = 4096%nat;
  sr_cache : is_Some (Server.g_cache sv);
  sr_items : Forall (IpTable.host_item tbl) items;
  sr_hosts : ∀ now q t, no_nul q → is_u16 t →
    lookup_value now items (Cache.key_of (q ++ [0]) t QCLASS_IN) = IpTable.host_value (IpTable.hosts tbl q t);
}.

Lemma server_run_spec s argv es tbl g items :
  good_setup s argv es tbl → cache_ready tbl g items →
  ∃ f sv us, Session.session_factory_init (M := M) = Ret (Some f) ∧
    server_run (su_cache s) (su_timeout s) (su_retries s) (su_upstreams s) IdPool.id_pool_init.2 f g =
      Ret (Running true sys_socket sv) ∧
    server_ready s es tbl sv items us.
Proof using All.
  intros Hg (Hc & Hgood & Hsome & Hitems & Hhosts).
  destruct (Session.session_factory_init_spec (M := M) _) as (f & Ef & Hf & Hq).
  exists f. unfold server_run.
  destruct (upstreams_parsed argv es (gs_servers _ _ _ _ Hg) (gs_some _ _ _ _ Hg)) as (l & us & E & Hl & Hus).
  rewrite (gs_upstreams _ _ _ _ Hg) in E. injection E as ->.
  assert (Hne : us ≠ []).
  { intros ->. pose proof (gs_some _ _ _ _ Hg) as Hs. apply (f_equal length) in Hus.
    rewrite length_reverse, length_fmap in Hus. pose proof (Forall2_length _ _ _ (gs_servers _ _ _ _ Hg)).
    by destruct argv, es. }
  assert (Hempty : LinkedList.linked_list_is_empty (Some l) = false).
  { cbn. rewrite (LinkedList.ll_rep_size _ _ Hl). by destruct us. }
  rewrite Hempty. unfold init_socket, socket_create, is_using_cache.
  rewrite (proj2 (Z.eqb_neq _ _) (gs_socket _ _ _ _ Hg)), (gs_bind _ _ _ _ Hg),
    (proj2 (Z.eqb_neq _ _) (gs_cache _ _ _ _ Hg)). cbn [Z.eqb andb].
  eexists _, us. split_and!; [done|reflexivity|]. split; try done; [|apply Hg]. intros last. split; try done.
  - apply IdPool.id_pool_init_inv.
  - intros i. rewrite lookup_empty. split; [set_solver|by intros []].
Qed.

Lemma serve_spec (now : Z) s argv es tbl :
  good_setup s argv es tbl →
  ∃ sv items us, serve (G := G) (M := M) (C := C) now s = Ret (Running true sys_socket sv) ∧
    server_ready s es tbl sv items us.
Proof using All.
  intros Hg. unfold serve. change IdPool.id_pool_init with (0, IdPool.id_pool_init.2). cbn [Z.eqb negb].
  destruct (cache_init_spec now s argv es tbl Hg) as (g & items & -> & Hc). rewrite bind_Ret. cbn [Z.eqb negb].
  destruct (server_run_spec s argv es tbl g items Hg Hc) as (f & sv & us & -> & E & Hsv).
  rewrite bind_Ret, E. by exists sv, items, us.
Qed.
End spec.

(** ** The configuration on a lenient machine *)

Section lenient_start.
Context `{AllocTotal, StaleOk, !WideOk, Files, InetPton, Machine, SocketCalls} {MS ME : Type}.
Context `{!MapOps (list Z) loc MS, !MapLaws (list Z) loc MS, !MapOps (list Z) loc ME, !MapLaws (list Z) loc ME}.
Implicit Types (st : config setting MS ME).

(** The center once the file is loaded. *)
Lemma config_read argv es ini :
  good_config argv es ini →
  ∃ st0 rc st, config_init = Ret (0, st0) ∧
    Ini.config_load_file (read_file CONFIG_FILE) (st0 : config setting MS ME) = Ret (rc, st) ∧
    config_rep st (settings_of ini) ∅ ∅.
Proof using All.
  intros Hg. destruct (config_init_known (C := setting) (MS := MS) (ME := ME)) as (st0 & E & Hr).
  exists st0. destruct (gc_file _ _ _ Hg) as [-> |[-> ->]].
  - destruct (Ini.inject_lines_spec ini [] st0 ∅ (proj1 Hr)) as (st & E' & Hr').
    { intros sec. unfold cleaner_of. rewrite (registry_get_spec _ ∅); [by rewrite lookup_empty|apply Hr]. }
    exists 0, st. split_and!; [done| |by eapply now_holds_rep]. unfold Ini.config_load_file.
    rewrite (Ini.load_loop_file _ ini _ _ []); [by rewrite E'|apply Hg|done|apply Ini.scratch_start_ok|lia].
  - exists (-1), st0. done.
Qed.

(** A text no parser is registered for stays what it is. *)
Lemma ask_path ini am st ps cs :
  config_rep st am ps cs → am !! (SECTION_DNS, KEY_IP_TABLE_PATH) = settings_of ini !! (SECTION_DNS, KEY_IP_TABLE_PATH) →
  ps !! SECTION_DNS = None →
  ∃ st', ask SECTION_DNS KEY_IP_TABLE_PATH as_text VALUE_DEFAULT_IP_TABLE_PATH st = Ret (table_path ini, st') ∧
    config_rep st' am ps cs.
Proof using All.
  intros Hr Ham Hps. unfold ask, table_path, text_of.
  pose proof (config_get_known _ _ _ _ SECTION_DNS KEY_IP_TABLE_PATH Hr ltac:(done) ltac:(done)) as Hg.
  rewrite <- Ham. destruct (am !! (SECTION_DNS, KEY_IP_TABLE_PATH)) as [e|] eqn:E.
  - rewrite (settings_get_plain _ _ _ _ _ E (known_None _ _ Hps)) in Hg. destruct (settings_of_text _ _ _ (eq_sym Ham)) as [t ->].
    destruct Hg as (st' & -> & Hr'). by exists st'.
  - rewrite (settings_get_None _ _ _ _ E) in Hg. destruct Hg as (st' & -> & Hr'). by exists st'.
Qed.

Lemma resolver_init_default am st ps cs :
  config_rep st am ps cs → am !! (SECTION_DNS_RESOLVER, KEY_USE_CACHE) = None →
  ∃ st', dns_resolver_init VALUE_DEFAULT_USE_CACHE st = Ret (0, 1, st') ∧
    config_rep st' am (<[SECTION_DNS_RESOLVER := dns_resolver_config_parser]> ps) cs.
Proof using All.
  intros Hr Hn. unfold dns_resolver_init.
  destruct (config_register_parser_known st _ ps cs SECTION_DNS_RESOLVER dns_resolver_config_parser Hr ltac:(done))
    as (st1 & -> & Hr1). rewrite bind_Ret.
  pose proof (config_get_known _ _ _ _ SECTION_DNS_RESOLVER KEY_USE_CACHE Hr1 ltac:(done) ltac:(done)) as Hg.
  rewrite settings_get_None in Hg by done. destruct Hg as (st' & -> & Hr'). by exists st'.
Qed.

Lemma read_setup_spec argv es ini :
  good_config argv es ini →
  ∃ ups, read_setup (MS := MS) (ME := ME) argv =
      Ret (Some (MkSetup (table_path ini) 1
        (num_of (settings_of ini) KEY_PACKET_TIMEOUT VALUE_DEFAULT_REQUEST_TIMEOUT)
        (num_of (settings_of ini) KEY_MAX_RETRY_TIME VALUE_DEFAULT_MAX_RETRY_TIME) ups)) ∧
    server_config_parser KEY_UPSTREAMS (server_text argv) = Ret (0, Some (Servers ups)).
Proof using All.
  intros Hg. unfold read_setup. destruct (config_read argv es ini Hg) as (st0 & rc & st1 & E0 & E1 & Hr1).
  rewrite E0, bind_Ret, (config_file_default _ (gc_plain _ _ _ Hg)). cbn [Z.eqb negb].
  rewrite E1, bind_Ret. clear E0 E1.
  destruct (param_inject_spec argv st1 (settings_of ini) (proj1 Hr1)) as (st2 & -> & Hr2); [apply Hg..| |].
  { intros e He. by destruct (settings_of_text _ _ _ He) as [t ->]. }
  rewrite bind_Ret. apply (now_holds_rep _ _ _ _ _ _ Hr1) in Hr2. set (am := <[_ := _]> _) in Hr2.
  assert (Ham : ∀ sk, sk ≠ (SERV_SECTION, KEY_UPSTREAMS) → am !! sk = settings_of ini !! sk)
    by (intros sk Hsk; unfold am; by rewrite lookup_insert_ne).
  assert (Hlog : log_ok am).
  { destruct (gc_log _ _ _ Hg). split; [intros e|intros name e]; rewrite Ham by done; eauto. }
  destruct (logger_init_spec st2 am ∅ ∅ Hr2 Hlog) as (lg & st3 & am3 & -> & Hr3 & Ham3 & _). rewrite bind_Ret.
  cbn [Z.eqb negb].
  destruct (ask_path ini am3 st3 _ ∅ Hr3) as (st4 & -> & Hr4).
  { by rewrite Ham3, Ham. }
  { by rewrite lookup_insert_ne, lookup_empty. }
  rewrite bind_Ret. destruct (resolver_init_default am3 st4 _ ∅ Hr4) as (st5 & -> & Hr5).
  { rewrite Ham3, Ham by done. apply (gc_cache _ _ _ Hg). }
  rewrite bind_Ret.
  assert (Hnum : ∀ key, key ≠ KEY_UPSTREAMS → am3 !! (SERV_SECTION, key) = settings_of ini !! (SERV_SECTION, key)).
  { intros key Hk. rewrite Ham3 by done. apply Ham. congruence. }
  destruct (server_settings_spec argv es st5 am3 _ ∅ VALUE_DEFAULT_REQUEST_TIMEOUT VALUE_DEFAULT_MAX_RETRY_TIME None
    Hr5 (gc_some _ _ _ Hg) (gc_servers _ _ _ Hg)) as (st' & l & us & E & Hl & Hp).
  { rewrite Ham3 by done. unfold am. by rewrite lookup_insert_eq. }
  { intros e. rewrite Hnum by done. apply (gc_timeout _ _ _ Hg). }
  { intros e. rewrite Hnum by done. apply (gc_retries _ _ _ Hg). }
  rewrite E, bind_Ret. exists (Some l). split; [|exact Hp]. unfold num_of. by rewrite !Hnum.
Qed.
End lenient_start.

Section lenient_main.
Context `{AllocTotal, StaleOk, !WideOk, Files, InetPton, !IpTable.InetPtonLaws, Machine, SocketCalls, Socket.Kernel}.
Context {MS ME G M C : Type}.
Context `{!MapOps (list Z) loc MS, !MapLaws (list Z) loc MS, !MapOps (list Z) loc ME, !MapLaws (list Z) loc ME}.
Context `{!MapOps (list Z) loc G, !MapLaws (list Z) loc G, !MapOps Z loc M, !MapLaws Z loc M}.
Context `{!MapOps (list Z) loc C, !MapLaws (list Z) loc C}.

(** On a lenient machine ([StaleOk], [WideOk]) the settings are what one expects,
    so that [main] reaches its loop: given at least one server as an argument,
    well-formed files, no setting for the cache, and a kernel that grants the
    socket.  C promises nothing of the kind ([Config.registered_key_dangles]). *)
Theorem main_reaches_loop (now : Z) argv es ini tbl :
  good_config argv es ini → (∀ s, su_table s = table_path ini → su_cache s = 1 →
    server_config_parser KEY_UPSTREAMS (server_text argv) = Ret (0, Some (Servers (su_upstreams s))) →
    good_setup s argv es tbl) →
  ∃ s sv items us, read_setup (MS := MS) (ME := ME) argv = Ret (Some s) ∧
    main (MS := MS) (ME := ME) (G := G) (M := M) (C := C) now argv = Ret (Running true sys_socket sv) ∧
    server_ready s es tbl sv items us.
Proof using All.
  intros Hc Hg. destruct (read_setup_spec (MS := MS) (ME := ME) argv es ini Hc) as (ups & E & Hups).
  set (s := MkSetup _ _ _ _ _) in E. pose proof (Hg s eq_refl eq_refl Hups) as Hs.
  destruct (serve_spec (G := G) (M := M) (C := C) now s argv es tbl Hs) as (sv & items & us & Esv & Hr).
  exists s, sv, items, us. split_and!; [exact E| |exact Hr].
  by rewrite (main_serves now argv s E).
Qed.
End lenient_main.

(** ** The pruning thread *)

Lemma prune_lookup now now' items k :
  NoDup (Cache.i_key <$> items) → now ≤ now' →
  lookup_value now' (Cache.lru_prune now items) k = lookup_value now' items k.
Proof.
  intros Hnd Hle. unfold lookup_value, Cache.lru_get. rewrite (Cache.find_item_prune now k items Hnd).
  destruct (Cache.find_item k items) as [i|]; [|done]. destruct (Cache.item_expired now i) eqn:E; [|by case_match].
  by rewrite (Cache.item_expired_later now now' i Hle E).
Qed.

Section daemon.
Context `{Allocator, Socket.Kernel} {M C : Type}.
Context `{!MapOps Z loc M, !MapLaws Z loc M, !MapOps (list Z) loc C, !MapLaws (list Z) loc C}.

(** A turn of the pruning thread in the server's state.  Between any two calls
    of the server on the cache, a turn of the thread takes out exactly the items
    that have expired and touches nothing else: the sessions, the ids, the
    servers and the buffers stay, and every later lookup answers as it would
    have without the thread. *)
Theorem daemon_invisible (sv : Server.server M C) (last now : Z) ss (items : list Cache.item) out us :
  Server.srv_rep sv last ss items out us →
  ∃ sv', daemon_turn now sv = Ret sv' ∧ sv' = Server.set_cache sv (Server.g_cache sv') ∧
    Server.srv_rep sv' last ss (Cache.lru_prune now items) out us ∧
    Forall (λ i, Cache.item_expired now i = false) (Cache.lru_prune now items) ∧
    ∀ now' k, now ≤ now' → lookup_value now' (Cache.lru_prune now items) k = lookup_value now' items k.
Proof using All.
  intros Hs. unfold daemon_turn. pose proof (Server.s_cache _ _ _ _ _ _ Hs) as Hc.
  assert (Hnd : NoDup (Cache.i_key <$> items)).
  { unfold g_rep in Hc. destruct (Server.g_cache sv); [by eapply Cache.cache_rep_keys|subst; constructor]. }
  assert (Hg : ∃ r g, Cache.dns_cache_prune now (Server.g_cache sv) = Ret (r, g) ∧ g_rep g (Cache.lru_prune now items)).
  { unfold g_rep in Hc. destruct (Server.g_cache sv) as [c|]; [|by exists (-1), None; subst].
    destruct (Cache.dns_cache_prune_spec now c items Hc) as (c' & E & Hc' & _). by exists 0, (Some c'). }
  destruct Hg as (r & g & -> & Hg). rewrite bind_Ret. eexists. split; [done|]. split_and!.
  - done.
  - destruct Hs. split; try done. unfold items_good, Cache.lru_prune. by apply Cache.filter_keeps.
  - apply Forall_forall. by intros i [? _]%list_elem_of_filter.
  - intros now' k. by apply prune_lookup.
Qed.
End daemon.

(** ** A start *)

#[local] Existing Instances Config.table_ops Config.table_laws Config.always_laws.
#[local] Existing Instances Server.demo_kernel Server.stable_ops Server.stable_laws Server.ctable_ops Server.ctable_laws.

#[local] Existing Instances Ini.line_ok_dec IpTable.line_ok_dec.

#[local] Instance demo_pton : InetPton := {|
  inet_pton4 s := if same s (lit "8.8.8.8") then Some [8; 8; 8; 8]
                  else if same s (lit "10.0.0.1") then Some [10; 0; 0; 1] else None;
  inet_pton6 s := None;
|}.
#[local] Instance demo_pton_laws : IpTable.InetPtonLaws.
Proof. split; intros s a; simpl; [|done]. repeat case_match; by intros [= <-]. Qed.
#[local] Instance demo_files : Files := {| can_write _ := true; can_append _ := true |}.

Definition demo_ini : list Ini.ini_line := [Ini.Header SERV_SECTION; Ini.Pair KEY_MAX_RETRY_TIME (lit "5")].
Definition demo_table : list IpTable.table_line := [IpTable.Entry [] [lit "a"; lit "b"] [] [] (lit "10.0.0.1") []].
#[local] Instance demo_machine : Machine := {|
  read_file f := if same f CONFIG_FILE then Some (Ini.print_file demo_ini)
                 else if same f VALUE_DEFAULT_IP_TABLE_PATH then Some (IpTable.print_table demo_table) else None;
  fresh_recv _ := 170;
  fresh_send _ := 85;
|}.
#[local] Instance demo_socket : SocketCalls := {| sys_socket := 3; sys_bind _ _ := 0 |}.

Definition demo_end : NetEnd := MkEnd ([8; 8; 8; 8] ++ replicate 12 0) IPV4 (htons 53).

Lemma demo_settings section key :
  settings_of demo_ini !! (section, key) =
    if decide ((SERV_SECTION, KEY_MAX_RETRY_TIME) = (section, key)) then Some (MkValue false (Text (lit "5"))) else None.
Proof.
  unfold settings_of, demo_ini. cbn [Ini.file_settings]. case_decide as E.
  - by rewrite <- E, lookup_insert_eq.
  - by rewrite lookup_insert_ne, lookup_empty.
Qed.

Lemma demo_config : good_config [lit "8.8.8.8"] [demo_end] demo_ini.
Proof.
  split; try by_compute; try by left.
  - constructor; [|constructor]. split; by_compute || reflexivity.
  - split; [intros e|intros name e _]; rewrite demo_settings; case_decide as E; by try injection E.
  - intros e. rewrite demo_settings. case_decide as E; by try injection E.
  - intros e. rewrite demo_settings, decide_True by done. intros [= <-]. exists (lit "5"). split; [done|]. by vm_compute.
Qed.

(** The settings the arguments and the files ask for. *)
Definition demo_upstreams : option (LinkedList.LinkedList NetEnd) :=
  match server_config_parser (H := always) KEY_UPSTREAMS (server_text [lit "8.8.8.8"]) with
  | Ret (_, Some (Servers l)) => l
  | _ => None
  end.
Definition demo_read : setup := MkSetup VALUE_DEFAULT_IP_TABLE_PATH 1 VALUE_DEFAULT_REQUEST_TIMEOUT 5 demo_upstreams.

Lemma demo_good s :
  su_table s = VALUE_DEFAULT_IP_TABLE_PATH → su_cache s = 1 →
  server_config_parser (H := always) KEY_UPSTREAMS (server_text [lit "8.8.8.8"]) = Ret (0, Some (Servers (su_upstreams s))) →
  good_setup (H := always) s [lit "8.8.8.8"] [demo_end] demo_table.
Proof.
  intros Ht Hc Hu. split; rewrite ?Ht, ?Hc; try by_compute; try by left.
  - constructor; [|constructor]. split; by_compute || reflexivity.
  - exact Hu.
Qed.

Lemma demo_setup : good_setup (H := always) demo_read [lit "8.8.8.8"] [demo_end] demo_table.
Proof. apply demo_good; [done|done|reflexivity]. Qed.

Lemma main_reaches_loop_witness :
  ∃ s sv items us,
    main (H := always) (H0 := lenient) (MS := Config.table) (ME := Config.table) (G := Config.table)
      (M := Server.stable) (C := Server.ctable) 0 [lit "8.8.8.8"] = Ret (Running true 3 sv) ∧
    server_ready s [demo_end] demo_table sv items us.
Proof.
  destruct (main_reaches_loop (H := always) (H1 := lenient) (MS := Config.table) (ME := Config.table) (G := Config.table)
    (M := Server.stable) (C := Server.ctable) 0 _ _ _ demo_table demo_config)
    as (s & sv & items & us & _ & E & Hr).
  - intros s Ht Hc Hu. by apply demo_good; [rewrite Ht; unfold table_path, text_of; by rewrite demo_settings| |].
  - exists s, sv, items, us. split; [exact E|exact Hr].
Defined.

Lemma daemon_invisible_witness :
  ∃ sv sv' : Server.server Server.stable Server.ctable, daemon_turn 9 sv = Ret sv'.
Proof.
  destruct (Server.demo_busy 2) as (sv & us & i & l & client & c & Hs & _).
  destruct (daemon_invisible (H := always) sv _ 9 _ _ _ _ Hs) as (sv' & E & _).
  exists sv, sv'. exact E.
Defined.

End Startup.
