(* ===== verification/Program.v ===== *)
(** * The whole program

    The start ([Startup.v]) and the loop ([Server.v]), composed as the program
    composes them: what a run does, from the settings it has read and the ip
    table to the datagrams it is sent.  [program] begins with [main], [run] with
    the settings; [program_is_run] says they agree. *)

From Stdlib Require String.
From S2P Require Import Prelude IdPool LinkedList CString TextFile MapInterface HashMap Config Ini Utils NameCodec Protocol Wire Cache Resolver Socket Settings IpTable Session Server ServerLoop Startup.
Import Utils NameCodec Protocol Wire Resolver Config Socket Settings Startup.
Import String.StringSyntax.

Module Program.

(** ** The program *)

Section program.
Context `{Allocator, Platform, Files, InetPton, Machine, SocketCalls, Socket.Kernel}.
Context `{!MapOps (list Z) loc MS, !MapOps (list Z) loc ME, !MapOps (list Z) loc G}.
Context `{!MapOps Z loc M, !MapOps (list Z) loc C}.

(** What follows the start: the code [main] returns, [None] as long as the loop
    runs, and the state. *)
Definition looped (fuel : nat) (turns : list ServerLoop.turn) (r : started (Server.server M C)) :
    Res (option Z * option (Server.server M C)) :=
  match r with
  | Exit code => Ret (Some code, None)
  | Running _ _ sv => '(_, code, sv) ← Server.server_loop fuel turns sv; Ret (code, Some sv)
  end.

(** [main] with the loop in place of the call of [server_loop]. *)
Definition program (now : Z) (argv : list (list Z)) (fuel : nat) (turns : list ServerLoop.turn) :
    Res (option Z * option (Server.server M C)) :=
  main (MS := MS) (ME := ME) (G := G) (M := M) (C := C) now argv ≫= looped fuel turns.

(** The program from the settings it has read on. *)
Definition run (now : Z) (su : setup) (fuel : nat) (turns : list ServerLoop.turn) :
    Res (option Z * option (Server.server M C)) :=
  serve (G := G) (M := M) (C := C) now su ≫= looped fuel turns.

(** Once the settings are read, the program is [run]. *)
Lemma program_is_run now argv su fuel turns :
  read_setup (MS := MS) (ME := ME) argv = Ret (Some su) → program now argv fuel turns = run now su fuel turns.
Proof using Type. intros E. unfold program, run. by rewrite (main_serves now argv su E). Qed.
End program.
Arguments program {_ _ _ _ _ _ _} MS {_} ME {_} G {_ M _ C _} now argv fuel turns.
Arguments run {_ _ _ _ _} G {_ M _ C _} now su fuel turns.

(** ** The answer of the ip table *)

(** The local answer to a standard query with one question, given what is
    known of each name. *)
Definition answer_by (value : list Z → option Cache.CacheValue) (query : DnsPacket) (q : SectionQuestion)
    (ls : list (list Z)) : option DnsPacket :=
  if existsb (λ name, match value name with Some v => existsb blocking (value_rrs v) | None => false end)
       (visited ls)
  then Some (reply query RCODE_NXDOMAIN)
  else match value (qname q) with
       | Some v => Some (reply_value query v)
       | None => if RD_GET (flags (header query)) =? 0 then Some (reply query RCODE_NOERROR) else None
       end.

Lemma local_answer_by now items query q ls :
  OPCODE_GET (flags (header query)) = 0 → questions query = [q] →
  local_answer now items query ls =
    answer_by (λ name, lookup_value now items (Cache.key_of name (qtype q) (qclass q))) query q ls.
Proof. intros Ho Hq. unfold local_answer. by rewrite Ho, Hq. Qed.

(** What the table has for a name and its terminator. *)
Definition table_value `{InetPton} (tbl : list IpTable.table_line) (t : Z) (name : list Z) :
    option Cache.CacheValue :=
  IpTable.host_value (IpTable.hosts tbl (removelast name) t).

Lemma answer_by_ext value value' query q ls :
  (∀ name, name ∈ qname q :: visited ls → value name = value' name) →
  answer_by value query q ls = answer_by value' query q ls.
Proof.
  intros Hv. unfold answer_by. rewrite (Hv (qname q)) by left.
  assert (existsb (λ name, match value name with Some v => existsb blocking (value_rrs v) | None => false end) (visited ls)
    = existsb (λ name, match value' name with Some v => existsb blocking (value_rrs v) | None => false end) (visited ls)) as ->;
    [|done].
  assert (Hn : ∀ name, name ∈ visited ls → value name = value' name) by (intros; apply Hv; by right).
  induction (visited ls) as [|n ns IH]; [done|]. cbn [existsb]. rewrite (Hn n) by left.
  f_equal. apply IH; [|intros; apply Hn; by right]. intros name [->|?]%elem_of_cons; apply Hv; [left|right; by right].
Qed.

(** ** A turn with one packet *)

Section turn.
#[local] Set Default Proof Using "Type*".
Context `{AllocTotal, Kernel} {M C : Type}.
Context `{!MapOps Z loc M, !MapLaws Z loc M, !MapOps (list Z) loc C, !MapLaws (list Z) loc C}.
Implicit Types (st : Server.server M C) (ss : gmap Z (loc * Session.Session)).

(** A sweep with nothing due. *)
Lemma batch_timeout_idle fuel now st last ss items out us :
  Server.srv_rep st last ss items out us →
  (∀ i l s, ss !! i = Some (l, s) → ¬ Server.expired (Server.request_timeout st) now s) →
  ∃ f, Server.batch_timeout fuel now st = Ret (Server.set_factory st f) ∧
    Server.srv_rep (Server.set_factory st f) last ss items out us.
Proof.
  intros Hst Hno.
  destruct (Session.session_peek_spec _ _ _ (Server.s_factory _ _ _ _ _ _ Hst)) as (r & f & E & Hf & _ & Hr).
  exists f. split; [|by apply Server.set_factory_rep].
  destruct fuel; cbn [Server.batch_timeout]; rewrite E; cbn [mbind Res_bind]; (destruct r as [l|]; [|done]);
    destruct Hr as (i & s & Hi & _); rewrite (Session.timeout_remain_spec _ _ _ _ _ _ now _ Hf Hi);
    cbn [mbind Res_bind nonnull Server.request_timeout Server.set_factory];
    specialize (Hno _ _ _ Hi); unfold Server.expired in Hno;
    by rewrite Z.gtb_ltb, (proj2 (Z.ltb_lt _ _)) by lia.
Qed.

(** The settings a turn relies on. *)
Record alive st : Prop := {
  al_timeout : 0 < Server.request_timeout st;
  al_use : Server.use_cache st ≠ 0;
  al_cache : is_Some (Server.g_cache st);
  al_recv : (4096 ≤ length (Server.recv_buf st))%nat;
}.

Lemma alive_framed st st' : ServerLoop.framed st st' → alive st → alive st'.
Proof. intros [E1 E2 E3 E4 Hg] []. split; rewrite ?E1, ?E2, ?E4; auto. Qed.

Lemma pack_recv_none fuel st :
  Server.pack_recv fuel st NoData = Ret (1, None, MkEnd (replicate 16 0) IPV4 0, st).
Proof. by destruct st. Qed.

(** What the packet's handler makes true of the datagrams sent, of the open
    sessions and of the cache is true after the turn. *)
Lemma packet_turn
    (P : list (list Z * sockaddr) → gmap Z (loc * Session.Session) → list Cache.item → Prop)
    fuel before now st last ss items out us p a port :
  Server.srv_rep st last ss items out us → alive st →
  wire_ok p → (length (pack_out p) ≤ 512)%nat →
  Forall (λ rr, length (rr_name rr) + 2 < fuel ∧ length (rdata rr) + 2 < fuel)%nat (rrs p) →
  (∀ st1, Server.srv_rep st1 last ss items out us → alive st1 →
     Server.sent st1 = Server.sent st → Server.send_buf st1 = Server.send_buf st →
     Session.queued (Server.factory st1) ≤ Session.queued (Server.factory st) →
     ∃ st2 ss2 items2 out2,
       Server.handle_dns_packet now st1 p (source_of (MkEnd (replicate 16 0) IPV4 0) a port) = Ret st2 ∧
       Server.srv_rep st2 now ss2 items2 out2 us ∧
       (∀ i l s, ss2 !! i = Some (l, s) → Session.stamp s = now) ∧ P (Server.sent st2) ss2 items2) →
  ∃ timeouts st' ss2 items2 out2,
    Server.server_loop fuel [(before, Some (now, [Received (pack_out p) a port; NoData]))] st =
      Ret (timeouts, None, st') ∧
    Server.srv_rep st' now ss2 items2 out2 us ∧ alive st' ∧ P (Server.sent st') ss2 items2.
Proof.
  intros Hst Hal Hw H512 Hf Hh.
  destruct (Session.session_peek_spec _ _ _ (Server.s_factory _ _ _ _ _ _ Hst)) as (r & f & E & Hpeek & _ & Hr).
  pose proof (Session.session_peek_queued _ _ _ E) as Hqueue.
  destruct (ServerLoop.pack_recv_spec fuel (Server.set_factory st f) p a port) as (buf & Er & Hbuf); [done..|apply Hal|done|].
  set (st1 := Server.set_recv_buf (Server.set_factory st f) buf) in *.
  assert (Hal1 : alive st1) by (destruct Hal; split; try done; cbn [st1 Server.recv_buf Server.set_recv_buf]; by rewrite Hbuf).
  destruct (Hh st1) as (st2 & ss2 & items2 & out2 & Eh & Hrep & Hstamp & HP); [|done..|].
  { destruct (Server.set_factory_rep _ _ _ _ _ _ _ Hpeek Hst). by split. }
  destruct (ServerLoop.handle_framed _ _ _ _ _ Eh) as [Hfr _].
  pose proof (alive_framed _ _ Hfr Hal1) as Hal2.
  destruct (batch_timeout_idle fuel now st2 now ss2 items2 out2 us Hrep) as (f3 & Eb & Hrep3).
  { intros i l s Hi. unfold Server.expired. rewrite (Hstamp _ _ _ Hi). pose proof (al_timeout _ Hal2). lia. }
  assert (Es : ∃ t, Server.select_timeout before st = Ret (t, Server.set_factory st f)).
  { unfold Server.select_timeout. rewrite E, bind_Ret. destruct r as [l|]; [|by eexists].
    destruct Hr as (i & s & Hi & _). rewrite (Session.timeout_remain_spec _ _ _ _ _ _ before _ Hpeek Hi). by eexists. }
  destruct Es as [t Es].
  eexists _, (Server.set_factory st2 f3), ss2, items2, out2. split_and!; [|done|by destruct Hal2; split|exact HP].
  assert (Ed : Server.drain fuel now (Server.set_factory st f) [Received (pack_out p) a port; NoData] = Ret st2).
  { cbn [Server.drain]. rewrite Er, bind_Ret. fold st1. by rewrite Eh, bind_Ret, pack_recv_none. }
  cbn [Server.server_loop]. unfold Server.server_turn. by rewrite Es, bind_Ret, Ed, bind_Ret, Eb.
Qed.

(** Turns one after the other. *)
Lemma server_loop_app fuel ts ts' st timeouts st' :
  Server.server_loop fuel ts st = Ret (timeouts, None, st') →
  Server.server_loop fuel (ts ++ ts') st =
    ('(more, code, st') ← Server.server_loop fuel ts' st'; Ret (timeouts ++ more, code, st')).
Proof.
  revert st timeouts. induction ts as [|[before turn] ts IH]; intros st timeouts E.
  { injection E as <- <-. cbn [app]. by destruct (Server.server_loop _ _ _) as [[[]]| |]. }
  cbn [Server.server_loop app] in E |- *.
  destruct (Server.select_timeout before st) as [[t st1]| |]; [|done..]. cbn [mbind Res_bind] in E |- *.
  destruct turn as [[now rs]|]; [|done].
  destruct (Server.server_turn _ _ _ _) as [st2| |]; [|done..]. cbn [mbind Res_bind] in E |- *.
  destruct (Server.server_loop fuel ts st2) as [[[tos r] st3]| |] eqn:E3; [|done..].
  cbn [mbind Res_bind] in E. injection E as <- -> ->. rewrite (IH _ _ E3).
  by destruct (Server.server_loop fuel ts' _) as [[[]]| |].
Qed.
End turn.

Section properties.
Context `{AllocTotal, InetPton, !IpTable.InetPtonLaws, Machine, SocketCalls, Socket.Kernel}.
Context (G : Type) {M C : Type}.
Context `{!MapOps (list Z) loc G, !MapLaws (list Z) loc G, !MapOps Z loc M, !MapLaws Z loc M}.
Context `{!MapOps (list Z) loc C, !MapLaws (list Z) loc C}.
Implicit Types (su : setup) (argv : list (list Z)) (es : list NetEnd) (tbl : list IpTable.table_line).
Implicit Types (sv : Server.server M C).

(** The state the start leaves is one the loop can start from, for traffic that
    admits the values of the ip table. *)
Lemma ready_serving (V : Cache.CacheValue → Prop) began su es tbl sv items us last :
  server_ready su es tbl sv items us → Forall (λ i, V (Cache.i_value i)) items →
  0 < su_timeout su → 0 ≤ su_retries su ≤ 127 → began ≤ last →
  ServerLoop.serving V began sv last ∅ items ∅ us.
Proof using Type.
  intros Hr Hi Ht Hm Hl. destruct Hr. split; try done.
  - by rewrite sr_retries0.
  - by rewrite sr_timeout0.
  - rewrite sr_recv0. lia.
Qed.

Lemma visited_cstring ls name : Forall label_wf ls → name ∈ visited ls → cstring name.
Proof using Type.
  intros Hls. unfold visited. destruct ls as [|l ls]; [intros ->%list_elem_of_singleton; by apply (wire_name_cstring [])|].
  induction Hls as [|l' ls' Hl Hls IH]; [by intros ?%elem_of_nil|]. cbn [ancestors].
  intros [->|Hn]%elem_of_cons; [apply wire_name_cstring; by constructor|by apply IH].
Qed.

(** The answer of the resolver right after the start. *)
Lemma first_answer su es tbl sv items us now query q ls :
  server_ready su es tbl sv items us → OPCODE_GET (flags (header query)) = 0 →
  questions query = [q] → query_ok query ls → is_u16 (qtype q) → qclass q = QCLASS_IN →
  local_answer now items query ls = answer_by (table_value tbl (qtype q)) query q ls.
Proof using Type.
  intros Hr Ho Hq Hok Ht Hc. rewrite (local_answer_by _ _ _ q) by done. apply answer_by_ext. intros name Hname.
  destruct (qo_name _ _ Hok q Hq) as [Hw Hls].
  assert (Hn : cstring name).
  { apply elem_of_cons in Hname as [->|Hname]; [rewrite Hw; by apply wire_name_cstring|by eapply visited_cstring]. }
  destruct Hn as (s & -> & Hs). unfold table_value. rewrite removelast_last, Hc. by apply (sr_hosts _ _ _ _ _ _ Hr).
Qed.

(** The upstream servers, seen from the state. *)
Lemma ready_upstream su es tbl sv items us d :
  server_ready su es tbl sv items us → d ∈ us.*2 → ∃ e, e ∈ es ∧ d = on_port_53 e.
Proof using Type.
  intros Hr. rewrite (sr_upstreams _ _ _ _ _ _ Hr), elem_of_reverse.
  intros (e & -> & He)%list_elem_of_fmap. by exists e.
Qed.

Definition first_sendable (p : DnsPacket) : Prop :=
  Server.sendable (fresh_send <$> seq 0 (Z.to_nat Server.DNS_SEND_BUF_SIZE)) p.

(** A standard query for one name of the Internet class whose answers are
    written correctly into the send buffer as [malloc] leaves it. *)
Record plain_query tbl (fuel : nat) (query : DnsPacket) (q : SectionQuestion) (ls : list (list Z)) : Prop := {
  pq_query : packet_is_query query = true;
  pq_ok : query_ok query ls;
  pq_wire : wire_ok query;
  pq_opcode : OPCODE_GET (flags (header query)) = 0;
  pq_question : questions query = [q];
  pq_class : qclass q = QCLASS_IN;
  pq_type : is_u16 (qtype q);
  pq_size : (length (pack_out query) ≤ 512)%nat;
  pq_fuel : Forall (λ rr, length (rr_name rr) + 2 < fuel ∧ length (rdata rr) + 2 < fuel)%nat (rrs query);
  pq_answer r : answer_by (table_value tbl (qtype q)) query q ls = Some r → first_sendable r;
  pq_fail : first_sendable (reply query RCODE_SERVFAIL);
  pq_relay i : is_u16 i → first_sendable (set_id query i);
}.

(** The datagram [bytes] goes to [dest] if the kernel takes it. *)
Definition sends (before after : list (list Z * sockaddr)) (bytes : list Z) (dest : sockaddr) : Prop :=
  after = if (Z.of_nat (length bytes) <=? MAX_PACKET_SIZE) && (sendto before bytes dest >=? 0)
          then before ++ [(bytes, dest)] else before.

(** What the first packet makes true. *)
Definition first_sent (now : Z) es tbl query q ls src (sent : list (list Z * sockaddr))
    (ss : gmap Z (loc * Session.Session)) : Prop :=
  match answer_by (table_value tbl (qtype q)) query q ls with
  | Some r => sends [] sent (pack_out r) (sockaddr_of src)
  | None => ∃ i e, is_u16 i ∧ e ∈ es ∧
      sends [] sent (pack_out (set_id query i)) (sockaddr_of (on_port_53 e)) ∧
      (sent ≠ [] → ∃ l, ss = {[i := (l, Server.new_session now query src i)]})
  end.

Lemma first_packet su es tbl sv items us fuel now query q ls st src :
  server_ready su es tbl sv items us → Server.srv_rep st now ∅ items ∅ us →
  Server.sent st = Server.sent sv → Server.send_buf st = Server.send_buf sv →
  Session.queued (Server.factory st) ≤ Session.queued (Server.factory sv) →
  plain_query tbl fuel query q ls →
  ∃ sv' ss' items' out', Server.handle_dns_packet now st query src = Ret sv' ∧
    Server.srv_rep sv' now ss' items' out' us ∧
    (∀ i l s, ss' !! i = Some (l, s) → Session.stamp s = now) ∧
    first_sent now es tbl query q ls src (Server.sent sv') ss' ∧ Forall (IpTable.host_item tbl) items'.
Proof using All.
  intros Hr Hst Hsent Hsend Hqueue []. rewrite (sr_sent _ _ _ _ _ _ Hr) in Hsent.
  rewrite (sr_queue _ _ _ _ _ _ Hr) in Hqueue.
  assert (Hbuf : ∀ p, first_sendable p → Server.sendable (Server.send_buf st) p)
    by (intros p; unfold first_sendable; by rewrite Hsend, <- (sr_send _ _ _ _ _ _ Hr)).
  unfold first_sent.
  rewrite <- (first_answer su es tbl sv items us now query q ls Hr) in pq_answer0 |- * by done.
  destruct (Server.query_spec st now ∅ items ∅ us now query src ls) as (sv' & items' & E & [_ Hsub] & Hres).
  all: try done.
  { lia. }
  { intros r Hx. by apply Hbuf, pq_answer0. }
  { by apply Hbuf. }
  { intros i Hi. by apply Hbuf, pq_relay0. }
  assert (Hitems : Forall (IpTable.host_item tbl) items').
  { pose proof (sr_items _ _ _ _ _ _ Hr) as Hall. rewrite Forall_forall in Hall |- *. intros i Hi. by apply Hall, Hsub. }
  exists sv'. destruct (local_answer now items query ls) as [r|].
  - destruct Hres as [Hrep Ho]. exists ∅, items', ∅. split_and!; [done|done|done| |done].
    unfold Server.offered, Server.deliverable in Ho. by rewrite Hsent in Ho.
  - destruct Hres as [(Hall & _)|(i & d & Hi & _ & Hd & Ho & Hrep)];
      [exfalso; apply (not_elem_of_empty (C := gset Z) 0), Hall; unfold is_u16; lia|].
    destruct (ready_upstream _ _ _ _ _ _ d Hr Hd) as (e & He & ->).
    destruct (Server.deliverable _ _ _) eqn:Edel; [destruct Hrep as [l Hrep]|];
      eexists _, items', _; (split; [exact E|]; split; [exact Hrep|]).
    + split; [intros j l' s [[_ [= _ <-]]|[_ Hj]]%lookup_insert_Some; [done|by rewrite lookup_empty in Hj]|].
      split; [|done]. exists i, e. split_and!; [done..| |intros _; by exists l].
      unfold sends. unfold Server.offered, Server.deliverable in Ho, Edel. rewrite Hsent in Ho, Edel. by rewrite Edel in *.
    + split; [intros j l' s; by rewrite lookup_empty|].
      unfold Server.offered in Ho. rewrite Edel, Hsent in Ho. split; [|done]. exists i, e. split_and!; [done..| |intros Hn; by rewrite Ho in Hn].
      unfold sends. unfold Server.deliverable in Edel. rewrite Hsent in Edel. by rewrite Edel.
Qed.

Lemma ready_alive su es tbl sv items us :
  server_ready su es tbl sv items us → 0 < su_timeout su → alive sv.
Proof using Type.
  intros [] Ht. split; [by rewrite sr_timeout0|by rewrite sr_use_cache0|done|by rewrite sr_recv0].
Qed.

(** One turn with the one packet. *)
Lemma first_turn su es tbl sv items us fuel before now query q ls a p :
  server_ready su es tbl sv items us → 0 < su_timeout su → plain_query tbl fuel query q ls →
  let src := source_of (MkEnd (replicate 16 0) IPV4 0) a p in
  ∃ timeouts sv' ss items' out, Server.server_loop fuel [(before, Some (now, [Received (pack_out query) a p; NoData]))] sv =
      Ret (timeouts, None, sv') ∧
    Server.srv_rep sv' now ss items' out us ∧ alive sv' ∧
    first_sent now es tbl query q ls src (Server.sent sv') ss ∧ Forall (IpTable.host_item tbl) items'.
Proof using All.
  intros Hr Ht Hq src. pose proof (sr_rep _ _ _ _ _ _ Hr now) as Hst.
  pose proof (ready_alive _ _ _ _ _ _ Hr Ht) as Hal.
  apply (packet_turn (λ sent ss its, first_sent now es tbl query q ls src sent ss ∧ Forall (IpTable.host_item tbl) its) fuel before now sv now ∅ items ∅ us query a p Hst Hal); [apply Hq..|].
  intros st1 Hst1 _ Hsent Hsend Hqueue. by eapply first_packet.
Qed.

(** ** A query that goes upstream *)

(** The response of an upstream server to the query relayed under [i]. *)
Record upstream_response (fuel : nat) (i client_id : Z) (resp : DnsPacket) (q : SectionQuestion)
    (ls : list (list Z)) : Prop := {
  ur_response : packet_is_query resp = false;
  ur_id : id (header resp) = i;
  ur_ok : response_ok resp q ls;
  ur_wire : wire_ok resp;
  ur_size : (length (pack_out resp) ≤ 512)%nat;
  ur_fuel : Forall (λ rr, length (rr_name rr) + 2 < fuel ∧ length (rdata rr) + 2 < fuel)%nat (rrs resp);
  ur_light : ServerLoop.light (set_id resp client_id);
}.

(** What the response makes true. *)
Definition relayed tbl (now : Z) (q : SectionQuestion) (resp : DnsPacket) (its : list Cache.item) : Prop :=
  ∃ cap old, its = Cache.lru_put now cap (Cache.key_of (qname q) (qtype q) (qclass q)) (value_of resp) old ∧
    Forall (IpTable.host_item tbl) old.

Lemma second_turn fuel before now now' sv i l s items out us tbl resp q ls a p :
  Server.srv_rep sv now {[i := (l, s)]} items out us → alive sv → now ≤ now' →
  upstream_response fuel i (Session.client_id s) resp q ls → Forall (IpTable.host_item tbl) items →
  ∃ timeouts sv' ss items' out', Server.server_loop fuel [(before, Some (now', [Received (pack_out resp) a p; NoData]))] sv =
      Ret (timeouts, None, sv') ∧
    Server.srv_rep sv' now' ss items' out' us ∧ alive sv' ∧
    sends (Server.sent sv) (Server.sent sv') (pack_out (set_id resp (Session.client_id s)))
      (sockaddr_of (Session.client_ip s)) ∧
    ss = ∅ ∧ relayed tbl now' q resp items'.
Proof using All.
  intros Hst Hal Hnow [] Hitems. subst i.
  apply (packet_turn (λ sent ss its, sends (Server.sent sv) sent (pack_out (set_id resp (Session.client_id s)))
    (sockaddr_of (Session.client_ip s)) ∧ ss = ∅ ∧ relayed tbl now' q resp its)
    fuel before now' sv now _ items out us resp a p Hst Hal); [done..|].
  intros st1 Hst1 [_ Huse [c Hc] _] Hsent _ _.
  destruct (Server.response_spec st1 now _ items out us now' resp (source_of (MkEnd (replicate 16 0) IPV4 0) a p)
    q ls l s c Hst1 ur_response0) as (st2 & E & Ho & Hrep); [apply lookup_insert_eq|done..| |].
  { apply ur_light0, Hst1. }
  rewrite delete_singleton_eq in Hrep. eexists st2, ∅, _, _. split; [exact E|].
  split; [by eapply Server.srv_rep_later|]. split; [intros j l' s'; by rewrite lookup_empty|].
  split_and!; [|done|unfold after_response; rewrite (proj2 (Z.eqb_neq _ _) Huse); eexists _, items; by split].
  unfold Server.offered, Server.deliverable in Ho. by rewrite Hsent in Ho.
Qed.

(** The table says nothing of the name, nor does the response block it: the
    question is answered from the response. *)
Lemma relayed_answer tbl now now' its query query' resp q ls :
  relayed tbl now q resp its → answer_by (table_value tbl (qtype q)) query q ls = None →
  is_u16 (qtype q) → qclass q = QCLASS_IN → Forall label_wf ls →
  questions query' = [q] → OPCODE_GET (flags (header query')) = 0 →
  Forall (λ rr, Cache.rr_expired now' now rr = false) (rrs resp) → existsb blocking (rrs resp) = false →
  local_answer now' its query' ls = Some (reply_value query' (value_of resp)).
Proof using Type.
  intros (cap & old & -> & Hold) Hnone Ht Hc Hls Hq Ho Hlive Hblock.
  rewrite (local_answer_by _ _ _ q) by done. unfold answer_by in Hnone |- *.
  destruct (existsb _ (visited ls)) eqn:Ev in Hnone; [done|]. clear Hnone. cbv beta.
  rewrite lookup_relayed by done. match goal with |- (if ?b then _ else _) = _ => destruct b eqn:Ev'; [exfalso|done] end.
  apply existsb_exists in Ev' as (name & Hin & Hv).
  assert (Hno : ∀ v, table_value tbl (qtype q) name = Some v → existsb blocking (value_rrs v) = false).
  { intros v Hv'. destruct (existsb blocking (value_rrs v)) eqn:Eb; [|done].
    rewrite <- Ev. symmetry. apply existsb_exists. exists name. by rewrite Hv'. }
  destruct (visited_cstring ls name Hls) as (s & -> & Hs); [by apply list_elem_of_In|].
  destruct (lookup_value _ _ _) as [v|] eqn:Elook; [|done]. unfold lookup_value, Cache.lru_get in Elook.
  destruct (Cache.find_item _ _) as [it|] eqn:Ef; [|done]. apply Cache.find_item_key in Ef as [Hkey Hit].
  destruct (Cache.item_expired now' it); [done|]. injection Elook as <-.
  set (new := Cache.MkItem (Cache.key_of (qname q) (qtype q) (qclass q)) (value_of resp) now).
  assert (Hall : Forall (λ it, it = new ∨ IpTable.host_item tbl it)
    (Cache.lru_put now cap (Cache.key_of (qname q) (qtype q) (qclass q)) (value_of resp) old)).
  { apply Cache.lru_put_Forall; [by left|]. eapply Forall_impl; [exact Hold|]. by right. }
  rewrite Forall_forall in Hall. destruct (Hall _ Hit) as [->|(q' & t' & Hq' & Ht' & Hk' & Hval)].
  - unfold new, value_rrs in Hv. cbn in Hv. congruence.
  - pose proof (IpTable.cached_key_create q' [] t' Hq' Ht') as E1.
    pose proof (IpTable.cached_key_create s [] (qtype q) Hs Ht) as E2.
    unfold Cache.key_of in Hkey. rewrite Hc, E2 in Hkey.
    destruct (Cache.cache_key_inj s [] (qtype q) QCLASS_IN q' [] t' QCLASS_IN (Cache.i_key it)) as (Es & Et & _);
      [done..|by rewrite E2, Hkey|by rewrite E1, Hk'|].
    subst q' t'. unfold table_value in Hno. rewrite removelast_last in Hno. by rewrite (Hno _ Hval) in Hv.
Qed.

Lemma third_turn fuel before now sv items out us query ls r a p :
  Server.srv_rep sv now ∅ items out us → alive sv → packet_is_query query = true → query_ok query ls →
  wire_ok query → (length (pack_out query) ≤ 512)%nat →
  Forall (λ rr, length (rr_name rr) + 2 < fuel ∧ length (rdata rr) + 2 < fuel)%nat (rrs query) →
  local_answer now items query ls = Some r → ServerLoop.light r →
  ∃ timeouts sv', Server.server_loop fuel [(before, Some (now, [Received (pack_out query) a p; NoData]))] sv =
      Ret (timeouts, None, sv') ∧
    sends (Server.sent sv) (Server.sent sv') (pack_out r)
      (sockaddr_of (source_of (MkEnd (replicate 16 0) IPV4 0) a p)).
Proof using All.
  intros Hst Hal Hqr Hok Hw H512 Hf Ha Hr. set (src := source_of _ _ _).
  destruct (packet_turn (λ sent _ _, sends (Server.sent sv) sent (pack_out r) (sockaddr_of src))
    fuel before now sv now ∅ items out us query a p) as (ts & sv' & _ & _ & _ & El & _ & _ & Hs); [done..| |by exists ts, sv'].
  intros st1 Hst1 _ Hsent _ _.
  destruct (Server.answered_spec st1 now ∅ items out us now query src ls r) as (st2 & items' & E & _ & Hrep & Ho);
    [done..|apply Hr, Hst1|].
  exists st2, ∅, items', out. split_and!; [done|done|intros i l s; by rewrite lookup_empty|].
  unfold Server.offered, Server.deliverable in Ho. by rewrite Hsent in Ho.
Qed.

(** The same question from anyone, whose answer is written correctly. *)
Record same_question (fuel : nat) (resp query : DnsPacket) (q : SectionQuestion) (ls : list (list Z)) : Prop := {
  sq_query : packet_is_query query = true;
  sq_ok : query_ok query ls;
  sq_wire : wire_ok query;
  sq_opcode : OPCODE_GET (flags (header query)) = 0;
  sq_question : questions query = [q];
  sq_size : (length (pack_out query) ≤ 512)%nat;
  sq_fuel : Forall (λ rr, length (rr_name rr) + 2 < fuel ∧ length (rdata rr) + 2 < fuel)%nat (rrs query);
  sq_light : ServerLoop.light (reply_value query (value_of resp));
}.

(** A turn in which one packet arrives. *)
Definition one_packet (before now : Z) (packet : DnsPacket) (a : list Z) (p : Z) : ServerLoop.turn :=
  (before, Some (now, [Received (pack_out packet) a p; NoData])).

Lemma run_loop now su fuel ts daemon socket sv timeouts code (sv' : Server.server M C) :
  serve (G := G) (M := M) (C := C) now su = Ret (Running daemon socket sv) →
  Server.server_loop fuel ts sv = Ret (timeouts, code, sv') →
  run G now su fuel ts = Ret (code, Some sv').
Proof using Type. intros E El. unfold run. rewrite E, bind_Ret. cbn [looped]. by rewrite El. Qed.

Lemma server_loop_next fuel ts ts' st timeouts (st1 : Server.server M C) more st2 :
  Server.server_loop fuel ts st = Ret (timeouts, None, st1) →
  Server.server_loop fuel ts' st1 = Ret (more, None, st2) →
  Server.server_loop fuel (ts ++ ts') st = Ret (timeouts ++ more, None, st2).
Proof using All. intros E E'. rewrite (server_loop_app _ _ _ _ _ _ E). by rewrite E'. Qed.

(** C7. A query the table cannot answer, from the settings of the program to the
    answer.  The first datagram goes to an upstream server of the settings, under
    an id [i] of the server's own.  When the kernel has taken it, the response
    with that id goes, with the id of the client, to the address and port the
    query came from; and whoever asks the same question next, before one of the
    records of the response has expired, is answered with exactly these records,
    from the cache: nothing else is sent in these turns. *)
Theorem program_relays (now b1 t1 b2 t2 b3 t3 : Z) (fuel : nat) (query : DnsPacket) (q : SectionQuestion)
    (ls : list (list Z)) (a a2 a3 : list Z) (p p2 p3 : Z) su argv es tbl :
  good_setup su argv es tbl → 0 < su_timeout su → plain_query tbl fuel query q ls →
  answer_by (table_value tbl (qtype q)) query q ls = None → t1 ≤ t2 →
  length a = 16%nat → is_u16 p → length a3 = 16%nat → is_u16 p3 →
  ∃ i e sv1, is_u16 i ∧ e ∈ es ∧
    run G now su fuel [one_packet b1 t1 query a p] = Ret (None, Some sv1 : option (Server.server M C)) ∧
    sends [] (Server.sent sv1) (pack_out (set_id query i)) (sockaddr_of (on_port_53 e)) ∧
    (Server.sent sv1 ≠ [] → ∀ resp, upstream_response fuel i (id (header query)) resp q ls →
     ∃ sv2 client, same_address a client ∧ sockaddr_port client = p ∧
       run G now su fuel [one_packet b1 t1 query a p; one_packet b2 t2 resp a2 p2] =
         Ret (None, Some sv2 : option (Server.server M C)) ∧
       sends (Server.sent sv1) (Server.sent sv2) (pack_out (set_id resp (id (header query)))) client ∧
       ∀ query', same_question fuel resp query' q ls → t2 ≤ t3 →
         Forall (λ rr, Cache.rr_expired t3 t2 rr = false) (rrs resp) → existsb blocking (rrs resp) = false →
         ∃ sv3 client', same_address a3 client' ∧ sockaddr_port client' = p3 ∧
           run G now su fuel
             [one_packet b1 t1 query a p; one_packet b2 t2 resp a2 p2; one_packet b3 t3 query' a3 p3] =
             Ret (None, Some sv3 : option (Server.server M C)) ∧
           sends (Server.sent sv2) (Server.sent sv3) (pack_out (reply_value query' (value_of resp))) client').
Proof using All.
  intros Hg Ht Hq Hnone Ht12 Ha Hp Ha3 Hp3.
  assert (Hback : ∀ a p, length a = 16%nat → is_u16 p →
    same_address a (sockaddr_of (source_of (MkEnd (replicate 16 0) IPV4 0) a p)) ∧
    sockaddr_port (sockaddr_of (source_of (MkEnd (replicate 16 0) IPV4 0) a p)) = p).
  { intros a0 p0 Ha0 Hp0. by destruct (reply_reaches_sender (MkEnd (replicate 16 0) IPV4 0) a0 p0 0 Ha0) as (? & ? & _). }
  destruct (serve_spec (G := G) (M := M) (C := C) now su argv es tbl Hg)
    as (sv & items & us & E & Hr).
  destruct (first_turn su es tbl sv items us fuel b1 t1 query q ls a p Hr Ht Hq)
    as (ts & sv1 & ss & items1 & out & El & Hrep & Hal & Hs & Hitems).
  unfold first_sent in Hs. rewrite Hnone in Hs. destruct Hs as (i & e & Hi & He & Hs & Hss).
  exists i, e, sv1. split_and!; [done|done|by eapply run_loop|done|].
  intros Hsent resp Hresp. destruct (Hss Hsent) as [l ->].
  destruct (second_turn fuel b2 t1 t2 sv1 i l _ items1 out us tbl resp q ls a2 p2 Hrep Hal Ht12 Hresp Hitems)
    as (ts2 & sv2 & ss2 & items2 & out2 & El2 & Hrep2 & Hal2 & Hs2 & -> & Hits).
  pose proof (server_loop_next _ _ _ _ _ _ _ _ El El2) as El12.
  eexists sv2, _. destruct (Hback a p Ha Hp) as [Hb1 Hb2].
  split_and!; [exact Hb1|exact Hb2|by eapply (run_loop now su fuel)|exact Hs2|].
  intros query' [] Ht23 Hlive Hblock.
  destruct (third_turn fuel b3 t3 sv2 items2 out2 us query' ls (reply_value query' (value_of resp)) a3 p3)
    as (ts3 & sv3 & El3 & Hs3); [by eapply Server.srv_rep_later|done..| |done|].
  { destruct Hq. eapply relayed_answer; try done. by apply (qo_name _ _ pq_ok0 q pq_question0). }
  eexists sv3, _. destruct (Hback a3 p3 Ha3 Hp3) as [Hb3 Hb4].
  split_and!; [exact Hb3|exact Hb4| |exact Hs3].
  eapply (run_loop now su fuel); [exact E|]. exact (server_loop_next _ _ _ _ _ _ _ _ El12 El3).
Qed.

(** C10. The program runs, from its settings on.  Whatever settings
    ([good_setup]) it has read, with a positive timeout and at most 127 retries,
    it reads the ip table, reaches its loop and gets through whatever well-formed
    traffic arrives, as far as the loop is up to it ([ServerLoop.hard]): nothing
    undefined happens on the way, the program only ends (with -1) when [select]
    fails, and the state keeps the invariant of the server, with the upstream
    servers of the settings.  It gets through all traffic of the first
    (retries + 1) timeouts, if that is less than 2^30 datagrams (a turn counts
    for 65536).  On any platform where [main] gets these settings from its
    arguments and files, this is what the whole program does; that it gets them
    is not claimed, as the reading of the settings follows dangling keys, to
    which C gives no meaning ([Config.registered_key_dangles]). *)
Theorem program_runs (Q R : DnsPacket → Prop) (V : Cache.CacheValue → Prop) (now began : Z) (fuel : nat)
    (turns : list ServerLoop.turn) su argv es tbl :
  good_setup su argv es tbl → 0 < su_timeout su → 0 ≤ su_retries su ≤ 127 →
  ServerLoop.traffic Q R V →
  (∀ q t v, no_nul q → is_u16 t → IpTable.host_value (IpTable.hosts tbl q t) = Some v → V v) →
  ServerLoop.orderly Q R fuel began turns → 65536 ≤ Z.of_nat fuel →
  ∃ past rest sv last ss items out us, turns = past ++ rest ∧
    run G now su fuel past =
      Ret (if existsb ServerLoop.select_failed past then Some (-1) else None, Some sv : option (Server.server M C)) ∧
    Server.srv_rep sv last ss items out us ∧ us.*2 = reverse (on_port_53 <$> es) ∧
    (rest = [] ∨ ∃ t rest', rest = t :: rest' ∧ ServerLoop.hard began fuel us sv t) ∧
    (Forall (ServerLoop.early began (su_timeout su) (su_retries su)) turns → ServerLoop.load turns < 2 ^ 30 → rest = []) ∧
    (∀ (platform : Platform) (files : Files) MS ME (ops : MapOps (list Z) loc MS) (ops' : MapOps (list Z) loc ME) args,
       read_setup (MS := MS) (ME := ME) args = Ret (Some su) →
       program MS ME G now args fuel past = run G now su fuel past :> Res (_ * option (Server.server M C))).
Proof using All.
  intros Hg Ht Hm Htr Hv Ho Hfuel.
  destruct (serve_spec (G := G) (M := M) (C := C) now su argv es tbl Hg)
    as (sv & items & us & E & Hr).
  assert (Hserv : ServerLoop.serving V began sv began ∅ items ∅ us).
  { eapply ready_serving; [exact Hr| |done|done|lia].
    eapply Forall_impl; [exact (sr_items _ _ _ _ _ _ Hr)|]. intros i (q & t & Hq & Hu & _ & Hi). by eapply Hv. }
  destruct (ServerLoop.server_loop_spec Q R V began fuel turns sv began ∅ items ∅ us Htr Hserv Ho Hfuel)
    as (past & rest & timeouts & sv' & last' & ss' & items' & out' & -> & El & Hserv' & Hp & Hrest).
  exists past, rest, sv', last', ss', items', out', us. split_and!; [done| |apply Hserv'|apply Hr|done| |].
  - unfold run. rewrite E, bind_Ret. cbn [looped]. by rewrite El.
  - intros He Hl. eapply ServerLoop.gets_through; [exact Hp|exact Hrest| |].
    + by rewrite (sr_timeout _ _ _ _ _ _ Hr), (sr_retries _ _ _ _ _ _ Hr).
    + rewrite (sr_queue _ _ _ _ _ _ Hr). lia.
  - intros. by apply program_is_run.
Qed.

(** C6. From a datagram to the datagram that answers it, from the settings of
    the program on.  The first query it gets is answered from the ip table, read
    off its lines: NXDOMAIN when the name or a parent of it has an unspecified
    address there, else the records the table has for the name and type, to the
    address and port the query came from; if the table has none, the query goes
    to one of the upstream servers of the settings under an id of the server's
    own.  One datagram is sent, unless it is longer than 512 bytes or the kernel
    refuses it. *)
Theorem program_answers (now before t : Z) (fuel : nat) (query : DnsPacket) (q : SectionQuestion)
    (ls : list (list Z)) (a : list Z) (p : Z) su argv es tbl :
  good_setup su argv es tbl → 0 < su_timeout su →
  plain_query tbl fuel query q ls → length a = 16%nat → is_u16 p →
  ∃ sv, run G now su fuel [(before, Some (t, [Received (pack_out query) a p; NoData]))] =
      Ret (None, Some sv : option (Server.server M C)) ∧
    match answer_by (table_value tbl (qtype q)) query q ls with
    | Some r => ∃ dest, sends [] (Server.sent sv) (pack_out r) dest ∧ same_address a dest ∧ sockaddr_port dest = p
    | None => ∃ i e, is_u16 i ∧ e ∈ es ∧
        sends [] (Server.sent sv) (pack_out (set_id query i)) (sockaddr_of (on_port_53 e))
    end.
Proof using All.
  intros Hg Ht Hq Ha Hp.
  destruct (serve_spec (G := G) (M := M) (C := C) now su argv es tbl Hg)
    as (sv & items & us & E & Hr).
  destruct (first_turn su es tbl sv items us fuel before t query q ls a p Hr Ht Hq)
    as (ts & sv' & ss & items' & out & El & _ & _ & Hs & _).
  exists sv'. split; [unfold run; rewrite E, bind_Ret; cbn [looped]; by rewrite El|].
  unfold first_sent in Hs. destruct (answer_by _ _ _ _) as [r|].
  - eexists. split; [exact Hs|]. destruct (reply_reaches_sender (MkEnd (replicate 16 0) IPV4 0) a p 0 Ha) as (? & ? & _); done.
  - destruct Hs as (i & e & Hi & He & Hs & _). by exists i, e.
Qed.
End properties.

(** ** A run: the host [a.b] of the table is asked for *)

Section witness.
#[local] Existing Instances Config.table_ops Config.table_laws Config.always_laws.
#[local] Existing Instances Server.demo_kernel Server.stable_ops Server.stable_laws Server.ctable_ops Server.ctable_laws.
#[local] Existing Instances demo_pton demo_pton_laws demo_files demo_machine demo_socket.
#[local] Existing Instances Server.demo_alloc Server.demo_total.

Definition demo_answer : DnsPacket :=
  MkPacket (MkHeader 7 0x8180 1 1 0 0) [demo_question] [MkRR [1; 97; 1; 98; 0] 1 1 UINT32_MAX 4 [10; 0; 0; 1]].

Lemma demo_answered :
  answer_by (table_value demo_table (qtype demo_question)) demo_ask demo_question demo_labels = Some demo_answer.
Proof. vm_compute. reflexivity. Qed.

Lemma demo_first (m : Machine) p :
  wire_ok p → rrs p = [] → questions p = [demo_question] → @first_sendable m p.
Proof. intros ???. apply Server.demo_sendable; done. Qed.

Lemma demo_plain : plain_query demo_table 64 demo_ask demo_question demo_labels.
Proof.
  split; try done.
  - apply demo_ask_ok.
  - apply Server.demo_ask_wire.
  - by_compute.
  - intros r. change (qtype demo_question) with 1. pose proof demo_answered as E. change (qtype demo_question) with 1 in E.
    rewrite E. intros [= <-]. split_and!.
    + split; [split; unfold is_u16; simpl; lia|done|done|exact Server.demo_question_ok|].
      apply Forall_singleton. split; try (unfold is_u16, is_u32, UINT32_MAX; simpl; lia); try done.
      * exists demo_labels. split; [reflexivity|exact demo_labels_wf].
      * by intros [?|?].
    + split_and!; by_compute.
    + by_compute.
  - apply demo_first; [|done..]. apply Server.reply_wire, Server.demo_ask_wire.
  - intros i Hi. apply demo_first; [|done..]. by apply Server.set_id_wire, Hi; apply Server.demo_ask_wire.
Qed.

Lemma program_answers_witness :
  ∃ (sv : Server.server Server.stable Server.ctable) dest,
    run Config.table 0 demo_read 64
      [(0, Some (5, [Received (pack_out demo_ask) (v4mapped_prefix ++ [10; 0; 0; 9]) 1234; NoData]))] =
      Ret (None, Some sv) ∧
    Server.sent sv = [(pack_out demo_answer, dest)] ∧ same_address (v4mapped_prefix ++ [10; 0; 0; 9]) dest.
Proof.
  destruct (program_answers Config.table (M := Server.stable) (C := Server.ctable)
    0 0 5 64 demo_ask demo_question demo_labels (v4mapped_prefix ++ [10; 0; 0; 9]) 1234
    demo_read [lit "8.8.8.8"] [demo_end] demo_table demo_setup) as (sv & E & Hs).
  - by_compute.
  - exact demo_plain.
  - reflexivity.
  - unfold is_u16. lia.
  - rewrite demo_answered in Hs. destruct Hs as (dest & Hs & Ha & _). exists sv, dest.
    split; [exact E|]. split; [|exact Ha]. rewrite Hs. vm_compute. reflexivity.
Defined.

(** The same start without a table. *)
Definition bare_machine : Machine := {|
  read_file f := if same f CONFIG_FILE then Some (Ini.print_file demo_ini) else None;
  fresh_recv _ := 170;
  fresh_send _ := 85;
|}.

Lemma bare_setup : good_setup (H := always) (H1 := bare_machine) demo_read [lit "8.8.8.8"] [demo_end] [].
Proof.
  destruct demo_setup. split; try done.
  - right. split; [by_compute|done].
  - by_compute.
Qed.

(** On a lenient machine these are the settings [main] reads. *)
Lemma bare_reads :
  read_setup (H := always) (H0 := lenient) (H3 := bare_machine) (MS := Config.table) (ME := Config.table) [lit "8.8.8.8"] =
    Ret (Some demo_read).
Proof.
  assert (Hc : good_config (H1 := bare_machine) [lit "8.8.8.8"] [demo_end] demo_ini).
  { destruct demo_config. by split. }
  destruct (read_setup_spec (H := always) (H1 := lenient) (H6 := bare_machine) (MS := Config.table) (ME := Config.table)
    _ _ _ Hc) as (ups & E & Hups).
  assert (E' : server_config_parser (H := always) KEY_UPSTREAMS (server_text [lit "8.8.8.8"]) =
    Ret (0, Some (Servers demo_upstreams))) by reflexivity.
  rewrite E' in Hups. injection Hups as <-. rewrite E. unfold table_path, text_of, num_of.
  by rewrite !demo_settings.
Qed.

Lemma bare_plain : @plain_query demo_pton bare_machine [] 64 demo_ask demo_question demo_labels.
Proof. by destruct demo_plain; split. Qed.

Lemma denial_size i : (length (pack_out (Server.demo_denial i)) ≤ 512)%nat.
Proof. apply Nat.leb_le. reflexivity. Qed.

(** The query is relayed, the upstream server answers that there is no such
    name, and so is the next client. *)
Lemma program_relays_witness :
  ∃ i (sv : Server.server Server.stable Server.ctable) d1 d2 d3,
    run (H3 := bare_machine) Config.table 0 demo_read 64
      [one_packet 0 5 demo_ask (v4mapped_prefix ++ [10; 0; 0; 9]) 1234;
       one_packet 6 7 (Server.demo_denial i) (v4mapped_prefix ++ [8; 8; 8; 8]) 53;
       one_packet 8 9000 demo_ask (v4mapped_prefix ++ [10; 0; 0; 3]) 99] =
      Ret (None, Some sv) ∧
    Server.sent sv = [(pack_out (set_id demo_ask i), d1); (pack_out (set_id (Server.demo_denial i) 7), d2);
      (pack_out (reply_value demo_ask (value_of (Server.demo_denial i))), d3)] ∧
    same_address (v4mapped_prefix ++ [10; 0; 0; 9]) d2 ∧ same_address (v4mapped_prefix ++ [10; 0; 0; 3]) d3.
Proof.
  destruct (program_relays (H3 := bare_machine) Config.table (M := Server.stable) (C := Server.ctable)
    0 0 5 6 7 8 9000 64 demo_ask demo_question demo_labels (v4mapped_prefix ++ [10; 0; 0; 9])
    (v4mapped_prefix ++ [8; 8; 8; 8]) (v4mapped_prefix ++ [10; 0; 0; 3]) 1234 53 99
    demo_read [lit "8.8.8.8"] [demo_end] [] bare_setup)
    as (i & e & sv1 & Hi & _ & _ & Hs1 & Hnext);
    [by_compute|exact bare_plain|by_compute|lia|reflexivity|unfold is_u16; lia|reflexivity|unfold is_u16; lia|].
  assert (E1 : Server.sent sv1 = [(pack_out (set_id demo_ask i), sockaddr_of (on_port_53 e))]) by exact Hs1.
  destruct (Hnext ltac:(by rewrite E1) (Server.demo_denial i)) as (sv2 & d2 & Ha2 & _ & _ & Hs2 & Hthird).
  { assert (is_u16 (id (header demo_ask))) by (unfold is_u16; simpl; lia). split; try done.
    - apply Server.demo_denial_ok.
    - by apply Server.demo_denial_wire.
    - apply denial_size.
    - apply ServerLoop.demo_light; [|done..]. by apply Server.set_id_wire; [apply Server.demo_denial_wire|]. }
  destruct (Hthird demo_ask) as (sv3 & d3 & Ha3 & _ & E3 & Hs3); [|lia|constructor|reflexivity|].
  { destruct bare_plain. split; try done. apply ServerLoop.demo_light; [|done..].
    destruct (Server.reply_wire _ RCODE_NOERROR Server.demo_ask_wire). by split. }
  exists i, sv3, (sockaddr_of (on_port_53 e)), d2, d3. split_and!; [exact E3| |done|done].
  unfold sends in Hs2, Hs3. rewrite Hs3, Hs2, E1. reflexivity.
Defined.

Lemma program_runs_witness :
  ∃ (sv : Server.server Server.stable Server.ctable),
    run (H3 := bare_machine) Config.table 0 demo_read (Z.to_nat 65536) ServerLoop.demo_turns =
      Ret (Some (-1), Some sv) ∧
    program (H0 := lenient) (H3 := bare_machine) Config.table Config.table Config.table 0 [lit "8.8.8.8"]
      (Z.to_nat 65536) ServerLoop.demo_turns = Ret (Some (-1), Some sv).
Proof.
  destruct (program_runs (H3 := bare_machine) Config.table (M := Server.stable) (C := Server.ctable)
    ServerLoop.is_demo_query ServerLoop.is_demo_response ServerLoop.is_demo_value 0 0 (Z.to_nat 65536) ServerLoop.demo_turns
    demo_read [lit "8.8.8.8"] [demo_end] [] bare_setup)
    as (past & rest & sv & _ & _ & _ & _ & us & E & El & _ & _ & _ & Hr & Hall).
  - by_compute.
  - split; by_compute.
  - exact ServerLoop.demo_traffic.
  - discriminate.
  - apply ServerLoop.demo_orderly.
  - rewrite Z2Nat.id; vm_compute; discriminate.
  - rewrite Hr, app_nil_r in E; [|unfold ServerLoop.demo_turns; repeat constructor|reflexivity].
    exists sv. subst past. split; [exact El|].
    exact (eq_trans (Hall lenient demo_files Config.table Config.table _ _ _ bare_reads) El).
Defined.
End witness.
End Program.
